(** * Octofriend orchestration core: delegation, sessions, focus, parsing

    A shallow embedding of the parts of the repository that the
    specification's testable properties talk about, and of the code
    around them:

    - [source/tools/tool-defs/task.ts]: observation builders, history
      compaction, the session table, task-id validation, the delegation
      tool's [run], the trace summary;
    - [source/agent/trajectory-arc.ts]: the bounded-retry turn executor;
    - [task-progress.ts]: the registry of live task runs;
    - [source/agents/agents.ts]: built-in and custom agents, the active
      agent, tool filters, front matter;
    - [source/subagent-nav-shortcuts.ts]: the keys that switch views;
    - [state.ts]: focus navigation, the observation parser, the menu,
      agent cycling and the task dashboard.

    JavaScript strings are modelled as lists of code units; the model
    covers code units below 256, one [ascii] each. *)

From Stdlib Require Import String Ascii ZArith Lia Bool Arith PeanoNat List.
From Equations Require Import Equations.
Import ListNotations.

Set Implicit Arguments.
Set Default Goal Selector "!".

(** ** JavaScript strings *)

Module Js.

Definition jstr := list ascii.

Definition lit (s : string) : jstr := list_ascii_of_string s.

Definition LF : ascii := ascii_of_nat 10.
Definition CR : ascii := ascii_of_nat 13.

(** Line terminators of ECMAScript among the modelled code units. *)
Definition isLineTerminator (c : ascii) : bool :=
  let n := nat_of_ascii c in (n =? 10) || (n =? 13).

(** [WhiteSpace] and [LineTerminator] code units: what [trim] strips and
    what the regular-expression class [\s] accepts. *)
Definition isWhite (c : ascii) : bool :=
  let n := nat_of_ascii c in
  (n =? 9) || (n =? 10) || (n =? 11) || (n =? 12) || (n =? 13)
  || (n =? 32) || (n =? 160).

Fixpoint trimStart (s : jstr) : jstr :=
  match s with
  | c :: s' => if isWhite c then trimStart s' else s
  | [] => []
  end.

Definition trimEnd (s : jstr) : jstr := rev (trimStart (rev s)).

(** [String.prototype.trim]. *)
Definition trim (s : jstr) : jstr := trimEnd (trimStart s).

(** [s.length]. *)
Definition len (s : jstr) : Z := Z.of_nat (List.length s).

(** [arr.length] of an array. *)
Definition len' {A} (l : list A) : Z := Z.of_nat (List.length l).

(** [s.slice(0, n)] for [n >= 0]. *)
Definition slice0 (n : Z) (s : jstr) : jstr := firstn (Z.to_nat n) s.

Definition eqb (a b : jstr) : bool :=
  if list_eq_dec ascii_dec a b then true else false.

Fixpoint startsWith (p s : jstr) : bool :=
  match p, s with
  | [], _ => true
  | a :: p', b :: s' => Ascii.eqb a b && startsWith p' s'
  | _ :: _, [] => false
  end.

(** [hay.includes(needle)]. *)
Fixpoint includes (needle hay : jstr) : bool :=
  startsWith needle hay ||
  match hay with
  | [] => false
  | _ :: hay' => includes needle hay'
  end.

(** [parts.join(sep)]. *)
Fixpoint join (sep : jstr) (parts : list jstr) : jstr :=
  match parts with
  | [] => []
  | [p] => p
  | p :: rest => p ++ sep ++ join sep rest
  end.

Definition nl : jstr := [LF].

(** Decimal rendering of a non-negative integer, as a template literal
    [`${n}`] prints it. *)
Fixpoint digits (fuel n : nat) (acc : jstr) : jstr :=
  match fuel with
  | O => acc
  | S f =>
      let d := ascii_of_nat (48 + n mod 10) in
      if n <? 10 then d :: acc else digits f (n / 10) (d :: acc)
  end.

Definition ofNat (n : nat) : jstr := digits (S n) n [].

End Js.

Import Js.

(** ** Insertion-ordered maps

    A JavaScript [Map] iterates its keys in insertion order, and
    [storeTaskSession] relies on that order, so the table is an
    association list, oldest entry first. *)

Module JsMap.

Section Ops.
Variable V : Type.

Definition t := list (jstr * V).

Definition has (k : jstr) (m : t) : bool :=
  existsb (fun e => Js.eqb (fst e) k) m.

Fixpoint get (k : jstr) (m : t) : option V :=
  match m with
  | [] => None
  | (k', v) :: m' => if Js.eqb k' k then Some v else get k m'
  end.

Definition delete (k : jstr) (m : t) : t :=
  filter (fun e => negb (Js.eqb (fst e) k)) m.

(** [m.set(k, v)]: an existing key keeps its position, a new key goes
    last. *)
Fixpoint set (k : jstr) (v : V) (m : t) : t :=
  match m with
  | [] => [(k, v)]
  | (k', v') :: m' =>
      if Js.eqb k' k then (k', v) :: m' else (k', v') :: set k v m'
  end.

Definition size (m : t) : nat := List.length m.

(** [m.keys().next().value]: the oldest key, [undefined] on an empty map. *)
Definition firstKey (m : t) : option jstr :=
  match m with
  | [] => None
  | (k, _) :: _ => Some k
  end.

Definition keys (m : t) : list jstr := map fst m.

End Ops.

End JsMap.

(** ** Conversation history ([history.ts], as [task.ts] uses it) *)

(** [ToolCallRequest]: the arguments object is kept as its JSON text,
    which is all [task.ts] and the arc engine look at. *)
Record ToolCallRequest := {
  toolCallId : jstr;
  fnName : jstr;
  fnArguments : jstr;
}.

(** Provider metadata ([openai], [anthropic]) is kept as its JSON text;
    [None] is [undefined]. *)
Record AssistantItem := {
  a_id : Z;
  a_content : jstr;
  a_reasoningContent : option jstr;
  a_openai : option jstr;
  a_anthropic : option jstr;
  a_tokenUsage : Z;
  a_outputTokens : Z;
}.

Record ToolResult := {
  r_content : jstr;
  r_lines : option Z;
}.

Inductive HistoryItem :=
| HUser (id : Z) (content : jstr)
| HNotification (id : Z) (content : jstr)
| HAssistant (a : AssistantItem)
| HTool (id : Z) (tool : ToolCallRequest)
| HToolOutput (id : Z) (result : ToolResult) (toolCallId : jstr)
| HToolFailed (id : Z) (error : jstr) (toolCallId : jstr) (toolName : jstr)
| HToolMalformed (id : Z) (error : jstr)
| HFileOutdated (id : Z)
| HFileUnreadable (id : Z) (path : jstr)
| HToolReject (id : Z)
| HCompactionCheckpoint (id : Z) (summary : jstr).

Definition isUser (h : HistoryItem) : bool :=
  match h with HUser _ _ => true | _ => false end.

(** ** The session table ([task.ts]) *)

Record TaskSession := {
  s_id : jstr;
  s_subagentName : jstr;
  s_history : list HistoryItem;
}.

Definition MAX_TASK_SESSIONS : nat := 48.
Definition MAX_SUBAGENT_HISTORY_ITEMS : Z := 80.
Definition MAX_SUBAGENT_HISTORY_CHARS : Z := 140000.
Definition MAX_SUBAGENT_TOOL_CONTENT_CHARS : Z := 24000.
Definition MAX_SUBAGENT_ASSISTANT_CONTENT_CHARS : Z := 24000.

Definition Sessions := JsMap.t TaskSession.

(** JavaScript truthiness of a [string | undefined]: [undefined] and the
    empty string are falsy. *)
Definition truthyStr (o : option jstr) : bool :=
  match o with
  | Some (_ :: _) => true
  | _ => false
  end.

(** The eviction loop of [storeTaskSession]:
    [while (size > MAX) { oldest = keys().next().value;
                          if (!oldest) break; delete(oldest) }].
    Every iteration that does not break removes one entry, so [fuel]
    bounded by the table's size is enough. *)
Fixpoint evictSessions (fuel : nat) (m : Sessions) : Sessions :=
  match fuel with
  | O => m
  | S f =>
      if MAX_TASK_SESSIONS <? JsMap.size m then
        match JsMap.firstKey m with
        | Some oldest =>
            if truthyStr (Some oldest)
            then evictSessions f (JsMap.delete oldest m)
            else m
        | None => m
        end
      else m
  end.

Definition storeTaskSession (taskId : jstr) (session : TaskSession)
    (taskSessions : Sessions) : Sessions :=
  let m1 := if JsMap.has taskId taskSessions
            then JsMap.delete taskId taskSessions else taskSessions in
  let m2 := JsMap.set taskId session m1 in
  evictSessions (JsMap.size m2) m2.

(** ** History compaction ([task.ts]) *)

Definition truncatedMarker : jstr := LF :: lit "... (truncated)".
Definition truncatedForSubagentMarker : jstr :=
  LF :: lit "... (truncated for subagent context)".

Definition sanitizeLiveText (input : jstr) (maxChars : Z) : jstr :=
  let trimmed := trim input in
  if (len trimmed <=? maxChars)%Z then trimmed
  else slice0 maxChars trimmed ++ truncatedMarker.

Definition truncateSubagentToolContent (input : jstr) (maxChars : Z) : jstr :=
  if (len input <=? maxChars)%Z then input
  else slice0 maxChars input ++ truncatedForSubagentMarker.

(** [safeJsonLength]: [JSON.stringify(undefined)] is not a string, so the
    length is 0. *)
Definition safeJsonLength (input : option jstr) : Z :=
  match input with
  | Some json => len json
  | None => 0%Z
  end.

Definition sanitizeSubagentHistoryItem (item : HistoryItem) : HistoryItem :=
  match item with
  | HAssistant a =>
      HAssistant {|
        a_id := a_id a;
        a_content :=
          sanitizeLiveText (a_content a) MAX_SUBAGENT_ASSISTANT_CONTENT_CHARS;
        a_reasoningContent :=
          if truthyStr (a_reasoningContent a)
          then option_map
                 (fun r => sanitizeLiveText r MAX_SUBAGENT_ASSISTANT_CONTENT_CHARS)
                 (a_reasoningContent a)
          else None;
        a_openai := None;
        a_anthropic := None;
        a_tokenUsage := a_tokenUsage a;
        a_outputTokens := a_outputTokens a;
      |}
  | _ => item
  end.

Definition estimateHistoryItemSize (item : HistoryItem) : Z :=
  match item with
  | HAssistant a =>
      (len (a_content a)
       + match a_reasoningContent a with Some r => len r | None => 0 end
       + safeJsonLength (a_openai a)
       + safeJsonLength (a_anthropic a))%Z
  | HUser _ content | HNotification _ content => len content
  | HToolOutput _ result _ => len (r_content result)
  | HTool _ tool => len (fnArguments tool)
  | HToolFailed _ error _ _ | HToolMalformed _ error => len error
  | HFileUnreadable _ path => len path
  | _ => 40%Z
  end.

(** The [map] callback of [compactSubagentHistory]. *)
Definition trimHistoryItem (item : HistoryItem) : HistoryItem :=
  let sanitized := sanitizeSubagentHistoryItem item in
  match sanitized with
  | HToolOutput id result tcid =>
      let next := truncateSubagentToolContent (r_content result)
                    MAX_SUBAGENT_TOOL_CONTENT_CHARS in
      if Js.eqb next (r_content result) then sanitized
      else HToolOutput id {| r_content := next; r_lines := r_lines result |} tcid
  | _ => sanitized
  end.

Definition sizeOf (entries : list HistoryItem) : Z :=
  fold_left (fun sum entry => (sum + estimateHistoryItemSize entry)%Z) entries 0%Z.

(** [arr.splice(i, 1)]: the removed element ([None] when [i] is out of
    range) and the array afterwards. *)
Fixpoint splice1 {A} (i : nat) (arr : list A) : option A * list A :=
  match arr, i with
  | [], _ => (None, [])
  | x :: rest, O => (Some x, rest)
  | x :: rest, S j => let '(r, rest') := splice1 j rest in (r, x :: rest')
  end.

(** The eviction loop of [compactSubagentHistory], on the pair of the
    mutated array and the running [totalChars].  Each iteration that does
    not break removes one entry. *)
Fixpoint compactLoop (fuel : nat) (keepFirstUser : bool)
    (trimmed : list HistoryItem) (totalChars : Z) : list HistoryItem :=
  match fuel with
  | O => trimmed
  | S f =>
      let minLength := if keepFirstUser then 2%Z else 1%Z in
      if ((MAX_SUBAGENT_HISTORY_ITEMS <? len' trimmed)
          || (MAX_SUBAGENT_HISTORY_CHARS <? totalChars))%Z
         && (minLength <=? len' trimmed)%Z
      then
        let removeIndex := if keepFirstUser then 1 else 0 in
        match splice1 removeIndex trimmed with
        | (Some removed, trimmed') =>
            compactLoop f keepFirstUser trimmed'
              (totalChars - estimateHistoryItemSize removed)
        | (None, _) => trimmed
        end
      else trimmed
  end.

Definition compactSubagentHistory (history : list HistoryItem)
    : list HistoryItem :=
  let trimmed := map trimHistoryItem history in
  let keepFirstUser :=
    match trimmed with
    | first :: _ => isUser first
    | [] => false
    end in
  compactLoop (List.length trimmed) keepFirstUser trimmed (sizeOf trimmed).

(** ** Exceptions

    What JavaScript code can throw, as far as the modelled code tells the
    cases apart: [ToolError] and [AbortError] instances, other [Error]
    instances with their [name] and [message], the file tracker's
    [FileOutdatedError], and values that are not [Error]s, kept as their
    [String(...)] rendering. *)

Inductive JsError :=
| ToolError (message : jstr)
| AbortError (message : jstr)
| FileOutdatedError (filePath message : jstr)
| OtherError (name message : jstr)
| ThrownValue (rendering : jstr).

Inductive Result (A : Type) :=
| Ok (a : A)
| Throw (e : JsError).
Arguments Ok {A} a.
Arguments Throw {A} e.

(** ** Stateful computations that may throw

    [ST S A]: a computation over a state [S] that returns an [A] or
    throws.  Both the delegation tool (over the session table) and the arc
    engine (over its event log) are written in it. *)

Definition ST (S A : Type) : Type := S -> Result A * S.

Definition ret {S A} (a : A) : ST S A := fun s => (Ok a, s).
Definition throw {S A} (e : JsError) : ST S A := fun s => (Throw e, s).
Definition bind {S A B} (m : ST S A) (k : A -> ST S B) : ST S B :=
  fun s => match m s with
           | (Ok a, s') => k a s'
           | (Throw e, s') => (Throw e, s')
           end.
(** [try { m } catch (error) { handler(error) }]. *)
Definition tryCatch {S A} (m : ST S A) (handler : JsError -> ST S A) : ST S A :=
  fun s => match m s with
           | (Ok a, s') => (Ok a, s')
           | (Throw e, s') => handler e s'
           end.
Definition getState {S} : ST S S := fun s => (Ok s, s).
Definition modify {S} (f : S -> S) : ST S unit := fun s => (Ok tt, f s).

Declare Scope st_scope.
Delimit Scope st_scope with ST.
Notation "x <- m ;; k" := (bind m (fun x => k))
  (at level 61, m at next level, right associativity) : st_scope.
Notation "m ;;; k" := (bind m (fun _ => k))
  (at level 61, right associativity) : st_scope.

(** ** Task-id validation ([task.ts]) *)

Record TaskInvocation := {
  i_description : jstr;
  i_prompt : jstr;
  i_subagent_type : jstr;
  i_task_id : option jstr;
}.

Record TaskArguments := {
  description : jstr;
  prompt : jstr;
  subagent_type : jstr;
  task_id : option jstr;
  parallel_tasks : option (list TaskInvocation);
}.

Record Agent := {
  agent_name : jstr;
  agent_description : jstr;
}.

Definition mem (x : jstr) (l : list jstr) : bool :=
  existsb (fun y => Js.eqb y x) l.

(** [[...new Set(xs)]]: first occurrences, in order. *)
Fixpoint uniq (seen xs : list jstr) : list jstr :=
  match xs with
  | [] => []
  | x :: rest => if mem x seen then uniq seen rest else x :: uniq (x :: seen) rest
  end.

(** The [for] loop of [validateTaskIdUniqueness], threading [seen] and
    [duplicates]. *)
Fixpoint collectDuplicates (invocations : list TaskInvocation)
    (seen duplicates : list jstr) : list jstr :=
  match invocations with
  | [] => duplicates
  | invocation :: rest =>
      match i_task_id invocation with
      | None => collectDuplicates rest seen duplicates
      | Some taskId =>
          if mem taskId seen
          then collectDuplicates rest seen (duplicates ++ [taskId])
          else collectDuplicates rest (taskId :: seen) duplicates
      end
  end.

Definition duplicateMessage (duplicates : list jstr) : jstr :=
  let uniqueDuplicates := uniq [] duplicates in
  lit "Duplicate task_id"
  ++ (if 1 <? List.length uniqueDuplicates then lit "s" else [])
  ++ lit " in parallel_tasks: "
  ++ join (lit ", ") uniqueDuplicates
  ++ lit ". "
  ++ lit "Each task in parallel_tasks must have a unique task_id.".

Definition validateTaskIdUniqueness (invocations : list TaskInvocation)
    : Result unit :=
  let duplicates := collectDuplicates invocations [] [] in
  if 0 <? List.length duplicates
  then Throw (ToolError (duplicateMessage duplicates))
  else Ok tt.

Definition findAgent (candidates : list Agent) (name : jstr) : option Agent :=
  find (fun agent => Js.eqb (agent_name agent) name) candidates.

Definition unknownSubagent (name : jstr) : JsError :=
  ToolError (lit "Unknown subagent: " ++ name).

Definition singleInvocationOf (args : TaskArguments) : TaskInvocation :=
  {| i_description := description args;
     i_prompt := prompt args;
     i_subagent_type := subagent_type args;
     i_task_id := task_id args |}.

(** [parallel_tasks && parallel_tasks.length > 0 ? parallel_tasks
                                                : [singleInvocation]]. *)
Definition invocationInputsOf (args : TaskArguments) : list TaskInvocation :=
  match parallel_tasks args with
  | Some (t :: ts) => t :: ts
  | _ => [singleInvocationOf args]
  end.

(** The [for] loop of [validate] over [parallel_tasks ?? []]. *)
Fixpoint checkSubagents (candidates : list Agent) (tasks : list TaskInvocation)
    : Result unit :=
  match tasks with
  | [] => Ok tt
  | task :: rest =>
      match findAgent candidates (i_subagent_type task) with
      | None => Throw (unknownSubagent (i_subagent_type task))
      | Some _ => checkSubagents candidates rest
      end
  end.

(** The tool's [validate]. *)
Definition validate (candidates : list Agent) (args : TaskArguments)
    : Result unit :=
  match findAgent candidates (subagent_type args) with
  | None => Throw (unknownSubagent (subagent_type args))
  | Some _ =>
      match validateTaskIdUniqueness (invocationInputsOf args) with
      | Throw e => Throw e
      | Ok _ =>
          checkSubagents candidates
            (match parallel_tasks args with Some ts => ts | None => [] end)
      end
  end.

(** [makeLiveTaskID] ([task-progress.ts]). *)
Definition makeLiveTaskID (toolCallId : jstr) (index : nat) : jstr :=
  lit "task_" ++ toolCallId ++ lit "_" ++ ofNat index.

Record Planned := {
  p_invocation : TaskInvocation;
  p_taskId : jstr;
}.

Fixpoint planFrom (liveRunId : jstr) (index : nat)
    (invocations : list TaskInvocation) : list Planned :=
  match invocations with
  | [] => []
  | invocation :: rest =>
      {| p_invocation := invocation;
         p_taskId := match i_task_id invocation with
                     | Some id => id
                     | None => makeLiveTaskID liveRunId index
                     end |}
      :: planFrom liveRunId (S index) rest
  end.

(** [invocationInputs.map((invocation, index) => ...)] of [run]. *)
Definition planned (liveRunId : jstr) (args : TaskArguments) : list Planned :=
  planFrom liveRunId 0 (invocationInputsOf args).

(** ** Focus navigation ([state.ts]) *)

(** [taskId] is [None] where the source would store [undefined] (an
    out-of-range index). *)
Inductive AgentFocus :=
| FocusMain
| FocusTask (taskId : option jstr).

Record UiState := {
  taskObservationOrder : list jstr;
  liveTaskObservationOrder : list jstr;
  focus : AgentFocus;
}.

Definition setFocus (f : AgentFocus) (st : UiState) : UiState :=
  {| taskObservationOrder := taskObservationOrder st;
     liveTaskObservationOrder := liveTaskObservationOrder st;
     focus := f |}.

Definition activeTaskOrder (st : UiState) : list jstr :=
  if 0 <? List.length (liveTaskObservationOrder st)
  then liveTaskObservationOrder st
  else taskObservationOrder st.

(** [arr.indexOf(x)]: the first index holding [x], or -1. *)
Fixpoint indexOfFrom (i : Z) (x : option jstr) (arr : list jstr) : Z :=
  match arr with
  | [] => (-1)%Z
  | y :: rest =>
      match x with
      | Some x' => if Js.eqb y x' then i else indexOfFrom (i + 1) x rest
      | None => indexOfFrom (i + 1) x rest
      end
  end.

Definition indexOf (x : option jstr) (arr : list jstr) : Z :=
  indexOfFrom 0 x arr.

(** [arr[i]]. *)
Definition at_ (arr : list jstr) (i : Z) : option jstr :=
  if (i <? 0)%Z then None else nth_error arr (Z.to_nat i).

Definition focusNextTask (st : UiState) : UiState :=
  let order := activeTaskOrder st in
  if List.length order =? 0 then st
  else
    match focus st with
    | FocusMain => setFocus (FocusTask (at_ order 0)) st
    | FocusTask taskId =>
        let currentIndex := indexOf taskId order in
        if (currentIndex <? 0)%Z
        then setFocus (FocusTask (at_ order (len' order - 1))) st
        else if (currentIndex =? len' order - 1)%Z
        then setFocus FocusMain st
        else setFocus (FocusTask (at_ order (currentIndex + 1))) st
    end.

Definition focusPrevTask (st : UiState) : UiState :=
  let order := activeTaskOrder st in
  if List.length order =? 0 then st
  else
    match focus st with
    | FocusMain => setFocus (FocusTask (at_ order (len' order - 1))) st
    | FocusTask taskId =>
        let currentIndex := indexOf taskId order in
        if (currentIndex <? 0)%Z
        then setFocus (FocusTask (at_ order (len' order - 1))) st
        else if (currentIndex =? 0)%Z
        then setFocus FocusMain st
        else setFocus (FocusTask (at_ order (currentIndex - 1))) st
    end.

(** ** Observations and their wire format ([task.ts]) *)

Record TaskObservation := {
  o_taskId : jstr;
  o_subagentName : jstr;
  o_description : jstr;
  o_trace : jstr;
  o_result : jstr;
}.

(** [text.length > cap ? `${text.slice(0, cap)}\n... (truncated)` : text]. *)
Definition clip (cap : Z) (text : jstr) : jstr :=
  if (cap <? len text)%Z then slice0 cap text ++ truncatedMarker else text.

Definition observationFields (o : TaskObservation) (trace result : jstr)
    : list jstr :=
  [ lit "task_id: " ++ o_taskId o;
    lit "task_subagent: " ++ o_subagentName o;
    lit "task_description: " ++ o_description o;
    [];
    lit "<task_trace>";
    trace;
    lit "</task_trace>";
    [];
    lit "<task_result>";
    result;
    lit "</task_result>" ].

Definition buildObservedTaskOutput (params : TaskObservation) : jstr :=
  let trace := clip 4000 (o_trace params) in
  let result := clip 2000 (o_result params) in
  join nl (observationFields params trace result).

Definition observationSection (observation : TaskObservation) : jstr :=
  let trace := clip 3000 (o_trace observation) in
  let result := clip 1500 (o_result observation) in
  join nl ([lit "<task_observation>"]
           ++ observationFields observation trace result
           ++ [lit "</task_observation>"]).

Definition buildParallelObservedTaskOutput (observations : list TaskObservation)
    : jstr :=
  let sections := map observationSection observations in
  join nl ([lit "task_parallel_count: " ++ ofNat (List.length observations); []]
           ++ sections).

(** ** Delegation ([task.ts]) *)

Record PeerSummary := {
  peer_subagentName : jstr;
  peer_description : jstr;
}.

Record PeerContext := {
  peer_index : nat;
  peer_total : nat;
  peer_peers : list PeerSummary;
}.

(** [arr.filter((_, i) => i !== index)]. *)
Fixpoint dropIndex {A} (index i : nat) (arr : list A) : list A :=
  match arr with
  | [] => []
  | x :: rest =>
      if i =? index then dropIndex index (S i) rest
      else x :: dropIndex index (S i) rest
  end.

Definition nonEmpty (line : jstr) : bool :=
  match line with [] => false | _ => true end.

Definition buildParallelAwarenessPrefix (invocation : TaskInvocation)
    (peer : PeerContext) : jstr :=
  if peer_total peer <=? 1 then []
  else
    let peerLines :=
      join nl
        (map (fun p => lit "  - @" ++ peer_subagentName p ++ lit ": "
                       ++ peer_description p)
             (dropIndex (peer_index peer) 0 (peer_peers peer))) in
    join nl
      (filter nonEmpty
         [ lit "[Parallel execution context]";
           lit "You are worker " ++ ofNat (peer_index peer + 1) ++ lit " of "
             ++ ofNat (peer_total peer) ++ lit " running concurrently.";
           lit "Your task: " ++ i_description invocation;
           if (0 <? len peerLines)%Z
           then lit "Other workers running in parallel:" ++ nl ++ peerLines
           else [];
           lit "Scope discipline: complete only your assigned task. Do not modify artefacts owned by other workers.";
           [] ]).

(** [error.message.toLowerCase()], on the modelled code units. *)
Definition toLowerChar (c : ascii) : ascii :=
  let n := nat_of_ascii c in
  if ((65 <=? n) && (n <=? 90))
     || ((192 <=? n) && (n <=? 222) && negb (n =? 215))
  then ascii_of_nat (n + 32) else c.

Definition toLowerCase (s : jstr) : jstr := map toLowerChar s.

(** [isAbortLikeError].  [ToolError] and [FileOutdatedError] are [Error]s
    whose [name] is not ["AbortError"]. *)
Definition isAbortLikeError (error : JsError) : bool :=
  match error with
  | AbortError _ => true
  | ThrownValue _ => false
  | ToolError message | FileOutdatedError _ message =>
      includes (lit "aborted") (toLowerCase message)
  | OtherError name message =>
      Js.eqb name (lit "AbortError")
      || includes (lit "aborted") (toLowerCase message)
  end.

(** [error instanceof Error ? error.message : String(error)]. *)
Definition errorMessage (error : JsError) : jstr :=
  match error with
  | ToolError m | AbortError m | FileOutdatedError _ m | OtherError _ m => m
  | ThrownValue rendering => rendering
  end.

Definition taskObservationFromFailure (invocation : TaskInvocation)
    (error : JsError) (taskId : jstr) : TaskObservation :=
  let message := errorMessage error in
  {| o_taskId := taskId;
     o_subagentName := i_subagent_type invocation;
     o_description := i_description invocation;
     o_trace := lit "[task-error]" ++ nl ++ message;
     o_result := lit "Subagent task failed: " ++ message |}.

Definition makeSessionKey (taskId : jstr) : jstr := taskId.

Definition pinningMessage (taskId originalSubagent : jstr) : jstr :=
  lit "Task " ++ taskId ++ lit " belongs to subagent " ++ originalSubagent
  ++ lit ". Resume it with that same subagent.".

(** The state the delegation tool works on: the process-wide session
    table, the id counter behind [sequenceId()], and the abort signal.
    The live-progress registry is written by this code but never read by
    it: [run] files every planned task id with [startLiveTaskRun] before
    it passes the id to the registry, and on an id filed in the run the
    registry's operations return.  It is modelled on its own, further
    down, and is no part of this state. *)
Record World := {
  taskSessions : Sessions;
  nextId : Z;
  aborted : bool;
}.

(** Computations of the delegation tool: they read and write the [World]
    and either return or throw. *)
Definition M (A : Type) : Type := ST World A.

Definition putSessions (s : Sessions) : M unit :=
  fun w => (Ok tt, {| taskSessions := s; nextId := nextId w; aborted := aborted w |}).
Definition sequenceId : M Z :=
  fun w => (Ok (nextId w),
            {| taskSessions := taskSessions w; nextId := (nextId w + 1)%Z;
               aborted := aborted w |}).

(** An entry of [Promise.allSettled]'s result. *)
Inductive Settled (A : Type) :=
| Fulfilled (value : A)
| Rejected (reason : JsError).
Arguments Fulfilled {A} value.
Arguments Rejected {A} reason.

(** How an invocation of a batch stands when its call of
    [executeTaskInvocation] has returned its promise: refused by the part
    that runs at once, or waiting for its nested loop on the session it
    opened. *)
Inductive Launched :=
| Refused (reason : JsError)
| Running (subagent : Agent) (taskId : jstr) (session : TaskSession).

(** [arr.map((x, index) => f(x, index))]. *)
Fixpoint mapi {A B} (f : A -> nat -> B) (index : nat) (arr : list A) : list B :=
  match arr with
  | [] => []
  | x :: rest => f x index :: mapi f (S index) rest
  end.

Local Open Scope st_scope.

Section Delegation.

(** Fixed when the tool is built ([taskToolFactory]): the available
    delegation targets.  [USER_ABORTED_ERROR_MESSAGE] comes from
    [common.ts]. *)
Variable candidates : list Agent.
Variable USER_ABORTED_ERROR_MESSAGE : jstr.

(** The nested agent loop.  It mutates the session object it is given and
    whatever else it reaches, so it maps the world to a new world; it
    yields the answer text or throws, together with the history the
    session object holds afterwards. *)
Variable runSubagentUntilPause :
  TaskSession -> Agent -> World -> (Result jstr * list HistoryItem) * World.

Variable summarizeTaskTrace : list HistoryItem -> jstr.

Definition effectiveTaskId (invocation : TaskInvocation) (plannedTaskId : jstr)
    : jstr :=
  match i_task_id invocation with
  | Some id => id
  | None => plannedTaskId
  end.

Definition pushHistory (session : TaskSession) (items : list HistoryItem)
    : TaskSession :=
  {| s_id := s_id session;
     s_subagentName := s_subagentName session;
     s_history := s_history session ++ items |}.

(** [executeTaskInvocation] up to its call of [runSubagentUntilPause]:
    resolve the subagent, find or create the session, check the pin,
    append the prompt, store the session. *)
Definition openTaskSession (invocation : TaskInvocation) (plannedTaskId : jstr)
    (peer : option PeerContext) : M (Agent * jstr * TaskSession) :=
  let subagentName := i_subagent_type invocation in
  match findAgent candidates subagentName with
  | None => throw (unknownSubagent subagentName)
  | Some subagent =>
      let taskId := effectiveTaskId invocation plannedTaskId in
      let sessionKey := makeSessionKey taskId in
      w <- getState ;;
      let session :=
        match JsMap.get sessionKey (taskSessions w) with
        | Some existing => existing
        | None => {| s_id := taskId; s_subagentName := subagentName;
                     s_history := [] |}
        end in
      if negb (Js.eqb (s_subagentName session) subagentName)
      then throw (ToolError (pinningMessage taskId (s_subagentName session)))
      else
        let awarenessPrefix :=
          match peer with
          | Some p => buildParallelAwarenessPrefix invocation p
          | None => []
          end in
        let prompt := trim (awarenessPrefix ++ i_prompt invocation) in
        session' <- (if (0 <? len prompt)%Z
                     then id <- sequenceId ;;
                          ret (pushHistory session [HUser id prompt])
                     else ret session) ;;
        w' <- getState ;;
        putSessions (storeTaskSession sessionKey session' (taskSessions w')) ;;;
        ret (subagent, taskId, session')
  end.

Definition executeTaskInvocation (invocation : TaskInvocation)
    (plannedTaskId : jstr) (peer : option PeerContext) : M TaskObservation :=
  opened <- openTaskSession invocation plannedTaskId peer ;;
  let '(subagent, taskId, session) := opened in
  fun w =>
    match runSubagentUntilPause session subagent w with
    | ((Throw e, _), w') => (Throw e, w')
    | ((Ok result, history), w') =>
        (Ok {| o_taskId := taskId;
               o_subagentName := i_subagent_type invocation;
               o_description := i_description invocation;
               o_trace := summarizeTaskTrace history;
               o_result := result |}, w')
    end.

(** The nested loops of a batch.  [Promise.allSettled] is given the
    promises of all invocations, and each call of [executeTaskInvocation]
    runs up to its first [await] before the next call starts: every
    invocation has found or made its session, appended its prompt and
    stored the session before any nested loop goes on.  The loops then run
    interleaved, on session objects that invocations of one task id
    share.  What they do together is a function of the world the batch
    started from, of what was launched and of the world the launch left:
    for the invocation at each index the answer or the error of its loop,
    with the history its session object holds when the invocation
    resumes, and the world the loops leave. *)
Variable awaitNestedLoops :
  World -> list Launched -> World
  -> (nat -> Result jstr * list HistoryItem) * World.

Definition peerSummariesOf (planned : list Planned) : list PeerSummary :=
  map (fun entry =>
         {| peer_subagentName := i_subagent_type (p_invocation entry);
            peer_description := i_description (p_invocation entry) |})
      planned.

Definition peerOf (planned : list Planned) (index : nat) : PeerContext :=
  {| peer_index := index;
     peer_total := List.length planned;
     peer_peers := peerSummariesOf planned |}.

(** A call of [executeTaskInvocation] up to its first [await]; an error
    thrown there rejects the promise. *)
Definition launch (planned : list Planned) (entry : Planned) (index : nat)
    : M Launched :=
  fun w =>
    match openTaskSession (p_invocation entry) (p_taskId entry)
            (Some (peerOf planned index)) w with
    | (Ok (subagent, taskId, session), w') =>
        (Ok (Running subagent taskId session), w')
    | (Throw reason, w') => (Ok (Refused reason), w')
    end.

(** [planned.map((entry, index) => executeTaskInvocation(...))]. *)
Fixpoint launchFrom (planned : list Planned) (index : nat)
    (entries : list Planned) : M (list Launched) :=
  match entries with
  | [] => ret []
  | entry :: rest =>
      first <- launch planned entry index ;;
      others <- launchFrom planned (S index) rest ;;
      ret (first :: others)
  end.

Definition launchAll (planned : list Planned) : M (list Launched) :=
  launchFrom planned 0 planned.

(** The rest of [executeTaskInvocation] once its loop is over, as the
    entry of [Promise.allSettled]'s result. *)
Definition settledEntry (entry : Planned) (launched : Launched)
    (outcome : Result jstr * list HistoryItem) : Settled TaskObservation :=
  match launched with
  | Refused reason => Rejected reason
  | Running subagent taskId session =>
      match outcome with
      | (Ok result, history) =>
          Fulfilled {| o_taskId := taskId;
                       o_subagentName := i_subagent_type (p_invocation entry);
                       o_description := i_description (p_invocation entry);
                       o_trace := summarizeTaskTrace history;
                       o_result := result |}
      | (Throw reason, _) => Rejected reason
      end
  end.

Fixpoint settleFrom (index : nat) (planned : list Planned)
    (launched : list Launched)
    (outcomes : nat -> Result jstr * list HistoryItem)
    : list (Settled TaskObservation) :=
  match planned, launched with
  | entry :: planned', first :: launched' =>
      settledEntry entry first (outcomes index)
      :: settleFrom (S index) planned' launched' outcomes
  | _, _ => []
  end.

(** [await Promise.allSettled(planned.map(...))]. *)
Definition allSettled (planned : list Planned)
    : M (list (Settled TaskObservation)) :=
  before <- getState ;;
  launched <- launchAll planned ;;
  fun after =>
    let '(outcomes, w') := awaitNestedLoops before launched after in
    (Ok (settleFrom 0 planned launched outcomes), w').

(** [settled.map((entry, idx) => ...)] of [run]; [settled] has one entry
    per element of [planned]. *)
Fixpoint fanIn (planned : list Planned) (settled : list (Settled TaskObservation))
    : list TaskObservation :=
  match planned, settled with
  | p :: planned', entry :: settled' =>
      match entry with
      | Fulfilled value => value
      | Rejected reason =>
          taskObservationFromFailure (p_invocation p) reason (p_taskId p)
      end :: fanIn planned' settled'
  | _, _ => []
  end.

(** The tool's [run]; [liveRunId] is [meta?.toolCallId ?? `task-live-...`]. *)
Definition run (liveRunId : jstr) (args : TaskArguments) : M jstr :=
  let planned := planned liveRunId args in
  tryCatch
    (w <- getState ;;
     if aborted w then throw (ToolError USER_ABORTED_ERROR_MESSAGE)
     else
       let parallelTasks :=
         match parallel_tasks args with Some ts => ts | None => [] end in
       if 0 <? List.length parallelTasks then
         settled <- allSettled planned ;;
         let observations := fanIn planned settled in
         ret (buildParallelObservedTaskOutput observations)
       else
         match planned with
         | first :: _ =>
             let invocation := p_invocation first in
             observation <-
               tryCatch
                 (executeTaskInvocation invocation (p_taskId first) None)
                 (fun error =>
                    w' <- getState ;;
                    if aborted w' || isAbortLikeError error then throw error
                    else ret (taskObservationFromFailure invocation error
                                (p_taskId first))) ;;
             ret (buildObservedTaskOutput observation)
         | [] =>
             throw (OtherError (lit "TypeError")
                      (lit "Cannot read properties of undefined"))
         end)
    (fun error =>
       w <- getState ;;
       if aborted w || isAbortLikeError error
       then throw (ToolError USER_ABORTED_ERROR_MESSAGE)
       else throw error).

End Delegation.

(** ** The arc engine ([trajectory-arc.ts]) *)

Inductive TokenType := Reasoning | Content | ToolTokens.

Record AssistantBuffer := {
  b_reasoning : option jstr;
  b_content : option jstr;
  b_tool : option jstr;
}.

Definition emptyBuffer : AssistantBuffer :=
  {| b_reasoning := None; b_content := None; b_tool := None |}.

(** [LlmIR]; the items an arc produces ([TrajectoryOutputIR]) are the
    constructors from [IRAssistant] on. *)
Inductive LlmIR :=
| IRUser (content : jstr)
| IROther (role payload : jstr)
| IRAssistant (content : jstr) (reasoningContent : option jstr)
    (toolCall : option ToolCallRequest) (tokenUsage outputTokens : Z)
| IRToolMalformed (error : jstr)
| IRToolError (toolCallId toolName error : jstr)
| IRFileOutdated (toolCall : ToolCallRequest) (error : jstr)
| IRFileUnreadable (path : jstr) (toolCall : ToolCallRequest) (error : jstr)
| IRCompactionCheckpoint (summary : jstr).

Inductive FinishReason :=
| Abort
| NeedsResponse
| RequestTool (toolCall : ToolCallRequest)
| RequestError (requestError curl : jstr).

Record Finish := {
  f_irs : list LlmIR;
  f_reason : FinishReason;
}.

Definition MAX_TRAJECTORY_BUFFER_CONTENT_CHARS : Z := 500000.
Definition MAX_TRAJECTORY_BUFFER_REASONING_CHARS : Z := 200000.
Definition MAX_TRAJECTORY_BUFFER_TOOL_CHARS : Z := 500000.

Definition appendCapped (base addition : jstr) (maxChars : Z) : jstr :=
  if (len addition =? 0)%Z || (maxChars <=? 0)%Z then base
  else if (maxChars <=? len base)%Z then base
  else
    let remaining := (maxChars - len base)%Z in
    if (len addition <=? remaining)%Z then base ++ addition
    else base ++ slice0 remaining addition.

Definition bufferCap (type : TokenType) : Z :=
  match type with
  | Reasoning => MAX_TRAJECTORY_BUFFER_REASONING_CHARS
  | ToolTokens => MAX_TRAJECTORY_BUFFER_TOOL_CHARS
  | Content => MAX_TRAJECTORY_BUFFER_CONTENT_CHARS
  end.

Definition bufferGet (buffer : AssistantBuffer) (type : TokenType) : option jstr :=
  match type with
  | Reasoning => b_reasoning buffer
  | Content => b_content buffer
  | ToolTokens => b_tool buffer
  end.

Definition bufferSet (buffer : AssistantBuffer) (type : TokenType) (v : jstr)
    : AssistantBuffer :=
  match type with
  | Reasoning => {| b_reasoning := Some v; b_content := b_content buffer;
                    b_tool := b_tool buffer |}
  | Content => {| b_reasoning := b_reasoning buffer; b_content := Some v;
                  b_tool := b_tool buffer |}
  | ToolTokens => {| b_reasoning := b_reasoning buffer;
                     b_content := b_content buffer; b_tool := Some v |}
  end.

(** [buffer[type] = appendCapped(buffer[type] ?? "", tokens, bufferCap(type))]. *)
Definition onTokens (buffer : AssistantBuffer) (tokens : jstr) (type : TokenType)
    : AssistantBuffer :=
  let current := match bufferGet buffer type with Some c => c | None => [] end in
  bufferSet buffer type (appendCapped current tokens (bufferCap type)).

(** What a streamed model call delivers while it runs. *)
Inductive StreamEvent :=
| Tokens (text : jstr) (type : TokenType)
| AutofixJson.

Inductive RunResult :=
| RunSuccess (output : list LlmIR) (curl : jstr)
| RunFailure (requestError curl : jstr).

(** What an arc does to the outside: the handler callbacks it fires, the
    backend calls it makes, and each entry into [trajectoryArc] with the
    retry budget it was given. *)
Inductive Event :=
| ArcEntered (retryBudget : Z)
| BackendCalled (messages : list LlmIR)
| StartCompaction
| CompactionProgress (buffer : AssistantBuffer) (text : jstr) (type : TokenType)
| CompactionParsed (summary : jstr)
| StartResponse
| ResponseProgress (buffer : AssistantBuffer) (text : jstr) (type : TokenType)
| AutofixingJson
| AutofixingDiff
| RetryTool (irs : list LlmIR).

(** The arc's state: a logical clock, advanced at every look at the
    outside world, and the log of events so far, oldest first. *)
Record ArcState := {
  tick : nat;
  events : list Event;
}.

(** The collaborators of the arc; each answer may depend on the logical
    time of the question.  A collaborator the arc awaits may throw:
    [loadTools], and, after streaming what they stream,
    [generateCompactionSummary] and the backend's [run]. *)
Record ArcEnv := {
  signalAborted : nat -> bool;
  loadTools : nat -> Result unit;
  shouldAutoCompactHistory : list LlmIR -> bool;
  generateCompactionSummary :
    nat -> list LlmIR -> list StreamEvent * Result (option jstr);
  backendRun : nat -> list LlmIR -> list StreamEvent * Result RunResult;
  validateTool : nat -> jstr -> jstr -> Result unit;
  resolvePath : nat -> jstr -> Result jstr;
  readUntracked : nat -> jstr -> Result unit;
  filePathOf : jstr -> jstr;
  readFile : nat -> jstr -> Result jstr;
  autofixEdit : nat -> jstr -> jstr -> Result (option jstr);
  mergeArguments : jstr -> jstr -> jstr;
}.

Definition Arc (A : Type) : Type := ST ArcState A.

Definition emit (e : Event) : Arc unit :=
  modify (fun s => {| tick := tick s; events := events s ++ [e] |}).

Definition now : Arc nat :=
  fun s => (Ok (tick s), {| tick := S (tick s); events := events s |}).

Definition abort (irs : list LlmIR) : Finish :=
  {| f_irs := irs; f_reason := Abort |}.

Definition isMalformed (ir : LlmIR) : bool :=
  match ir with IRToolMalformed _ => true | _ => false end.

(** [const { toolCall } = lastIr]. *)
Definition irToolCall (ir : LlmIR) : option ToolCallRequest :=
  match ir with
  | IRAssistant _ _ toolCall _ _ => toolCall
  | IRFileOutdated toolCall _ | IRFileUnreadable _ toolCall _ => Some toolCall
  | _ => None
  end.

Definition lastOf {A} (arr : list A) : option A :=
  match arr with
  | [] => None
  | x :: rest => Some (last rest x)
  end.

Section Arc.

Variable env : ArcEnv.

Definition checkAborted : Arc bool :=
  t <- now ;; ret (signalAborted env t).

(** Feed a stream into the token buffer, firing [progress] per delta. *)
Fixpoint feed (progress : AssistantBuffer -> jstr -> TokenType -> Event)
    (onAutofixJson : list Event) (stream : list StreamEvent)
    (buffer : AssistantBuffer) : Arc AssistantBuffer :=
  match stream with
  | [] => ret buffer
  | Tokens text type :: rest =>
      let buffer' := onTokens buffer text type in
      emit (progress buffer' text type) ;;;
      feed progress onAutofixJson rest buffer'
  | AutofixJson :: rest =>
      modify (fun s => {| tick := tick s; events := events s ++ onAutofixJson |}) ;;;
      feed progress onAutofixJson rest buffer
  end.

Definition maybeAutocompact (messages : list LlmIR) : Arc (option jstr) :=
  if negb (shouldAutoCompactHistory env messages) then ret None
  else
    emit StartCompaction ;;;
    t <- now ;;
    let '(stream, checkpointSummary) := generateCompactionSummary env t messages in
    feed CompactionProgress [] stream emptyBuffer ;;;
    match checkpointSummary with
    | Ok summary => ret summary
    | Throw e => throw e
    end.

Definition maybeBufferedMessage (irs : list LlmIR) (buffer : AssistantBuffer)
    : list LlmIR :=
  if truthyStr (b_content buffer) || truthyStr (b_reasoning buffer)
     || truthyStr (b_tool buffer)
  then
    let content := if truthyStr (b_content buffer)
                   then match b_content buffer with Some c => c | None => [] end
                   else [] in
    irs ++ [ IRAssistant
               (if truthyStr (b_tool buffer)
                then content ++ nl ++ lit "<partial_tool_call>"
                     ++ match b_tool buffer with Some p => p | None => [] end
                     ++ lit "</partial_tool_call>"
                else content)
               (b_reasoning buffer) None 0 0 ]
  else [].

Definition tryTransformFileOutdatedError (toolCall : ToolCallRequest)
    (filePath : jstr) : Arc LlmIR :=
  t <- now ;;
  match resolvePath env t filePath with
  | Throw e => throw e
  | Ok absolutePath =>
      t' <- now ;;
      match readUntracked env t' absolutePath with
      | Ok _ =>
          ret (IRFileOutdated toolCall
                 (lit "File could not be updated because it was modified after being last read. Please read the file again before modifying it."))
      | Throw _ =>
          ret (IRFileUnreadable filePath toolCall
                 (lit "File " ++ filePath ++ lit " could not be read. Has it been deleted?"))
      end
  end.

Definition tooManyMalformed : jstr :=
  lit "Too many malformed tool retries in a single response arc. Aborting to prevent runaway memory growth.".
Definition tooManyRetries : jstr :=
  lit "Too many tool retry attempts in a single response arc. Aborting to prevent runaway memory growth.".

(** How one pass through the body of [trajectoryArc] ends: with a
    [Finish], or at one of its three retry sites.  A retry site holds the
    arc's output [irs], the items [retryIrs] shown to the next attempt,
    the working message log, and the error to report when the budget is
    used up. *)
Inductive Turn :=
| Finished (finish : Finish)
| Retry (irs retryIrs messagesCopy : list LlmIR) (exhausted curl : jstr).

Definition withArguments (toolCall : ToolCallRequest) (arguments : jstr)
    : ToolCallRequest :=
  {| toolCallId := toolCallId toolCall; fnName := fnName toolCall;
     fnArguments := arguments |}.

(** The in-place update [fn.arguments = {...}] is seen through the last
    item of [irs], which holds the same tool-call object. *)
Definition setLastToolCall (irs : list LlmIR) (toolCall : ToolCallRequest)
    : list LlmIR :=
  match lastOf irs with
  | Some (IRAssistant c r (Some _) tu ot) =>
      removelast irs ++ [IRAssistant c r (Some toolCall) tu ot]
  | Some (IRFileOutdated _ e) => removelast irs ++ [IRFileOutdated toolCall e]
  | Some (IRFileUnreadable p _ e) =>
      removelast irs ++ [IRFileUnreadable p toolCall e]
  | _ => irs
  end.

(** The [catch] branch for a [ToolError]: one autofix attempt for the
    edit tool, then the tool-error retry site. *)
Definition onToolError (irs messagesCopy : list LlmIR)
    (toolCall : ToolCallRequest) (message curl : jstr) : Arc Turn :=
  let toolError :=
    IRToolError (toolCallId toolCall) (fnName toolCall) message in
  let retrySite :=
    Retry irs (irs ++ [toolError]) messagesCopy tooManyRetries curl in
  if Js.eqb (fnName toolCall) (lit "edit") then
    emit AutofixingDiff ;;;
    let path := filePathOf env (fnArguments toolCall) in
    t <- now ;;
    match readFile env t path with
    | Throw _ => ret retrySite
    | Ok file =>
        t' <- now ;;
        match autofixEdit env t' file (fnArguments toolCall) with
        | Throw _ => ret retrySite
        | Ok autofixed =>
            a <- checkAborted ;;
            if a then ret (Finished (abort (removelast irs ++ [toolError])))
            else
              match autofixed with
              | None => ret retrySite
              | Some fixed =>
                  t'' <- now ;;
                  match validateTool env t'' (lit "edit") fixed with
                  | Throw _ => ret retrySite
                  | Ok _ =>
                      let toolCall' :=
                        withArguments toolCall
                          (mergeArguments env (fnArguments toolCall) fixed) in
                      ret (Finished
                             {| f_irs := setLastToolCall irs toolCall';
                                f_reason := RequestTool toolCall' |})
                  end
              end
        end
    end
  else ret retrySite.

(** The body of [trajectoryArc] up to its recursive calls. *)
Definition arcTurn (messages : list LlmIR) : Arc Turn :=
  a <- checkAborted ;;
  if a then ret (Finished (abort []))
  else
    t0 <- now ;;
    (match loadTools env t0 with
     | Ok _ => ret tt
     | Throw e => throw e
     end) ;;;
    parsedCompaction <- maybeAutocompact messages ;;
    (match parsedCompaction with
     | Some summary => emit (CompactionParsed summary)
     | None => ret tt
     end) ;;;
    let messagesCopy :=
      match parsedCompaction with
      | Some summary => messages ++ [IRCompactionCheckpoint summary]
      | None => messages
      end in
    let irs0 :=
      match parsedCompaction with
      | Some summary => [IRCompactionCheckpoint summary]
      | None => []
      end in
    a' <- checkAborted ;;
    if a' then ret (Finished (abort []))
    else
      emit StartResponse ;;;
      t <- now ;;
      emit (BackendCalled messagesCopy) ;;;
      let '(stream, returned) := backendRun env t messagesCopy in
      buffer <- feed ResponseProgress [AutofixingJson] stream emptyBuffer ;;
      result <- (match returned with
                 | Ok result => ret result
                 | Throw e => throw e
                 end) ;;
      a'' <- checkAborted ;;
      if a'' then ret (Finished (abort (maybeBufferedMessage irs0 buffer)))
      else
        match result with
        | RunFailure requestError curl =>
            ret (Finished {| f_irs := maybeBufferedMessage irs0 buffer;
                             f_reason := RequestError requestError curl |})
        | RunSuccess output curl =>
            match lastOf output with
            | None =>
                ret (Finished
                       {| f_irs := maybeBufferedMessage irs0 buffer;
                          f_reason :=
                            RequestError (lit "No response from backend") curl |})
            | Some lastIr =>
                let irs := irs0 ++ output in
                if isMalformed lastIr
                then ret (Retry irs irs messagesCopy tooManyMalformed curl)
                else
                  match irToolCall lastIr with
                  | None => ret (Finished {| f_irs := irs;
                                             f_reason := NeedsResponse |})
                  | Some toolCall =>
                      t' <- now ;;
                      match validateTool env t' (fnName toolCall)
                              (fnArguments toolCall) with
                      | Ok _ =>
                          ret (Finished {| f_irs := irs;
                                           f_reason := RequestTool toolCall |})
                      | Throw (FileOutdatedError filePath _) =>
                          errorIrs <- tryTransformFileOutdatedError toolCall filePath ;;
                          ret (Retry irs (irs ++ [errorIrs]) messagesCopy
                                 tooManyRetries curl)
                      | Throw (ToolError message) =>
                          onToolError irs messagesCopy toolCall message curl
                      | Throw e => throw e
                      end
                  end
            end
        end.

Definition entered (retryBudget : Z) (st : ArcState) : ArcState :=
  {| tick := tick st; events := events st ++ [ArcEntered retryBudget] |}.

Definition retrying (retryIrs : list LlmIR) (st : ArcState) : ArcState :=
  {| tick := tick st; events := events st ++ [RetryTool retryIrs] |}.

(** [trajectoryArc]: one pass, and at a retry site either the
    request-error of an exhausted budget or the recursive call with
    [retryBudget - 1], whose output is concatenated after this arc's. *)
Equations? trajectoryArc (messages : list LlmIR) (retryBudget : Z)
    (st : ArcState) : Result Finish * ArcState
    by wf (Z.to_nat retryBudget) lt :=
  trajectoryArc messages retryBudget st
    with arcTurn messages (entered retryBudget st) := {
    | (Throw e, st1) => (Throw e, st1)
    | (Ok (Finished finish), st1) => (Ok finish, st1)
    | (Ok (Retry irs retryIrs messagesCopy exhausted curl), st1)
        with Z_le_gt_dec retryBudget 0 := {
        | left _ =>
            (Ok {| f_irs := retryIrs;
                   f_reason := RequestError exhausted curl |}, st1)
        | right _
            with trajectoryArc (messagesCopy ++ retryIrs) (retryBudget - 1)
                   (retrying retryIrs st1) := {
            | (Ok retried, st2) =>
                (Ok {| f_irs := irs ++ f_irs retried;
                       f_reason := f_reason retried |}, st2)
            | (Throw e, st2) => (Throw e, st2) } } }.
Proof. lia. Qed.

End Arc.

Definition defaultRetryBudget : Z := 8.

(** ** Regular expressions

    The fragment of ECMAScript regular expressions that the observation
    parser uses, with the backtracking order of the language: literal
    characters, the classes [\s], [.] and [[\s\S]], the greedy quantifiers
    [?], [*], [+] and the lazy [*?] over a single character, the
    assertions [^] and [$] under flag [m], and one capture group. *)

Module Regex.

Inductive CharClass :=
| Char (c : ascii)
| Space
| Dot
| AnyChar.

Inductive Node :=
| One (c : CharClass)
| Opt (c : CharClass)
| Star (c : CharClass)
| Plus (c : CharClass)
| LazyStar (c : CharClass)
| Bol
| Eol
| GroupOpen
| GroupClose.

Definition t := list Node.

Definition accepts (c : CharClass) (x : ascii) : bool :=
  match c with
  | Char y => Ascii.eqb y x
  | Space => isWhite x
  | Dot => negb (isLineTerminator x)
  | AnyChar => true
  end.

(** A literal run of characters. *)
Definition text (s : string) : t := map (fun c => One (Char c)) (lit s).

(** The capture group: the input left when the group was opened, and the
    captured text once it is closed. *)
Record Group := {
  g_open : option jstr;
  g_capture : option jstr;
}.

Definition noGroup : Group := {| g_open := None; g_capture := None |}.

Definition openGroup (s : jstr) (g : Group) : Group :=
  {| g_open := Some s; g_capture := g_capture g |}.

Definition closeGroup (s : jstr) (g : Group) : Group :=
  {| g_open := g_open g;
     g_capture :=
       match g_open g with
       | Some from => Some (firstn (List.length from - List.length s) from)
       | None => None
       end |}.

(** A successful match: group 1 and the input after the match. *)
Record Match := {
  m_group : option jstr;
  m_rest : jstr;
}.

(** A continuation receives the character before the current position
    and the input from the current position on. *)
Definition Cont := option ascii -> jstr -> option Match.

(** [c*]: take as many as possible, give back one at a time. *)
Fixpoint greedyStar (c : CharClass) (k : Cont) (prev : option ascii) (s : jstr)
    : option Match :=
  match s with
  | x :: s' =>
      if accepts c x then
        match greedyStar c k (Some x) s' with
        | Some m => Some m
        | None => k prev s
        end
      else k prev s
  | [] => k prev s
  end.

(** [c*?]: take as few as possible, one more at a time. *)
Fixpoint lazyStar (c : CharClass) (k : Cont) (prev : option ascii) (s : jstr)
    : option Match :=
  match k prev s with
  | Some m => Some m
  | None =>
      match s with
      | x :: s' => if accepts c x then lazyStar c k (Some x) s' else None
      | [] => None
      end
  end.

Definition atLineStart (prev : option ascii) : bool :=
  match prev with
  | None => true
  | Some p => isLineTerminator p
  end.

Definition atLineEnd (s : jstr) : bool :=
  match s with
  | [] => true
  | x :: _ => isLineTerminator x
  end.

(** Match [r] at the current position. *)
Fixpoint matchHere (r : t) (g : Group) (prev : option ascii) (s : jstr)
    : option Match :=
  match r with
  | [] => Some {| m_group := g_capture g; m_rest := s |}
  | One c :: r' =>
      match s with
      | x :: s' => if accepts c x then matchHere r' g (Some x) s' else None
      | [] => None
      end
  | Opt c :: r' =>
      match s with
      | x :: s' =>
          if accepts c x then
            match matchHere r' g (Some x) s' with
            | Some m => Some m
            | None => matchHere r' g prev s
            end
          else matchHere r' g prev s
      | [] => matchHere r' g prev s
      end
  | Star c :: r' => greedyStar c (matchHere r' g) prev s
  | Plus c :: r' =>
      match s with
      | x :: s' =>
          if accepts c x then greedyStar c (matchHere r' g) (Some x) s'
          else None
      | [] => None
      end
  | LazyStar c :: r' => lazyStar c (matchHere r' g) prev s
  | Bol :: r' => if atLineStart prev then matchHere r' g prev s else None
  | Eol :: r' => if atLineEnd s then matchHere r' g prev s else None
  | GroupOpen :: r' => matchHere r' (openGroup s g) prev s
  | GroupClose :: r' => matchHere r' (closeGroup s g) prev s
  end.

(** The leftmost match from the current position on. *)
Fixpoint search (r : t) (prev : option ascii) (s : jstr) : option Match :=
  match matchHere r noGroup prev s with
  | Some m => Some m
  | None =>
      match s with
      | x :: s' => search r (Some x) s'
      | [] => None
      end
  end.

(** [s.match(r)?.[1]] for [r] without flag [g]. *)
Definition match1 (r : t) (s : jstr) : option jstr :=
  match search r None s with
  | Some m => m_group m
  | None => None
  end.

(** The matches of [s.matchAll(r)], as their group 1: after a match the
    search resumes where the match ended ([skip] counts the characters of
    the match still to pass), one further on after an empty match. *)
Fixpoint matchAllFrom (r : t) (prev : option ascii) (s : jstr) (skip : nat)
    : list (option jstr) :=
  match skip with
  | S k =>
      match s with
      | x :: s' => matchAllFrom r (Some x) s' k
      | [] => []
      end
  | O =>
      match matchHere r noGroup prev s with
      | Some m =>
          m_group m ::
          match s with
          | x :: s' =>
              matchAllFrom r (Some x) s'
                (List.length s - List.length (m_rest m) - 1)
          | [] => []
          end
      | None =>
          match s with
          | x :: s' => matchAllFrom r (Some x) s' 0
          | [] => []
          end
      end
  end.

Definition matchAll1 (r : t) (s : jstr) : list (option jstr) :=
  matchAllFrom r None s 0.

End Regex.

(** ** The observation parser ([state.ts]) *)

Import Regex.

(** [/^task_id:\s*(.+)$/m] *)
Definition reTaskId : Regex.t :=
  [Bol] ++ text "task_id:" ++ [Star Space; GroupOpen; Plus Dot; GroupClose; Eol].

(** [/^task_subagent:\s*(.+)$/m] *)
Definition reTaskSubagent : Regex.t :=
  [Bol] ++ text "task_subagent:"
  ++ [Star Space; GroupOpen; Plus Dot; GroupClose; Eol].

(** [/^task_description:\s*(.+)$/m] *)
Definition reTaskDescription : Regex.t :=
  [Bol] ++ text "task_description:"
  ++ [Star Space; GroupOpen; Plus Dot; GroupClose; Eol].

(** [/<task_trace>\n?([\s\S]*?)\n?<\/task_trace>/m] *)
Definition reTaskTrace : Regex.t :=
  text "<task_trace>"
  ++ [Opt (Char LF); GroupOpen; LazyStar AnyChar; GroupClose; Opt (Char LF)]
  ++ text "</task_trace>".

(** [/<task_result>\n?([\s\S]*?)\n?<\/task_result>/m] *)
Definition reTaskResult : Regex.t :=
  text "<task_result>"
  ++ [Opt (Char LF); GroupOpen; LazyStar AnyChar; GroupClose; Opt (Char LF)]
  ++ text "</task_result>".

(** [/<task_observation>\n?([\s\S]*?)\n?<\/task_observation>/gm] *)
Definition reTaskObservation : Regex.t :=
  text "<task_observation>"
  ++ [Opt (Char LF); GroupOpen; LazyStar AnyChar; GroupClose; Opt (Char LF)]
  ++ text "</task_observation>".

(** [content.match(re)?.[1]?.trim()]. *)
Definition matchTrimmed (re : Regex.t) (content : jstr) : option jstr :=
  option_map trim (match1 re content).

Definition parseTaskObservationBlock (content : jstr) : option TaskObservation :=
  let id := matchTrimmed reTaskId content in
  let subagentName := matchTrimmed reTaskSubagent content in
  let description := matchTrimmed reTaskDescription content in
  let traceMatch := match1 reTaskTrace content in
  let resultMatch := match1 reTaskResult content in
  match id, subagentName, description with
  | Some (i :: id'), Some (s :: name'), Some (d :: description') =>
      let trace := match traceMatch with Some t => trim t | None => [] end in
      let result := match resultMatch with Some r => trim r | None => [] end in
      Some {| o_taskId := i :: id';
              o_subagentName := s :: name';
              o_description := d :: description';
              o_trace := trace;
              o_result := result |}
  | _, _, _ => None
  end.

(** [xs.map(f).filter(v => v != null)]. *)
Fixpoint mapNonNull {A B} (f : A -> option B) (xs : list A) : list B :=
  match xs with
  | [] => []
  | x :: rest =>
      match f x with
      | Some y => y :: mapNonNull f rest
      | None => mapNonNull f rest
      end
  end.

Definition parseTaskObservationsFromToolOutput (content : jstr)
    : list TaskObservation :=
  let wrappedMatches := matchAll1 reTaskObservation content in
  if 0 <? List.length wrappedMatches then
    mapNonNull
      (fun m => parseTaskObservationBlock
                  (match m with Some block => block | None => [] end))
      wrappedMatches
  else
    match parseTaskObservationBlock content with
    | Some single => [single]
    | None => []
    end.

Definition parseTaskObservationFromToolOutput (content : jstr)
    : option TaskObservation :=
  match parseTaskObservationsFromToolOutput content with
  | first :: _ => Some first
  | [] => None
  end.

(** [s.split("\n")]. *)
Fixpoint splitLines (s : jstr) : list jstr :=
  match s with
  | [] => [[]]
  | c :: s' =>
      if Ascii.eqb c LF then [] :: splitLines s'
      else
        match splitLines s' with
        | l :: ls => (c :: l) :: ls
        | [] => [[c]]
        end
  end.

(** ** Vocabulary of the properties *)

(** No session is stored under the empty task id. *)
Definition keysNonEmpty (m : Sessions) : Prop :=
  forall k, In k (JsMap.keys m) -> k <> [].

Definition sessionOf (k : jstr) : TaskSession :=
  {| s_id := k; s_subagentName := lit "general"; s_history := [] |}.

(** Storing sessions one after the other, starting with an empty table. *)
Definition storeAll (ids : list jstr) : Sessions :=
  fold_left (fun m k => storeTaskSession k (sessionOf k) m) ids [].

(** Two entries of a batch carry the same explicit [task_id]. *)
Definition duplicateTaskId (invocations : list TaskInvocation) : Prop :=
  exists l1 a l2 b l3 id,
    invocations = l1 ++ a :: l2 ++ b :: l3
    /\ i_task_id a = Some id /\ i_task_id b = Some id.

(** The explicit task ids of a batch, in order. *)
Definition explicitIds (invocations : list TaskInvocation) : list jstr :=
  flat_map (fun inv => match i_task_id inv with Some id => [id] | None => [] end)
           invocations.

Definition parallelTasksOf (args : TaskArguments) : list TaskInvocation :=
  match parallel_tasks args with Some ts => ts | None => [] end.

(** Every subagent named by the call is an available delegation target. *)
Definition subagentsKnown (candidates : list Agent) (args : TaskArguments)
    : Prop :=
  findAgent candidates (subagent_type args) <> None
  /\ Forall (fun t => findAgent candidates (i_subagent_type t) <> None)
            (parallelTasksOf args).

Definition withTaskId (id : option jstr) (args : TaskArguments) : TaskArguments :=
  {| description := description args; prompt := prompt args;
     subagent_type := subagent_type args; task_id := id;
     parallel_tasks := parallel_tasks args |}.

(** The state of the repository's focus test: two finalized tasks, no
    live task, focus on [main]. *)
Definition twoTaskState : UiState :=
  {| taskObservationOrder := [lit "task_1"; lit "task_2"];
     liveTaskObservationOrder := [];
     focus := FocusMain |}.

(** What compaction leaves of an entry: an assistant entry without provider
    metadata whose texts are cut at the cap (plus the marker), a tool
    output whose body is cut at the cap (plus the marker). *)
Definition compacted (item : HistoryItem) : Prop :=
  match item with
  | HAssistant a =>
      a_openai a = None /\ a_anthropic a = None
      /\ (len (a_content a)
          <= MAX_SUBAGENT_ASSISTANT_CONTENT_CHARS + len truncatedMarker)%Z
      /\ (forall r, a_reasoningContent a = Some r ->
            (len r <= MAX_SUBAGENT_ASSISTANT_CONTENT_CHARS
                      + len truncatedMarker)%Z)
  | HToolOutput _ result _ =>
      (len (r_content result)
       <= MAX_SUBAGENT_TOOL_CONTENT_CHARS + len truncatedForSubagentMarker)%Z
  | _ => True
  end.

(** A history that is only a seed user message of 140,001 characters. *)
Definition oversizedSeed : list HistoryItem :=
  [HUser 0 (repeat "a"%char (Z.to_nat 140001))].

(** A small delegation scenario: two available subagents, a nested loop
    that answers for [general] and throws for [explore], and a table that
    already holds session [t1] of [general]. *)
Definition demoCandidates : list Agent :=
  [ {| agent_name := lit "general"; agent_description := lit "general help" |};
    {| agent_name := lit "explore"; agent_description := lit "read-only scan" |} ].

Definition demoRunSubagent (session : TaskSession) (agent : Agent) (w : World)
    : (Result jstr * list HistoryItem) * World :=
  if Js.eqb (agent_name agent) (lit "explore")
  then ((Throw (OtherError (lit "Error") (lit "boom")), s_history session), w)
  else ((Ok (lit "done"), s_history session), w).

Definition demoSummarize (history : list HistoryItem) : jstr :=
  lit "[user]" ++ nl ++ ofNat (List.length history).

Definition demoSession : TaskSession :=
  {| s_id := lit "t1"; s_subagentName := lit "general";
     s_history := [HUser 0 (lit "first prompt")] |}.

Definition demoWorld : World :=
  {| taskSessions := [(lit "t1", demoSession)]; nextId := 1; aborted := false |}.

Definition demoInvocation (subagent prompt : string) (id : option jstr)
    : TaskInvocation :=
  {| i_description := lit "scan"; i_prompt := lit prompt;
     i_subagent_type := lit subagent; i_task_id := id |}.

Definition demoParallelArgs : TaskArguments :=
  {| description := lit "delegate"; prompt := lit "do work";
     subagent_type := lit "general"; task_id := None;
     parallel_tasks :=
       Some [ demoInvocation "general" "part one" (Some (lit "a"));
              demoInvocation "explore" "part two" None ] |}.

(** Nested loops of a batch to go with [demoRunSubagent]: the loop for
    [explore] throws, any other answers; the sessions stay as launched. *)
Definition demoNestedLoops (before : World) (launched : list Launched)
    (after : World) : (nat -> Result jstr * list HistoryItem) * World :=
  (fun index =>
     match nth_error launched index with
     | Some (Running subagent _ session) =>
         if Js.eqb (agent_name subagent) (lit "explore")
         then (Throw (OtherError (lit "Error") (lit "boom")), s_history session)
         else (Ok (lit "done"), s_history session)
     | _ => (Ok [], [])
     end,
   after).

(** The arc invocations recorded in a log, as the budgets they were given,
    and the number of backend calls in it. *)
Definition enteredBudgets (evs : list Event) : list Z :=
  flat_map (fun e => match e with ArcEntered b => [b] | _ => [] end) evs.

Definition isBackendCalled (e : Event) : bool :=
  match e with BackendCalled _ => true | _ => false end.

Definition backendCalls (evs : list Event) : nat :=
  List.length (filter isBackendCalled evs).

(** [n; n-1; ...; 0]. *)
Fixpoint countdownFrom (n : nat) : list Z :=
  Z.of_nat n :: match n with
                | O => []
                | S m => countdownFrom m
                end.

Definition countdown (budget : Z) : list Z := countdownFrom (Z.to_nat budget).

(** The signal is never aborted. *)
Definition neverAborted (env : ArcEnv) : Prop :=
  forall t, signalAborted env t = false.

(** Loading the tools and summarising for a compaction return; they do
    not throw. *)
Definition collaboratorsReturn (env : ArcEnv) : Prop :=
  (forall t, loadTools env t = Ok tt)
  /\ (forall t messages,
        exists stream summary,
          generateCompactionSummary env t messages = (stream, Ok summary)).

(** The backend answers every call with output that ends in a
    malformed-tool-call. *)
Definition alwaysMalformed (env : ArcEnv) : Prop :=
  forall t messages,
    exists stream output curl lastIr,
      backendRun env t messages = (stream, Ok (RunSuccess output curl))
      /\ lastOf output = Some lastIr /\ isMalformed lastIr = true.

(** A backend that streams a brace and returns one malformed tool call. *)
Definition malformedEnv : ArcEnv :=
  {| signalAborted := fun _ => false;
     loadTools := fun _ => Ok tt;
     shouldAutoCompactHistory := fun _ => false;
     generateCompactionSummary := fun _ _ => ([], Ok None);
     backendRun := fun _ _ =>
       ([Tokens (lit "{") ToolTokens],
        Ok (RunSuccess [IRToolMalformed (lit "bad json")] (lit "curl")));
     validateTool := fun _ _ _ => Ok tt;
     resolvePath := fun _ path => Ok path;
     readUntracked := fun _ _ => Ok tt;
     filePathOf := fun arguments => arguments;
     readFile := fun _ _ => Ok [];
     autofixEdit := fun _ _ _ => Ok None;
     mergeArguments := fun arguments _ => arguments |}.

(** The same backend behind a signal that is raised from the start. *)
Definition abortedEnv : ArcEnv :=
  {| signalAborted := fun _ => true;
     loadTools := loadTools malformedEnv;
     shouldAutoCompactHistory := shouldAutoCompactHistory malformedEnv;
     generateCompactionSummary := generateCompactionSummary malformedEnv;
     backendRun := backendRun malformedEnv;
     validateTool := validateTool malformedEnv;
     resolvePath := resolvePath malformedEnv;
     readUntracked := readUntracked malformedEnv;
     filePathOf := filePathOf malformedEnv;
     readFile := readFile malformedEnv;
     autofixEdit := autofixEdit malformedEnv;
     mergeArguments := mergeArguments malformedEnv |}.

Definition freshArc : ArcState := {| tick := 0; events := [] |}.

(** Events other than arc entries and backend calls. *)
Definition quiet (e : Event) : bool :=
  match e with
  | ArcEntered _ | BackendCalled _ => false
  | _ => true
  end.

(** The text of a block: group 1 of a wrapper match ([match[1] ?? ""]). *)
Definition blockText (m : option jstr) : jstr :=
  match m with Some block => block | None => [] end.

(** The wrapped blocks of a tool output, in input order. *)
Definition wrappedBlocks (content : jstr) : list jstr :=
  map blockText (matchAll1 reTaskObservation content).

(** What the single-observation builder emits for an explicit empty task
    id: the [task_id:] line carries no value. *)
Definition emptyIdOutput : jstr :=
  lit "task_id: " ++ nl
  ++ lit "task_subagent: general" ++ nl
  ++ lit "task_description: scan" ++ nl
  ++ nl
  ++ lit "<task_trace>" ++ nl ++ lit "[user]" ++ nl ++ lit "</task_trace>" ++ nl
  ++ nl
  ++ lit "<task_result>" ++ nl ++ lit "done" ++ nl ++ lit "</task_result>".

(** The character before the position reached after reading [s]. *)
Definition lastSeen (prev : option ascii) (s : jstr) : option ascii :=
  fold_left (fun _ c => Some c) s prev.

(** The nodes of a literal run of characters. *)
Definition chars (s : jstr) : Regex.t := map (fun c => One (Char c)) s.

(** Where a quantifier over class [c] stops: at the end of the input or
    before a character outside [c]. *)
Definition stopsAt (c : CharClass) (rest : jstr) : Prop :=
  match rest with
  | [] => True
  | x :: _ => accepts c x = false
  end.

(** *** Observations that survive the wire format *)

Definition singleLine (x : jstr) : bool :=
  forallb (fun c => negb (isLineTerminator c)) x.

(** [trim] leaves the text as it is. *)
Definition trimmed (x : jstr) : bool := Js.eqb (trim x) x.

Definition lacks (needle : string) (x : jstr) : bool :=
  negb (includes (lit needle) x).

(** A value of one of the three header lines: not empty, on one line,
    without white space around it, and without an opening tag of the two
    bodies. *)
Definition headerOk (x : jstr) : bool :=
  nonEmpty x && singleLine x && trimmed x
  && lacks "<task_trace>" x && lacks "<task_result>" x.

(** Trace and result: without white space around them, within the
    builder's caps, and without the tags that end or start a body. *)
Definition bodiesOk (traceCap resultCap : Z) (o : TaskObservation) : bool :=
  trimmed (o_trace o) && (len (o_trace o) <=? traceCap)%Z
  && lacks "</task_trace>" (o_trace o) && lacks "<task_result>" (o_trace o)
  && trimmed (o_result o) && (len (o_result o) <=? resultCap)%Z
  && lacks "</task_result>" (o_result o).

Definition everyField (p : jstr -> bool) (o : TaskObservation) : bool :=
  p (o_taskId o) && p (o_subagentName o) && p (o_description o)
  && p (o_trace o) && p (o_result o).

Definition blockOk (traceCap resultCap : Z) (o : TaskObservation) : bool :=
  headerOk (o_taskId o) && headerOk (o_subagentName o)
  && headerOk (o_description o) && bodiesOk traceCap resultCap o.

(** What the single builder's text gives back: a block within the caps
    4,000 and 2,000 that holds no opening wrapper tag. *)
Definition singleRoundTrips (o : TaskObservation) : bool :=
  blockOk 4000 2000 o && everyField (lacks "<task_observation>") o.

(** What the batch builder's text gives back: a block within the caps
    3,000 and 1,500 that holds no closing wrapper tag. *)
Definition batchRoundTrips (o : TaskObservation) : bool :=
  blockOk 3000 1500 o && everyField (lacks "</task_observation>") o.

(** The lines of an observation block, written out. *)
Definition blockLines (id name desc trace result : jstr) : jstr :=
  lit "task_id: " ++ id ++ LF ::
  lit "task_subagent: " ++ name ++ LF ::
  lit "task_description: " ++ desc ++ LF ::
  LF ::
  lit "<task_trace>" ++ LF :: trace ++ LF :: lit "</task_trace>" ++ LF ::
  LF ::
  lit "<task_result>" ++ LF :: result ++ LF :: lit "</task_result>".

(** The shape of the three header expressions and of the three tag
    expressions. *)
Definition reField (key : jstr) : Regex.t :=
  [Bol] ++ chars key ++ [Star Space; GroupOpen; Plus Dot; GroupClose; Eol].

Definition reTagged (opening closing : jstr) : Regex.t :=
  chars opening
  ++ [Opt (Char LF); GroupOpen; LazyStar AnyChar; GroupClose; Opt (Char LF)]
  ++ chars closing.

(** Two observations that do not come back as they went in: a trace with
    a leading blank, a trace longer than the cap. *)
Definition paddedTrace : TaskObservation :=
  {| o_taskId := lit "t"; o_subagentName := lit "general";
     o_description := lit "scan"; o_trace := lit " x"; o_result := lit "ok" |}.

Definition longTrace : TaskObservation :=
  {| o_taskId := lit "t"; o_subagentName := lit "general";
     o_description := lit "scan";
     o_trace := repeat "a"%char (Z.to_nat 4001); o_result := lit "ok" |}.

Definition plainObservation (id : string) : TaskObservation :=
  {| o_taskId := lit id; o_subagentName := lit "explore";
     o_description := lit "scan repo";
     o_trace := lit "[assistant]" ++ nl ++ lit "planning";
     o_result := [] |}.

(** The text of a block inside its wrapper. *)
Definition blockOf (o : TaskObservation) : jstr :=
  join nl (observationFields o (o_trace o) (o_result o)).

(** ** Plain objects read by key

    The observations of a run and of the UI state are plain objects keyed
    by task id.  [object[key]] finds an own property or, failing that,
    what [Object.prototype] provides under that name: one of its members
    (functions, and the prototype itself under [__proto__]), or a property
    the program has put there.  The only write of the modelled code that
    can land on [Object.prototype] is [observation.result = ...] of
    [setLiveTaskResult] for the key [__proto__]; what it stored is part of
    the state. *)

Definition objectPrototypeMembers : list jstr :=
  map lit ["constructor"; "__defineGetter__"; "__defineSetter__";
           "hasOwnProperty"; "__lookupGetter__"; "__lookupSetter__";
           "isPrototypeOf"; "propertyIsEnumerable"; "toString"; "valueOf";
           "__proto__"; "toLocaleString"]%string.

(** What [object[key]] yields. *)
Inductive Property (V : Type) :=
| Own (value : V)
| Inherited (member : jstr)
| InheritedText (text : jstr)
| Undefined.
Arguments Own {V} value.
Arguments Inherited {V} member.
Arguments InheritedText {V} text.
Arguments Undefined {V}.

(** [object[key]]; [prototypeResult] is [Object.prototype.result] when it
    has been assigned. *)
Definition readProperty {V} (prototypeResult : option jstr) (key : jstr)
    (object : JsMap.t V) : Property V :=
  match JsMap.get key object with
  | Some value => Own value
  | None =>
      if mem key objectPrototypeMembers then Inherited key
      else if Js.eqb key (lit "result") then
        match prototypeResult with
        | Some text => InheritedText text
        | None => Undefined
        end
      else Undefined
  end.

(** The [TypeError] of a method call on [undefined], and of an assignment
    to a property of a string; the message texts are the engine's. *)
Definition cannotRead (method : string) : JsError :=
  OtherError (lit "TypeError")
    (lit "Cannot read properties of undefined (reading '" ++ lit method
     ++ lit "')").

Definition cannotCreate (property : string) (text : jstr) : JsError :=
  OtherError (lit "TypeError")
    (lit "Cannot create property '" ++ lit property ++ lit "' on string '"
     ++ text ++ lit "'").

(** ** Live task progress ([task-progress.ts])

    The registry of running delegation calls, keyed by tool-call id.
    [Date.now()] is a parameter, read at the registry's own logical
    clock. *)

Definition MAX_TRACE_CHARS : Z := 32000.
Definition MAX_RESULT_CHARS : Z := 8000.

Definition truncatedHead : jstr := lit "... (truncated)" ++ nl.

(** [input.slice(input.length - maxChars)] is the text from that index
    on. *)
Definition clampTail (input : jstr) (maxChars : Z) : jstr :=
  if (len input <=? maxChars)%Z then input
  else truncatedHead ++ skipn (Z.to_nat (len input - maxChars)) input.

Record LiveTaskRunState := {
  run_order : list jstr;
  run_observations : JsMap.t TaskObservation;
  run_updatedAt : Z;
}.

(** The registry, its clock, and [Object.prototype.result] where a
    result has been written through the key [__proto__]. *)
Record Progress := {
  runs : JsMap.t LiveTaskRunState;
  progressTick : nat;
  prototypeResult : option jstr;
}.

(** An entry of [startLiveTaskRun]'s [tasks] argument. *)
Record LiveTask := {
  lt_taskId : jstr;
  lt_subagentName : jstr;
  lt_description : jstr;
  lt_prompt : option jstr;
}.

(** [Object.fromEntries(entries)]: a later entry replaces an earlier one
    with the same key. *)
Definition fromEntries {V} (entries : list (jstr * V)) : JsMap.t V :=
  fold_left (fun object entry => JsMap.set (fst entry) (snd entry) object)
            entries [].

Definition runningResult : jstr :=
  lit "Subagent is running. Waiting for first tool outputs...".

Definition withTrace (observation : TaskObservation) (trace : jstr)
    : TaskObservation :=
  {| o_taskId := o_taskId observation;
     o_subagentName := o_subagentName observation;
     o_description := o_description observation;
     o_trace := trace;
     o_result := o_result observation |}.

Definition withResult (observation : TaskObservation) (result : jstr)
    : TaskObservation :=
  {| o_taskId := o_taskId observation;
     o_subagentName := o_subagentName observation;
     o_description := o_description observation;
     o_trace := o_trace observation;
     o_result := result |}.

Section LiveProgress.

Variable dateNow : nat -> Z.

Definition now_ : ST Progress Z :=
  fun s => (Ok (dateNow (progressTick s)),
            {| runs := runs s; progressTick := S (progressTick s);
               prototypeResult := prototypeResult s |}).

(** Writing through a run-state object that the registry holds. *)
Definition putRun (toolCallId : jstr) (state : LiveTaskRunState)
    : ST Progress unit :=
  modify (fun s => {| runs := JsMap.set toolCallId state (runs s);
                      progressTick := progressTick s;
                      prototypeResult := prototypeResult s |}).

Definition ensureRun (toolCallId : jstr) : ST Progress LiveTaskRunState :=
  s <- getState ;;
  match JsMap.get toolCallId (runs s) with
  | Some existing => ret existing
  | None =>
      t <- now_ ;;
      let created := {| run_order := []; run_observations := [];
                        run_updatedAt := t |} in
      putRun toolCallId created ;;;
      ret created
  end.

Definition initialObservation (task : LiveTask) : TaskObservation :=
  {| o_taskId := lt_taskId task;
     o_subagentName := lt_subagentName task;
     o_description := lt_description task;
     o_trace :=
       lit "status: running" ++ nl ++ lit "subagent: @" ++ lt_subagentName task
       ++ nl ++ nl ++ lit "prompt:" ++ nl
       ++ slice0 600 (match lt_prompt task with Some p => p | None => [] end);
     o_result := runningResult |}.

Definition startLiveTaskRun (toolCallId : jstr) (tasks : list LiveTask)
    : ST Progress unit :=
  state <- ensureRun toolCallId ;;
  let order := map lt_taskId tasks in
  let observations :=
    fromEntries (map (fun task => (lt_taskId task, initialObservation task))
                     tasks) in
  t <- now_ ;;
  putRun toolCallId {| run_order := order; run_observations := observations;
                       run_updatedAt := t |}.

(** [touch(state)]. *)
Definition touch (toolCallId : jstr) (state : LiveTaskRunState)
    : ST Progress unit :=
  t <- now_ ;;
  putRun toolCallId {| run_order := run_order state;
                       run_observations := run_observations state;
                       run_updatedAt := t |}.

(** [const observation = state.observations[taskId]]. *)
Definition observationProperty (state : LiveTaskRunState) (taskId : jstr)
    : ST Progress (Property TaskObservation) :=
  s <- getState ;;
  ret (readProperty (prototypeResult s) taskId (run_observations state)).

(** An inherited member is truthy and has no [trace], so [.trim()] is
    called on [undefined]; so is a text inherited under [result], unless
    it is empty, which is falsy. *)
Definition appendLiveTaskTrace (toolCallId taskId line : jstr)
    : ST Progress unit :=
  state <- ensureRun toolCallId ;;
  found <- observationProperty state taskId ;;
  match found with
  | Undefined | InheritedText [] => ret tt
  | Inherited _ | InheritedText _ => throw (cannotRead "trim")
  | Own observation =>
      let next :=
        if (len (trim (o_trace observation)) =? 0)%Z then line
        else o_trace observation ++ nl ++ nl ++ line in
      let observation' :=
        withTrace observation (clampTail next MAX_TRACE_CHARS) in
      touch toolCallId
        {| run_order := run_order state;
           run_observations :=
             JsMap.set taskId observation' (run_observations state);
           run_updatedAt := run_updatedAt state |}
  end.

(** [observation.result = ...] on an inherited member is a write to that
    member: to [Object.prototype] itself under [__proto__], else to a
    function, where none of the code modelled here reads it.  On an
    inherited text the assignment throws, the module being strict. *)
Definition setLiveTaskResult (toolCallId taskId result : jstr)
    : ST Progress unit :=
  state <- ensureRun toolCallId ;;
  found <- observationProperty state taskId ;;
  match found with
  | Undefined | InheritedText [] => ret tt
  | InheritedText text => throw (cannotCreate "result" text)
  | Inherited member =>
      (if Js.eqb member (lit "__proto__")
       then modify (fun s =>
                      {| runs := runs s; progressTick := progressTick s;
                         prototypeResult :=
                           Some (clampTail result MAX_RESULT_CHARS) |})
       else ret tt) ;;;
      touch toolCallId state
  | Own observation =>
      let observation' :=
        withResult observation (clampTail result MAX_RESULT_CHARS) in
      touch toolCallId
        {| run_order := run_order state;
           run_observations :=
             JsMap.set taskId observation' (run_observations state);
           run_updatedAt := run_updatedAt state |}
  end.

Definition markLiveTaskFailed (toolCallId taskId message : jstr)
    : ST Progress unit :=
  appendLiveTaskTrace toolCallId taskId (lit "[task-error]" ++ nl ++ message) ;;;
  setLiveTaskResult toolCallId taskId (lit "Subagent task failed: " ++ message).

(** The snapshot shares the run's order and observations. *)
Definition getLiveTaskRun (toolCallId : jstr)
    : ST Progress (option LiveTaskRunState) :=
  s <- getState ;; ret (JsMap.get toolCallId (runs s)).

Definition clearLiveTaskRun (toolCallId : jstr) : ST Progress unit :=
  modify (fun s => {| runs := JsMap.delete toolCallId (runs s);
                      progressTick := progressTick s;
                      prototypeResult := prototypeResult s |}).

End LiveProgress.

(** ** The task dashboard ([state.ts]) *)

Inductive TaskStatus := Working | Completed | Failed.

Definition getTaskStatus (observation : TaskObservation) : TaskStatus :=
  let trace := toLowerCase (o_trace observation) in
  let result := toLowerCase (o_result observation) in
  if includes (lit "[task-error]") trace
     || includes (lit "subagent task failed") result
  then Failed
  else if includes (lit "status: running") trace
          || includes (lit "subagent is running") result
  then Working
  else Completed.

(** [trace.match(/\[tool-request\]|tool-request:/g)?.length ?? 0]: the
    matches are found left to right and do not overlap; [skip] counts the
    characters of a match still to be passed. *)
Fixpoint countMatches (skip : nat) (trace : jstr) : nat :=
  match trace with
  | [] => 0
  | _ :: rest =>
      match skip with
      | S k => countMatches k rest
      | O =>
          if startsWith (lit "[tool-request]") trace
          then S (countMatches 13 rest)
          else if startsWith (lit "tool-request:") trace
          then S (countMatches 12 rest)
          else countMatches 0 rest
      end
  end.

Definition countTaskToolCalls (trace : jstr) : nat := countMatches 0 trace.

(** [Buffer.byteLength(text, "utf8")] on the modelled code units: one byte
    below 128, two from 128 on. *)
Definition utf8Length (text : jstr) : nat :=
  fold_right (fun c n => (if nat_of_ascii c <? 128 then 1 else 2) + n) 0 text.

Definition countTaskBytes (observation : TaskObservation) : nat :=
  utf8Length (o_trace observation ++ nl ++ o_result observation).

Record TaskDashboardItem := {
  item_taskId : jstr;
  item_subagentName : jstr;
  item_description : jstr;
  item_status : TaskStatus;
  item_toolCalls : nat;
  item_bytesReceived : nat;
}.

(** The part of the UI state that [taskDashboardFromState] picks. *)
Record DashboardState := {
  d_taskObservations : JsMap.t TaskObservation;
  d_taskObservationOrder : list jstr;
  d_liveTaskObservations : JsMap.t TaskObservation;
  d_liveTaskObservationOrder : list jstr;
}.

Definition dashboardOrder (state : DashboardState) : list jstr :=
  activeTaskOrder {| taskObservationOrder := d_taskObservationOrder state;
                     liveTaskObservationOrder := d_liveTaskObservationOrder state;
                     focus := FocusMain |}.

(** [state.liveTaskObservations[taskId] ?? state.taskObservations[taskId]]:
    what the live object yields, unless that is [undefined].
    [prototypeResult] is [Object.prototype.result] where the registry has
    written it. *)
Definition observationOf (prototypeResult : option jstr)
    (state : DashboardState) (taskId : jstr) : Property TaskObservation :=
  match readProperty prototypeResult taskId (d_liveTaskObservations state) with
  | Undefined => readProperty prototypeResult taskId (d_taskObservations state)
  | found => found
  end.

Definition dashboardItem (observation : TaskObservation) : TaskDashboardItem :=
  {| item_taskId := o_taskId observation;
     item_subagentName := o_subagentName observation;
     item_description := o_description observation;
     item_status := getTaskStatus observation;
     item_toolCalls := countTaskToolCalls (o_trace observation);
     item_bytesReceived := countTaskBytes observation |}.

(** The [map] and [filter] over the ids of the active order.  An id
    without observation gives no row.  What an id inherits is not
    [null], so its row is built: [getTaskStatus] calls [toLowerCase] on
    its missing [trace], and the [TypeError] ends the whole call. *)
Fixpoint dashboardRows (prototypeResult : option jstr)
    (state : DashboardState) (order : list jstr)
    : Result (list TaskDashboardItem) :=
  match order with
  | [] => Ok []
  | taskId :: rest =>
      match observationOf prototypeResult state taskId with
      | Undefined => dashboardRows prototypeResult state rest
      | Own observation =>
          match dashboardRows prototypeResult state rest with
          | Ok rows => Ok (dashboardItem observation :: rows)
          | Throw e => Throw e
          end
      | Inherited _ | InheritedText _ => Throw (cannotRead "toLowerCase")
      end
  end.

Definition taskDashboardFromState (prototypeResult : option jstr)
    (state : DashboardState) : Result (list TaskDashboardItem) :=
  dashboardRows prototypeResult state (dashboardOrder state).

(** The tool request as [provisionalTaskObservationsFromRequest] reads it:
    its id, the tool's name and, for the task tool, the arguments. *)
Record TaskToolRequest := {
  req_toolCallId : jstr;
  req_name : jstr;
  req_arguments : TaskArguments;
}.

Definition provisionalTaskObservationsFromRequest (toolReq : TaskToolRequest)
    : list TaskObservation :=
  if negb (Js.eqb (req_name toolReq) (lit "task")) then []
  else
    let args := req_arguments toolReq in
    let tasks :=
      match parallel_tasks args with
      | Some ts => ts
      | None => [singleInvocationOf args]
      end in
    mapi (fun task index =>
            {| o_taskId := match i_task_id task with
                           | Some id => id
                           | None => makeLiveTaskID (req_toolCallId toolReq) index
                           end;
               o_subagentName := i_subagent_type task;
               o_description := i_description task;
               o_trace :=
                 lit "status: running" ++ nl ++ lit "subagent: @"
                 ++ i_subagent_type task ++ nl ++ nl ++ lit "prompt:" ++ nl
                 ++ slice0 400 (i_prompt task);
               o_result := runningResult |})
         0 tasks.

(** ** Agents ([agents.ts]) *)

Module Agents.

(** A value of an agent's [tools] map: a boolean, or anything else a
    front matter may hold there. *)
Inductive ToolValue :=
| BoolValue (b : bool)
| OtherValue (json : jstr).

(** [Agent]; [None] is [undefined].  The numeric settings are kept as
    their JSON text: none of the functions below reads them. *)
Record Agent := {
  name : jstr;
  description : option jstr;
  mode : jstr;
  hidden : option bool;
  color : option jstr;
  model : option jstr;
  steps : option jstr;
  temperature : option jstr;
  topP : option jstr;
  tools : option (JsMap.t ToolValue);
  prompt : jstr;
  path : jstr;
  sourceFilePath : option jstr;
  native : option bool;
}.

Section Builtin.

(** The prompt texts of the built-in agents, by agent name; the built-in
    [octo] has the empty prompt. *)
Variable builtinPrompt : jstr -> jstr.

Definition builtin (n d m : string) (p : jstr) (t : list (jstr * bool))
    : Agent :=
  {| name := lit n; description := Some (lit d); mode := lit m;
     hidden := None; color := None; model := None; steps := None;
     temperature := None; topP := None;
     tools := Some (map (fun e => (fst e, BoolValue (snd e))) t);
     prompt := p; path := lit "builtin://" ++ lit n;
     sourceFilePath := None; native := Some true |}.

Definition octo : Agent :=
  builtin "octo"
    "Default coding agent. Orchestrates tasks and delegates to subagents."
    "primary" [] [(lit "*", true)].

Definition builtinAgents : list Agent :=
  [ octo;
    builtin "plan"
      "Planner agent. Decomposes tasks into parallelisable work units before any implementation."
      "primary" (builtinPrompt (lit "plan"))
      [(lit "*", true); (lit "edit", false); (lit "append", false);
       (lit "prepend", false); (lit "rewrite", false); (lit "create", false)];
    builtin "general"
      "General-purpose worker subagent. Executes a specific, well-defined task within its assigned scope."
      "subagent" (builtinPrompt (lit "general")) [(lit "*", true)];
    builtin "explore"
      "Read-only codebase exploration subagent. Gathers high-signal findings fast."
      "subagent" (builtinPrompt (lit "explore"))
      [(lit "*", false); (lit "read", true); (lit "list", true);
       (lit "fetch", true); (lit "web-search", true); (lit "skill", true)];
    builtin "researcher"
      "Read-only deep research subagent. Maps dependencies, patterns, and impact of proposed changes."
      "subagent" (builtinPrompt (lit "researcher"))
      [(lit "*", false); (lit "read", true); (lit "list", true);
       (lit "fetch", true); (lit "web-search", true); (lit "skill", true);
       (lit "shell", true)];
    builtin "reviewer"
      "Read-only code review subagent. Issues a verdict on correctness, quality, and safety."
      "subagent" (builtinPrompt (lit "reviewer"))
      [(lit "*", false); (lit "read", true); (lit "list", true);
       (lit "shell", true)];
    builtin "tester"
      "Testing subagent. Writes and runs tests, reports pass/fail and coverage."
      "subagent" (builtinPrompt (lit "tester"))
      [(lit "*", false); (lit "read", true); (lit "list", true);
       (lit "shell", true); (lit "edit", true); (lit "create", true);
       (lit "append", true)];
    builtin "janitor"
      "Post-verification cleanup subagent. Removes dead code, fixes style, never changes behaviour."
      "subagent" (builtinPrompt (lit "janitor"))
      [(lit "*", false); (lit "read", true); (lit "list", true);
       (lit "shell", true); (lit "edit", true); (lit "create", false)] ].

(** The two loops of [mergeAgents] over one [Map], then its values. *)
Definition mergeInto (merged : JsMap.t Agent) (agents : list Agent)
    : JsMap.t Agent :=
  fold_left (fun merged agent => JsMap.set (name agent) agent merged)
            agents merged.

Definition mergeAgents (custom : list Agent) : list Agent :=
  map snd (mergeInto (mergeInto [] builtinAgents) custom).

(** [!agent.hidden]. *)
Definition visible (agent : Agent) : bool :=
  match hidden agent with Some true => false | _ => true end.

Definition primaryAgents (agents : list Agent) : list Agent :=
  filter (fun agent => (Js.eqb (mode agent) (lit "primary")
                        || Js.eqb (mode agent) (lit "all"))
                       && visible agent) agents.

Definition subagentChoices (agents : list Agent) : list Agent :=
  filter (fun agent => (Js.eqb (mode agent) (lit "subagent")
                        || Js.eqb (mode agent) (lit "all"))
                       && visible agent) agents.

(** [mergeAgents([])[0]]; the list starts with the built-in [octo]. *)
Definition fallbackAgent : Agent := hd octo (mergeAgents []).

Definition resolveActiveAgent (agents : list Agent)
    (activeAgentName : option jstr) : Agent :=
  let availablePrimary := primaryAgents agents in
  match availablePrimary with
  | [] => fallbackAgent
  | first :: _ =>
      match (if truthyStr activeAgentName
             then match activeAgentName with
                  | Some wanted =>
                      find (fun agent => Js.eqb (name agent) wanted)
                           availablePrimary
                  | None => None
                  end
             else None) with
      | Some matched => matched
      | None => first
      end
  end.

End Builtin.

Definition resolveAgentModelOverride (agent : Agent)
    (modelOverride : option jstr) : option jstr :=
  if truthyStr (model agent) then model agent else modelOverride.

Definition isToolAllowed (agent : Agent) (toolName : jstr) : bool :=
  match tools agent with
  | None => true
  | Some allowed =>
      match JsMap.get toolName allowed with
      | Some (BoolValue direct) => direct
      | _ =>
          match JsMap.get (lit "*") allowed with
          | Some (BoolValue wildcard) => wildcard
          | _ => true
          end
      end
  end.

(** The loop over [Object.entries(tools)], which keeps the entries'
    order. *)
Definition filterToolsForAgent {T} (agent : Agent) (toolDefs : JsMap.t T)
    : JsMap.t T :=
  filter (fun entry => isToolAllowed agent (fst entry)) toolDefs.

End Agents.

(** The delegation targets of the task tool ([taskToolFactory]):
    [subagentChoices(allAgents)], as the tool reads them. *)
Definition delegationCandidates (allAgents : list Agents.Agent) : list Agent :=
  map (fun a => {| agent_name := Agents.name a;
                   agent_description :=
                     match Agents.description a with
                     | Some d => d
                     | None => []
                     end |})
      (Agents.subagentChoices allAgents).

(** ** Switching the primary agent ([state.ts]) *)

Record AgentState := {
  as_agents : list Agents.Agent;
  as_activeAgentName : option jstr;
  as_history : list HistoryItem;
  as_nextId : Z;
}.

(** [arr.findIndex(p)]: the first index whose element satisfies [p], or
    -1. *)
Fixpoint findIndexFrom {A} (i : Z) (p : A -> bool) (arr : list A) : Z :=
  match arr with
  | [] => (-1)%Z
  | x :: rest => if p x then i else findIndexFrom (i + 1) p rest
  end.

Definition findIndex {A} (p : A -> bool) (arr : list A) : Z :=
  findIndexFrom 0 p arr.

Section CycleAgent.

Variable builtinPrompt : jstr -> jstr.

(** [cycleAgent]; [allPrimary[i]] is read at an index within range. *)
Definition cycleAgent (st : AgentState) : AgentState :=
  let allPrimary := Agents.primaryAgents (as_agents st) in
  if (len' allPrimary <=? 1)%Z then st
  else
    let current :=
      Agents.resolveActiveAgent builtinPrompt (as_agents st)
        (as_activeAgentName st) in
    let idx :=
      findIndex (fun agent => Js.eqb (Agents.name agent) (Agents.name current))
                allPrimary in
    match nth_error allPrimary (Z.to_nat ((idx + 1) mod len' allPrimary)) with
    | Some next =>
        {| as_agents := as_agents st;
           as_activeAgentName := Some (Agents.name next);
           as_history :=
             as_history st
             ++ [HNotification (as_nextId st)
                   (lit "Agent: " ++ Agents.name next)];
           as_nextId := (as_nextId st + 1)%Z |}
    | None => st
    end.

End CycleAgent.

(** ** Key shortcuts for switching views ([subagent-nav-shortcuts.ts]) *)

Record KeyLike := {
  key_ctrl : option bool;
  key_shift : option bool;
  key_meta : option bool;
  key_leftArrow : option bool;
  key_rightArrow : option bool;
}.

Inductive Direction := Next | Prev.

(** [flag === true]. *)
Definition isTrue (flag : option bool) : bool :=
  match flag with Some true => true | _ => false end.

Definition resolveSubagentNavShortcut (input : jstr) (key : KeyLike)
    (mode : jstr) (taskCount : Z) : option Direction :=
  if (taskCount <=? 0)%Z then None
  else if Js.eqb mode (lit "menu") then None
  else if isTrue (key_shift key) && isTrue (key_rightArrow key) then Some Next
  else if isTrue (key_shift key) && isTrue (key_leftArrow key) then Some Prev
  else None.

Definition endsWith (suffix s : jstr) : bool :=
  startsWith (rev suffix) (rev s).

Definition ESC : ascii := ascii_of_nat 27.

Definition resolveRawSubagentNavSequence (sequence : jstr) : option Direction :=
  if endsWith (lit ";2C") sequence then Some Next
  else if endsWith (lit ";2D") sequence then Some Prev
  else if includes (ESC :: lit "[1;2C") sequence
          || includes (ESC :: lit "[2C") sequence then Some Next
  else if includes (ESC :: lit "[1;2D") sequence
          || includes (ESC :: lit "[2D") sequence then Some Prev
  else if includes (ESC :: lit "[67;2u") sequence then Some Next
  else if includes (ESC :: lit "[68;2u") sequence then Some Prev
  else None.

(** ** The trace summary of a subagent's history ([task.ts]) *)

(** [latestAssistantText]: the loop runs from the newest entry back. *)
Fixpoint latestAssistantFrom (newestFirst : list HistoryItem) : jstr :=
  match newestFirst with
  | [] => []
  | HAssistant a :: older =>
      let text := trim (a_content a) in
      if (0 <? len text)%Z then text else latestAssistantFrom older
  | _ :: older => latestAssistantFrom older
  end.

Definition latestAssistantText (history : list HistoryItem) : jstr :=
  latestAssistantFrom (rev history).

(** [`${n}`] for an integer. *)
Definition ofZ (n : Z) : jstr :=
  if (n <? 0)%Z then lit "-" ++ ofNat (Z.to_nat (- n)) else ofNat (Z.to_nat n).

Definition trimBlock (input : jstr) (maxChars : Z) : jstr :=
  let trimmed := trim input in
  if (len trimmed <=? maxChars)%Z then trimmed
  else slice0 maxChars trimmed ++ truncatedMarker.

Definition outputPreview (content : jstr) : jstr :=
  let maxLines := 20 in
  let split := splitLines content in
  let head := join nl (firstn maxLines split) in
  let withLineNote :=
    if maxLines <? List.length split
    then head ++ nl ++ lit "... (" ++ ofNat (List.length split - maxLines)
         ++ lit " more lines)"
    else head in
  trimBlock withLineNote 2000.

Section TraceSummary.

(** A tool call's arguments are kept as JSON text; [stringField args key]
    is the value of property [key] when the arguments are an object that
    holds a string there.  [cwd] is [process.cwd()]. *)
Variable stringField : jstr -> jstr -> option jstr.
Variable cwd : jstr.

Definition fieldOr (args : jstr) (key : string) (otherwise : jstr) : jstr :=
  match stringField args (lit key) with
  | Some value => value
  | None => otherwise
  end.

Definition summarizeToolRequest (name args : jstr) : jstr :=
  if Js.eqb name (lit "read") then fieldOr args "filePath" []
  else if Js.eqb name (lit "list") then fieldOr args "dirPath" cwd
  else if Js.eqb name (lit "shell") then fieldOr args "cmd" []
  else if Js.eqb name (lit "task") then
    let description := fieldOr args "description" [] in
    let subagentType := fieldOr args "subagent_type" (lit "unknown") in
    if (0 <? len description)%Z
    then lit "@" ++ subagentType ++ lit " " ++ description
    else lit "@" ++ subagentType
  else if Js.eqb name (lit "edit") || Js.eqb name (lit "create")
          || Js.eqb name (lit "append") || Js.eqb name (lit "prepend")
          || Js.eqb name (lit "rewrite") then fieldOr args "filePath" []
  else if Js.eqb name (lit "fetch") || Js.eqb name (lit "web-search")
  then fieldOr args "url" []
  else if Js.eqb name (lit "skill") then fieldOr args "skillName" []
  else [].

(** The lines one history entry contributes. *)
Definition summaryLines (item : HistoryItem) : list jstr :=
  match item with
  | HUser _ content => [lit "[user]" ++ nl ++ trimBlock content 1200]
  | HAssistant a =>
      (match a_reasoningContent a with
       | Some reasoning =>
           if (0 <? len reasoning)%Z && (0 <? len (trim reasoning))%Z
           then [lit "[reasoning]" ++ nl ++ trimBlock reasoning 1500]
           else []
       | None => []
       end)
      ++ [lit "[assistant]" ++ nl ++ trimBlock (a_content a) 2000]
  | HTool _ tool =>
      let summary := summarizeToolRequest (fnName tool) (fnArguments tool) in
      [lit "[tool-request] " ++ fnName tool
       ++ (if (0 <? len summary)%Z then nl ++ summary else [])]
  | HToolOutput _ result _ =>
      let lineCount :=
        match r_lines result with
        | Some lines => lines
        | None => len' (splitLines (r_content result))
        end in
      [lit "[tool-output] " ++ ofZ lineCount ++ lit " lines" ++ nl
       ++ outputPreview (r_content result)]
  | HToolFailed _ error _ toolName =>
      [lit "[tool-error] " ++ toolName ++ nl ++ trimBlock error 1200]
  | HToolMalformed _ error => [lit "[tool-malformed]" ++ nl ++ trimBlock error 1200]
  | HFileOutdated _ => [lit "[file-outdated]"]
  | HFileUnreadable _ path => [lit "[file-unreadable] " ++ path]
  | HToolReject _ => [lit "[tool-rejected]"]
  | HCompactionCheckpoint _ _ => [lit "[compaction-checkpoint]"]
  | HNotification _ _ => []
  end.

Definition summarizeTaskTrace (history : list HistoryItem) : jstr :=
  let lines := flat_map summaryLines history in
  trimBlock (join (nl ++ nl) lines) 12000.

End TraceSummary.

(** ** Front matter of an agent file ([agents.ts]) *)

(** [content.replace(/\r\n/g, "\n")]. *)
Fixpoint replaceCRLF (content : jstr) : jstr :=
  match content with
  | [] => []
  | c :: tail =>
      match tail with
      | d :: rest =>
          if Ascii.eqb c CR && Ascii.eqb d LF
          then LF :: replaceCRLF rest
          else c :: replaceCRLF tail
      | [] => [c]
      end
  end.

(** [hay.indexOf(needle)]: [None] is -1. *)
Fixpoint indexOfStr (needle hay : jstr) : option nat :=
  if startsWith needle hay then Some 0
  else match hay with
       | [] => None
       | _ :: hay' => option_map S (indexOfStr needle hay')
       end.

Definition splitFrontmatter (content : jstr) : option (jstr * jstr) :=
  let normalized := replaceCRLF content in
  if negb (startsWith (lit "---" ++ nl) normalized) then None
  else
    let rest := skipn 4 normalized in
    match indexOfStr (nl ++ lit "---") rest with
    | None => None
    | Some endIndex =>
        Some (firstn endIndex rest, trim (skipn (endIndex + 4) rest))
    end.

(** ** The menu ([state.ts]) *)

Inductive VimMode := NORMAL | INSERT.

(** [modeData]: the input mode with its vim mode, the menu, and the other
    modes with whatever they carry. *)
Inductive ModeData (Payload : Type) :=
| ModeInput (vimMode : VimMode)
| ModeMenu
| ModeOther (mode : jstr) (payload : Payload).
Arguments ModeInput {Payload} vimMode.
Arguments ModeMenu {Payload}.
Arguments ModeOther {Payload} mode payload.

Record MenuState (Payload : Type) := {
  modeData : ModeData Payload;
  preMenuVimMode : option VimMode;
}.

Section Menu.

Variable Payload : Type.

Definition orInsert (vimMode : option VimMode) : VimMode :=
  match vimMode with Some v => v | None => INSERT end.

Definition toggleMenu (st : MenuState Payload) : MenuState Payload :=
  match modeData st with
  | ModeInput vimMode =>
      {| modeData := ModeMenu; preMenuVimMode := Some vimMode |}
  | ModeMenu =>
      {| modeData := ModeInput (orInsert (preMenuVimMode st));
         preMenuVimMode := None |}
  | ModeOther _ _ => st
  end.

Definition closeMenu (st : MenuState Payload) : MenuState Payload :=
  {| modeData := ModeInput (orInsert (preMenuVimMode st));
     preMenuVimMode := None |}.

Definition openMenu (st : MenuState Payload) : MenuState Payload :=
  let currentVimMode :=
    match modeData st with ModeInput vimMode => vimMode | _ => INSERT end in
  {| modeData := ModeMenu; preMenuVimMode := Some currentVimMode |}.

Definition setVimMode (vimMode : VimMode) (st : MenuState Payload)
    : MenuState Payload :=
  match modeData st with
  | ModeInput _ =>
      {| modeData := ModeInput vimMode; preMenuVimMode := preMenuVimMode st |}
  | _ => st
  end.

End Menu.

(** ** Vocabulary and scenarios of the further properties *)

(** No assistant entry carries a reasoning text that is non-empty but
    blank. *)
Definition noBlankReasoning (history : list HistoryItem) : Prop :=
  Forall (fun item =>
            match item with
            | HAssistant a =>
                match a_reasoningContent a with
                | Some (c :: r) => trim (c :: r) <> []
                | _ => True
                end
            | _ => True
            end) history.

(** The result of the per-entry step of compaction on some entry. *)
Definition sanitised (item : HistoryItem) : Prop :=
  exists original, item = trimHistoryItem original.

(** The seed and the newest entry together fit the character ceiling. *)
Definition newestFits (history : list HistoryItem) : Prop :=
  match history, lastOf history with
  | first :: _ :: _, Some newest =>
      ((if isUser first
        then estimateHistoryItemSize (trimHistoryItem first) else 0)
       + estimateHistoryItemSize (trimHistoryItem newest)
       <= MAX_SUBAGENT_HISTORY_CHARS)%Z
  | [only], _ =>
      isUser only = true
      \/ (estimateHistoryItemSize (trimHistoryItem only)
          <= MAX_SUBAGENT_HISTORY_CHARS)%Z
  | _, _ => True
  end.

(** A computation of the arc that adds to the log no arc entry and at most
    [n] backend calls. *)
Definition callsAtMost {A} (n : nat) (m : Arc A) : Prop :=
  forall st, exists evs,
    events (snd (m st)) = events st ++ evs
    /\ enteredBudgets evs = [] /\ backendCalls evs <= n.

Definition tokenTypeEqb (a b : TokenType) : bool :=
  match a, b with
  | Reasoning, Reasoning | Content, Content | ToolTokens, ToolTokens => true
  | _, _ => false
  end.

(** What a stream has delivered of one token type: nothing yet, or the
    texts of that type one after the other. *)
Definition streamedStep (type : TokenType) (sofar : option jstr)
    (e : StreamEvent) : option jstr :=
  match e with
  | Tokens text ty =>
      if tokenTypeEqb ty type
      then Some (match sofar with Some s => s | None => [] end ++ text)
      else sofar
  | AutofixJson => sofar
  end.

Definition streamed (stream : list StreamEvent) (type : TokenType)
    : option jstr :=
  fold_left (streamedStep type) stream None.

(** The observation the registry holds for a task of a run. *)
Definition liveObservation (s : Progress) (toolCallId taskId : jstr)
    : option TaskObservation :=
  match JsMap.get toolCallId (runs s) with
  | Some run => JsMap.get taskId (run_observations run)
  | None => None
  end.

(** The last entry with key [k]. *)
Definition lastEntry {V} (k : jstr) (entries : list (jstr * V)) : option V :=
  option_map snd (find (fun entry => Js.eqb (fst entry) k) (rev entries)).

(** A registry that holds one run of one task. *)
Definition emptyProgress : Progress :=
  {| runs := []; progressTick := 0; prototypeResult := None |}.

Definition demoLiveTask : LiveTask :=
  {| lt_taskId := lit "t1"; lt_subagentName := lit "explore";
     lt_description := lit "scan"; lt_prompt := Some (lit "look around") |}.

Definition demoProgress : Progress :=
  snd (startLiveTaskRun (fun t => Z.of_nat t) (lit "call1") [demoLiveTask]
         emptyProgress).

(** A task tool request with the given id and arguments. *)
Definition taskRequest (toolCallId : jstr) (args : TaskArguments)
    : TaskToolRequest :=
  {| req_toolCallId := toolCallId; req_name := lit "task";
     req_arguments := args |}.

(** What a key inherits, as opposed to what the object holds or lacks. *)
Definition isInherited {V} (found : Property V) : bool :=
  match found with
  | Inherited _ | InheritedText _ => true
  | Own _ | Undefined => false
  end.

(** The ids of the active order for which the state holds an
    observation. *)
Definition shownTasks (prototypeResult : option jstr) (state : DashboardState)
    : list jstr :=
  filter (fun taskId => match observationOf prototypeResult state taskId with
                        | Own _ => true
                        | _ => false
                        end)
         (dashboardOrder state).

Definition demoDashboard : DashboardState :=
  {| d_taskObservations :=
       [(lit "task_1", plainObservation "task_1")];
     d_taskObservationOrder := [lit "task_1"; lit "task_2"];
     d_liveTaskObservations := [];
     d_liveTaskObservationOrder := [] |}.

(** The last agent of a list with the given name. *)
Definition lastNamed (n : jstr) (agents : list Agents.Agent)
    : option Agents.Agent :=
  find (fun agent => Js.eqb (Agents.name agent) n) (rev agents).

(** An agent that can be delegated to: listed, not hidden, and of mode
    [subagent] or [all]. *)
Definition delegable (allAgents : list Agents.Agent) (n : jstr) : Prop :=
  exists agent,
    In agent allAgents /\ Agents.name agent = n
    /\ Agents.hidden agent <> Some true
    /\ (Agents.mode agent = lit "subagent" \/ Agents.mode agent = lit "all").

Definition customAgent (n m : string) (h : option bool) : Agents.Agent :=
  {| Agents.name := lit n; Agents.description := None; Agents.mode := lit m;
     Agents.hidden := h; Agents.color := None; Agents.model := None;
     Agents.steps := None; Agents.temperature := None; Agents.topP := None;
     Agents.tools := None; Agents.prompt := lit "custom";
     Agents.path := lit "/repo/agents"; Agents.sourceFilePath := None;
     Agents.native := None |}.

Definition noPrompts : jstr -> jstr := fun _ => [].

Definition demoAgentState : AgentState :=
  {| as_agents := Agents.mergeAgents noPrompts [customAgent "docs" "all" None];
     as_activeAgentName := Some (lit "plan");
     as_history := []; as_nextId := 7 |}.

(** Arguments that resume session [t1], which [demoWorld] holds for
    [general], under another subagent. *)
Definition demoResumeArgs : TaskArguments :=
  {| description := lit "resume"; prompt := lit "carry on";
     subagent_type := lit "explore"; task_id := Some (lit "t1");
     parallel_tasks := None |}.

Definition isNotification (item : HistoryItem) : bool :=
  match item with HNotification _ _ => true | _ => false end.

(** An entry that cannot be the latest assistant text: any entry that is
    not an assistant's, and an assistant's whose content is blank. *)
Definition noAssistantText (item : HistoryItem) : Prop :=
  match item with
  | HAssistant a => trim (a_content a) = []
  | _ => True
  end.

(** The fence of a front matter block: a line break and three dashes. *)
Definition fence : jstr := nl ++ lit "---".

Definition demoAgentFile : jstr :=
  lit "---" ++ nl ++ lit "name: docs" ++ nl ++ lit "---" ++ nl ++ lit "Write docs.".

(** ** The observation format, read off the text

    What a tool output holds, found by looking for the tags and the labels
    in its text with [indexOf] and line by line, without any regular
    expression: the reading the parser is compared with. *)

Module ByText.

(** [s] without the line feed it starts with, if it starts with one. *)
Definition withoutFirstLF (s : jstr) : jstr :=
  match s with
  | c :: s' => if Ascii.eqb c LF then s' else s
  | [] => []
  end.

Fixpoint endsInLF (s : jstr) : bool :=
  match s with
  | [] => false
  | [c] => Ascii.eqb c LF
  | _ :: s' => endsInLF s'
  end.

(** [s] without the line feed it ends in, if it ends in one. *)
Definition withoutLastLF (s : jstr) : jstr :=
  if endsInLF s then removelast s else s.

(** The first stretch of [s] between [opening] and [closing]: the text
    from behind the first [opening] to the first [closing] after it, less
    one line feed at its start and then one at its end; with it, the text
    behind that [closing].  Nothing without an [opening], or without a
    [closing] behind the first one. *)
Definition enclosed (opening closing s : jstr) : option (jstr * jstr) :=
  match indexOfStr opening s with
  | None => None
  | Some start =>
      let body := withoutFirstLF (skipn (start + List.length opening) s) in
      match indexOfStr closing body with
      | None => None
      | Some stop =>
          Some (withoutLastLF (firstn stop body),
                skipn (stop + List.length closing) body)
      end
  end.

(** The stretches between [opening] and [closing] from left to right,
    each looked for behind the [closing] of the one before. *)
Fixpoint enclosedAll (opening closing : jstr) (fuel : nat) (s : jstr)
    : list jstr :=
  match fuel with
  | O => []
  | S fuel' =>
      match enclosed opening closing s with
      | None => []
      | Some (stretch, rest) =>
          stretch :: enclosedAll opening closing fuel' rest
      end
  end.

(** The wrapped blocks of a tool output, in the order of the text. *)
Definition wrappers (content : jstr) : list jstr :=
  enclosedAll (lit "<task_observation>") (lit "</task_observation>")
    (List.length content) content.

(** The text behind the first [label] that starts a line of [s];
    [lineStart] tells whether [s] itself starts a line. *)
Fixpoint afterLabel (label : jstr) (lineStart : bool) (s : jstr)
    : option jstr :=
  if lineStart && startsWith label s then Some (skipn (List.length label) s)
  else
    match s with
    | [] => None
    | c :: s' => afterLabel label (isLineTerminator c) s'
    end.

(** [s] up to the end of its first line. *)
Fixpoint lineOf (s : jstr) : jstr :=
  match s with
  | [] => []
  | c :: s' => if isLineTerminator c then [] else c :: lineOf s'
  end.

(** The value that follows a label: the white space behind the label is
    passed, line breaks with it, and the value is the rest of the line
    reached, trimmed.  No value where only white space follows. *)
Definition valueBehind (rest : jstr) : option jstr :=
  match trimStart rest with
  | [] => None
  | value => Some (trim (lineOf value))
  end.

Definition field (label s : jstr) : option jstr :=
  match afterLabel label true s with
  | Some rest => valueBehind rest
  | None => None
  end.

(** The trimmed text between two tags, empty without them. *)
Definition bodyOf (opening closing s : jstr) : jstr :=
  match enclosed opening closing s with
  | Some (body, _) => trim body
  | None => []
  end.

(** The observation a block stands for: its three fields must have a
    value. *)
Definition observation (block : jstr) : option TaskObservation :=
  match field (lit "task_id:") block,
        field (lit "task_subagent:") block,
        field (lit "task_description:") block with
  | Some id, Some subagentName, Some description =>
      Some {| o_taskId := id;
              o_subagentName := subagentName;
              o_description := description;
              o_trace := bodyOf (lit "<task_trace>") (lit "</task_trace>") block;
              o_result :=
                bodyOf (lit "<task_result>") (lit "</task_result>") block |}
  | _, _, _ => None
  end.

End ByText.

(** A text that is neither [undefined] nor empty. *)
Definition truthyText (v : option jstr) : option jstr :=
  match v with
  | Some (c :: v') => Some (c :: v')
  | _ => None
  end.

(** A batch text of three blocks: one without [task_id], one well formed,
    one whose [task_id] line is empty. *)
Definition threeBlockOutput : jstr :=
  lit "task_parallel_count: 3" ++ nl ++ nl
  ++ lit "<task_observation>" ++ nl
  ++ lit "task_subagent: general" ++ nl
  ++ lit "task_description: no id" ++ nl
  ++ lit "</task_observation>" ++ nl ++ nl
  ++ lit "<task_observation>" ++ nl
  ++ lit "task_id: b" ++ nl
  ++ lit "task_subagent: explore" ++ nl
  ++ lit "task_description: scan b" ++ nl ++ nl
  ++ lit "<task_result>" ++ nl ++ lit "found" ++ nl ++ lit "</task_result>" ++ nl
  ++ lit "</task_observation>" ++ nl ++ nl
  ++ lit "<task_observation>" ++ nl
  ++ lit "task_id: " ++ nl
  ++ lit "task_subagent: general" ++ nl
  ++ lit "task_description: scan c" ++ nl
  ++ lit "</task_observation>".

(** * Properties *)

(** ** Strings and maps *)

Lemma eqb_eq (a b : jstr) : Js.eqb a b = true <-> a = b.
Proof.
  unfold Js.eqb. destruct (list_eq_dec ascii_dec a b); split; congruence.
Qed.

Lemma eqb_neq (a b : jstr) : Js.eqb a b = false <-> a <> b.
Proof.
  unfold Js.eqb. destruct (list_eq_dec ascii_dec a b); split; congruence.
Qed.

Lemma eqb_refl (a : jstr) : Js.eqb a a = true.
Proof. now apply eqb_eq. Qed.

Lemma startsWith_app (p s : jstr) : startsWith p (p ++ s) = true.
Proof.
  induction p as [|c p IH]; simpl; [reflexivity|].
  now rewrite Ascii.eqb_refl, IH.
Qed.

Lemma includes_app_r (needle a b : jstr) :
  includes needle b = true -> includes needle (a ++ b) = true.
Proof.
  intros H. induction a as [|c a IH]; simpl; [exact H|].
  rewrite IH. apply orb_true_r.
Qed.

Lemma includes_middle (needle a b : jstr) :
  includes needle (a ++ needle ++ b) = true.
Proof.
  apply includes_app_r. destruct needle; simpl; [destruct b; reflexivity|].
  now rewrite Ascii.eqb_refl, startsWith_app.
Qed.

Lemma mem_In (x : jstr) (l : list jstr) : mem x l = true <-> In x l.
Proof.
  unfold mem. rewrite existsb_exists. split.
  - intros [y [Hy He]]. apply eqb_eq in He. now subst.
  - intros H. exists x. split; [exact H | apply eqb_refl].
Qed.

Lemma mem_false (x : jstr) (l : list jstr) : mem x l = false <-> ~ In x l.
Proof.
  rewrite <- mem_In. destruct (mem x l); split; congruence.
Qed.

Module JsMapFacts.

Section Facts.
Variable V : Type.
Implicit Types (m : JsMap.t V) (k : jstr) (v : V).

Lemma has_In k m : JsMap.has k m = true <-> In k (JsMap.keys m).
Proof.
  unfold JsMap.has, JsMap.keys. rewrite existsb_exists, in_map_iff. split.
  - intros [e [He Hk]]. apply eqb_eq in Hk. now exists e.
  - intros [e [Hk He]]. exists e. split; [exact He|]. now apply eqb_eq.
Qed.

Lemma delete_absent k m : ~ In k (JsMap.keys m) -> JsMap.delete k m = m.
Proof.
  unfold JsMap.delete, JsMap.keys.
  induction m as [|[k' v'] m IH]; simpl; [reflexivity|].
  intros H. destruct (Js.eqb k' k) eqn:E.
  - apply eqb_eq in E. tauto.
  - simpl. f_equal. apply IH. tauto.
Qed.

Lemma set_absent k v m :
  ~ In k (JsMap.keys m) -> JsMap.set k v m = m ++ [(k, v)].
Proof.
  unfold JsMap.keys.
  induction m as [|[k' v'] m IH]; simpl; [reflexivity|].
  intros H. destruct (Js.eqb k' k) eqn:E.
  - apply eqb_eq in E. tauto.
  - f_equal. apply IH. tauto.
Qed.

Lemma keys_delete k m :
  JsMap.keys (JsMap.delete k m)
  = filter (fun k' => negb (Js.eqb k' k)) (JsMap.keys m).
Proof.
  unfold JsMap.delete, JsMap.keys.
  induction m as [|[k' v'] m IH]; simpl; [reflexivity|].
  destruct (Js.eqb k' k); simpl; now rewrite IH.
Qed.

Lemma delete_not_in k m : ~ In k (JsMap.keys (JsMap.delete k m)).
Proof.
  rewrite keys_delete, filter_In. intros [_ H].
  now rewrite eqb_refl in H.
Qed.

Lemma size_delete_le k m : JsMap.size (JsMap.delete k m) <= JsMap.size m.
Proof. apply filter_length_le. Qed.

Lemma delete_head k v m :
  ~ In k (JsMap.keys m) -> JsMap.delete k ((k, v) :: m) = m.
Proof.
  intros H. unfold JsMap.delete. simpl. rewrite eqb_refl. simpl.
  now apply delete_absent.
Qed.

End Facts.

End JsMapFacts.

(** ** The session table: capacity and eviction *)

Section SessionTable.

Implicit Types (m : Sessions) (k : jstr) (session : TaskSession).

Lemma keysNonEmpty_delete k m :
  keysNonEmpty m -> keysNonEmpty (JsMap.delete k m).
Proof.
  intros H k' Hin. apply H.
  rewrite JsMapFacts.keys_delete, filter_In in Hin. tauto.
Qed.

Lemma keys_set k session m :
  forall k', In k' (JsMap.keys (JsMap.set k session m)) ->
             k' = k \/ In k' (JsMap.keys m).
Proof.
  unfold JsMap.keys. induction m as [|[k0 v0] m IH]; simpl; intros k' H.
  - destruct H as [H|[]]. now left.
  - destruct (Js.eqb k0 k) eqn:E; simpl in H.
    + right. exact H.
    + destruct H as [H|H]; [now right; left|].
      destruct (IH _ H); [now left | now right; right].
Qed.

Lemma size_delete_first k session m :
  JsMap.size (JsMap.delete k ((k, session) :: m)) <= JsMap.size m.
Proof.
  unfold JsMap.delete. simpl. rewrite eqb_refl. simpl.
  apply filter_length_le.
Qed.

Lemma evictSessions_step fuel m :
  evictSessions (S fuel) m =
  if MAX_TASK_SESSIONS <? JsMap.size m then
    match JsMap.firstKey m with
    | Some oldest =>
        if truthyStr (Some oldest)
        then evictSessions fuel (JsMap.delete oldest m) else m
    | None => m
    end
  else m.
Proof. reflexivity. Qed.

(** With no empty key in the table the eviction loop ends below the
    capacity. *)
Lemma evictSessions_bounded fuel :
  forall m, JsMap.size m <= fuel -> keysNonEmpty m ->
            JsMap.size (evictSessions fuel m) <= MAX_TASK_SESSIONS.
Proof.
  induction fuel as [|f IH]; intros m Hsize Hne; cbn [evictSessions].
  - unfold MAX_TASK_SESSIONS. lia.
  - destruct (MAX_TASK_SESSIONS <? JsMap.size m) eqn:E.
    2:{ apply Nat.ltb_ge in E. exact E. }
    destruct m as [|[k0 v0] m]; cbn [JsMap.firstKey].
    + unfold MAX_TASK_SESSIONS, JsMap.size. simpl. lia.
    + assert (k0 <> []) as Hk0 by (apply Hne; simpl; now left).
      destruct k0 as [|c k0]; [congruence|]. cbn [truthyStr].
      apply IH.
      * pose proof (size_delete_first (c :: k0) v0 m) as Hd.
        unfold JsMap.size in *. cbn [List.length] in Hsize. lia.
      * now apply keysNonEmpty_delete.
Qed.

(** Where the capacity bound does hold: no session is stored under the
    empty task id. *)
Lemma storeTaskSession_capacity k session m :
  k <> [] -> keysNonEmpty m ->
  JsMap.size (storeTaskSession k session m) <= MAX_TASK_SESSIONS.
Proof.
  intros Hk Hne. unfold storeTaskSession.
  apply evictSessions_bounded; [lia|].
  intros k' Hin. apply keys_set in Hin. destruct Hin as [->|Hin]; [exact Hk|].
  destruct (JsMap.has k m); [|now apply Hne].
  now apply (keysNonEmpty_delete k Hne).
Qed.

(** At capacity, storing a new id evicts the oldest-inserted session. *)
Lemma storeTaskSession_evicts_oldest k session k0 s0 m :
  k <> [] -> k0 <> [] ->
  NoDup (JsMap.keys ((k0, s0) :: m)) ->
  ~ In k (JsMap.keys ((k0, s0) :: m)) ->
  JsMap.size ((k0, s0) :: m) = MAX_TASK_SESSIONS ->
  storeTaskSession k session ((k0, s0) :: m) = m ++ [(k, session)].
Proof.
  intros Hk Hk0 Hnd Hnin Hsize. unfold storeTaskSession.
  assert (JsMap.has k ((k0, s0) :: m) = false) as ->.
  { destruct (JsMap.has k ((k0, s0) :: m)) eqn:E; [|reflexivity].
    apply JsMapFacts.has_In in E. contradiction. }
  rewrite (JsMapFacts.set_absent _ _ _ Hnin).
  assert (JsMap.size (((k0, s0) :: m) ++ [(k, session)]) = 49) as Hs.
  { unfold JsMap.size in *. rewrite length_app. simpl in *.
    unfold MAX_TASK_SESSIONS in Hsize. lia. }
  rewrite Hs. change 49 with (S 48) at 1. rewrite evictSessions_step, Hs.
  change (MAX_TASK_SESSIONS <? 49) with true. cbv iota.
  change (JsMap.firstKey (((k0, s0) :: m) ++ [(k, session)])) with (Some k0).
  cbv iota.
  destruct k0 as [|c k0]; [congruence|]. cbn [truthyStr].
  change (((c :: k0, s0) :: m) ++ [(k, session)])
    with ((c :: k0, s0) :: (m ++ [(k, session)])).
  rewrite JsMapFacts.delete_head.
  2:{ unfold JsMap.keys in *. rewrite map_app. simpl in *.
      inversion Hnd; subst. rewrite in_app_iff. simpl.
      intros [H|[H|[]]]; [contradiction|]. subst. tauto. }
  assert (JsMap.size (m ++ [(k, session)]) = 48) as Hs'.
  { unfold JsMap.size in *. rewrite length_app in *. simpl in *. lia. }
  change 48 with (S 47) at 1. rewrite evictSessions_step, Hs'. reflexivity.
Qed.

End SessionTable.

(** C9: the table does not stay within 48 entries.  A session stored under
    the empty task id is never evicted once it is the oldest: [!oldest]
    takes the empty key for a missing one and leaves the loop.  The empty
    id followed by 48 further ids leaves 49 sessions, the oldest still
    there. *)
Theorem storeTaskSession_empty_id_blocks_eviction :
  let table := storeAll ([] :: map ofNat (seq 1 48)) in
  JsMap.size table = 49 /\ JsMap.firstKey table = Some [].
Proof. vm_compute. split; reflexivity. Qed.

(** ** Task-id validation *)

Section Validation.

Implicit Types (invs : list TaskInvocation) (seen dups : list jstr).

Lemma collectDuplicates_nil invs :
  forall seen dups,
    collectDuplicates invs seen dups = [] <->
    dups = [] /\ NoDup (explicitIds invs)
    /\ (forall id, In id (explicitIds invs) -> ~ In id seen).
Proof.
  induction invs as [|inv invs IH]; intros seen dups; simpl.
  - split; [intros ->; repeat split; [constructor | tauto] | tauto].
  - destruct (i_task_id inv) as [id|]; simpl; [|apply IH].
    destruct (mem id seen) eqn:E; rewrite IH.
    + apply mem_In in E. split.
      * intros [H _]. destruct dups; discriminate.
      * intros [_ [_ H]]. exfalso. apply (H id); [now left | exact E].
    + apply mem_false in E. split.
      * intros [Hd [Hnd Hs]]. repeat split; [exact Hd | |].
        -- constructor; [|exact Hnd]. intros Hin. apply (Hs id Hin). now left.
        -- intros id' [<-|Hin]; [exact E|]. intros Hseen.
           apply (Hs id' Hin). now right.
      * intros [Hd [Hnd Hs]]. inversion Hnd; subst.
        repeat split; [exact H2|]. intros id' Hin [<-|Hseen]; [tauto|].
        apply (Hs id'); [now right | exact Hseen].
Qed.

Lemma explicitIds_app invs invs' :
  explicitIds (invs ++ invs') = explicitIds invs ++ explicitIds invs'.
Proof. apply flat_map_app. Qed.

Lemma explicitIds_In id invs :
  In id (explicitIds invs) <->
  exists l inv l', invs = l ++ inv :: l' /\ i_task_id inv = Some id.
Proof.
  unfold explicitIds. rewrite in_flat_map. split.
  - intros [inv [Hin Hid]]. destruct (i_task_id inv) as [id'|] eqn:E; [|easy].
    destruct Hid as [<-|[]]. apply in_split in Hin as [l [l' ->]].
    now exists l, inv, l'.
  - intros [l [inv [l' [-> Hid]]]]. exists inv. split.
    + apply in_elt.
    + rewrite Hid. now left.
Qed.

Lemma duplicateTaskId_not_NoDup invs :
  duplicateTaskId invs -> ~ NoDup (explicitIds invs).
Proof.
  intros [l1 [a [l2 [b [l3 [id [-> [Ha Hb]]]]]]]] Hnd.
  rewrite explicitIds_app in Hnd. simpl in Hnd. rewrite Ha in Hnd.
  apply NoDup_remove_2 in Hnd. apply Hnd. simpl.
  rewrite explicitIds_app. simpl. rewrite Hb.
  rewrite !in_app_iff. simpl. auto 10.
Qed.

Lemma duplicateTaskId_cons inv invs :
  duplicateTaskId invs -> duplicateTaskId (inv :: invs).
Proof.
  intros [l1 [a [l2 [b [l3 [id [-> H]]]]]]].
  now exists (inv :: l1), a, l2, b, l3, id.
Qed.

Lemma NoDup_or_duplicateTaskId invs :
  NoDup (explicitIds invs) \/ duplicateTaskId invs.
Proof.
  induction invs as [|inv invs [IH|IH]].
  - left. constructor.
  - simpl. destruct (i_task_id inv) as [id|] eqn:E; [|now left].
    destruct (in_dec (list_eq_dec ascii_dec) id (explicitIds invs)) as [Hin|Hnin].
    + right. apply explicitIds_In in Hin as [l [b [l' [-> Hb]]]].
      now exists [], inv, l, b, l', id.
    + left. now constructor.
  - right. now apply duplicateTaskId_cons.
Qed.

Lemma NoDup_iff_no_duplicateTaskId invs :
  NoDup (explicitIds invs) <-> ~ duplicateTaskId invs.
Proof.
  split.
  - intros H Hd. now apply duplicateTaskId_not_NoDup in Hd.
  - intros H. destruct (NoDup_or_duplicateTaskId invs); tauto.
Qed.

Lemma validateTaskIdUniqueness_ok invs :
  validateTaskIdUniqueness invs = Ok tt <-> ~ duplicateTaskId invs.
Proof.
  rewrite <- NoDup_iff_no_duplicateTaskId. unfold validateTaskIdUniqueness.
  pose proof (collectDuplicates_nil invs [] []) as H.
  destruct (collectDuplicates invs [] []) as [|d ds]; simpl.
  - split; [|reflexivity]. intros _. now apply H.
  - split; [discriminate|]. intros Hnd.
    assert (d :: ds = []) by (apply H; repeat split; [exact Hnd | tauto]).
    discriminate.
Qed.

Lemma validateTaskIdUniqueness_throws invs :
  duplicateTaskId invs ->
  validateTaskIdUniqueness invs
  = Throw (ToolError (duplicateMessage (collectDuplicates invs [] []))).
Proof.
  intros Hd. pose proof (validateTaskIdUniqueness_ok invs) as H.
  unfold validateTaskIdUniqueness in *.
  destruct (0 <? List.length (collectDuplicates invs [] [])); [reflexivity|].
  exfalso. now apply H.
Qed.

Lemma checkSubagents_ok candidates invs :
  checkSubagents candidates invs = Ok tt <->
  Forall (fun t => findAgent candidates (i_subagent_type t) <> None) invs.
Proof.
  induction invs as [|inv invs IH]; simpl.
  - split; [constructor | reflexivity].
  - destruct (findAgent candidates (i_subagent_type inv)) eqn:E.
    + rewrite IH. split; [intros H; constructor; [congruence | exact H]|].
      intros H. now inversion H.
    + split; [discriminate|]. intros H. inversion H; subst. congruence.
Qed.

(** A batch that falls back to the single top-level invocation has no two
    entries at all. *)
Lemma single_no_duplicate inv : ~ duplicateTaskId [inv].
Proof.
  intros [l1 [a [l2 [b [l3 [id [H _]]]]]]].
  apply (f_equal (@List.length _)) in H. rewrite length_app in H. simpl in H.
  rewrite length_app in H. simpl in H. lia.
Qed.

Lemma duplicateTaskId_inputs args :
  duplicateTaskId (invocationInputsOf args)
  <-> duplicateTaskId (parallelTasksOf args).
Proof.
  unfold invocationInputsOf, parallelTasksOf.
  destruct (parallel_tasks args) as [[|t ts]|]; try tauto.
  - split; intros H; [now apply single_no_duplicate in H|].
    destruct H as [l1 [a [l2 [b [l3 [id [H _]]]]]]]. now destruct l1.
  - split; intros H; [now apply single_no_duplicate in H|].
    destruct H as [l1 [a [l2 [b [l3 [id [H _]]]]]]]. now destruct l1.
Qed.

Lemma planFrom_derived liveRunId invs :
  forall start i inv,
    nth_error invs i = Some inv ->
    option_map p_taskId (nth_error (planFrom liveRunId start invs) i)
    = Some (match i_task_id inv with
            | Some id => id
            | None => makeLiveTaskID liveRunId (start + i)
            end).
Proof.
  induction invs as [|inv0 invs IH]; intros start i inv H.
  - now destruct i.
  - destruct i as [|i]; simpl in *.
    + injection H as ->. now rewrite Nat.add_0_r.
    + rewrite (IH (S start) i inv H). now rewrite Nat.add_succ_r.
Qed.

(** C4: [validate] accepts a call exactly when every named subagent is
    available and no two entries of [parallel_tasks] carry the same
    explicit [task_id]; with the top-level subagent available, two such
    entries make it throw the duplicate-task-id error.  Entries without a
    [task_id] never count as duplicates and get the id
    [task_<toolCallId>_<index>]; the top-level [task_id] plays no part, so
    one equal to a nested entry's id is accepted. *)
Theorem validate_rejects_duplicate_parallel_task_ids
    (candidates : list Agent) (args : TaskArguments) :
  (forall invs, validateTaskIdUniqueness invs = Ok tt <-> ~ duplicateTaskId invs)
  /\ (validate candidates args = Ok tt <->
      subagentsKnown candidates args
      /\ ~ duplicateTaskId (parallelTasksOf args))
  /\ (findAgent candidates (subagent_type args) <> None ->
      duplicateTaskId (parallelTasksOf args) ->
      validate candidates args
      = Throw (ToolError (duplicateMessage
                            (collectDuplicates (parallelTasksOf args) [] []))))
  /\ (forall id, validate candidates (withTaskId id args)
                 = validate candidates args)
  /\ (forall liveRunId i inv,
        nth_error (invocationInputsOf args) i = Some inv ->
        i_task_id inv = None ->
        option_map p_taskId (nth_error (planned liveRunId args) i)
        = Some (makeLiveTaskID liveRunId i)).
Proof.
  split; [exact validateTaskIdUniqueness_ok|].
  split; [|split; [|split]].
  - unfold validate, subagentsKnown.
    destruct (findAgent candidates (subagent_type args)) eqn:Etop.
    2:{ split; [discriminate | tauto]. }
    pose proof (validateTaskIdUniqueness_ok (invocationInputsOf args)) as Hu.
    rewrite duplicateTaskId_inputs in Hu.
    destruct (validateTaskIdUniqueness (invocationInputsOf args)) as [[]|e].
    + fold (parallelTasksOf args). rewrite checkSubagents_ok.
      split; [intros H; repeat split; [congruence | exact H | now apply Hu]|].
      tauto.
    + split; [discriminate|]. intros [_ Hnd]. apply Hu in Hnd. discriminate.
  - intros Htop Hdup. unfold validate.
    destruct (findAgent candidates (subagent_type args)); [|congruence].
    assert (invocationInputsOf args = parallelTasksOf args) as ->.
    { unfold invocationInputsOf, parallelTasksOf.
      destruct (parallel_tasks args) as [[|t ts]|] eqn:E; try reflexivity;
        unfold parallelTasksOf in Hdup; rewrite E in Hdup;
        destruct Hdup as [l1 [x [l2 [y [l3 [id [H _]]]]]]]; now destruct l1. }
    now rewrite (validateTaskIdUniqueness_throws Hdup).
  - intros id.
    assert (forall inv, validateTaskIdUniqueness [inv] = Ok tt) as Hone
      by (intros inv; apply validateTaskIdUniqueness_ok, single_no_duplicate).
    unfold validate, withTaskId, invocationInputsOf. simpl.
    destruct (findAgent candidates (subagent_type args)); [|reflexivity].
    destruct (parallel_tasks args) as [[|t ts]|]; try reflexivity;
      now rewrite !Hone.
  - intros liveRunId i inv Hnth Hnone. unfold planned.
    rewrite (planFrom_derived liveRunId _ 0 _ Hnth), Hnone. reflexivity.
Qed.

End Validation.

(** ** Focus navigation *)

Section Focus.

Implicit Types (st : UiState) (arr : list jstr).

Lemma activeTaskOrder_setFocus f st :
  activeTaskOrder (setFocus f st) = activeTaskOrder st.
Proof. reflexivity. Qed.

Lemma activeTaskOrder_live st :
  liveTaskObservationOrder st <> [] ->
  activeTaskOrder st = liveTaskObservationOrder st.
Proof.
  unfold activeTaskOrder. now destruct (liveTaskObservationOrder st).
Qed.

Lemma activeTaskOrder_finalized st :
  liveTaskObservationOrder st = [] ->
  activeTaskOrder st = taskObservationOrder st.
Proof. unfold activeTaskOrder. now intros ->. Qed.

Lemma indexOfFrom_absent arr :
  forall i x, (forall id, x = Some id -> ~ In id arr) ->
              indexOfFrom i x arr = (-1)%Z.
Proof.
  induction arr as [|y arr IH]; intros i x H; simpl; [reflexivity|].
  destruct x as [x|].
  - destruct (Js.eqb y x) eqn:E.
    + apply eqb_eq in E. exfalso. apply (H x eq_refl). now left.
    + apply IH. intros id Hid Hin. apply (H id Hid). now right.
  - apply IH. intros id Hid. discriminate.
Qed.

Lemma indexOfFrom_nth arr :
  forall i k x, NoDup arr -> nth_error arr k = Some x ->
                indexOfFrom i (Some x) arr = (i + Z.of_nat k)%Z.
Proof.
  induction arr as [|y arr IH]; intros i k x Hnd Hk.
  - now destruct k.
  - inversion Hnd; subst. destruct k as [|k]; simpl in *.
    + injection Hk as ->. rewrite eqb_refl. lia.
    + destruct (Js.eqb y x) eqn:E.
      * apply eqb_eq in E. subst. apply nth_error_In in Hk. contradiction.
      * rewrite (IH (i + 1)%Z k x H2 Hk). lia.
Qed.

Lemma at_nth arr k : at_ arr (Z.of_nat k) = nth_error arr k.
Proof.
  unfold at_. destruct (Z.ltb_spec (Z.of_nat k) 0); [lia|].
  now rewrite Nat2Z.id.
Qed.

Lemma last_cons {A} (l : list A) : forall x y, last (y :: l) x = last l y.
Proof.
  induction l as [|z l IH]; intros x y; [reflexivity|].
  change (last (y :: z :: l) x) with (last (z :: l) x).
  now rewrite !IH.
Qed.

Lemma lastOf_nth {A} (l : list A) :
  l <> [] -> lastOf l = nth_error l (List.length l - 1).
Proof.
  destruct l as [|x l]; [congruence|]. intros _.
  cbn [lastOf List.length]. rewrite Nat.sub_succ, Nat.sub_0_r. revert x.
  induction l as [|y l IH]; intros x; [reflexivity|].
  rewrite last_cons. cbn [List.length nth_error]. apply IH.
Qed.

Lemma at_last arr : arr <> [] -> at_ arr (len' arr - 1) = lastOf arr.
Proof.
  intros H. rewrite (lastOf_nth H). unfold len'.
  destruct arr as [|x arr]; [congruence|].
  replace (Z.of_nat (List.length (x :: arr)) - 1)%Z
    with (Z.of_nat (List.length (x :: arr) - 1))
    by (cbn [List.length]; lia).
  apply at_nth.
Qed.

Lemma length_eqb_0 {A} (l : list A) : l <> [] -> (List.length l =? 0) = false.
Proof. now destruct l. Qed.

(** One step forward from the [k]-th task of a duplicate-free ordering. *)
Lemma focusNextTask_from_task st k :
  NoDup (activeTaskOrder st) ->
  k < List.length (activeTaskOrder st) ->
  focus st = FocusTask (nth_error (activeTaskOrder st) k) ->
  focus (focusNextTask st) =
  if S k =? List.length (activeTaskOrder st) then FocusMain
  else FocusTask (nth_error (activeTaskOrder st) (S k)).
Proof.
  intros Hnd Hk Hf. unfold focusNextTask.
  assert (activeTaskOrder st <> []) as Hne
    by (destruct (activeTaskOrder st); simpl in *; [lia | congruence]).
  rewrite (length_eqb_0 Hne), Hf.
  destruct (nth_error (activeTaskOrder st) k) as [x|] eqn:Ex.
  2:{ apply nth_error_None in Ex. lia. }
  unfold indexOf. rewrite (indexOfFrom_nth 0 k Hnd Ex). unfold len'.
  destruct (Z.ltb_spec (0 + Z.of_nat k) 0); [lia|].
  destruct (Nat.eqb_spec (S k) (List.length (activeTaskOrder st)));
    destruct (Z.eqb_spec (0 + Z.of_nat k)
                (Z.of_nat (List.length (activeTaskOrder st)) - 1));
    try lia; [reflexivity|].
  cbn [focus setFocus]. f_equal.
  replace (0 + Z.of_nat k + 1)%Z with (Z.of_nat (S k)) by lia.
  apply at_nth.
Qed.

Lemma focusNextTask_order st :
  activeTaskOrder (focusNextTask st) = activeTaskOrder st.
Proof.
  unfold focusNextTask.
  destruct (List.length (activeTaskOrder st) =? 0); [reflexivity|].
  destruct (focus st); [reflexivity|].
  destruct (indexOf taskId (activeTaskOrder st) <? 0)%Z; [reflexivity|].
  now destruct (indexOf taskId (activeTaskOrder st)
                =? len' (activeTaskOrder st) - 1)%Z.
Qed.

Lemma iter_focusNextTask_order n st :
  activeTaskOrder (Nat.iter n focusNextTask st) = activeTaskOrder st.
Proof.
  induction n as [|n IH]; [reflexivity|]. simpl.
  now rewrite focusNextTask_order.
Qed.

(** From [main], [k + 1] steps forward reach the [k]-th task. *)
Lemma focusNextTask_visits st :
  focus st = FocusMain -> NoDup (activeTaskOrder st) ->
  forall k, k < List.length (activeTaskOrder st) ->
    focus (Nat.iter (S k) focusNextTask st)
    = FocusTask (nth_error (activeTaskOrder st) k).
Proof.
  intros Hmain Hnd k. induction k as [|k IH]; intros Hk.
  - simpl. unfold focusNextTask.
    assert (activeTaskOrder st <> []) as Hne
      by (destruct (activeTaskOrder st); simpl in *; [lia | congruence]).
    rewrite (length_eqb_0 Hne), Hmain. reflexivity.
  - change (Nat.iter (S (S k)) focusNextTask st)
      with (focusNextTask (Nat.iter (S k) focusNextTask st)).
    rewrite focusNextTask_from_task with (k := k);
      rewrite ?iter_focusNextTask_order; try assumption; try lia.
    + destruct (S k =? List.length (activeTaskOrder st)) eqn:E; [|reflexivity].
      apply Nat.eqb_eq in E. lia.
    + apply IH. lia.
Qed.

End Focus.

(** C7, as stated, fails: after [taskCount] steps forward from [main] the
    focus is on the last task, not back on [main].  With two tasks, two
    steps end on [task_2]. *)
Lemma focus_not_main_after_taskCount_steps :
  ~ (forall st, activeTaskOrder st <> [] -> focus st = FocusMain ->
       focus (Nat.iter (List.length (activeTaskOrder st)) focusNextTask st)
       = FocusMain).
Proof.
  intros H. specialize (H twoTaskState). vm_compute in H.
  assert (FocusTask (Some (lit "task_2")) = FocusMain) as Habs
    by (apply H; [discriminate | reflexivity]).
  discriminate Habs.
Qed.

(** C7, amended: over an active ordering without repeated ids, [k + 1]
    steps forward from [main] put the focus on the [k]-th id of the active
    ordering, and [taskCount + 1] steps bring it back to [main]; the active
    ordering is the live ordering whenever there is a live task, the
    finalized one otherwise.  A focus on an id that the active ordering
    does not hold moves to the ordering's last id in one step, forward or
    backward. *)
Theorem focus_cycle_returns_to_main (st : UiState) :
  activeTaskOrder st <> [] ->
  (liveTaskObservationOrder st <> [] ->
   activeTaskOrder st = liveTaskObservationOrder st)
  /\ (liveTaskObservationOrder st = [] ->
      activeTaskOrder st = taskObservationOrder st)
  /\ (focus st = FocusMain -> NoDup (activeTaskOrder st) ->
      (forall k, k < List.length (activeTaskOrder st) ->
         focus (Nat.iter (S k) focusNextTask st)
         = FocusTask (nth_error (activeTaskOrder st) k))
      /\ focus (Nat.iter (S (List.length (activeTaskOrder st))) focusNextTask st)
         = FocusMain)
  /\ (forall taskId,
        focus st = FocusTask taskId ->
        (forall id, taskId = Some id -> ~ In id (activeTaskOrder st)) ->
        focus (focusNextTask st) = FocusTask (lastOf (activeTaskOrder st))
        /\ focus (focusPrevTask st) = FocusTask (lastOf (activeTaskOrder st))).
Proof.
  intros Hne. split; [apply activeTaskOrder_live|].
  split; [apply activeTaskOrder_finalized|]. split.
  - intros Hmain Hnd. split; [now apply focusNextTask_visits|].
    set (n := List.length (activeTaskOrder st)).
    assert (0 < n) as Hn
      by (unfold n; destruct (activeTaskOrder st); simpl; [congruence | lia]).
    change (Nat.iter (S n) focusNextTask st)
      with (focusNextTask (Nat.iter n focusNextTask st)).
    destruct n as [|m] eqn:En; [lia|].
    rewrite focusNextTask_from_task with (k := m);
      rewrite ?iter_focusNextTask_order; try assumption; try lia.
    + fold n. rewrite En. now rewrite Nat.eqb_refl.
    + apply focusNextTask_visits; try assumption. lia.
  - intros taskId Hf Habsent.
    unfold focusNextTask, focusPrevTask.
    rewrite (length_eqb_0 Hne), Hf. unfold indexOf.
    rewrite (indexOfFrom_absent _ 0 Habsent). simpl.
    now rewrite (at_last Hne).
Qed.

(** The repository's own focus test as an instance: two tasks, three
    steps. *)
Lemma focus_cycle_returns_to_main_witness :
  focus (Nat.iter 3 focusNextTask twoTaskState) = FocusMain
  /\ focus (focusNextTask
              (setFocus (FocusTask (Some (lit "gone"))) twoTaskState))
     = FocusTask (Some (lit "task_2")).
Proof.
  assert (activeTaskOrder twoTaskState <> []) as Hne by discriminate.
  destruct (@focus_cycle_returns_to_main twoTaskState Hne)
    as (_ & _ & Hcycle & _).
  destruct (@focus_cycle_returns_to_main
              (setFocus (FocusTask (Some (lit "gone"))) twoTaskState) Hne)
    as (_ & _ & _ & Hsnap).
  split.
  - apply Hcycle; [reflexivity|].
    repeat constructor; simpl; intuition discriminate.
  - apply (Hsnap (Some (lit "gone"))); [reflexivity|].
    intros id [= <-]. simpl. intuition discriminate.
Defined.

(** ** History compaction *)

Section Compaction.

Implicit Types (item : HistoryItem) (l : list HistoryItem).

Lemma sizeOf_from l :
  forall acc,
    fold_left (fun sum entry => (sum + estimateHistoryItemSize entry)%Z) l acc
    = (acc + sizeOf l)%Z.
Proof.
  unfold sizeOf. induction l as [|x l IH]; intros acc; simpl; [lia|].
  rewrite (IH (acc + _)%Z), (IH (estimateHistoryItemSize x)). lia.
Qed.

Lemma sizeOf_cons item l :
  sizeOf (item :: l) = (estimateHistoryItemSize item + sizeOf l)%Z.
Proof. unfold sizeOf at 1. simpl. now rewrite sizeOf_from. Qed.

Lemma len_slice0 (cap : Z) (s : jstr) : (0 <= cap -> len (slice0 cap s) <= cap)%Z.
Proof.
  intros H. unfold len, slice0. rewrite length_firstn. lia.
Qed.

Lemma len_app (a b : jstr) : len (a ++ b) = (len a + len b)%Z.
Proof. unfold len. rewrite length_app. lia. Qed.

Lemma sanitizeLiveText_bound (s : jstr) (cap : Z) :
  (0 <= cap -> len (sanitizeLiveText s cap) <= cap + len truncatedMarker)%Z.
Proof.
  intros H. unfold sanitizeLiveText.
  destruct (Z.leb_spec (len (trim s)) cap).
  - unfold len in *. lia.
  - rewrite len_app. pose proof (len_slice0 (trim s) H). lia.
Qed.

Lemma truncateSubagentToolContent_bound (s : jstr) (cap : Z) :
  (0 <= cap ->
   len (truncateSubagentToolContent s cap)
   <= cap + len truncatedForSubagentMarker)%Z.
Proof.
  intros H. unfold truncateSubagentToolContent.
  destruct (Z.leb_spec (len s) cap).
  - unfold len in *. lia.
  - rewrite len_app. pose proof (len_slice0 s H). lia.
Qed.

(** What the [map] step does to each kind of entry. *)
Lemma trimHistoryItem_assistant (a : AssistantItem) :
  trimHistoryItem (HAssistant a) =
  HAssistant
    {| a_id := a_id a;
       a_content :=
         sanitizeLiveText (a_content a) MAX_SUBAGENT_ASSISTANT_CONTENT_CHARS;
       a_reasoningContent :=
         match a_reasoningContent a with
         | Some (c :: r) =>
             Some (sanitizeLiveText (c :: r)
                     MAX_SUBAGENT_ASSISTANT_CONTENT_CHARS)
         | _ => None
         end;
       a_openai := None;
       a_anthropic := None;
       a_tokenUsage := a_tokenUsage a;
       a_outputTokens := a_outputTokens a |}.
Proof.
  unfold trimHistoryItem. simpl.
  now destruct (a_reasoningContent a) as [[|c r]|].
Qed.

Lemma trimHistoryItem_toolOutput id result tcid :
  trimHistoryItem (HToolOutput id result tcid) =
  HToolOutput id
    {| r_content := truncateSubagentToolContent (r_content result)
                      MAX_SUBAGENT_TOOL_CONTENT_CHARS;
       r_lines := r_lines result |} tcid.
Proof.
  unfold trimHistoryItem. simpl.
  destruct (Js.eqb _ (r_content result)) eqn:E; [|reflexivity].
  apply eqb_eq in E. rewrite E. now destruct result.
Qed.

Lemma trimHistoryItem_other item :
  (forall a, item <> HAssistant a) ->
  (forall id result tcid, item <> HToolOutput id result tcid) ->
  trimHistoryItem item = item.
Proof.
  intros Ha Ht. destruct item; try reflexivity.
  - now specialize (Ha a).
  - now specialize (Ht id result toolCallId0).
Qed.

Lemma trimHistoryItem_compacted item : compacted (trimHistoryItem item).
Proof.
  destruct item; try exact I.
  - rewrite trimHistoryItem_assistant. cbn [compacted a_openai a_anthropic
      a_content a_reasoningContent].
    repeat split.
    + now apply sanitizeLiveText_bound.
    + intros r Hr. destruct (a_reasoningContent a) as [[|c r']|]; try discriminate.
      injection Hr as <-. now apply sanitizeLiveText_bound.
  - rewrite trimHistoryItem_toolOutput. cbn [compacted r_content].
    now apply truncateSubagentToolContent_bound.
Qed.

Lemma compactLoop_step fuel keepFirstUser l totalChars :
  compactLoop (S fuel) keepFirstUser l totalChars =
  if ((MAX_SUBAGENT_HISTORY_ITEMS <? len' l)
      || (MAX_SUBAGENT_HISTORY_CHARS <? totalChars))%Z
     && ((if keepFirstUser then 2 else 1) <=? len' l)%Z
  then
    match splice1 (if keepFirstUser then 1 else 0) l with
    | (Some removed, l') =>
        compactLoop fuel keepFirstUser l'
          (totalChars - estimateHistoryItemSize removed)
    | (None, _) => l
    end
  else l.
Proof. reflexivity. Qed.

(** When the loop condition is false, the ceilings hold or too few entries
    are left to evict. *)
Lemma loop_exit (keepFirstUser : bool) l :
  ((MAX_SUBAGENT_HISTORY_ITEMS <? len' l)
   || (MAX_SUBAGENT_HISTORY_CHARS <? sizeOf l))%Z
  && ((if keepFirstUser then 2 else 1) <=? len' l)%Z = false ->
  ((len' l <= MAX_SUBAGENT_HISTORY_ITEMS
    /\ sizeOf l <= MAX_SUBAGENT_HISTORY_CHARS)
   \/ len' l < (if keepFirstUser then 2 else 1))%Z.
Proof.
  intros H. apply andb_false_iff in H as [H|H].
  - apply orb_false_iff in H as [H1 H2].
    apply Z.ltb_ge in H1, H2. now left.
  - apply Z.leb_gt in H. now right.
Qed.

(** Without a pinned seed: the result is a suffix, within both ceilings. *)
Lemma compactLoop_unpinned fuel :
  forall l, List.length l <= fuel ->
    exists k,
      compactLoop fuel false l (sizeOf l) = skipn k l
      /\ (len' (skipn k l) <= MAX_SUBAGENT_HISTORY_ITEMS)%Z
      /\ (sizeOf (skipn k l) <= MAX_SUBAGENT_HISTORY_CHARS)%Z.
Proof.
  assert (exists k,
            @nil HistoryItem = skipn k []
            /\ (len' (skipn k (@nil HistoryItem))
                <= MAX_SUBAGENT_HISTORY_ITEMS)%Z
            /\ (sizeOf (skipn k []) <= MAX_SUBAGENT_HISTORY_CHARS)%Z)
    as Hnil.
  { exists 0. split; [reflexivity|].
    split; [unfold len' | unfold sizeOf]; simpl;
      unfold MAX_SUBAGENT_HISTORY_ITEMS, MAX_SUBAGENT_HISTORY_CHARS; lia. }
  induction fuel as [|f IH]; intros l Hlen.
  - destruct l; [exact Hnil | simpl in Hlen; lia].
  - rewrite compactLoop_step.
    match goal with
    | |- context [if ?a && ?b then _ else _] => destruct (a && b) eqn:E
    end.
    + destruct l as [|x l]; [exact Hnil|].
      cbn [splice1]. rewrite sizeOf_cons.
      replace (estimateHistoryItemSize x + sizeOf l
               - estimateHistoryItemSize x)%Z with (sizeOf l) by lia.
      destruct (IH l) as [k Hk]; [simpl in Hlen; lia|].
      now exists (S k).
    + apply (@loop_exit false l) in E as [[H1 H2]|H].
      * exists 0. split; [reflexivity|]. now split.
      * destruct l; [exact Hnil|].
        unfold len' in H; simpl in H; lia.
Qed.

Lemma compactLoop_pinned (u : HistoryItem) fuel :
  forall rest, List.length rest <= fuel ->
    exists k,
      compactLoop fuel true (u :: rest) (sizeOf (u :: rest))
      = u :: skipn k rest
      /\ (len' (u :: skipn k rest) <= MAX_SUBAGENT_HISTORY_ITEMS)%Z
      /\ ((sizeOf (u :: skipn k rest) <= MAX_SUBAGENT_HISTORY_CHARS)%Z
          \/ skipn k rest = []).
Proof.
  assert (exists k,
            [u] = u :: skipn k []
            /\ (len' (u :: skipn k []) <= MAX_SUBAGENT_HISTORY_ITEMS)%Z
            /\ ((sizeOf (u :: skipn k []) <= MAX_SUBAGENT_HISTORY_CHARS)%Z
                \/ skipn k (@nil HistoryItem) = [])) as Hseed.
  { exists 0. split; [reflexivity|]. split; [|now right].
    unfold len', MAX_SUBAGENT_HISTORY_ITEMS. simpl. lia. }
  induction fuel as [|f IH]; intros rest Hlen.
  - destruct rest; [exact Hseed | simpl in Hlen; lia].
  - rewrite compactLoop_step.
    match goal with
    | |- context [if ?a && ?b then _ else _] => destruct (a && b) eqn:E
    end.
    + destruct rest as [|x rest]; [exact Hseed|].
      cbn [splice1]. rewrite (sizeOf_cons u), (sizeOf_cons x).
      replace (estimateHistoryItemSize u
               + (estimateHistoryItemSize x + sizeOf rest)
               - estimateHistoryItemSize x)%Z
        with (sizeOf (u :: rest)) by (rewrite sizeOf_cons; lia).
      destruct (IH rest) as [k Hk]; [simpl in Hlen; lia|].
      now exists (S k).
    + apply (@loop_exit true (u :: rest)) in E as [[H1 H2]|H].
      * exists 0. split; [reflexivity|]. split; [exact H1 | now left].
      * destruct rest; [exact Hseed|].
        unfold len' in H; simpl in H; lia.
Qed.

Lemma Forall_skipn {A} (P : A -> Prop) (l : list A) k :
  Forall P l -> Forall P (skipn k l).
Proof.
  revert l. induction k as [|k IH]; intros l H; [exact H|].
  destruct l; [constructor|]. inversion H; subst. now apply IH.
Qed.

End Compaction.

(** C8, as stated, fails: a seed user message of 140,001 characters is
    pinned, so nothing can be evicted and the character ceiling is
    exceeded. *)
Lemma compactSubagentHistory_oversized_seed :
  ~ (forall history,
       (len' (compactSubagentHistory history) <= MAX_SUBAGENT_HISTORY_ITEMS
        /\ sizeOf (compactSubagentHistory history)
           <= MAX_SUBAGENT_HISTORY_CHARS)%Z).
Proof.
  intros H. destruct (H oversizedSeed) as [_ Hsize].
  revert Hsize. vm_compute. intros Hsize. now apply Hsize.
Qed.

(** C8, amended: the result consists of entries of the input as the [map]
    step leaves them (assistant entries without provider metadata, their
    content and reasoning trimmed and cut at 24,000 characters plus the
    marker; tool-output bodies cut at 24,000 characters plus the marker;
    other entries as they were); a seed user message at the head stays at
    the head, and what is evicted is a prefix of the entries after it (of
    all entries when there is no seed); the result has at most 80 entries,
    and at most 140,000 characters in total unless it is reduced to the
    pinned seed alone. *)
Theorem compactSubagentHistory_ceilings (history : list HistoryItem) :
  let trimmed := map trimHistoryItem history in
  let result := compactSubagentHistory history in
  (exists k,
     result = match history with
              | HUser id content :: rest =>
                  HUser id content :: skipn k (map trimHistoryItem rest)
              | _ => skipn k trimmed
              end)
  /\ Forall compacted result
  /\ (forall a,
        trimHistoryItem (HAssistant a) =
        HAssistant
          {| a_id := a_id a;
             a_content :=
               sanitizeLiveText (a_content a)
                 MAX_SUBAGENT_ASSISTANT_CONTENT_CHARS;
             a_reasoningContent :=
               match a_reasoningContent a with
               | Some (c :: r) =>
                   Some (sanitizeLiveText (c :: r)
                           MAX_SUBAGENT_ASSISTANT_CONTENT_CHARS)
               | _ => None
               end;
             a_openai := None;
             a_anthropic := None;
             a_tokenUsage := a_tokenUsage a;
             a_outputTokens := a_outputTokens a |})
  /\ (forall id toolResult tcid,
        trimHistoryItem (HToolOutput id toolResult tcid) =
        HToolOutput id
          {| r_content := truncateSubagentToolContent (r_content toolResult)
                            MAX_SUBAGENT_TOOL_CONTENT_CHARS;
             r_lines := r_lines toolResult |} tcid)
  /\ (len' result <= MAX_SUBAGENT_HISTORY_ITEMS)%Z
  /\ ((sizeOf result <= MAX_SUBAGENT_HISTORY_CHARS)%Z
      \/ exists id content,
           hd_error history = Some (HUser id content)
           /\ result = [HUser id content]).
Proof.
  intros trimmed result.
  assert (Forall compacted trimmed) as Hall.
  { unfold trimmed. apply Forall_forall. intros x Hx.
    apply in_map_iff in Hx as [y [<- _]]. apply trimHistoryItem_compacted. }
  assert ((exists k,
             result = match history with
                      | HUser id content :: rest =>
                          HUser id content :: skipn k (map trimHistoryItem rest)
                      | _ => skipn k trimmed
                      end)
          /\ (len' result <= MAX_SUBAGENT_HISTORY_ITEMS)%Z
          /\ ((sizeOf result <= MAX_SUBAGENT_HISTORY_CHARS)%Z
              \/ exists id content,
                   hd_error history = Some (HUser id content)
                   /\ result = [HUser id content])) as Hmain.
  { unfold result, compactSubagentHistory. fold trimmed.
    destruct history as [|first rest].
    - destruct (@compactLoop_unpinned 0 [] (Nat.le_refl 0)) as [k (Hk & Hl & Hs)].
      cbn [trimmed map List.length]. rewrite Hk.
      split; [now exists k|]. split; [exact Hl | now left].
    - assert (isUser (trimHistoryItem first) = isUser first) as Huser
        by (destruct first; try reflexivity;
            unfold trimHistoryItem; cbn;
            match goal with
            | |- context [if ?c then _ else _] => now destruct c
            end).
      cbn [trimmed map]. rewrite Huser.
      destruct first as [id content| | | | | | | | | |];
        cbn [isUser];
        try (match goal with
             | |- context [compactLoop _ false ?l _] =>
                 destruct (@compactLoop_unpinned (List.length l) l
                             (Nat.le_refl _)) as [k (Hk & Hl & Hs)]
             end;
             rewrite Hk; split; [now exists k|];
             split; [exact Hl | now left]).
      change (trimHistoryItem (HUser id content)) with (HUser id content).
      destruct (@compactLoop_pinned (HUser id content)
                  (List.length (HUser id content :: map trimHistoryItem rest))
                  (map trimHistoryItem rest))
        as [k (Hk & Hl & Hs)]; [cbn [List.length]; lia|].
      rewrite Hk. split; [now exists k|]. split; [exact Hl|].
      destruct Hs as [Hs|Hs]; [now left|].
      right. exists id, content. now rewrite Hs. }
  destruct Hmain as ([k Hk] & Hlen & Hsize).
  split; [now exists k|]. split.
  { rewrite Hk. destruct history as [|first rest]; [apply Forall_skipn, Hall|].
    assert (Forall compacted (map trimHistoryItem rest)) as Hrest
      by (unfold trimmed in Hall; now inversion Hall).
    destruct first; try (apply Forall_skipn, Hall).
    constructor; [exact I | now apply Forall_skipn]. }
  split; [apply trimHistoryItem_assistant|].
  split; [apply trimHistoryItem_toolOutput|].
  now split.
Qed.


(** ** Session resumption *)

Section Resumption.

Variable candidates : list Agent.
Variable runSubagentUntilPause :
  TaskSession -> Agent -> World -> (Result jstr * list HistoryItem) * World.
Variable summarizeTaskTrace : list HistoryItem -> jstr.

Lemma pinningMessage_quotes (taskId original : jstr) :
  includes taskId (pinningMessage taskId original) = true
  /\ includes original (pinningMessage taskId original) = true.
Proof.
  unfold pinningMessage. split.
  - apply includes_middle.
  - rewrite 2!app_assoc. apply includes_middle.
Qed.

Lemma openTaskSession_resume invocation plannedTaskId peer w session subagent :
  findAgent candidates (i_subagent_type invocation) = Some subagent ->
  JsMap.get (makeSessionKey (effectiveTaskId invocation plannedTaskId))
    (taskSessions w) = Some session ->
  s_subagentName session = i_subagent_type invocation ->
  let taskId := effectiveTaskId invocation plannedTaskId in
  let prompt :=
    trim (match peer with
          | Some p => buildParallelAwarenessPrefix invocation p
          | None => []
          end ++ i_prompt invocation) in
  let session' :=
    pushHistory session
      (if (0 <? len prompt)%Z then [HUser (nextId w) prompt] else []) in
  openTaskSession candidates invocation plannedTaskId peer w
  = (Ok (subagent, taskId, session'),
     {| taskSessions := storeTaskSession taskId session' (taskSessions w);
        nextId := if (0 <? len prompt)%Z then nextId w + 1 else nextId w;
        aborted := aborted w |}).
Proof.
  intros Hfind Hget Hpin taskId prompt session'.
  unfold openTaskSession. rewrite Hfind.
  unfold bind at 1. unfold getState at 1. rewrite Hget, Hpin, eqb_refl.
  cbn [negb]. subst session' prompt taskId. unfold jstr.
  match goal with
  | |- context [(0 <? ?x)%Z] => destruct (0 <? x)%Z
  end.
  - reflexivity.
  - unfold pushHistory. rewrite app_nil_r. destruct session. reflexivity.
Qed.

Lemma openTaskSession_pinned invocation plannedTaskId peer w session subagent :
  findAgent candidates (i_subagent_type invocation) = Some subagent ->
  JsMap.get (makeSessionKey (effectiveTaskId invocation plannedTaskId))
    (taskSessions w) = Some session ->
  s_subagentName session <> i_subagent_type invocation ->
  openTaskSession candidates invocation plannedTaskId peer w
  = (Throw (ToolError
              (pinningMessage (effectiveTaskId invocation plannedTaskId)
                 (s_subagentName session))), w).
Proof.
  intros Hfind Hget Hpin. unfold openTaskSession. rewrite Hfind.
  unfold bind at 1. unfold getState at 1. rewrite Hget.
  apply eqb_neq in Hpin. rewrite Hpin. reflexivity.
Qed.

End Resumption.

(** C3, as stated, fails: resuming with a prompt that is blank after
    trimming appends nothing to the session's history. *)
Lemma resume_with_blank_prompt_appends_nothing :
  ~ (forall candidates invocation plannedTaskId peer w session subagent,
       findAgent candidates (i_subagent_type invocation) = Some subagent ->
       JsMap.get (makeSessionKey (effectiveTaskId invocation plannedTaskId))
         (taskSessions w) = Some session ->
       s_subagentName session = i_subagent_type invocation ->
       exists subagent' taskId session' w' item,
         openTaskSession candidates invocation plannedTaskId peer w
         = (Ok (subagent', taskId, session'), w')
         /\ s_history session' = s_history session ++ [item]).
Proof.
  intros H.
  destruct (H demoCandidates (demoInvocation "general" "   " (Some (lit "t1")))
              (lit "planned") None demoWorld demoSession
              {| agent_name := lit "general";
                 agent_description := lit "general help" |}
              eq_refl eq_refl eq_refl)
    as (subagent' & taskId & session' & w' & item & Hopen & Hhist).
  vm_compute in Hopen. injection Hopen as <- <- <- <-.
  vm_compute in Hhist. discriminate Hhist.
Qed.

(** C3, amended: for an invocation that names an available subagent and
    whose task id has a session in the table.  If the subagent is the one
    the session is pinned to, the invocation appends one user entry
    holding its trimmed, preamble-prefixed prompt (nothing when that text
    is empty) to the session's history, stores the session again under the
    task id, and runs the nested loop on it.  If the subagent differs, the
    invocation throws the pinning error, whose message quotes the task id
    and the session's subagent name, and the world is as before. *)
Theorem resume_session_or_pinning_error
    (candidates : list Agent)
    (runSubagentUntilPause :
       TaskSession -> Agent -> World -> (Result jstr * list HistoryItem) * World)
    (summarizeTaskTrace : list HistoryItem -> jstr)
    (invocation : TaskInvocation) (plannedTaskId : jstr)
    (peer : option PeerContext) (w : World)
    (session : TaskSession) (subagent : Agent) :
  let taskId := effectiveTaskId invocation plannedTaskId in
  findAgent candidates (i_subagent_type invocation) = Some subagent ->
  JsMap.get (makeSessionKey taskId) (taskSessions w) = Some session ->
  (s_subagentName session = i_subagent_type invocation ->
   let prompt :=
     trim (match peer with
           | Some p => buildParallelAwarenessPrefix invocation p
           | None => []
           end ++ i_prompt invocation) in
   let session' :=
     pushHistory session
       (if (0 <? len prompt)%Z then [HUser (nextId w) prompt] else []) in
   exists w',
     openTaskSession candidates invocation plannedTaskId peer w
     = (Ok (subagent, taskId, session'), w')
     /\ taskSessions w' = storeTaskSession taskId session' (taskSessions w)
     /\ executeTaskInvocation candidates runSubagentUntilPause
          summarizeTaskTrace invocation plannedTaskId peer w
        = match runSubagentUntilPause session' subagent w' with
          | ((Throw e, _), w'') => (Throw e, w'')
          | ((Ok result, history), w'') =>
              (Ok {| o_taskId := taskId;
                     o_subagentName := i_subagent_type invocation;
                     o_description := i_description invocation;
                     o_trace := summarizeTaskTrace history;
                     o_result := result |}, w'')
          end)
  /\ (s_subagentName session <> i_subagent_type invocation ->
      let message := pinningMessage taskId (s_subagentName session) in
      executeTaskInvocation candidates runSubagentUntilPause
        summarizeTaskTrace invocation plannedTaskId peer w
      = (Throw (ToolError message), w)
      /\ includes taskId message = true
      /\ includes (s_subagentName session) message = true).
Proof.
  intros taskId Hfind Hget. split.
  - intros Hpin prompt session'.
    pose proof (@openTaskSession_resume candidates invocation plannedTaskId
                  peer w session subagent Hfind Hget Hpin) as Hopen.
    cbv zeta in Hopen. fold taskId prompt session' in Hopen.
    eexists. split; [exact Hopen|]. split; [reflexivity|].
    unfold executeTaskInvocation, bind. rewrite Hopen. reflexivity.
  - intros Hpin message.
    pose proof (@openTaskSession_pinned candidates invocation plannedTaskId
                  peer w session subagent Hfind Hget Hpin) as Hopen.
    split; [|apply pinningMessage_quotes].
    unfold executeTaskInvocation, bind. now rewrite Hopen.
Qed.

(** Both cases on the session [t1] of [general]: resuming it as [general]
    appends the prompt; resuming it as [explore] is refused. *)
Lemma resume_session_or_pinning_error_witness :
  (exists w',
     openTaskSession demoCandidates
       (demoInvocation "general" " next step " (Some (lit "t1")))
       (lit "planned") None demoWorld
     = (Ok ({| agent_name := lit "general";
               agent_description := lit "general help" |},
            lit "t1",
            {| s_id := lit "t1"; s_subagentName := lit "general";
               s_history := [HUser 0 (lit "first prompt");
                             HUser 1 (lit "next step")] |}), w'))
  /\ executeTaskInvocation demoCandidates demoRunSubagent demoSummarize
       (demoInvocation "explore" "next step" (Some (lit "t1")))
       (lit "planned") None demoWorld
     = (Throw (ToolError
                 (lit "Task t1 belongs to subagent general. Resume it with that same subagent.")),
        demoWorld).
Proof.
  split.
  - destruct (@resume_session_or_pinning_error demoCandidates demoRunSubagent
                demoSummarize
                (demoInvocation "general" " next step " (Some (lit "t1")))
                (lit "planned") None demoWorld demoSession
                {| agent_name := lit "general";
                   agent_description := lit "general help" |}
                eq_refl eq_refl) as [Hsame _].
    destruct (Hsame eq_refl) as (w' & Hopen & _).
    exists w'. exact Hopen.
  - destruct (@resume_session_or_pinning_error demoCandidates demoRunSubagent
                demoSummarize
                (demoInvocation "explore" "next step" (Some (lit "t1")))
                (lit "planned") None demoWorld demoSession
                {| agent_name := lit "explore";
                   agent_description := lit "read-only scan" |}
                eq_refl eq_refl) as [_ Hother].
    destruct Hother as (Hexec & _); [discriminate|].
    exact Hexec.
Defined.

(** ** Parallel delegation *)

Section FanIn.

Lemma mapi_length {A B} (f : A -> nat -> B) (l : list A) :
  forall start, List.length (mapi f start l) = List.length l.
Proof.
  induction l as [|x l IH]; intros start; simpl; [reflexivity|].
  now rewrite IH.
Qed.

Lemma mapi_nth {A B} (f : A -> nat -> B) (l : list A) :
  forall start i,
    nth_error (mapi f start l) i
    = option_map (fun x => f x (start + i)) (nth_error l i).
Proof.
  induction l as [|x l IH]; intros start i.
  - now destruct i.
  - destruct i as [|i]; simpl.
    + now rewrite Nat.add_0_r.
    + rewrite IH. now rewrite Nat.add_succ_r.
Qed.

Lemma planFrom_length liveRunId invs :
  forall start, List.length (planFrom liveRunId start invs) = List.length invs.
Proof.
  induction invs as [|inv invs IH]; intros start; simpl; [reflexivity|].
  now rewrite IH.
Qed.

Lemma planFrom_invocation liveRunId invs :
  forall start i p,
    nth_error (planFrom liveRunId start invs) i = Some p ->
    nth_error invs i = Some (p_invocation p).
Proof.
  induction invs as [|inv invs IH]; intros start i p H.
  - now destruct i.
  - destruct i as [|i]; simpl in *.
    + now injection H as <-.
    + now apply (IH (S start)).
Qed.

Lemma planFrom_taskId liveRunId invs :
  forall start i p,
    nth_error (planFrom liveRunId start invs) i = Some p ->
    p_taskId p = match i_task_id (p_invocation p) with
                 | Some id => id
                 | None => makeLiveTaskID liveRunId (start + i)
                 end.
Proof.
  induction invs as [|inv invs IH]; intros start i p H.
  - now destruct i.
  - destruct i as [|i]; simpl in *.
    + injection H as <-. now rewrite Nat.add_0_r.
    + rewrite Nat.add_succ_r. now apply (IH (S start)).
Qed.

Lemma fanIn_length plan settled :
  List.length settled = List.length plan ->
  List.length (fanIn plan settled) = List.length plan.
Proof.
  revert settled. induction plan as [|p plan IH]; intros [|e settled] H;
    simpl in *; try reflexivity; try discriminate.
  now rewrite IH by lia.
Qed.

Lemma fanIn_nth plan settled :
  forall i p entry,
    nth_error plan i = Some p -> nth_error settled i = Some entry ->
    nth_error (fanIn plan settled) i
    = Some match entry with
           | Fulfilled value => value
           | Rejected reason =>
               taskObservationFromFailure (p_invocation p) reason (p_taskId p)
           end.
Proof.
  revert settled. induction plan as [|q plan IH]; intros [|e settled] i p entry
    Hp He; try (now destruct i).
  destruct i as [|i]; simpl in *.
  - injection Hp as <-. injection He as <-. reflexivity.
  - now apply IH.
Qed.

(** [parts.join("\n")] puts a line break before every part but the
    first. *)
Lemma join_concat (first : jstr) (parts : list jstr) :
  join nl (first :: parts)
  = first ++ concat (map (fun part => nl ++ part) parts).
Proof.
  revert first. induction parts as [|part parts IH]; intros first.
  - cbn. now rewrite app_nil_r.
  - change (join nl (first :: part :: parts))
      with (first ++ nl ++ join nl (part :: parts)).
    now rewrite IH.
Qed.

End FanIn.

Section Launching.

Variable candidates : list Agent.
Variable summarizeTaskTrace : list HistoryItem -> jstr.

(** The task id an opened session goes by is the invocation's own, or the
    planned one. *)
Lemma openTaskSession_taskId invocation plannedTaskId peer w opened w' :
  openTaskSession candidates invocation plannedTaskId peer w = (Ok opened, w') ->
  snd (fst opened) = effectiveTaskId invocation plannedTaskId.
Proof.
  unfold openTaskSession.
  destruct (findAgent candidates (i_subagent_type invocation)) as [subagent|];
    [|discriminate].
  unfold bind at 1. unfold getState at 1.
  destruct (negb _); [discriminate|].
  unfold bind at 1.
  match goal with
  | |- context [if ?c then _ else _] => destruct c
  end.
  - unfold bind at 1, sequenceId at 1, ret at 1.
    unfold bind at 1, getState at 1. unfold bind at 1, putSessions at 1.
    unfold ret. intros H. now injection H as <- _.
  - unfold ret at 1.
    unfold bind at 1, getState at 1. unfold bind at 1, putSessions at 1.
    unfold ret. intros H. now injection H as <- _.
Qed.

Lemma launch_returns plan entry index w :
  exists first, launch candidates plan entry index w
                = (Ok first, snd (launch candidates plan entry index w)).
Proof.
  unfold launch.
  destruct (openTaskSession candidates _ _ _ w) as [[[[a t] s]|e] w'];
    now eexists.
Qed.

Lemma launchFrom_cons_world plan entry rest index w :
  snd (launchFrom candidates plan index (entry :: rest) w)
  = snd (launchFrom candidates plan (S index) rest
           (snd (launch candidates plan entry index w))).
Proof.
  cbn [launchFrom]. unfold bind at 1. unfold launch.
  destruct (openTaskSession candidates _ _ _ w) as [[[[a t] s]|e] w'];
    cbn [snd]; unfold bind;
    destruct (launchFrom candidates plan (S index) rest w') as [[others|e'] w2];
    reflexivity.
Qed.

Lemma launchFrom_spec plan :
  forall entries index w,
    exists launched w1,
      launchFrom candidates plan index entries w = (Ok launched, w1)
      /\ List.length launched = List.length entries
      /\ forall i p,
           nth_error entries i = Some p ->
           nth_error launched i
           = Some match openTaskSession candidates (p_invocation p) (p_taskId p)
                          (Some (peerOf plan (index + i)))
                          (snd (launchFrom candidates plan index
                                  (firstn i entries) w)) with
                  | (Ok (subagent, taskId, session), _) =>
                      Running subagent taskId session
                  | (Throw reason, _) => Refused reason
                  end.
Proof.
  induction entries as [|entry rest IH]; intros index w.
  - exists [], w. split; [reflexivity|]. split; [reflexivity|].
    intros i p H. now destruct i.
  - destruct (IH (S index) (snd (launch candidates plan entry index w)))
      as (launched & w1 & Hrest & Hlen & Hnth).
    destruct (launch_returns plan entry index w) as [first Hfirst].
    exists (first :: launched), w1.
    split; [|split; [cbn; now rewrite Hlen|]].
    + cbn [launchFrom]. unfold bind at 1. rewrite Hfirst.
      unfold bind at 1. now rewrite Hrest.
    + intros [|i] p Hp; cbn [nth_error firstn] in *.
      * injection Hp as <-. cbn [launchFrom ret snd]. rewrite Nat.add_0_r.
        unfold launch in Hfirst.
        destruct (openTaskSession candidates _ _ _ w) as [[[[a t] s]|e] w'];
          cbn [snd] in Hfirst; now injection Hfirst as <-.
      * rewrite (Hnth i p Hp), launchFrom_cons_world.
        now rewrite Nat.add_succ_r.
Qed.

Lemma settleFrom_length outcomes :
  forall plan launched index,
    List.length launched = List.length plan ->
    List.length (settleFrom summarizeTaskTrace index plan launched outcomes)
    = List.length plan.
Proof.
  induction plan as [|p plan IH]; intros [|l launched] index H;
    cbn in *; try reflexivity; try discriminate.
  now rewrite IH by lia.
Qed.

Lemma settleFrom_nth outcomes :
  forall plan launched index i p l,
    nth_error plan i = Some p -> nth_error launched i = Some l ->
    nth_error (settleFrom summarizeTaskTrace index plan launched outcomes) i
    = Some (settledEntry summarizeTaskTrace p l (outcomes (index + i))).
Proof.
  induction plan as [|q plan IH]; intros [|m launched] index i p l Hp Hl;
    try (now destruct i).
  destruct i as [|i]; cbn in *.
  - injection Hp as <-. injection Hl as <-. now rewrite Nat.add_0_r.
  - rewrite Nat.add_succ_r. now apply (IH launched (S index)).
Qed.

End Launching.

(** C2: a parallel batch that is started (the signal not yet aborted)
    does not throw: it returns the batch text, a count line and then one
    observation block per planned invocation, in batch order.  The block
    of an invocation carries its planned task id, its subagent and its
    description.  An invocation that is refused when it is launched (in
    the world the launches before it left), or whose nested loop throws,
    shows as a failure: a trace of a [[task-error]] line and the error's
    message, and the result [Subagent task failed: ] with that message;
    any other shows the summary of its session's history and the answer
    of its loop.  A failure changes nothing for the other invocations. *)
Theorem parallel_delegation_reports_every_invocation
    (candidates : list Agent) (USER_ABORTED_ERROR_MESSAGE : jstr)
    (runSubagentUntilPause :
       TaskSession -> Agent -> World -> (Result jstr * list HistoryItem) * World)
    (summarizeTaskTrace : list HistoryItem -> jstr)
    (awaitNestedLoops :
       World -> list Launched -> World
       -> (nat -> Result jstr * list HistoryItem) * World)
    (liveRunId : jstr) (args : TaskArguments) (w : World)
    (task : TaskInvocation) (tasks : list TaskInvocation) :
  aborted w = false ->
  parallel_tasks args = Some (task :: tasks) ->
  let plan := planned liveRunId args in
  let cut := fun (cap : Z) (text : jstr) =>
    if (cap <? len text)%Z
    then firstn (Z.to_nat cap) text ++ nl ++ lit "... (truncated)"
    else text in
  let block := fun o : TaskObservation =>
    lit "<task_observation>" ++ nl
    ++ lit "task_id: " ++ o_taskId o ++ nl
    ++ lit "task_subagent: " ++ o_subagentName o ++ nl
    ++ lit "task_description: " ++ o_description o ++ nl
    ++ nl
    ++ lit "<task_trace>" ++ nl ++ cut 3000%Z (o_trace o) ++ nl
    ++ lit "</task_trace>" ++ nl
    ++ nl
    ++ lit "<task_result>" ++ nl ++ cut 1500%Z (o_result o) ++ nl
    ++ lit "</task_result>" ++ nl
    ++ lit "</task_observation>" in
  let failure := fun (reason : JsError) (o : TaskObservation) =>
    o_trace o = lit "[task-error]" ++ nl ++ errorMessage reason
    /\ o_result o = lit "Subagent task failed: " ++ errorMessage reason in
  exists launched w1 observations,
    launchAll candidates plan w = (Ok launched, w1)
    /\ run candidates USER_ABORTED_ERROR_MESSAGE runSubagentUntilPause
         summarizeTaskTrace awaitNestedLoops liveRunId args w
       = (Ok (lit "task_parallel_count: " ++ ofNat (List.length observations)
              ++ nl ++ concat (map (fun o => nl ++ block o) observations)),
          snd (awaitNestedLoops w launched w1))
    /\ List.length observations = List.length (task :: tasks)
    /\ forall i invocation,
         nth_error (task :: tasks) i = Some invocation ->
         let taskId := match i_task_id invocation with
                       | Some id => id
                       | None => makeLiveTaskID liveRunId i
                       end in
         let wi := snd (launchFrom candidates plan 0 (firstn i plan) w) in
         exists o,
           nth_error observations i = Some o
           /\ o_taskId o = taskId
           /\ o_subagentName o = i_subagent_type invocation
           /\ o_description o = i_description invocation
           /\ match openTaskSession candidates invocation taskId
                      (Some (peerOf plan i)) wi with
              | (Throw reason, _) => failure reason o
              | (Ok _, _) =>
                  match fst (awaitNestedLoops w launched w1) i with
                  | (Ok result, history) =>
                      o_trace o = summarizeTaskTrace history
                      /\ o_result o = result
                  | (Throw reason, _) => failure reason o
                  end
              end.
Proof.
  intros Hlive Hpar plan cut block failure.
  destruct (launchFrom_spec candidates plan plan 0 w)
    as (launched & w1 & Hlaunch & Hlen & Hnth).
  set (outcomes := fst (awaitNestedLoops w launched w1)).
  set (settled := settleFrom summarizeTaskTrace 0 plan launched outcomes).
  assert (List.length plan = List.length (task :: tasks)) as Hplan.
  { unfold plan, planned, invocationInputsOf. rewrite Hpar.
    apply planFrom_length. }
  exists launched, w1, (fanIn plan settled).
  split; [exact Hlaunch|]. split; [|split].
  - unfold run, tryCatch. unfold bind at 1. unfold getState at 1.
    rewrite Hlive, Hpar. cbn [List.length Nat.ltb Nat.leb]. fold plan.
    unfold bind at 1. unfold allSettled. unfold bind at 1.
    unfold getState at 1. unfold bind at 1. unfold launchAll.
    rewrite Hlaunch. fold settled.
    unfold settled, outcomes.
    destruct (awaitNestedLoops w launched w1) as [outcomes' w2].
    cbn [fst snd]. unfold ret. f_equal. f_equal.
    unfold buildParallelObservedTaskOutput.
    change ([lit "task_parallel_count: "
             ++ ofNat (List.length (fanIn plan
                         (settleFrom summarizeTaskTrace 0 plan launched
                            outcomes'))); []]
            ++ map observationSection
                 (fanIn plan (settleFrom summarizeTaskTrace 0 plan launched
                                outcomes')))
      with ((lit "task_parallel_count: "
             ++ ofNat (List.length (fanIn plan
                         (settleFrom summarizeTaskTrace 0 plan launched
                            outcomes'))))
            :: [] :: map observationSection
                 (fanIn plan (settleFrom summarizeTaskTrace 0 plan launched
                                outcomes'))).
    rewrite join_concat. cbn [map concat]. rewrite app_nil_r.
    rewrite <- !app_assoc. do 3 f_equal. rewrite map_map. reflexivity.
  - rewrite fanIn_length; [exact Hplan|].
    unfold settled. rewrite settleFrom_length; [reflexivity | exact Hlen].
  - intros i invocation Hinv taskId wi.
    destruct (nth_error plan i) as [p|] eqn:Hp.
    2:{ apply nth_error_None in Hp.
        assert (nth_error (task :: tasks) i <> None) as Hsome by congruence.
        apply nth_error_Some in Hsome. rewrite Hplan in Hp. lia. }
    assert (p_invocation p = invocation) as Hpi.
    { unfold plan, planned, invocationInputsOf in Hp. rewrite Hpar in Hp.
      apply planFrom_invocation in Hp. congruence. }
    assert (p_taskId p = taskId) as Hid.
    { unfold plan, planned in Hp. apply planFrom_taskId in Hp.
      now rewrite Hp, Hpi. }
    pose proof (Hnth i p Hp) as Hl. rewrite Hpi, Hid in Hl. cbn [Nat.add] in Hl.
    fold wi in Hl.
    pose proof (@settleFrom_nth summarizeTaskTrace outcomes plan launched 0 i
                  p _ Hp Hl) as Hs.
    fold settled in Hs. cbn [Nat.add] in Hs.
    pose proof (fanIn_nth plan settled i Hp Hs) as Ho.
    rewrite Ho. eexists. split; [reflexivity|].
    destruct (openTaskSession candidates invocation taskId
                (Some (peerOf plan i)) wi)
      as [[[[subagent t] session]|reason] w'] eqn:Hopen.
    + apply openTaskSession_taskId in Hopen. cbn [fst snd] in Hopen.
      assert (t = taskId) as ->.
      { rewrite Hopen. unfold effectiveTaskId, taskId.
        now destruct (i_task_id invocation). }
      cbn [settledEntry]. fold outcomes.
      destruct (outcomes i) as [[result|reason] history];
        rewrite ?Hpi, ?Hid; repeat split.
    + cbn [settledEntry]. rewrite ?Hpi, ?Hid. repeat split.
Qed.

(** A batch of two: [general] answers, the loop of [explore] throws; both
    are reported, the second as a failure under its derived task id. *)
Lemma parallel_delegation_reports_every_invocation_witness :
  fst (run demoCandidates (lit "Aborted by user") demoRunSubagent
         demoSummarize demoNestedLoops (lit "call1") demoParallelArgs
         demoWorld)
  = Ok (buildParallelObservedTaskOutput
          [ {| o_taskId := lit "a"; o_subagentName := lit "general";
               o_description := lit "scan";
               o_trace := lit "[user]" ++ nl ++ lit "1";
               o_result := lit "done" |};
            {| o_taskId := lit "task_call1_1"; o_subagentName := lit "explore";
               o_description := lit "scan";
               o_trace := lit "[task-error]" ++ nl ++ lit "boom";
               o_result := lit "Subagent task failed: boom" |} ]).
Proof.
  destruct (@parallel_delegation_reports_every_invocation demoCandidates
              (lit "Aborted by user") demoRunSubagent demoSummarize
              demoNestedLoops (lit "call1") demoParallelArgs demoWorld
              (demoInvocation "general" "part one" (Some (lit "a")))
              [demoInvocation "explore" "part two" None]
              eq_refl eq_refl)
    as (launched & w1 & observations & Hlaunch & Hrun & Hlen & Hnth).
  vm_compute in Hlaunch. injection Hlaunch as <- <-.
  rewrite Hrun. cbn [fst].
  destruct observations as [|[id1 n1 d1 t1 r1] [|[id2 n2 d2 t2 r2] [|]]];
    try discriminate Hlen.
  destruct (Hnth 0 _ eq_refl) as (o1 & H1 & Hid1 & Hn1 & Hd1 & Hb1).
  destruct (Hnth 1 _ eq_refl) as (o2 & H2 & Hid2 & Hn2 & Hd2 & Hb2).
  injection H1 as <-. injection H2 as <-.
  vm_compute in Hb1, Hb2. destruct Hb1 as [Ht1 Hr1]. destruct Hb2 as [Ht2 Hr2].
  cbn [o_taskId o_subagentName o_description o_trace o_result] in *.
  subst. reflexivity.
Defined.

(** ** The arc engine: retries on malformed tool calls *)

Section ArcRetries.

Variable env : ArcEnv.

(** The defining equation of [trajectoryArc], with the budget test as a
    boolean. *)
Lemma trajectoryArc_unfolded messages retryBudget st :
  trajectoryArc env messages retryBudget st =
  match arcTurn env messages (entered retryBudget st) with
  | (Throw e, st1) => (Throw e, st1)
  | (Ok (Finished finish), st1) => (Ok finish, st1)
  | (Ok (Retry irs retryIrs messagesCopy exhausted curl), st1) =>
      if (retryBudget <=? 0)%Z
      then (Ok {| f_irs := retryIrs;
                  f_reason := RequestError exhausted curl |}, st1)
      else
        match trajectoryArc env (messagesCopy ++ retryIrs) (retryBudget - 1)
                (retrying retryIrs st1) with
        | (Ok retried, st2) =>
            (Ok {| f_irs := irs ++ f_irs retried;
                   f_reason := f_reason retried |}, st2)
        | (Throw e, st2) => (Throw e, st2)
        end
  end.
Proof.
  rewrite trajectoryArc_equation_1.
  destruct (arcTurn env messages (entered retryBudget st))
    as [[[finish|irs retryIrs messagesCopy exhausted curl]|e] st1];
    simp trajectoryArc; try reflexivity.
  destruct (Z_le_gt_dec retryBudget 0) as [Hle|Hgt]; simp trajectoryArc.
  - destruct (Z.leb_spec retryBudget 0); [reflexivity | lia].
  - destruct (Z.leb_spec retryBudget 0); [lia|].
    match goal with
    | |- _ = (let (_, _) := ?call in _) =>
        destruct call as [[retried|e] st2]
    end; reflexivity.
Qed.

Lemma enteredBudgets_app evs evs' :
  enteredBudgets (evs ++ evs') = enteredBudgets evs ++ enteredBudgets evs'.
Proof. apply flat_map_app. Qed.

Lemma backendCalls_app evs evs' :
  backendCalls (evs ++ evs') = backendCalls evs + backendCalls evs'.
Proof. unfold backendCalls. now rewrite filter_app, length_app. Qed.

Lemma quiet_silent evs :
  forallb quiet evs = true -> enteredBudgets evs = [] /\ backendCalls evs = 0.
Proof.
  induction evs as [|e evs IH]; simpl; [now split|].
  intros H. apply andb_true_iff in H as [He Hevs].
  destruct (IH Hevs) as [Hb Hc].
  destruct e; try discriminate; now split.
Qed.

Lemma feed_quiet progress extra stream :
  (forall b t ty, quiet (progress b t ty) = true) ->
  forallb quiet extra = true ->
  forall buffer st,
    exists buffer' evs,
      feed progress extra stream buffer st
      = (Ok buffer', {| tick := tick st; events := events st ++ evs |})
      /\ forallb quiet evs = true.
Proof.
  intros Hp He. induction stream as [|[text type|] stream IH];
    intros buffer st; cbn [feed].
  - exists buffer, []. rewrite app_nil_r. split; [now destruct st | reflexivity].
  - unfold bind at 1. unfold emit, modify.
    destruct (IH (onTokens buffer text type)
                {| tick := tick st;
                   events := events st
                             ++ [progress (onTokens buffer text type) text type] |})
      as (buffer' & evs & Hrun & Hq).
    rewrite Hrun. cbn [tick events]. rewrite <- app_assoc.
    eexists buffer', _. split; [reflexivity|].
    cbn [app forallb]. now rewrite Hp, Hq.
  - unfold bind at 1. unfold modify.
    destruct (IH buffer {| tick := tick st; events := events st ++ extra |})
      as (buffer' & evs & Hrun & Hq).
    rewrite Hrun. cbn [tick events]. rewrite <- app_assoc.
    eexists buffer', _. split; [reflexivity|].
    now rewrite forallb_app, He, Hq.
Qed.

Lemma maybeAutocompact_quiet messages st :
  exists outcome t evs,
    maybeAutocompact env messages st
    = (outcome, {| tick := t; events := events st ++ evs |})
    /\ forallb quiet evs = true
    /\ ((forall t' messages',
           exists stream summary,
             generateCompactionSummary env t' messages' = (stream, Ok summary)) ->
        exists parsed, outcome = Ok parsed).
Proof.
  unfold maybeAutocompact.
  destruct (shouldAutoCompactHistory env messages); cbn [negb].
  - unfold bind at 1. unfold emit, modify. unfold bind at 1. unfold now at 1.
    cbn [tick events].
    destruct (generateCompactionSummary env (tick st) messages)
      as [stream summary] eqn:Hsummary.
    unfold bind at 1.
    destruct (@feed_quiet CompactionProgress [] stream
                (fun _ _ _ => eq_refl) eq_refl emptyBuffer
                {| tick := S (tick st); events := events st ++ [StartCompaction] |})
      as (buffer' & evs & Hrun & Hq).
    rewrite Hrun. cbn [tick events]. rewrite <- app_assoc.
    destruct summary as [summary|e].
    + eexists (Ok summary), _, _. split; [reflexivity|].
      split; [exact Hq|]. intros _. now eexists.
    + eexists (Throw e), _, _. split; [reflexivity|].
      split; [exact Hq|]. intros Hreturn.
      destruct (Hreturn (tick st) messages) as (stream' & summary' & H').
      congruence.
  - exists (Ok None), (tick st), []. rewrite app_nil_r.
    split; [now destruct st|]. split; [reflexivity|]. intros _. now eexists.
Qed.

Hypothesis Hlive : neverAborted env.
Hypothesis Hreturn : collaboratorsReturn env.
Hypothesis Hmalformed : alwaysMalformed env.

Lemma bind_run {S A B} (m : ST S A) (k : A -> ST S B) (s : S) :
  bind m k s = match m s with
               | (Ok a, s') => k a s'
               | (Throw e, s') => (Throw e, s')
               end.
Proof. reflexivity. Qed.

Lemma checkAborted_live st :
  checkAborted env st
  = (Ok false, {| tick := S (tick st); events := events st |}).
Proof. unfold checkAborted, bind, now, ret. now rewrite Hlive. Qed.

Lemma emit_run e st :
  emit e st = (Ok tt, {| tick := tick st; events := events st ++ [e] |}).
Proof. reflexivity. Qed.

Lemma now_run st :
  now st = (Ok (tick st), {| tick := S (tick st); events := events st |}).
Proof. reflexivity. Qed.

(** Run the first computation of a sequence with a known outcome. *)
Ltac run_with H := rewrite bind_run, H; cbv beta iota.

(** One pass against the malformed backend: exactly one backend call, and
    the malformed-tool-call retry site with the arc's output. *)
Lemma arcTurn_malformed messages st :
  exists irs messagesCopy curl st1 evs,
    arcTurn env messages st
    = (Ok (Retry irs irs messagesCopy tooManyMalformed curl), st1)
    /\ events st1 = events st ++ evs
    /\ enteredBudgets evs = [] /\ backendCalls evs = 1.
Proof.
  unfold arcTurn. run_with checkAborted_live.
  run_with now_run. cbn [tick events].
  rewrite (proj1 Hreturn). rewrite bind_run. cbv beta iota. unfold ret at 1.
  destruct (maybeAutocompact_quiet messages
              {| tick := S (S (tick st)); events := events st |})
    as (outcome & t1 & evs1 & Hcompact & Hq1 & Hparsed0).
  destruct (Hparsed0 (proj2 Hreturn)) as [parsed ->].
  run_with Hcompact. cbn [events] in *.
  set (irs0 := match parsed with
               | Some summary => [IRCompactionCheckpoint summary]
               | None => []
               end).
  set (messagesCopy := match parsed with
                       | Some summary =>
                           messages ++ [IRCompactionCheckpoint summary]
                       | None => messages
                       end).
  set (evs2 := match parsed with
               | Some summary => [CompactionParsed summary]
               | None => []
               end).
  assert (forallb quiet evs2 = true) as Hq2 by (unfold evs2; now destruct parsed).
  rewrite bind_run.
  match goal with
  | |- context [match ?c with (_, _) => _ end] =>
      assert (c = (Ok tt, {| tick := t1;
                             events := (events st ++ evs1) ++ evs2 |}))
        as Hparsed
        by (unfold evs2; destruct parsed;
            [reflexivity | now rewrite app_nil_r])
  end.
  rewrite Hparsed. cbv beta iota. run_with checkAborted_live.
  cbn [tick events].
  run_with emit_run. run_with now_run. run_with emit_run. cbn [tick events].
  destruct (Hmalformed (S t1) messagesCopy)
    as (stream & output & curl & lastIr & Hrun & Hlast & Hbad).
  rewrite Hrun.
  match goal with
  | |- context [feed ResponseProgress [AutofixingJson] stream emptyBuffer] =>
      match goal with
      | |- context [bind _ _ ?s] =>
          destruct (@feed_quiet ResponseProgress [AutofixingJson] stream
                      (fun _ _ _ => eq_refl) eq_refl emptyBuffer s)
            as (buffer & evs3 & Hfeed & Hq3)
      end
  end.
  run_with Hfeed. rewrite bind_run. unfold ret at 1. cbv beta iota.
  run_with checkAborted_live. cbn [tick events].
  rewrite Hlast, Hbad.
  eexists (irs0 ++ output), messagesCopy, curl, _, _.
  split; [reflexivity|]. cbn [events].
  split; [rewrite <- !app_assoc; reflexivity|].
  destruct (quiet_silent _ Hq1) as [Hb1 Hc1].
  destruct (quiet_silent _ Hq2) as [Hb2 Hc2].
  destruct (quiet_silent _ Hq3) as [Hb3 Hc3].
  rewrite !enteredBudgets_app, !backendCalls_app, Hb1, Hb2, Hb3, Hc1, Hc2, Hc3.
  split; reflexivity.
Qed.

Lemma countdown_step (n : nat) :
  countdown (Z.of_nat (S n)) = Z.of_nat (S n) :: countdown (Z.of_nat n).
Proof. unfold countdown. now rewrite !Nat2Z.id. Qed.

(** Budget [n]: the arcs entered are those of budgets [n], ..., [0], each
    with one backend call, and the last one reports the exhausted
    budget. *)
Lemma trajectoryArc_malformed_run (n : nat) :
  forall messages st,
    exists finish st' curl,
      trajectoryArc env messages (Z.of_nat n) st = (Ok finish, st')
      /\ f_reason finish = RequestError tooManyMalformed curl
      /\ enteredBudgets (events st')
         = enteredBudgets (events st) ++ countdown (Z.of_nat n)
      /\ backendCalls (events st') = backendCalls (events st) + n + 1.
Proof.
  induction n as [|n IH]; intros messages st;
    rewrite trajectoryArc_unfolded;
    match goal with
    | |- context [arcTurn env messages ?s] =>
        destruct (arcTurn_malformed messages s)
          as (irs & messagesCopy & curl & st1 & evs & Hturn & Hev & Hb & Hc)
    end;
    rewrite Hturn.
  - exists {| f_irs := irs; f_reason := RequestError tooManyMalformed curl |},
      st1, curl.
    split; [reflexivity|]. split; [reflexivity|].
    rewrite Hev. cbn [entered events].
    rewrite !enteredBudgets_app, !backendCalls_app, Hb, Hc, app_nil_r.
    split; [reflexivity|]. cbn. lia.
  - destruct (Z.leb_spec (Z.of_nat (S n)) 0); [lia|].
    replace (Z.of_nat (S n) - 1)%Z with (Z.of_nat n) by lia.
    destruct (IH (messagesCopy ++ irs) (retrying irs st1))
      as (retried & st2 & curl' & Hrun & Hreason & Hbudgets & Hcalls).
    rewrite Hrun.
    eexists _, st2, curl'. split; [reflexivity|]. split; [exact Hreason|].
    rewrite Hbudgets, Hcalls. cbn [retrying events]. rewrite Hev.
    cbn [entered events].
    rewrite !enteredBudgets_app, !backendCalls_app, Hb, Hc, !app_nil_r.
    rewrite countdown_step. cbn [enteredBudgets flat_map backendCalls filter
      isBackendCalled app List.length].
    split; [now rewrite <- app_assoc | lia].
Qed.

End ArcRetries.

(** C1: with a signal that is never aborted, tool loading and compaction
    summaries that return, and a backend whose output always ends in a
    malformed-tool-call, [trajectoryArc] with budget
    [B >= 0] enters [B + 1] arcs, with the budgets [B], [B - 1], ..., [0],
    makes one backend call in each, and finishes with the request-error
    of too many malformed retries.  While the budget is positive, the
    finish is the one of the arc run again with the budget less one on the
    message log extended by this arc's output, with that arc's output
    after this one's. *)
Theorem malformed_backend_exhausts_retry_budget
    (env : ArcEnv) (messages : list LlmIR) (B : Z) (st : ArcState) :
  (0 <= B)%Z ->
  neverAborted env -> collaboratorsReturn env -> alwaysMalformed env ->
  exists finish st' curl,
    trajectoryArc env messages B st = (Ok finish, st')
    /\ f_reason finish = RequestError tooManyMalformed curl
    /\ enteredBudgets (events st') = enteredBudgets (events st) ++ countdown B
    /\ List.length (countdown B) = Z.to_nat B + 1
    /\ backendCalls (events st') = backendCalls (events st) + Z.to_nat B + 1
    /\ ((0 < B)%Z ->
        exists irs messagesCopy curl1 st1 retried,
          arcTurn env messages (entered B st)
          = (Ok (Retry irs irs messagesCopy tooManyMalformed curl1), st1)
          /\ trajectoryArc env (messagesCopy ++ irs) (B - 1) (retrying irs st1)
             = (Ok retried, st')
          /\ finish = {| f_irs := irs ++ f_irs retried;
                         f_reason := f_reason retried |})
    /\ (B = 0%Z ->
        exists irs messagesCopy st1,
          arcTurn env messages (entered B st)
          = (Ok (Retry irs irs messagesCopy tooManyMalformed curl), st1)
          /\ finish = {| f_irs := irs;
                         f_reason := RequestError tooManyMalformed curl |}
          /\ st' = st1).
Proof.
  intros HB Hlive Hreturn Hbad.
  destruct (@trajectoryArc_malformed_run env Hlive Hreturn Hbad (Z.to_nat B)
              messages st)
    as (finish & st' & curl & Hrun & Hreason & Hbudgets & Hcalls).
  rewrite Z2Nat.id in Hrun, Hbudgets by exact HB.
  exists finish, st', curl.
  split; [exact Hrun|]. split; [exact Hreason|]. split; [exact Hbudgets|].
  split.
  { unfold countdown. generalize (Z.to_nat B) as n.
    induction n as [|n IH]; [reflexivity|].
    cbn [countdownFrom List.length]. rewrite IH. lia. }
  split; [exact Hcalls|].
  destruct (@arcTurn_malformed env Hlive Hreturn Hbad messages (entered B st))
    as (irs & messagesCopy & curl1 & st1 & evs & Hturn & _).
  rewrite trajectoryArc_unfolded, Hturn in Hrun.
  split.
  - intros Hpos. destruct (Z.leb_spec B 0); [lia|].
    destruct (@trajectoryArc_malformed_run env Hlive Hreturn Hbad
                (Z.to_nat (B - 1))
                (messagesCopy ++ irs) (retrying irs st1))
      as (retried & st2 & curl2 & Hrun2 & _).
    rewrite Z2Nat.id in Hrun2 by lia. rewrite Hrun2 in Hrun.
    injection Hrun as <- <-.
    now exists irs, messagesCopy, curl1, st1, retried.
  - intros ->. cbn [Z.leb Z.compare] in Hrun. injection Hrun as <- <-.
    cbn [f_reason] in Hreason. injection Hreason as <-.
    now exists irs, messagesCopy, st1.
Qed.

(** Budget 2 against a backend that only emits malformed tool calls:
    three arcs, three backend calls, three malformed items in order. *)
Lemma malformed_backend_exhausts_retry_budget_witness :
  exists finish st' curl,
    trajectoryArc malformedEnv [IRUser (lit "hi")] 2 freshArc = (Ok finish, st')
    /\ f_reason finish = RequestError tooManyMalformed curl
    /\ enteredBudgets (events st') = [2; 1; 0]%Z
    /\ backendCalls (events st') = 3.
Proof.
  assert (neverAborted malformedEnv) as Hlive by (intros t; reflexivity).
  assert (collaboratorsReturn malformedEnv) as Hreturn.
  { split; [reflexivity|]. intros t messages. now exists [], None. }
  assert (alwaysMalformed malformedEnv) as Hbad.
  { intros t messages.
    now exists [Tokens (lit "{") ToolTokens], [IRToolMalformed (lit "bad json")],
      (lit "curl"), (IRToolMalformed (lit "bad json")). }
  destruct (@malformed_backend_exhausts_retry_budget malformedEnv
              [IRUser (lit "hi")] 2%Z freshArc ltac:(lia) Hlive Hreturn Hbad)
    as (finish & st' & curl & Hrun & Hreason & Hbudgets & _ & Hcalls & _).
  exists finish, st', curl.
  split; [exact Hrun|]. split; [exact Hreason|].
  split; [exact Hbudgets | exact Hcalls].
Defined.

(** C1, as stated, fails: a backend that only emits malformed tool calls
    is not even asked when the abort signal is raised.  With budget 2 the
    arc is entered once, makes no backend call and finishes with reason
    abort, where the sentence promises three arcs, three calls and a
    request-error. *)
Theorem aborted_arc_ignores_retry_budget :
  alwaysMalformed abortedEnv
  /\ collaboratorsReturn abortedEnv
  /\ exists st',
       trajectoryArc abortedEnv [IRUser (lit "hi")] 2 freshArc
       = (Ok {| f_irs := []; f_reason := Abort |}, st')
       /\ enteredBudgets (events st') = [2%Z]
       /\ backendCalls (events st') = 0.
Proof.
  split; [|split].
  - intros t messages.
    now exists [Tokens (lit "{") ToolTokens], [IRToolMalformed (lit "bad json")],
      (lit "curl"), (IRToolMalformed (lit "bad json")).
  - split; [reflexivity|]. intros t messages. now exists [], None.
  - rewrite trajectoryArc_unfolded. eexists. split; [reflexivity|].
    split; reflexivity.
Qed.

(** ** The observation parser *)

Section Parser.

Implicit Types (content : jstr) (o : TaskObservation).

(** The parser fails exactly when one of the three required matches is
    missing or blank; the trace and result matches play no part. *)
Lemma parseTaskObservationBlock_none content :
  parseTaskObservationBlock content = None <->
  (matchTrimmed reTaskId content = None
   \/ matchTrimmed reTaskId content = Some [])
  \/ (matchTrimmed reTaskSubagent content = None
      \/ matchTrimmed reTaskSubagent content = Some [])
  \/ (matchTrimmed reTaskDescription content = None
      \/ matchTrimmed reTaskDescription content = Some []).
Proof.
  unfold parseTaskObservationBlock.
  destruct (matchTrimmed reTaskId content) as [[|i id]|];
    destruct (matchTrimmed reTaskSubagent content) as [[|s name]|];
    destruct (matchTrimmed reTaskDescription content) as [[|d desc]|];
    split; intros H; try discriminate; try tauto;
    (destruct H as [[H|H]|[[H|H]|[H|H]]]; discriminate).
Qed.

Lemma mapNonNull_flat_map {A B} (f : A -> option B) (xs : list A) :
  mapNonNull f xs
  = flat_map (fun x => match f x with Some y => [y] | None => [] end) xs.
Proof.
  induction xs as [|x xs IH]; simpl; [reflexivity|].
  destruct (f x); simpl; now rewrite IH.
Qed.

Lemma mapNonNull_map {A B C} (f : B -> option C) (g : A -> B) (xs : list A) :
  mapNonNull (fun x => f (g x)) xs = mapNonNull f (map g xs).
Proof.
  induction xs as [|x xs IH]; simpl; [reflexivity|].
  destruct (f (g x)); now rewrite IH.
Qed.

Lemma mapNonNull_In {A B} (f : A -> option B) (xs : list A) (y : B) :
  In y (mapNonNull f xs) <-> exists x, In x xs /\ f x = Some y.
Proof.
  rewrite mapNonNull_flat_map, in_flat_map. split.
  - intros [x [Hx Hy]]. exists x. split; [exact Hx|].
    destruct (f x); [|easy]. destruct Hy as [->|[]]. reflexivity.
  - intros [x [Hx Hy]]. exists x. split; [exact Hx|]. rewrite Hy. now left.
Qed.

Lemma mapNonNull_length {A B} (f : A -> option B) (xs : list A) :
  List.length (mapNonNull f xs) <= List.length xs.
Proof.
  induction xs as [|x xs IH]; simpl; [lia|].
  destruct (f x); simpl; lia.
Qed.

Lemma mapNonNull_none {A B} (f : A -> option B) (xs : list A) :
  (forall x, In x xs -> f x = None) -> mapNonNull f xs = [].
Proof.
  induction xs as [|x xs IH]; simpl; [reflexivity|].
  intros H. rewrite (H x) by now left. apply IH. intros y Hy. apply H. now right.
Qed.

Lemma parse_wrapped content :
  wrappedBlocks content <> [] ->
  parseTaskObservationsFromToolOutput content
  = mapNonNull parseTaskObservationBlock (wrappedBlocks content).
Proof.
  unfold parseTaskObservationsFromToolOutput, wrappedBlocks.
  destruct (matchAll1 reTaskObservation content) as [|m ms]; [easy|].
  intros _. cbn [List.length Nat.ltb Nat.leb].
  apply (mapNonNull_map parseTaskObservationBlock blockText).
Qed.

Lemma parse_unwrapped content :
  wrappedBlocks content = [] ->
  parseTaskObservationsFromToolOutput content
  = match parseTaskObservationBlock content with
    | Some single => [single]
    | None => []
    end.
Proof.
  unfold parseTaskObservationsFromToolOutput, wrappedBlocks.
  now destruct (matchAll1 reTaskObservation content).
Qed.

End Parser.

(** C6: a block whose [task_id:] line is empty is not rejected.  [\s*]
    runs over the line break, and the next line is taken as the task id.
    The text is what the single-observation builder emits for the
    explicit task id [""]. *)
Theorem parse_empty_task_id_takes_next_line :
  emptyIdOutput
  = buildObservedTaskOutput
      {| o_taskId := []; o_subagentName := lit "general";
         o_description := lit "scan"; o_trace := lit "[user]";
         o_result := lit "done" |}
  /\ parseTaskObservationBlock emptyIdOutput
     = Some {| o_taskId := lit "task_subagent: general";
               o_subagentName := lit "general";
               o_description := lit "scan";
               o_trace := lit "[user]";
               o_result := lit "done" |}.
Proof. split; vm_compute; reflexivity. Qed.

(** ** Regular-expression matching *)

Section RegexFacts.

Implicit Types (r : Regex.t) (g : Group) (prev : option ascii) (s : jstr)
  (k : Cont).

Lemma lastSeen_app prev s s' :
  lastSeen prev (s ++ s') = lastSeen (lastSeen prev s) s'.
Proof. apply fold_left_app. Qed.

Lemma lastSeen_cons prev c s : lastSeen prev (c :: s) = lastSeen (Some c) s.
Proof. reflexivity. Qed.

(** A literal run matches its own text and moves on. *)
Lemma matchHere_chars (l : jstr) r g :
  forall prev s,
    matchHere (chars l ++ r) g prev (l ++ s)
    = matchHere r g (lastSeen prev l) s.
Proof.
  induction l as [|c l IH]; intros prev s; [reflexivity|].
  cbn [chars map app matchHere accepts]. rewrite Ascii.eqb_refl.
  apply IH.
Qed.

(** A literal run fails where the input does not start with it. *)
Lemma matchHere_chars_fail (l : jstr) r g :
  forall prev s, startsWith l s = false ->
                 matchHere (chars l ++ r) g prev s = None.
Proof.
  induction l as [|c l IH]; intros prev s H; [discriminate|].
  cbn [chars map app matchHere accepts]. destruct s as [|x s]; [reflexivity|].
  cbn [startsWith] in H. destruct (Ascii.eqb c x); [|reflexivity].
  now apply IH.
Qed.

(** [c*] and [c+] over a run [x] of [c], stopping where [c] stops, hand
    over to a continuation that succeeds there. *)
Lemma greedyStar_run (c : CharClass) k (x : jstr) (rest : jstr) (m : Match) :
  Forall (fun a => accepts c a = true) x ->
  stopsAt c rest ->
  forall prev,
    k (lastSeen prev x) rest = Some m ->
    greedyStar c k prev (x ++ rest) = Some m.
Proof.
  intros Hx Hstop. induction Hx as [|a x Ha Hx IH]; intros prev Hk.
  - cbn [app lastSeen fold_left] in *.
    destruct rest as [|y rest]; cbn [greedyStar]; [exact Hk|].
    cbn [stopsAt] in Hstop. now rewrite Hstop.
  - cbn [app greedyStar]. rewrite Ha. now rewrite (IH (Some a) Hk).
Qed.

(** [[\s\S]*?] reads on while the continuation fails. *)
Lemma lazyStar_run k (x rest : jstr) (m : Match) :
  (forall y1 y2 p, x = y1 ++ y2 -> y2 <> [] -> k p (y2 ++ rest) = None) ->
  forall prev,
    k (lastSeen prev x) rest = Some m ->
    lazyStar AnyChar k prev (x ++ rest) = Some m.
Proof.
  induction x as [|a x IH]; intros Hfail prev Hk.
  - cbn [app lastSeen fold_left] in *.
    destruct rest; cbn [lazyStar]; now rewrite Hk.
  - cbn [app lazyStar accepts].
    pose proof (Hfail [] (a :: x) prev eq_refl ltac:(discriminate)) as H0.
    cbn [app] in H0. rewrite H0.
    apply IH; [|exact Hk].
    intros y1 y2 p -> Hy. now apply (Hfail (a :: y1) y2 p).
Qed.

(** The search passes a stretch at no position of which the expression
    matches. *)
Lemma search_skip r (x rest : jstr) :
  (forall y1 y2 p, x = y1 ++ y2 -> y2 <> [] ->
                   matchHere r noGroup p (y2 ++ rest) = None) ->
  forall prev, search r prev (x ++ rest) = search r (lastSeen prev x) rest.
Proof.
  induction x as [|a x IH]; intros Hfail prev; [reflexivity|].
  cbn [app search].
  pose proof (Hfail [] (a :: x) prev eq_refl ltac:(discriminate)) as H0.
  cbn [app] in H0. rewrite H0.
  rewrite lastSeen_cons. apply IH.
  intros y1 y2 p -> Hy. now apply (Hfail (a :: y1) y2 p).
Qed.

(** An expression anchored with [^] matches nowhere inside a line. *)
Lemma search_bol_skip r (x rest : jstr) :
  Forall (fun a => isLineTerminator a = false) x ->
  forall prev,
    atLineStart prev = false ->
    search (Bol :: r) prev (x ++ rest)
    = search (Bol :: r) (lastSeen prev x) rest.
Proof.
  intros Hx. induction Hx as [|a x Ha Hx IH]; intros prev Hprev;
    [reflexivity|].
  cbn [app search matchHere]. rewrite Hprev. rewrite lastSeen_cons.
  apply IH. exact Ha.
Qed.

Lemma atLineStart_lastSeen prev (x : jstr) :
  Forall (fun a => isLineTerminator a = false) x ->
  atLineStart prev = false ->
  atLineStart (lastSeen prev x) = false.
Proof.
  intros Hx. revert prev. induction Hx as [|a x Ha Hx IH]; intros prev Hprev;
    [exact Hprev|].
  rewrite lastSeen_cons. apply IH. exact Ha.
Qed.

(** What the group holds when it is closed after reading [x]. *)
Lemma closeGroup_capture (x rest : jstr) g :
  g_capture (closeGroup rest (openGroup (x ++ rest) g)) = Some x.
Proof.
  cbn [closeGroup openGroup g_open g_capture]. f_equal.
  rewrite length_app, Nat.add_sub, firstn_app, Nat.sub_diag, firstn_all.
  cbn [firstn]. apply app_nil_r.
Qed.

End RegexFacts.

(** ** Substrings and trimming *)

Section StringFacts.

Implicit Types (l x y s rest : jstr).

(** A needle without line feed that does not start [y] does not start
    [y] followed by a line feed either. *)
Lemma startsWith_line l :
  ~ In LF l ->
  forall y rest, startsWith l y = false ->
                 startsWith l (y ++ LF :: rest) = false.
Proof.
  intros Hlf. induction l as [|a l IH]; intros y rest H; [discriminate|].
  destruct y as [|b y]; cbn [app startsWith] in *.
  - destruct (Ascii.eqb_spec a LF) as [->|]; [|reflexivity].
    exfalso. apply Hlf. now left.
  - destruct (Ascii.eqb a b); [|reflexivity]. cbn [andb] in *.
    apply IH; [|exact H]. intros Hin. apply Hlf. now right.
Qed.

Lemma includes_cons l c x :
  includes l (c :: x) = startsWith l (c :: x) || includes l x.
Proof. reflexivity. Qed.

(** Without the needle in [y1 ++ y2], no suffix starts with it. *)
Lemma includes_suffix l y1 :
  forall y2, includes l (y1 ++ y2) = false -> startsWith l y2 = false.
Proof.
  induction y1 as [|c y1 IH]; intros y2 H.
  - cbn [app] in H. destruct y2; cbn [includes] in H;
      now apply orb_false_iff in H.
  - cbn [app] in H. rewrite includes_cons in H.
    apply orb_false_iff in H. now apply IH.
Qed.

(** A needle without line feed lies within one side of a line feed. *)
Lemma includes_line l x y :
  l <> [] -> ~ In LF l ->
  includes l x = false -> includes l y = false ->
  includes l (x ++ LF :: y) = false.
Proof.
  intros Hne Hlf Hx Hy. induction x as [|c x IH].
  - cbn [app]. rewrite includes_cons, Hy, orb_false_r.
    apply (@startsWith_line l Hlf [] y). now destruct l.
  - cbn [app]. rewrite includes_cons in *.
    apply orb_false_iff in Hx as [Hs Hx].
    rewrite (IH Hx), orb_false_r.
    apply (@startsWith_line l Hlf (c :: x) y Hs).
Qed.

(** The search for a literal passes a stretch that ends in a line feed and
    does not hold the literal. *)
Lemma search_chars_skip_line l r x rest prev :
  l <> [] -> ~ In LF l -> includes l x = false ->
  search (chars l ++ r) prev (x ++ LF :: rest)
  = search (chars l ++ r) (Some LF) rest.
Proof.
  intros Hne Hlf Hx.
  change (x ++ LF :: rest) with (x ++ [LF] ++ rest). rewrite app_assoc.
  rewrite search_skip.
  - now rewrite lastSeen_app.
  - intros y1 y2 p Hsplit Hy2. apply matchHere_chars_fail.
    destruct (exists_last Hy2) as (y2' & b & ->).
    rewrite app_assoc in Hsplit. apply app_inj_tail in Hsplit as [-> <-].
    rewrite <- app_assoc. cbn [app].
    apply startsWith_line; [exact Hlf|]. now apply (includes_suffix l y1).
Qed.

Lemma trimStart_length s : List.length (trimStart s) <= List.length s.
Proof.
  induction s as [|c s IH]; cbn [trimStart]; [lia|].
  destruct (isWhite c); cbn [List.length]; lia.
Qed.

Lemma trimEnd_length s : List.length (trimEnd s) <= List.length s.
Proof.
  unfold trimEnd. rewrite length_rev.
  pose proof (trimStart_length (rev s)) as H. now rewrite length_rev in H.
Qed.

(** A text that [trim] leaves alone does not start with white space. *)
Lemma trim_fixed_head c s : trim (c :: s) = c :: s -> isWhite c = false.
Proof.
  intros H. destruct (isWhite c) eqn:E; [|reflexivity].
  apply (f_equal (@List.length _)) in H. unfold trim in H.
  cbn [trimStart] in H. rewrite E in H.
  pose proof (trimEnd_length (trimStart s)).
  pose proof (trimStart_length s). cbn [List.length] in H. lia.
Qed.

Lemma join_cons2 (p q : jstr) (lines : list jstr) :
  join nl (p :: q :: lines) = p ++ LF :: join nl (q :: lines).
Proof. reflexivity. Qed.

Lemma join_app (a b : list jstr) :
  a <> [] -> b <> [] -> join nl (a ++ b) = join nl a ++ LF :: join nl b.
Proof.
  intros Ha Hb. induction a as [|p a IH]; [congruence|].
  destruct a as [|q a].
  - destruct b as [|q b]; [congruence|]. reflexivity.
  - change ((p :: q :: a) ++ b) with (p :: (q :: a) ++ b).
    change ((q :: a) ++ b) with (q :: a ++ b) at 1.
    rewrite !join_cons2. change (q :: a ++ b) with ((q :: a) ++ b).
    rewrite IH by discriminate. now rewrite <- app_assoc.
Qed.

(** A needle without line feed that no line holds is not in the joined
    text. *)
Lemma includes_join l (lines : list jstr) :
  l <> [] -> ~ In LF l ->
  Forall (fun line => includes l line = false) lines ->
  includes l (join nl lines) = false.
Proof.
  intros Hne Hlf Hall. induction Hall as [|p lines Hp Hall IH].
  - now destruct l.
  - destruct lines as [|q lines]; [exact Hp|].
    rewrite join_cons2. now apply includes_line.
Qed.

End StringFacts.

(** ** Matching the lines of an observation block *)

Section BlockMatching.

Implicit Types (key v body rest opening closing : jstr) (prev : option ascii).

Ltac no_line_feed :=
  let H := fresh in
  intros H; cbn in H;
  repeat (destruct H as [H|H]; [discriminate H|]); exact H.

Lemma matchHere_opt_taken (c : CharClass) (r : Regex.t) (g : Group) prev
    (x : ascii) (s : jstr) (m : Match) :
  accepts c x = true ->
  matchHere r g (Some x) s = Some m ->
  matchHere (Opt c :: r) g prev (x :: s) = Some m.
Proof. intros Hx Hm. cbn [matchHere]. now rewrite Hx, Hm. Qed.

(** A header expression at the start of its line: [key], blanks, the
    value up to the end of the line. *)
Lemma matchHere_field key v rest prev :
  atLineStart prev = true ->
  v <> [] -> Forall (fun a => isLineTerminator a = false) v ->
  trim v = v -> atLineEnd rest = true ->
  matchHere (reField key) noGroup prev (key ++ " "%char :: v ++ rest)
  = Some {| m_group := Some v; m_rest := rest |}.
Proof.
  intros Hprev Hne Hline Htrim Hrest.
  unfold reField. cbn [app matchHere]. rewrite Hprev.
  rewrite matchHere_chars.
  destruct v as [|c v]; [congruence|].
  pose proof (trim_fixed_head Htrim) as Hc.
  inversion Hline as [|? ? Hc' Hv]; subst.
  change (matchHere (Star Space :: ?r) ?g ?p ?s)
    with (greedyStar Space (matchHere r g) p s).
  apply (@greedyStar_run Space _ [" "%char] ((c :: v) ++ rest)).
  - now repeat constructor.
  - exact Hc.
  - cbn [matchHere app accepts]. rewrite Hc'. cbn [negb].
    apply greedyStar_run.
    + apply Forall_forall. intros a Ha. cbn [accepts].
      rewrite Forall_forall in Hv. now rewrite (Hv a Ha).
    + destruct rest as [|y rest]; [exact I|]. cbn [stopsAt accepts].
      cbn [atLineEnd] in Hrest. now rewrite Hrest.
    + cbn [matchHere]. rewrite Hrest. f_equal. f_equal.
      apply (closeGroup_capture (c :: v) rest noGroup).
Qed.

(** A tag expression on a body between its tags, each on a line of its
    own: the group is the body. *)
Lemma matchHere_tagged opening closing body rest prev :
  closing <> [] -> ~ In LF closing -> includes closing body = false ->
  matchHere (reTagged opening closing) noGroup prev
    (opening ++ LF :: body ++ LF :: closing ++ rest)
  = Some {| m_group := Some body; m_rest := rest |}.
Proof.
  intros Hne Hlf Hbody. unfold reTagged.
  rewrite matchHere_chars. cbn [app].
  apply matchHere_opt_taken; [apply Ascii.eqb_refl|].
  change (matchHere (GroupOpen :: LazyStar AnyChar :: ?r) ?g ?p ?s)
    with (lazyStar AnyChar (matchHere r (openGroup s g)) p s).
  apply lazyStar_run.
  - intros y1 y2 p -> Hy2.
    assert (forall y q g', startsWith closing y = false ->
              matchHere (chars closing) g' q (y ++ LF :: closing ++ rest)
              = None) as Hfail.
    { intros y q g' Hy. rewrite <- (app_nil_r (chars closing)).
      apply matchHere_chars_fail. now apply startsWith_line. }
    destruct y2 as [|c y2]; [congruence|].
    cbn [matchHere app accepts].
    rewrite (Hfail (c :: y2)); [|now apply (includes_suffix closing y1)].
    destruct (Ascii.eqb LF c); [|reflexivity].
    rewrite (Hfail y2); [reflexivity|].
    apply (includes_suffix closing (y1 ++ [c])).
    now rewrite <- app_assoc.
  - cbn [matchHere accepts]. rewrite Ascii.eqb_refl.
    rewrite <- (app_nil_r (chars closing)), matchHere_chars.
    cbn [matchHere]. f_equal. f_equal.
    apply (closeGroup_capture body (LF :: closing ++ rest) noGroup).
Qed.

End BlockMatching.

(** ** Parsing the text of a block *)

Section BlockParsing.

Implicit Types (r : Regex.t) (x v rest : jstr) (prev : option ascii).

Lemma search_here r prev s (m : Match) :
  matchHere r noGroup prev s = Some m -> search r prev s = Some m.
Proof. intros H. destruct s; cbn [search]; now rewrite H. Qed.

(** A line at whose start an anchored expression fails is passed whole. *)
Lemma search_skip_line r prev (c : ascii) x rest :
  matchHere (Bol :: r) noGroup prev ((c :: x) ++ LF :: rest) = None ->
  Forall (fun a => isLineTerminator a = false) (c :: x) ->
  search (Bol :: r) prev ((c :: x) ++ LF :: rest)
  = search (Bol :: r) (Some LF) rest.
Proof.
  intros Hfail Hline. inversion Hline as [|? ? Hc Hx]; subst.
  cbn [app search] in *. rewrite Hfail.
  rewrite search_bol_skip by (exact Hx || exact Hc).
  cbn [search matchHere].
  now rewrite (@atLineStart_lastSeen (Some c) x Hx Hc).
Qed.

Lemma includes_after_prefix (a : ascii) (l key v : jstr) :
  Forall (fun c => Ascii.eqb a c = false) key ->
  includes (a :: l) (key ++ v) = includes (a :: l) v.
Proof.
  intros Hkey. induction Hkey as [|c key Hc Hkey IH]; [reflexivity|].
  cbn [app]. rewrite includes_cons. cbn [startsWith]. now rewrite Hc.
Qed.

Lemma headerOk_spec x :
  headerOk x = true ->
  x <> [] /\ Forall (fun a => isLineTerminator a = false) x /\ trim x = x
  /\ includes (lit "<task_trace>") x = false
  /\ includes (lit "<task_result>") x = false.
Proof.
  unfold headerOk, lacks, trimmed, singleLine. intros H.
  repeat (apply andb_true_iff in H as [H ?]).
  repeat split.
  - now destruct x.
  - apply Forall_forall. intros a Ha.
    match goal with
    | Hall : forallb _ x = true |- _ =>
        rewrite forallb_forall in Hall; specialize (Hall a Ha)
    end.
    now destruct (isLineTerminator a).
  - now apply eqb_eq.
  - now apply negb_true_iff.
  - now apply negb_true_iff.
Qed.

Variables (id name desc trace result : jstr).

Hypothesis Hid : headerOk id = true.
Hypothesis Hname : headerOk name = true.
Hypothesis Hdesc : headerOk desc = true.

Let text : jstr := blockLines id name desc trace result.

Ltac line_of H :=
  constructor; [reflexivity|];
  apply Forall_app; split; [repeat constructor | apply (@headerOk_spec _ H)].

Lemma block_task_id : match1 reTaskId text = Some id.
Proof.
  destruct (@headerOk_spec _ Hid) as (Hne & Hline & Htrim & _).
  unfold match1. erewrite search_here.
  2:{ apply (@matchHere_field (lit "task_id:") id _ None eq_refl Hne Hline
               Htrim).
      reflexivity. }
  reflexivity.
Qed.

(** The text from the second line, from the third line, and after the
    header. *)
Let afterHeader : jstr :=
  LF :: lit "<task_trace>" ++ LF :: trace ++ LF :: lit "</task_trace>" ++ LF ::
  LF :: lit "<task_result>" ++ LF :: result ++ LF :: lit "</task_result>".
Let fromLine3 : jstr := lit "task_description: " ++ desc ++ LF :: afterHeader.
Let fromLine2 : jstr := lit "task_subagent: " ++ name ++ LF :: fromLine3.

Lemma block_task_subagent : match1 reTaskSubagent text = Some name.
Proof.
  destruct (@headerOk_spec _ Hname) as (Hne & Hline & Htrim & _).
  unfold match1.
  change reTaskSubagent with (Bol :: tl (reField (lit "task_subagent:"))).
  change text with (("t"%char :: lit "ask_id: " ++ id) ++ LF :: fromLine2).
  rewrite search_skip_line; [|reflexivity | line_of Hid].
  erewrite search_here.
  2:{ apply (@matchHere_field (lit "task_subagent:") name (LF :: fromLine3)
               (Some LF) eq_refl Hne Hline Htrim).
      reflexivity. }
  reflexivity.
Qed.

Lemma block_task_description : match1 reTaskDescription text = Some desc.
Proof.
  destruct (@headerOk_spec _ Hdesc) as (Hne & Hline & Htrim & _).
  unfold match1.
  change reTaskDescription
    with (Bol :: tl (reField (lit "task_description:"))).
  change text with (("t"%char :: lit "ask_id: " ++ id) ++ LF :: fromLine2).
  rewrite search_skip_line; [|reflexivity | line_of Hid].
  change fromLine2
    with (("t"%char :: lit "ask_subagent: " ++ name) ++ LF :: fromLine3).
  rewrite search_skip_line; [|reflexivity | line_of Hname].
  erewrite search_here.
  2:{ apply (@matchHere_field (lit "task_description:") desc
               (LF :: afterHeader) (Some LF) eq_refl Hne Hline Htrim).
      reflexivity. }
  reflexivity.
Qed.

Hypothesis Htrace : includes (lit "</task_trace>") trace = false.
Hypothesis Htrace' : includes (lit "<task_result>") trace = false.
Hypothesis Hresult : includes (lit "</task_result>") result = false.

Let headerLines : list jstr :=
  [ lit "task_id: " ++ id; lit "task_subagent: " ++ name;
    lit "task_description: " ++ desc; [] ].
Let traceLines : list jstr :=
  [ lit "<task_trace>"; trace; lit "</task_trace>"; [] ].
Let resultLines : list jstr :=
  [ lit "<task_result>"; result; lit "</task_result>" ].

Lemma text_lines : text = join nl (headerLines ++ traceLines ++ resultLines).
Proof. reflexivity. Qed.

Ltac no_line_feed :=
  let H := fresh in
  intros H; cbn in H;
  repeat (destruct H as [H|H]; [discriminate H|]); exact H.

(** A header line holds an opening tag only in its value. *)
Ltac header_line H :=
  match goal with
  | |- includes (lit ?needle) (lit ?key ++ ?v) = false =>
      let a := eval cbn in (hd "000"%char (lit needle)) in
      let l := eval cbn in (tl (lit needle)) in
      change (lit needle) with (a :: l);
      rewrite includes_after_prefix by (repeat constructor);
      exact H
  end.

Lemma block_task_trace : match1 reTaskTrace text = Some trace.
Proof.
  destruct (@headerOk_spec _ Hid) as (_ & _ & _ & Hid' & _).
  destruct (@headerOk_spec _ Hname) as (_ & _ & _ & Hname' & _).
  destruct (@headerOk_spec _ Hdesc) as (_ & _ & _ & Hdesc' & _).
  unfold match1. rewrite text_lines, join_app by discriminate.
  change reTaskTrace
    with (chars (lit "<task_trace>")
          ++ tl (tl (tl (tl (tl (tl (tl (tl (tl (tl (tl (tl
               (reTagged (lit "<task_trace>") (lit "</task_trace>")))))))))))))).
  rewrite search_chars_skip_line; [|discriminate | no_line_feed |].
  2:{ apply includes_join; [discriminate | no_line_feed |].
      unfold headerLines.
      apply Forall_cons; [header_line Hid'|].
      apply Forall_cons; [header_line Hname'|].
      apply Forall_cons; [header_line Hdesc'|].
      apply Forall_cons; [reflexivity | constructor]. }
  erewrite search_here.
  2:{ apply (@matchHere_tagged (lit "<task_trace>") (lit "</task_trace>")
               trace (LF :: LF :: join nl resultLines) (Some LF));
        [discriminate | no_line_feed | exact Htrace]. }
  reflexivity.
Qed.

Lemma block_task_result : match1 reTaskResult text = Some result.
Proof.
  destruct (@headerOk_spec _ Hid) as (_ & _ & _ & _ & Hid').
  destruct (@headerOk_spec _ Hname) as (_ & _ & _ & _ & Hname').
  destruct (@headerOk_spec _ Hdesc) as (_ & _ & _ & _ & Hdesc').
  unfold match1. rewrite text_lines, app_assoc, join_app by discriminate.
  change reTaskResult
    with (chars (lit "<task_result>")
          ++ tl (tl (tl (tl (tl (tl (tl (tl (tl (tl (tl (tl (tl
               (reTagged (lit "<task_result>")
                  (lit "</task_result>"))))))))))))))).
  rewrite search_chars_skip_line; [|discriminate | no_line_feed |].
  2:{ apply includes_join; [discriminate | no_line_feed |].
      unfold headerLines, traceLines. cbn [app].
      apply Forall_cons; [header_line Hid'|].
      apply Forall_cons; [header_line Hname'|].
      apply Forall_cons; [header_line Hdesc'|].
      apply Forall_cons; [reflexivity|].
      apply Forall_cons; [reflexivity|].
      apply Forall_cons; [exact Htrace'|].
      apply Forall_cons; [reflexivity|].
      apply Forall_cons; [reflexivity | constructor]. }
  erewrite search_here.
  2:{ apply (@matchHere_tagged (lit "<task_result>") (lit "</task_result>")
               result [] (Some LF));
        [discriminate | no_line_feed | exact Hresult]. }
  reflexivity.
Qed.

Hypothesis Htrace_trim : trim trace = trace.
Hypothesis Hresult_trim : trim result = result.

(** The block parser gives back the five fields. *)
Lemma block_parses :
  parseTaskObservationBlock text
  = Some {| o_taskId := id; o_subagentName := name; o_description := desc;
            o_trace := trace; o_result := result |}.
Proof.
  destruct (@headerOk_spec _ Hid) as (Hid1 & _ & Hid2 & _).
  destruct (@headerOk_spec _ Hname) as (Hname1 & _ & Hname2 & _).
  destruct (@headerOk_spec _ Hdesc) as (Hdesc1 & _ & Hdesc2 & _).
  unfold parseTaskObservationBlock, matchTrimmed.
  rewrite block_task_id, block_task_subagent, block_task_description,
    block_task_trace, block_task_result.
  cbn [option_map]. rewrite Hid2, Hname2, Hdesc2, Htrace_trim, Hresult_trim.
  destruct id; [congruence|]. destruct name; [congruence|].
  destruct desc; [congruence|]. reflexivity.
Qed.

End BlockParsing.

(** ** Round trip of the single builder *)

Section SingleRoundTrip.

Implicit Types (o : TaskObservation) (r : Regex.t) (s x rest : jstr).

Lemma clip_within (cap : Z) (t : jstr) :
  (len t <=? cap)%Z = true -> clip cap t = t.
Proof.
  intros H. unfold clip. apply Z.leb_le in H.
  destruct (Z.ltb_spec cap (len t)); [lia | reflexivity].
Qed.

Lemma matchAllFrom_none r s :
  (forall y1 y2 p, s = y1 ++ y2 -> matchHere r noGroup p y2 = None) ->
  forall prev, matchAllFrom r prev s 0 = [].
Proof.
  induction s as [|c s IH]; intros Hfail prev; cbn [matchAllFrom].
  - now rewrite (Hfail [] [] prev eq_refl).
  - rewrite (Hfail [] (c :: s) prev eq_refl). apply IH.
    intros y1 y2 p ->. now apply (Hfail (c :: y1) y2 p).
Qed.

(** No wrapper is found in a text that does not hold the opening tag. *)
Lemma no_wrapper s :
  includes (lit "<task_observation>") s = false -> wrappedBlocks s = [].
Proof.
  intros H. unfold wrappedBlocks, matchAll1.
  rewrite matchAllFrom_none; [reflexivity|].
  intros y1 y2 p ->.
  change reTaskObservation
    with (chars (lit "<task_observation>")
          ++ tl (tl (tl (tl (tl (tl (tl (tl (tl (tl (tl (tl (tl (tl (tl
               (tl (tl (tl
                 (reTagged (lit "<task_observation>")
                    (lit "</task_observation>")))))))))))))))))))).
  apply matchHere_chars_fail. now apply (includes_suffix _ y1).
Qed.

Lemma everyField_spec (p : jstr -> bool) o :
  everyField p o = true ->
  p (o_taskId o) = true /\ p (o_subagentName o) = true
  /\ p (o_description o) = true /\ p (o_trace o) = true
  /\ p (o_result o) = true.
Proof.
  unfold everyField. intros H.
  repeat (apply andb_true_iff in H as [H ?]). now repeat split.
Qed.

Lemma blockOk_spec (traceCap resultCap : Z) o :
  blockOk traceCap resultCap o = true ->
  headerOk (o_taskId o) = true /\ headerOk (o_subagentName o) = true
  /\ headerOk (o_description o) = true
  /\ trim (o_trace o) = o_trace o
  /\ (len (o_trace o) <=? traceCap)%Z = true
  /\ includes (lit "</task_trace>") (o_trace o) = false
  /\ includes (lit "<task_result>") (o_trace o) = false
  /\ trim (o_result o) = o_result o
  /\ (len (o_result o) <=? resultCap)%Z = true
  /\ includes (lit "</task_result>") (o_result o) = false.
Proof.
  unfold blockOk. intros H.
  apply andb_true_iff in H as [H Hb]. apply andb_true_iff in H as [H Hd].
  apply andb_true_iff in H as [Hi Hn].
  unfold bodiesOk, lacks, trimmed in Hb.
  apply andb_true_iff in Hb as [Hb H7]. apply andb_true_iff in Hb as [Hb H6].
  apply andb_true_iff in Hb as [Hb H5]. apply andb_true_iff in Hb as [Hb H4].
  apply andb_true_iff in Hb as [Hb H3]. apply andb_true_iff in Hb as [H1 H2].
  apply negb_true_iff in H3, H4, H7. apply eqb_eq in H1, H5.
  now repeat split.
Qed.

(** A needle that starts with [<], has no line feed and is in no field is
    not in the text of the block. *)
Lemma includes_block (l : jstr) o :
  ~ In LF l ->
  includes ("<"%char :: l) (lit "<task_trace>") = false ->
  includes ("<"%char :: l) (lit "</task_trace>") = false ->
  includes ("<"%char :: l) (lit "<task_result>") = false ->
  includes ("<"%char :: l) (lit "</task_result>") = false ->
  everyField (fun x => negb (includes ("<"%char :: l) x)) o = true ->
  includes ("<"%char :: l)
    (join nl (observationFields o (o_trace o) (o_result o))) = false.
Proof.
  intros Hlf H1 H2 H3 H4 Hall.
  destruct (everyField_spec _ _ Hall) as (Hi & Hn & Hd & Ht & Hr).
  apply negb_true_iff in Hi, Hn, Hd, Ht, Hr.
  apply includes_join; [discriminate | |].
  { intros [Hin|Hin]; [discriminate Hin | now apply Hlf]. }
  unfold observationFields.
  repeat (apply Forall_cons;
          [first [ assumption | reflexivity
                 | rewrite includes_after_prefix by (repeat constructor);
                   assumption ] |]).
  constructor.
Qed.

End SingleRoundTrip.

(** C5, as stated, fails: what the builder emits is not always parsed back
    to the observation it was built from.  White space around the trace is
    trimmed away (single and batch), and a trace over the cap comes back
    cut with the marker. *)
Lemma observation_round_trip_fails :
  parseTaskObservationFromToolOutput (buildObservedTaskOutput paddedTrace)
  <> Some paddedTrace
  /\ parseTaskObservationFromToolOutput (buildObservedTaskOutput longTrace)
     <> Some longTrace
  /\ parseTaskObservationsFromToolOutput
       (buildParallelObservedTaskOutput [paddedTrace])
     <> [paddedTrace].
Proof.
  assert (option_map (fun o => len (o_trace o))
            (parseTaskObservationFromToolOutput
               (buildObservedTaskOutput paddedTrace)) = Some 1%Z) as Hpadded
    by (vm_compute; reflexivity).
  assert (option_map (fun o => len (o_trace o))
            (parseTaskObservationFromToolOutput
               (buildObservedTaskOutput longTrace)) = Some 4016%Z) as Hlong
    by (vm_compute; reflexivity).
  assert (len (o_trace longTrace) = 4001%Z) as Hlen
    by (vm_compute; reflexivity).
  assert (map (fun o => len (o_trace o))
            (parseTaskObservationsFromToolOutput
               (buildParallelObservedTaskOutput [paddedTrace])) = [1%Z])
    as Hbatch by (vm_compute; reflexivity).
  split; [intros H; rewrite H in Hpadded; discriminate Hpadded|].
  split.
  { intros H. rewrite H in Hlong. cbn [option_map] in Hlong.
    rewrite Hlen in Hlong. discriminate Hlong. }
  intros H. rewrite H in Hbatch. discriminate Hbatch.
Qed.

(** The single builder: an observation whose three header values
    are non-empty, on one line, without white space around them and free
    of the opening body tags, whose trace and result are without white
    space around them, within the caps 4,000 and 2,000, and free of the
    tags that end or start a body, and which holds no opening wrapper tag,
    comes back from the single builder's text as it went in. *)
Lemma single_observation_round_trip (o : TaskObservation) :
  singleRoundTrips o = true ->
  parseTaskObservationFromToolOutput (buildObservedTaskOutput o) = Some o.
Proof.
  intros H. unfold singleRoundTrips in H.
  apply andb_true_iff in H as [Hblock Hwrap].
  destruct (blockOk_spec _ _ _ Hblock)
    as (Hi & Hn & Hd & Ht1 & Ht2 & Ht3 & Ht4 & Hr1 & Hr2 & Hr3).
  unfold buildObservedTaskOutput, parseTaskObservationFromToolOutput.
  rewrite (clip_within _ _ Ht2), (clip_within _ _ Hr2).
  rewrite parse_unwrapped.
  2:{ apply no_wrapper.
      apply (@includes_block (lit "task_observation>") o);
        try reflexivity; [|exact Hwrap].
      intros Hin; cbn in Hin;
        repeat (destruct Hin as [Hin|Hin]; [discriminate Hin|]); exact Hin. }
  change (join nl (observationFields o (o_trace o) (o_result o)))
    with (blockLines (o_taskId o) (o_subagentName o) (o_description o)
            (o_trace o) (o_result o)).
  rewrite (@block_parses _ _ _ _ _ Hi Hn Hd Ht3 Ht4 Hr3 Ht1 Hr1).
  now destruct o.
Qed.

(** ** Round trip of the batch builder *)

Section BatchRoundTrip.

Implicit Types (o : TaskObservation) (r : Regex.t) (s x rest : jstr)
  (prev : option ascii).

Lemma matchAllFrom_skipping r x rest :
  forall prev,
    matchAllFrom r prev (x ++ rest) (List.length x)
    = matchAllFrom r (lastSeen prev x) rest 0.
Proof.
  induction x as [|c x IH]; intros prev; [reflexivity|].
  cbn [app List.length matchAllFrom]. now rewrite IH.
Qed.

Lemma matchAllFrom_pass r x rest :
  (forall y1 y2 p, x = y1 ++ y2 -> y2 <> [] ->
                   matchHere r noGroup p (y2 ++ rest) = None) ->
  forall prev,
    matchAllFrom r prev (x ++ rest) 0 = matchAllFrom r (lastSeen prev x) rest 0.
Proof.
  induction x as [|c x IH]; intros Hfail prev; [reflexivity|].
  pose proof (Hfail [] (c :: x) prev eq_refl ltac:(discriminate)) as H0.
  cbn [app] in H0 |- *. cbn [matchAllFrom]. rewrite H0, lastSeen_cons.
  apply IH. intros y1 y2 p -> Hy. now apply (Hfail (c :: y1) y2 p).
Qed.

Lemma matchAllFrom_skip_line (l : jstr) r x rest prev :
  l <> [] -> ~ In LF l -> includes l x = false ->
  matchAllFrom (chars l ++ r) prev (x ++ LF :: rest) 0
  = matchAllFrom (chars l ++ r) (Some LF) rest 0.
Proof.
  intros Hne Hlf Hx.
  change (x ++ LF :: rest) with (x ++ [LF] ++ rest). rewrite app_assoc.
  rewrite matchAllFrom_pass.
  - now rewrite lastSeen_app.
  - intros y1 y2 p Hsplit Hy2. apply matchHere_chars_fail.
    destruct (exists_last Hy2) as (y2' & b & ->).
    rewrite app_assoc in Hsplit. apply app_inj_tail in Hsplit as [-> <-].
    rewrite <- app_assoc. cbn [app].
    apply startsWith_line; [exact Hlf|]. now apply (includes_suffix l y1).
Qed.

(** A match over [x] is reported, and the search goes on after it. *)
Lemma matchAllFrom_hit r x rest prev (group : option jstr) :
  x <> [] ->
  matchHere r noGroup prev (x ++ rest)
  = Some {| m_group := group; m_rest := rest |} ->
  matchAllFrom r prev (x ++ rest) 0
  = group :: matchAllFrom r (lastSeen prev x) rest 0.
Proof.
  intros Hx Hm. destruct x as [|c x]; [congruence|].
  cbn [app] in Hm |- *. cbn [matchAllFrom]. rewrite Hm. cbn [m_group m_rest].
  f_equal. rewrite lastSeen_cons, <- matchAllFrom_skipping. f_equal.
  cbn [List.length]. rewrite length_app. lia.
Qed.

Lemma digits_range fuel :
  forall n acc,
    Forall (fun c => 48 <= nat_of_ascii c <= 57) acc ->
    Forall (fun c => 48 <= nat_of_ascii c <= 57) (digits fuel n acc).
Proof.
  induction fuel as [|f IH]; intros n acc Hacc; [exact Hacc|].
  cbn [digits].
  assert (48 <= nat_of_ascii (ascii_of_nat (48 + n mod 10)) <= 57) as Hd.
  { pose proof (Nat.mod_upper_bound n 10 ltac:(lia)).
    rewrite nat_ascii_embedding by lia. lia. }
  destruct (n <? 10).
  - now constructor.
  - apply IH. now constructor.
Qed.

Lemma ofNat_no_angle n :
  Forall (fun c => Ascii.eqb "<"%char c = false) (ofNat n).
Proof.
  pose proof (digits_range (S n) n (Forall_nil _)) as H.
  unfold ofNat. eapply Forall_impl; [|exact H].
  intros c Hc. destruct (Ascii.eqb_spec "<"%char c) as [<-|]; [|reflexivity].
  cbn in Hc. lia.
Qed.

Ltac no_line_feed :=
  let H := fresh in
  intros H; cbn in H;
  repeat (destruct H as [H|H]; [discriminate H|]); exact H.

Lemma observationSection_text o :
  blockOk 3000 1500 o = true ->
  observationSection o
  = lit "<task_observation>" ++ LF :: blockOf o ++ LF ::
    lit "</task_observation>".
Proof.
  intros H.
  destruct (blockOk_spec _ _ _ H) as (_ & _ & _ & _ & Ht & _ & _ & _ & Hr & _).
  unfold observationSection, blockOf.
  rewrite (clip_within _ _ Ht), (clip_within _ _ Hr).
  rewrite join_app by discriminate.
  change (join nl [lit "<task_observation>"]) with (lit "<task_observation>").
  now rewrite join_app by discriminate.
Qed.

Lemma batchRoundTrips_spec o :
  batchRoundTrips o = true ->
  blockOk 3000 1500 o = true
  /\ includes (lit "</task_observation>") (blockOf o) = false
  /\ parseTaskObservationBlock (blockOf o) = Some o.
Proof.
  intros H. unfold batchRoundTrips in H.
  apply andb_true_iff in H as [Hblock Hwrap].
  destruct (blockOk_spec _ _ _ Hblock)
    as (Hi & Hn & Hd & Ht1 & Ht2 & Ht3 & Ht4 & Hr1 & Hr2 & Hr3).
  split; [exact Hblock|]. split.
  - apply (@includes_block (lit "/task_observation>") o);
      try reflexivity; [no_line_feed | exact Hwrap].
  - change (blockOf o)
      with (blockLines (o_taskId o) (o_subagentName o) (o_description o)
              (o_trace o) (o_result o)).
    rewrite (@block_parses _ _ _ _ _ Hi Hn Hd Ht3 Ht4 Hr3 Ht1 Hr1).
    now destruct o.
Qed.

(** The wrapper expression on a section followed by [rest]. *)
Lemma matchHere_section o rest prev :
  batchRoundTrips o = true ->
  matchHere reTaskObservation noGroup prev (observationSection o ++ rest)
  = Some {| m_group := Some (blockOf o); m_rest := rest |}.
Proof.
  intros H. destruct (@batchRoundTrips_spec _ H) as (Hblock & Hclose & _).
  rewrite (@observationSection_text _ Hblock).
  repeat (rewrite <- app_assoc; cbn [app]).
  apply (@matchHere_tagged (lit "<task_observation>")
           (lit "</task_observation>") (blockOf o) rest prev);
    [discriminate | no_line_feed | exact Hclose].
Qed.

Lemma observationSection_nonempty o : observationSection o <> [].
Proof. unfold observationSection. discriminate. Qed.

(** The wrappers of the joined sections are the blocks, in order. *)
Lemma matchAll_sections (os : list TaskObservation) :
  forallb batchRoundTrips os = true ->
  forall prev,
    matchAllFrom reTaskObservation prev
      (join nl (map observationSection os)) 0
    = map (fun o => Some (blockOf o)) os.
Proof.
  induction os as [|o os IH]; intros Hall prev.
  - reflexivity.
  - cbn [forallb] in Hall. apply andb_true_iff in Hall as [Ho Hos].
    cbn [map]. destruct os as [|o' os].
    + cbn [map join]. rewrite <- (app_nil_r (observationSection o)).
      rewrite (@matchAllFrom_hit _ _ _ _ _ (@observationSection_nonempty o)
                 (@matchHere_section o [] prev Ho)).
      reflexivity.
    + change (map observationSection (o' :: os))
        with (observationSection o' :: map observationSection os).
      rewrite join_cons2.
      rewrite (@matchAllFrom_hit _ _ _ _ _ (@observationSection_nonempty o)
                 (@matchHere_section o _ prev Ho)).
      f_equal. cbn [matchAllFrom].
      change (matchHere reTaskObservation noGroup _ (LF :: _)) with (@None Match).
      change (observationSection o' :: map observationSection os)
        with (map observationSection (o' :: os)).
      apply IH. exact Hos.
Qed.

Lemma parse_blocks (os : list TaskObservation) :
  forallb batchRoundTrips os = true ->
  mapNonNull
    (fun m => parseTaskObservationBlock
                match m with Some block => block | None => [] end)
    (map (fun o => Some (blockOf o)) os)
  = os.
Proof.
  induction os as [|o os IH]; intros Hall; [reflexivity|].
  cbn [forallb] in Hall. apply andb_true_iff in Hall as [Ho Hos].
  destruct (@batchRoundTrips_spec _ Ho) as (_ & _ & Hparse).
  cbn [map mapNonNull]. rewrite Hparse. now rewrite IH.
Qed.

(** Round trip of the batch builder. *)
Lemma batch_observation_round_trip (os : list TaskObservation) :
  forallb batchRoundTrips os = true ->
  parseTaskObservationsFromToolOutput (buildParallelObservedTaskOutput os) = os.
Proof.
  intros Hall. destruct os as [|o os]; [reflexivity|].
  unfold parseTaskObservationsFromToolOutput, buildParallelObservedTaskOutput,
    matchAll1.
  rewrite join_app by discriminate.
  change reTaskObservation
    with (chars (lit "<task_observation>")
          ++ tl (tl (tl (tl (tl (tl (tl (tl (tl (tl (tl (tl (tl (tl (tl
               (tl (tl (tl
                 (reTagged (lit "<task_observation>")
                    (lit "</task_observation>")))))))))))))))))))).
  rewrite matchAllFrom_skip_line; [|discriminate | no_line_feed |].
  2:{ rewrite join_cons2. apply includes_line;
        [discriminate | no_line_feed | | reflexivity].
      change (lit "<task_observation>")
        with ("<"%char :: lit "task_observation>").
      rewrite includes_after_prefix by (repeat constructor).
      rewrite <- (app_nil_r (ofNat _)).
      rewrite includes_after_prefix by apply ofNat_no_angle.
      reflexivity. }
  change (chars (lit "<task_observation>") ++ _) with reTaskObservation.
  rewrite (@matchAll_sections (o :: os) Hall).
  cbn [map List.length Nat.ltb Nat.leb].
  apply (@parse_blocks (o :: os) Hall).
Qed.

End BatchRoundTrip.

(** C5, amended: the single builder's text parses back to the observation
    it was built from, and the batch builder's text to the list it was
    built from, for observations that survive the wire format: header
    values non-empty, on one line, without white space around them and
    free of the opening body tags; trace and result without white space
    around them, within the caps (4,000 and 2,000 single, 3,000 and 1,500
    batch) and free of the tags that end or start a body; no opening
    wrapper tag for the single builder, no closing wrapper tag for the
    batch builder.  Trace and result may be empty. *)
Theorem observation_round_trip :
  (forall o, singleRoundTrips o = true ->
     parseTaskObservationFromToolOutput (buildObservedTaskOutput o) = Some o)
  /\ (forall os, forallb batchRoundTrips os = true ->
        parseTaskObservationsFromToolOutput (buildParallelObservedTaskOutput os)
        = os)
  /\ (forall o, singleRoundTrips o = true ->
        singleRoundTrips
          {| o_taskId := o_taskId o; o_subagentName := o_subagentName o;
             o_description := o_description o; o_trace := [];
             o_result := [] |} = true).
Proof.
  split; [exact single_observation_round_trip|].
  split; [exact batch_observation_round_trip|].
  intros o H. unfold singleRoundTrips in *.
  apply andb_true_iff in H as [Hblock Hwrap].
  destruct (@blockOk_spec _ _ _ Hblock) as (Hi & Hn & Hd & _).
  destruct (@everyField_spec _ _ Hwrap) as (Ei & En & Ed & _).
  unfold blockOk, bodiesOk, everyField.
  cbn [o_taskId o_subagentName o_description o_trace o_result].
  rewrite Hi, Hn, Hd, Ei, En, Ed. reflexivity.
Qed.

(** A single observation with a two-line trace and an empty result, and a
    batch of two, the second with empty trace and result. *)
Lemma observation_round_trip_witness :
  parseTaskObservationFromToolOutput
    (buildObservedTaskOutput (plainObservation "task_1"))
  = Some (plainObservation "task_1")
  /\ parseTaskObservationsFromToolOutput
       (buildParallelObservedTaskOutput
          [ plainObservation "task_a";
            {| o_taskId := lit "task_b"; o_subagentName := lit "general";
               o_description := lit "scan b"; o_trace := [];
               o_result := [] |} ])
     = [ plainObservation "task_a";
         {| o_taskId := lit "task_b"; o_subagentName := lit "general";
            o_description := lit "scan b"; o_trace := []; o_result := [] |} ].
Proof.
  destruct observation_round_trip as (Hsingle & Hbatch & _).
  split; [apply Hsingle | apply Hbatch]; vm_compute; reflexivity.
Defined.

(** ** The parser and the text *)

Section TextReading.

Implicit Types (s t body rest opening closing label x y : jstr)
  (prev : option ascii) (g : Group).

Lemma skipn_exact {A} (x t : list A) : skipn (List.length x) (x ++ t) = t.
Proof. induction x as [|a x IH]; [reflexivity | exact IH]. Qed.

Lemma startsWith_empty p : p <> [] -> startsWith p [] = false.
Proof. now destruct p. Qed.

Lemma startsWith_split p s :
  startsWith p s = true -> s = p ++ skipn (List.length p) s.
Proof.
  revert s. induction p as [|a p IH]; intros s H; [reflexivity|].
  destruct s as [|b s]; [discriminate|]. cbn [startsWith] in H.
  apply andb_prop in H as [Hab Hp]. apply Ascii.eqb_eq in Hab as ->.
  cbn [List.length skipn app]. f_equal. now apply IH.
Qed.

(** Where [indexOf] finds the needle: at the first position that starts
    with it. *)
Lemma indexOfStr_split n s i :
  indexOfStr n s = Some i ->
  exists x t,
    s = x ++ n ++ t /\ List.length x = i
    /\ forall y1 y2, x = y1 ++ y2 -> y2 <> [] ->
                     startsWith n (y2 ++ n ++ t) = false.
Proof.
  revert i. induction s as [|c s IH]; intros i H; cbn [indexOfStr] in H.
  - destruct (startsWith n []) eqn:E; [|discriminate]. injection H as <-.
    exists [], []. destruct n; [|discriminate].
    split; [reflexivity|]. split; [reflexivity|].
    intros y1 y2 Hx Hy. symmetry in Hx. apply app_eq_nil in Hx as [_ ->].
    congruence.
  - destruct (startsWith n (c :: s)) eqn:E.
    + injection H as <-. exists [], (skipn (List.length n) (c :: s)).
      split; [now apply startsWith_split|]. split; [reflexivity|].
      intros y1 y2 Hx Hy. symmetry in Hx. apply app_eq_nil in Hx as [_ ->].
      congruence.
    + destruct (indexOfStr n s) as [i'|] eqn:Ei; [|discriminate].
      injection H as <-.
      destruct (IH i' eq_refl) as (x & t & -> & Hlen & Hfirst).
      exists (c :: x), t. split; [reflexivity|].
      split; [cbn [List.length]; now rewrite Hlen|].
      intros [|a y1] y2 Hx Hy; cbn [app] in Hx.
      * subst y2. exact E.
      * injection Hx as _ ->. now apply (Hfirst y1 y2).
Qed.

Lemma indexOfStr_none n s :
  indexOfStr n s = None -> forall m, startsWith n (skipn m s) = false.
Proof.
  induction s as [|c s IH]; intros H m; cbn [indexOfStr] in H.
  - destruct (startsWith n []) eqn:E; [discriminate|]. now destruct m.
  - destruct (startsWith n (c :: s)) eqn:E; [discriminate|].
    destruct (indexOfStr n s); [discriminate|].
    destruct m as [|m]; [exact E|]. now apply IH.
Qed.

Lemma indexOfStr_none_skipn n s :
  indexOfStr n s = None -> forall m, indexOfStr n (skipn m s) = None.
Proof.
  induction s as [|c s IH]; intros H m.
  - now destruct m.
  - destruct m as [|m]; [exact H|]. cbn [skipn]. apply IH.
    cbn [indexOfStr] in H. destruct (startsWith n (c :: s)); [discriminate|].
    now destruct (indexOfStr n s).
Qed.

(** A literal run at any place. *)
Lemma matchHere_chars_exact l g prev s :
  matchHere (chars l) g prev s
  = if startsWith l s
    then Some {| m_group := g_capture g; m_rest := skipn (List.length l) s |}
    else None.
Proof.
  destruct (startsWith l s) eqn:E.
  - rewrite (startsWith_split _ _ E) at 1.
    rewrite <- (app_nil_r (chars l)), matchHere_chars. reflexivity.
  - rewrite <- (app_nil_r (chars l)). now apply matchHere_chars_fail.
Qed.

Lemma matchHere_opt (c : CharClass) (r : Regex.t) g prev s :
  matchHere (Opt c :: r) g prev s
  = match s with
    | a :: s' =>
        if accepts c a then
          match matchHere r g (Some a) s' with
          | Some m => Some m
          | None => matchHere r g prev s
          end
        else matchHere r g prev s
    | [] => matchHere r g prev s
    end.
Proof. now destruct s. Qed.

Lemma withoutLastLF_nil : ByText.withoutLastLF [] = [].
Proof. reflexivity. Qed.

Lemma withoutLastLF_cons a x :
  x <> [] -> ByText.withoutLastLF (a :: x) = a :: ByText.withoutLastLF x.
Proof.
  intros Hx. destruct x as [|b x]; [congruence|].
  unfold ByText.withoutLastLF.
  change (ByText.endsInLF (a :: b :: x)) with (ByText.endsInLF (b :: x)).
  now destruct (ByText.endsInLF (b :: x)).
Qed.

Lemma withoutLastLF_prefix x : exists z, x = ByText.withoutLastLF x ++ z.
Proof.
  unfold ByText.withoutLastLF. destruct (ByText.endsInLF x).
  - destruct x as [|a x]; [now exists []|].
    exists [last (a :: x) a]. apply app_removelast_last. discriminate.
  - exists []. now rewrite app_nil_r.
Qed.

Section Tagged.

Variables opening closing : jstr.

Hypothesis Hopening : opening <> [].
Hypothesis Hclosing : forall t, startsWith closing (LF :: t) = false.

Let closer g : Cont := matchHere (GroupClose :: Opt (Char LF) :: chars closing) g.

(** The lazy star stops before the first closing tag, and before the
    line feed in front of it. *)
Lemma lazyStar_found body :
  forall i prev g,
    indexOfStr closing body = Some i ->
    lazyStar AnyChar (closer g) prev body
    = Some {| m_group :=
                g_capture
                  (closeGroup
                     (skipn (List.length
                               (ByText.withoutLastLF (firstn i body))) body) g);
              m_rest := skipn (i + List.length closing) body |}.
Proof.
  induction body as [|a b IH]; intros i prev g H; cbn [indexOfStr] in H.
  - destruct (startsWith closing []) eqn:E; [|discriminate].
    destruct closing; [|discriminate]. now specialize (Hclosing []).
  - destruct (startsWith closing (a :: b)) eqn:E.
    + injection H as <-.
      assert (Ascii.eqb LF a = false) as Ha.
      { destruct (Ascii.eqb_spec LF a) as [<-|]; [|reflexivity].
        now rewrite Hclosing in E. }
      cbn [lazyStar]. unfold closer. cbn [matchHere accepts]. rewrite Ha.
      rewrite matchHere_chars_exact, E. reflexivity.
    + destruct (indexOfStr closing b) as [i'|] eqn:Ei; [|discriminate].
      injection H as <-.
      assert (lazyStar AnyChar (closer g) (Some a) b
              = Some {| m_group :=
                          g_capture
                            (closeGroup
                               (skipn (List.length
                                         (ByText.withoutLastLF (firstn i' b)))
                                      b) g);
                        m_rest := skipn (i' + List.length closing) b |})
        as Hnext by (now apply IH).
      cbn [lazyStar]. unfold closer at 1. cbn [matchHere accepts].
      rewrite !matchHere_chars_exact, E.
      destruct (startsWith closing b) eqn:Eb.
      * (* the closing tag is next *)
        assert (i' = 0) as ->.
        { destruct b; cbn [indexOfStr] in Ei; rewrite Eb in Ei; congruence. }
        destruct (Ascii.eqb_spec LF a) as [<-|Ha].
        -- reflexivity.
        -- rewrite Hnext. cbn [firstn]. unfold ByText.withoutLastLF.
           cbn [ByText.endsInLF].
           destruct (Ascii.eqb_spec a LF) as [->|]; [congruence|].
           reflexivity.
      * assert (firstn i' b <> []) as Hne.
        { destruct b as [|c b]; cbn [indexOfStr] in Ei; rewrite Eb in Ei;
            [discriminate|].
          destruct (indexOfStr closing b); [|discriminate].
          injection Ei as <-. discriminate. }
        assert (lazyStar AnyChar (closer g) (Some a) b
                = Some {| m_group :=
                            g_capture
                              (closeGroup
                                 (skipn
                                    (List.length
                                       (ByText.withoutLastLF
                                          (firstn (S i') (a :: b))))
                                    (a :: b)) g);
                          m_rest :=
                            skipn (S i' + List.length closing) (a :: b) |})
          as Hgoal.
        { rewrite Hnext. cbn [firstn].
          now rewrite (withoutLastLF_cons a Hne). }
        destruct (Ascii.eqb LF a); exact Hgoal.
Qed.

Lemma lazyStar_missing body :
  forall prev g,
    indexOfStr closing body = None ->
    lazyStar AnyChar (closer g) prev body = None.
Proof.
  induction body as [|a b IH]; intros prev g H; cbn [indexOfStr] in H.
  - destruct (startsWith closing []) eqn:E; [discriminate|].
    cbn [lazyStar]. unfold closer. cbn [matchHere].
    now rewrite matchHere_chars_exact, E.
  - destruct (startsWith closing (a :: b)) eqn:E; [discriminate|].
    destruct (indexOfStr closing b) eqn:Ei; [discriminate|].
    cbn [lazyStar]. unfold closer at 1. cbn [matchHere accepts].
    rewrite !matchHere_chars_exact, E.
    assert (startsWith closing b = false) as ->
      by (apply (indexOfStr_none _ _ Ei 0)).
    rewrite (IH (Some a) g eq_refl). now destruct (Ascii.eqb LF a).
Qed.

Lemma capture_prefix x rest g :
  g_capture (closeGroup (skipn (List.length x) (x ++ rest))
                        (openGroup (x ++ rest) g)) = Some x.
Proof.
  rewrite skipn_exact. apply closeGroup_capture.
Qed.

Lemma captured_stretch body i g :
  g_capture
    (closeGroup
       (skipn (List.length (ByText.withoutLastLF (firstn i body))) body)
       (openGroup body g))
  = Some (ByText.withoutLastLF (firstn i body)).
Proof.
  assert (exists rest, body = ByText.withoutLastLF (firstn i body) ++ rest)
    as [rest Hrest].
  { destruct (withoutLastLF_prefix (firstn i body)) as (z & Hz).
    exists (z ++ skipn i body).
    now rewrite app_assoc, <- Hz, firstn_skipn. }
  set (x := ByText.withoutLastLF (firstn i body)) in *. clearbody x.
  subst body. apply capture_prefix.
Qed.

Lemma indexOfStr_withoutFirstLF t :
  indexOfStr closing (ByText.withoutFirstLF t) = None
  <-> indexOfStr closing t = None.
Proof.
  destruct t as [|c t]; [reflexivity|]. cbn [ByText.withoutFirstLF].
  destruct (Ascii.eqb_spec c LF) as [->|]; [|reflexivity].
  cbn [indexOfStr]. rewrite Hclosing.
  destruct (indexOfStr closing t); split; intros H; now try discriminate.
Qed.

(** The expression where the text starts with the opening tag. *)
Lemma tagged_here prev t :
  matchHere (reTagged opening closing) noGroup prev (opening ++ t)
  = match indexOfStr closing (ByText.withoutFirstLF t) with
    | Some i =>
        Some {| m_group :=
                  Some (ByText.withoutLastLF
                          (firstn i (ByText.withoutFirstLF t)));
                m_rest :=
                  skipn (i + List.length closing) (ByText.withoutFirstLF t) |}
    | None => None
    end.
Proof.
  unfold reTagged. rewrite matchHere_chars. cbn [app].
  assert (forall p body,
            matchHere (GroupOpen :: LazyStar AnyChar :: GroupClose
                       :: Opt (Char LF) :: chars closing) noGroup p body
            = match indexOfStr closing body with
              | Some i =>
                  Some {| m_group :=
                            Some (ByText.withoutLastLF (firstn i body));
                          m_rest := skipn (i + List.length closing) body |}
              | None => None
              end) as Hbody.
  { intros p body.
    change (matchHere (GroupOpen :: LazyStar AnyChar :: ?r) ?g0 ?p0 ?s0)
      with (lazyStar AnyChar (closer (openGroup s0 g0)) p0 s0).
    destruct (indexOfStr closing body) as [i|] eqn:E.
    - rewrite lazyStar_found with (i := i) by exact E.
      now rewrite captured_stretch.
    - now apply lazyStar_missing. }
  rewrite matchHere_opt. destruct t as [|c t].
  - cbn [ByText.withoutFirstLF]. apply Hbody.
  - cbn [accepts ByText.withoutFirstLF].
    rewrite (Ascii.eqb_sym LF c).
    destruct (Ascii.eqb_spec c LF) as [->|Hc]; [|apply Hbody].
    rewrite !Hbody.
    destruct (indexOfStr closing t) eqn:E; [reflexivity|].
    cbn [indexOfStr]. now rewrite Hclosing, E.
Qed.

Lemma tagged_fails_behind s :
  indexOfStr closing (skipn (List.length opening) s) = None ->
  forall m prev,
    matchHere (reTagged opening closing) noGroup prev (skipn m s) = None.
Proof.
  intros H m prev. destruct (startsWith opening (skipn m s)) eqn:E.
  - rewrite (startsWith_split _ _ E), tagged_here.
    assert (indexOfStr closing
              (ByText.withoutFirstLF
                 (skipn (List.length opening) (skipn m s))) = None) as ->;
      [|reflexivity].
    apply indexOfStr_withoutFirstLF.
    rewrite skipn_skipn, Nat.add_comm, <- skipn_skipn.
    now apply indexOfStr_none_skipn.
  - unfold reTagged. now apply matchHere_chars_fail.
Qed.

(** Without a first stretch the expression matches nowhere. *)
Lemma tagged_nowhere s :
  ByText.enclosed opening closing s = None ->
  forall y1 y2 prev,
    s = y1 ++ y2 ->
    matchHere (reTagged opening closing) noGroup prev y2 = None.
Proof.
  unfold ByText.enclosed. intros H y1 y2 prev Hs.
  destruct (indexOfStr opening s) as [start|] eqn:Eo.
  - destruct (indexOfStr_split _ _ Eo) as (x & t & Hx & Hlen & Hfirst).
    assert (skipn (start + List.length opening) s = t) as Ht.
    { now rewrite Hx, <- Hlen, app_assoc, <- length_app, skipn_exact. }
    rewrite Ht in H.
    destruct (indexOfStr closing (ByText.withoutFirstLF t)) eqn:Ec;
      [discriminate|].
    apply (proj1 (indexOfStr_withoutFirstLF t)) in Ec.
    rewrite Hx in Hs. apply app_eq_app in Hs as [l [[-> ->]|[-> Hl]]].
    + destruct l as [|c l].
      * cbn [app]. apply (@tagged_fails_behind (opening ++ t)) with (m := 0).
        now rewrite skipn_exact.
      * unfold reTagged. apply matchHere_chars_fail.
        now apply (Hfirst y1 (c :: l)).
    + assert (y2 = skipn (List.length l) (opening ++ t)) as ->.
      { now rewrite Hl, skipn_app, Nat.sub_diag, skipn_all. }
      apply tagged_fails_behind.
      now rewrite skipn_exact.
  - unfold reTagged. apply matchHere_chars_fail.
    assert (y2 = skipn (List.length y1) s) as ->.
    { now rewrite Hs, skipn_app, Nat.sub_diag, skipn_all. }
    now apply indexOfStr_none.
Qed.

Lemma search_none (r : Regex.t) s :
  (forall y1 y2 prev, s = y1 ++ y2 -> matchHere r noGroup prev y2 = None) ->
  forall prev, search r prev s = None.
Proof.
  induction s as [|c s IH]; intros Hfail prev; cbn [search].
  - now rewrite (Hfail [] [] prev eq_refl).
  - rewrite (Hfail [] (c :: s) prev eq_refl). apply IH.
    intros y1 y2 p ->. now apply (Hfail (c :: y1) y2 p).
Qed.

(** What the first stretch is made of. *)
Lemma enclosed_split s stretch rest :
  ByText.enclosed opening closing s = Some (stretch, rest) ->
  exists x t i,
    s = x ++ opening ++ t
    /\ (forall y1 y2, x = y1 ++ y2 -> y2 <> [] ->
                      startsWith opening (y2 ++ opening ++ t) = false)
    /\ indexOfStr closing (ByText.withoutFirstLF t) = Some i
    /\ stretch = ByText.withoutLastLF (firstn i (ByText.withoutFirstLF t))
    /\ rest = skipn (i + List.length closing) (ByText.withoutFirstLF t).
Proof.
  unfold ByText.enclosed. intros H.
  destruct (indexOfStr opening s) as [start|] eqn:Eo; [|discriminate].
  destruct (indexOfStr_split _ _ Eo) as (x & t & Hx & Hlen & Hfirst).
  assert (skipn (start + List.length opening) s = t) as Ht.
  { now rewrite Hx, <- Hlen, app_assoc, <- length_app, skipn_exact. }
  rewrite Ht in H.
  destruct (indexOfStr closing (ByText.withoutFirstLF t)) as [i|] eqn:Ec;
    [|discriminate].
  injection H as <- <-. now exists x, t, i.
Qed.

(** The leftmost match is the first stretch. *)
Lemma search_tagged prev s :
  search (reTagged opening closing) prev s
  = match ByText.enclosed opening closing s with
    | Some (stretch, rest) =>
        Some {| m_group := Some stretch; m_rest := rest |}
    | None => None
    end.
Proof.
  destruct (ByText.enclosed opening closing s) as [[stretch rest]|] eqn:E.
  - destruct (enclosed_split _ E) as (x & t & i & -> & Hfirst & Hi & -> & ->).
    rewrite search_skip.
    + apply search_here. now rewrite tagged_here, Hi.
    + intros y1 y2 p Hx Hy. unfold reTagged. apply matchHere_chars_fail.
      now apply (Hfirst y1 y2).
  - apply search_none. now apply tagged_nowhere.
Qed.

Lemma withoutFirstLF_suffix t : exists z, t = z ++ ByText.withoutFirstLF t.
Proof.
  destruct t as [|c t]; [now exists []|]. cbn [ByText.withoutFirstLF].
  destruct (Ascii.eqb c LF); [now exists [c] | now exists []].
Qed.

(** All matches are the stretches from left to right. *)
Lemma matchAll_tagged fuel :
  forall s prev,
    List.length s <= fuel ->
    matchAllFrom (reTagged opening closing) prev s 0
    = map Some (ByText.enclosedAll opening closing fuel s).
Proof.
  induction fuel as [|fuel IH]; intros s prev Hfuel.
  - destruct s; [|cbn [List.length] in Hfuel; lia].
    cbn [ByText.enclosedAll map matchAllFrom].
    assert (ByText.enclosed opening closing [] = None) as Hnone.
    { unfold ByText.enclosed. cbn [indexOfStr].
      now rewrite (startsWith_empty Hopening). }
    now rewrite (tagged_nowhere Hnone [] [] prev eq_refl).
  - cbn [ByText.enclosedAll].
    destruct (ByText.enclosed opening closing s) as [[stretch rest]|] eqn:E.
    + destruct (enclosed_split _ E) as (x & t & i & -> & Hfirst & Hi & -> & ->).
      rewrite matchAllFrom_pass.
      2:{ intros y1 y2 p Hx Hy. unfold reTagged. apply matchHere_chars_fail.
          now apply (Hfirst y1 y2). }
      destruct (withoutFirstLF_suffix t) as (z & Hz).
      set (body := ByText.withoutFirstLF t) in *.
      set (rest := skipn (i + List.length closing) body).
      assert (opening ++ t
              = (opening ++ z ++ firstn (i + List.length closing) body)
                ++ rest) as Hsplit.
      { rewrite <- !app_assoc. unfold rest. rewrite firstn_skipn.
        now rewrite <- Hz. }
      assert (matchHere (reTagged opening closing) noGroup (lastSeen prev x)
                (opening ++ t)
              = Some {| m_group := Some (ByText.withoutLastLF (firstn i body));
                        m_rest := rest |}) as Hm.
      { rewrite tagged_here. fold body. now rewrite Hi. }
      assert (opening ++ z ++ firstn (i + List.length closing) body <> [])
        as Hne.
      { intros Hnil. apply app_eq_nil in Hnil as [Hnil _].
        now apply Hopening. }
      assert (0 < List.length opening) as Hlen.
      { destruct (List.length opening) eqn:El; [|lia].
        apply length_zero_iff_nil in El. now apply Hopening in El. }
      rewrite Hsplit in Hm |- *.
      rewrite (@matchAllFrom_hit _ _ _ _ _ Hne Hm).
      cbn [map]. f_equal. apply IH.
      rewrite length_app in Hfuel. rewrite Hsplit in Hfuel.
      rewrite !length_app in Hfuel. lia.
    + cbn [map]. apply matchAllFrom_none. intros y1 y2 p Hs.
      now apply (tagged_nowhere E y1 y2 p).
Qed.

End Tagged.

Section Fields.

Variable label : jstr.
Variable first : ascii.
Variable others : jstr.

Hypothesis Hlabel : label = first :: others.
Hypothesis Hfirst : isWhite first = false.
Hypothesis Hline : Forall (fun a => isLineTerminator a = false) label.

Let value : Regex.t := [GroupOpen; Plus Dot; GroupClose; Eol].

Lemma lineTerminator_white (c : ascii) :
  isLineTerminator c = true -> isWhite c = true.
Proof.
  unfold isLineTerminator, isWhite. intros H.
  apply orb_true_iff in H as [H|H]; rewrite H;
    rewrite ?orb_true_r; reflexivity.
Qed.

Lemma trimStart_split s :
  exists w,
    s = w ++ trimStart s
    /\ Forall (fun a => isWhite a = true) w
    /\ stopsAt Space (trimStart s).
Proof.
  induction s as [|c s (w & Hs & Hw & Hstop)].
  - exists []. now repeat constructor.
  - cbn [trimStart]. destruct (isWhite c) eqn:E.
    + exists (c :: w). split; [cbn [app]; now f_equal|].
      split; [now constructor | exact Hstop].
    + exists []. split; [reflexivity|]. split; [constructor | exact E].
Qed.

Lemma lineOf_split s :
  exists after,
    s = ByText.lineOf s ++ after
    /\ Forall (fun a => accepts Dot a = true) (ByText.lineOf s)
    /\ stopsAt Dot after
    /\ atLineEnd after = true.
Proof.
  induction s as [|c s (after & Hs & Hdots & Hstop & Hend)].
  - exists []. now repeat constructor.
  - cbn [ByText.lineOf]. destruct (isLineTerminator c) eqn:E.
    + exists (c :: s). split; [reflexivity|]. split; [constructor|].
      cbn [stopsAt atLineEnd accepts]. now rewrite E.
    + exists after. split; [cbn [app]; now f_equal|].
      split; [|now split]. constructor; [|exact Hdots].
      cbn [accepts]. now rewrite E.
Qed.

(** The value expression on a text that starts with a character of the
    value: the group is the rest of the line. *)
Lemma value_here g prev (c : ascii) s :
  isWhite c = false ->
  exists after,
    matchHere value g prev (c :: s)
    = Some {| m_group := Some (ByText.lineOf (c :: s)); m_rest := after |}.
Proof.
  intros Hc.
  assert (isLineTerminator c = false) as Hlt.
  { destruct (isLineTerminator c) eqn:E; [|reflexivity].
    apply lineTerminator_white in E. congruence. }
  destruct (lineOf_split s) as (after & Hs & Hdots & Hstop & Hend).
  exists after. unfold value. cbn [matchHere accepts ByText.lineOf].
  rewrite Hlt. cbn [negb]. rewrite Hs at 1.
  apply greedyStar_run; [exact Hdots | exact Hstop|].
  cbn [matchHere]. rewrite Hend. f_equal. f_equal.
  rewrite Hs at 1.
  apply (closeGroup_capture (c :: ByText.lineOf s) after g).
Qed.

Lemma greedyStar_inv (c : CharClass) (k : Cont) s :
  forall prev m,
    greedyStar c k prev s = Some m ->
    exists y1 y2 p, s = y1 ++ y2 /\ k p y2 = Some m.
Proof.
  induction s as [|a s IH]; intros prev m H; cbn [greedyStar] in H.
  - now exists [], [], prev.
  - destruct (accepts c a).
    + destruct (greedyStar c k (Some a) s) as [m'|] eqn:E.
      * injection H as <-. destruct (IH _ _ E) as (y1 & y2 & p & -> & Hk).
        now exists (a :: y1), y2, p.
      * now exists [], (a :: s), prev.
    + now exists [], (a :: s), prev.
Qed.

(** What the value expression captures is a stretch of the text it is
    matched on. *)
Lemma value_captured prev s (m : Match) :
  matchHere value noGroup prev s = Some m ->
  exists x rest, s = x ++ rest /\ m_group m = Some x.
Proof.
  unfold value. cbn [matchHere]. destruct s as [|a s]; [discriminate|].
  destruct (accepts Dot a); [|discriminate]. intros H.
  apply greedyStar_inv in H as (y1 & y2 & p & -> & H).
  cbn [matchHere] in H. destruct (atLineEnd y2); [|discriminate].
  injection H as <-. exists (a :: y1), y2. split; [reflexivity|].
  cbn [m_group]. apply (closeGroup_capture (a :: y1) y2 noGroup).
Qed.

Lemma Forall_app_r {A} (P : A -> Prop) (x y : list A) :
  Forall P (x ++ y) -> Forall P y.
Proof. intros H. now apply Forall_app in H. Qed.

Lemma Forall_app_l {A} (P : A -> Prop) (x y : list A) :
  Forall P (x ++ y) -> Forall P x.
Proof. intros H. now apply Forall_app in H. Qed.

Lemma trim_white s : Forall (fun a => isWhite a = true) s -> trim s = [].
Proof.
  intros H. unfold trim.
  assert (trimStart s = []) as ->; [|reflexivity].
  induction H as [|a s Ha _ IH]; [reflexivity|].
  cbn [trimStart]. now rewrite Ha.
Qed.

Lemma trimStart_stop y (c : ascii) :
  isWhite c = false -> exists u, trimStart (y ++ [c]) = u ++ [c].
Proof.
  intros Hc. induction y as [|a y (u & IH)].
  - exists []. cbn [app trimStart]. now rewrite Hc.
  - cbn [app trimStart]. destruct (isWhite a); [now exists u|].
    now exists (a :: y).
Qed.

(** Trimming keeps a text that starts with a character of its own. *)
Lemma trim_head (c : ascii) s :
  isWhite c = false -> exists s', trim (c :: s) = c :: s'.
Proof.
  intros Hc. unfold trim. cbn [trimStart]. rewrite Hc. unfold trimEnd.
  cbn [rev]. destruct (@trimStart_stop (rev s) c Hc) as (u & ->).
  exists (rev u). now rewrite rev_app_distr.
Qed.

(** Behind a label that only white space follows, the expression finds
    at most a blank value. *)
Lemma field_blank prev rest (m : Match) :
  Forall (fun a => isWhite a = true) rest ->
  matchHere (reField label) noGroup prev (label ++ rest) = Some m ->
  exists x, m_group m = Some x /\ trim x = [].
Proof.
  intros Hrest. unfold reField. cbn [app matchHere].
  destruct (atLineStart prev); [|discriminate].
  rewrite matchHere_chars.
  change (matchHere (Star Space :: ?r) ?g0 ?p0 ?s0)
    with (greedyStar Space (matchHere r g0) p0 s0).
  intros H. apply greedyStar_inv in H as (y1 & y2 & p & -> & H).
  apply value_captured in H as (x & rest' & -> & Hx).
  exists x. split; [exact Hx|]. apply trim_white.
  apply Forall_app_r in Hrest. now apply Forall_app_l in Hrest.
Qed.

(** Nor does it match further on. *)
Lemma field_not_later rest :
  Forall (fun a => isWhite a = true) rest ->
  search (reField label) (Some first) (others ++ rest) = None.
Proof.
  intros Hrest. rewrite Hlabel in Hline.
  inversion Hline as [|? ? Hc Hothers]; subst.
  unfold reField. cbn [app]. rewrite search_bol_skip; [|exact Hothers|exact Hc].
  apply search_none. intros y1 y2 p ->. cbn [matchHere].
  destruct (atLineStart p); [|reflexivity].
  apply matchHere_chars_fail. cbn [startsWith].
  destruct y2 as [|a y2]; [reflexivity|].
  apply Forall_app_r in Hrest. inversion Hrest as [|? ? Ha _]; subst.
  destruct (Ascii.eqb_spec first a) as [->|]; [congruence | reflexivity].
Qed.

(** Behind a label that a value follows, the expression finds that
    value. *)
Lemma field_here prev rest (c : ascii) v :
  atLineStart prev = true ->
  trimStart rest = c :: v ->
  exists after,
    matchHere (reField label) noGroup prev (label ++ rest)
    = Some {| m_group := Some (ByText.lineOf (c :: v)); m_rest := after |}.
Proof.
  intros Hprev Hvalue.
  destruct (trimStart_split rest) as (w & Hrest & Hw & Hstop).
  rewrite Hvalue in Hrest, Hstop. cbn [stopsAt accepts] in Hstop.
  destruct (@value_here noGroup (lastSeen (lastSeen prev label) w) c v Hstop)
    as (after & Hm).
  exists after. unfold reField. cbn [app matchHere]. rewrite Hprev.
  rewrite matchHere_chars.
  change (matchHere (Star Space :: ?r) ?g0 ?p0 ?s0)
    with (greedyStar Space (matchHere r g0) p0 s0).
  rewrite Hrest. apply greedyStar_run; [exact Hw | exact Hstop | exact Hm].
Qed.

(** The field expression finds the value that [ByText.field] reads. *)
Lemma field_by_text s :
  forall prev,
    truthyText
      (option_map trim
         (match search (reField label) prev s with
          | Some m => m_group m
          | None => None
          end))
    = match ByText.afterLabel label (atLineStart prev) s with
      | Some rest => ByText.valueBehind rest
      | None => None
      end.
Proof.
  induction s as [|a s IH]; intros prev.
  - cbn [ByText.afterLabel search]. rewrite Hlabel. cbn [startsWith].
    rewrite andb_false_r. unfold reField. cbn [app matchHere].
    now destruct (atLineStart prev).
  - cbn [ByText.afterLabel].
    destruct (atLineStart prev && startsWith label (a :: s)) eqn:E.
    + apply andb_prop in E as [Hprev Hstarts].
      rewrite (startsWith_split _ _ Hstarts).
      set (rest := skipn (List.length label) (a :: s)).
      rewrite skipn_exact. unfold ByText.valueBehind.
      destruct (trimStart rest) as [|c v] eqn:Ev.
      * destruct (trimStart_split rest) as (w & Hrest & Hw & _).
        rewrite Ev, app_nil_r in Hrest. rewrite <- Hrest in Hw.
        destruct (matchHere (reField label) noGroup prev (label ++ rest))
          as [m|] eqn:Em.
        -- rewrite (@search_here _ _ _ _ Em).
           destruct (@field_blank _ _ _ Hw Em) as (x & -> & Hx).
           cbn [option_map]. now rewrite Hx.
        -- assert (search (reField label) prev (label ++ rest) = None) as ->;
             [|reflexivity].
           assert (label ++ rest = first :: others ++ rest) as Hs
             by (now rewrite Hlabel).
           rewrite Hs in Em |- *. cbn [search]. rewrite Em.
           now apply field_not_later.
      * destruct (@field_here prev rest c v Hprev Ev) as (after & Hm).
        rewrite (@search_here _ _ _ _ Hm). cbn [m_group option_map].
        assert (isWhite c = false) as Hc.
        { destruct (trimStart_split rest) as (w & _ & _ & Hstop).
          now rewrite Ev in Hstop. }
        assert (isLineTerminator c = false) as Hlt.
        { destruct (isLineTerminator c) eqn:El; [|reflexivity].
          apply lineTerminator_white in El. congruence. }
        cbn [ByText.lineOf]. rewrite Hlt.
        destruct (@trim_head c (ByText.lineOf v) Hc) as (s' & ->). reflexivity.
    + cbn [search].
      assert (matchHere (reField label) noGroup prev (a :: s) = None) as ->.
      { unfold reField. cbn [app matchHere].
        destruct (atLineStart prev); [|reflexivity].
        apply matchHere_chars_fail. exact E. }
      apply (IH (Some a)).
Qed.

End Fields.

(** The three field expressions and the three tag expressions of the
    parser. *)
Lemma field_of_block (key : string) block :
  key = "task_id:"%string \/ key = "task_subagent:"%string
  \/ key = "task_description:"%string ->
  truthyText (matchTrimmed (reField (lit key)) block)
  = ByText.field (lit key) block.
Proof.
  intros Hkey. unfold matchTrimmed, match1, ByText.field.
  destruct Hkey as [-> | [-> | ->]];
    (eapply (@field_by_text _ "t"%char _ eq_refl eq_refl);
     repeat constructor).
Qed.

Lemma body_of_block (tag : string) block :
  match1 (reTagged ("<"%char :: lit tag) ("<"%char :: "/"%char :: lit tag))
    block
  = option_map fst
      (ByText.enclosed ("<"%char :: lit tag) ("<"%char :: "/"%char :: lit tag)
         block).
Proof.
  unfold match1. rewrite search_tagged by reflexivity.
  now destruct (ByText.enclosed _ _ block) as [[stretch rest]|].
Qed.

(** The parser reads a block as [ByText.observation] does. *)
Lemma parseTaskObservationBlock_by_text block :
  parseTaskObservationBlock block = ByText.observation block.
Proof.
  unfold parseTaskObservationBlock, ByText.observation, ByText.bodyOf.
  change reTaskId with (reField (lit "task_id:")).
  change reTaskSubagent with (reField (lit "task_subagent:")).
  change reTaskDescription with (reField (lit "task_description:")).
  rewrite <- !field_of_block by auto.
  change reTaskTrace
    with (reTagged ("<"%char :: lit "task_trace>")
            ("<"%char :: "/"%char :: lit "task_trace>")).
  change reTaskResult
    with (reTagged ("<"%char :: lit "task_result>")
            ("<"%char :: "/"%char :: lit "task_result>")).
  rewrite !body_of_block.
  change ("<"%char :: lit "task_trace>") with (lit "<task_trace>").
  change ("<"%char :: "/"%char :: lit "task_trace>") with (lit "</task_trace>").
  change ("<"%char :: lit "task_result>") with (lit "<task_result>").
  change ("<"%char :: "/"%char :: lit "task_result>")
    with (lit "</task_result>").
  destruct (matchTrimmed (reField (lit "task_id:")) block) as [[|i id]|];
    cbn [truthyText]; try reflexivity.
  destruct (matchTrimmed (reField (lit "task_subagent:")) block)
    as [[|n name]|]; cbn [truthyText]; try reflexivity.
  destruct (matchTrimmed (reField (lit "task_description:")) block)
    as [[|d desc]|]; cbn [truthyText]; try reflexivity.
  f_equal. f_equal.
  - now destruct (ByText.enclosed (lit "<task_trace>") (lit "</task_trace>")
                    block) as [[body rest]|].
  - now destruct (ByText.enclosed (lit "<task_result>") (lit "</task_result>")
                    block) as [[body rest]|].
Qed.

(** The wrappers the parser finds are those of the text, from left to
    right. *)
Lemma wrappers_by_text content :
  matchAll1 reTaskObservation content = map Some (ByText.wrappers content).
Proof.
  unfold matchAll1, ByText.wrappers.
  change reTaskObservation
    with (reTagged (lit "<task_observation>") (lit "</task_observation>")).
  apply matchAll_tagged; [discriminate | reflexivity | lia].
Qed.

Lemma wrappedBlocks_by_text content :
  wrappedBlocks content = ByText.wrappers content.
Proof.
  unfold wrappedBlocks. rewrite wrappers_by_text, map_map.
  apply map_id.
Qed.

Lemma indexOfStr_occurs n x t :
  exists i, indexOfStr n (x ++ n ++ t) = Some i /\ i <= List.length x.
Proof.
  induction x as [|c x (i & IH & Hi)].
  - exists 0. split; [|cbn [List.length]; lia]. cbn [app].
    pose proof (startsWith_app n t) as H.
    destruct (n ++ t); cbn [indexOfStr]; now rewrite H.
  - cbn [app indexOfStr]. destruct (startsWith n (c :: x ++ n ++ t)).
    + exists 0. split; [reflexivity | lia].
    + exists (S i). rewrite IH. split; [reflexivity|]. cbn [List.length]. lia.
Qed.

Lemma map_Some_inj {A} (l l' : list A) : map Some l = map Some l' -> l = l'.
Proof.
  revert l'. induction l as [|a l IH]; intros [|b l'] H; try discriminate;
    [reflexivity|].
  injection H as -> H. f_equal. now apply IH.
Qed.

Section Stretches.

Variables opening closing : jstr.

Hypothesis Hopening : opening <> [].
Hypothesis Hclosing : forall t, startsWith closing (LF :: t) = false.

(** A text that holds an [opening] and a [closing] behind it has a first
    stretch. *)
Lemma enclosed_found a b c :
  ByText.enclosed opening closing (a ++ opening ++ b ++ closing ++ c) <> None.
Proof.
  unfold ByText.enclosed.
  destruct (indexOfStr_occurs opening a (b ++ closing ++ c))
    as (start & -> & Hstart).
  destruct (indexOfStr closing _) eqn:E; [discriminate|].
  apply (proj1 (@indexOfStr_withoutFirstLF closing Hclosing _)) in E.
  pose proof (indexOfStr_none _ _ E (List.length a + List.length b - start))
    as Hnone.
  rewrite skipn_skipn in Hnone.
  replace (List.length a + List.length b - start
           + (start + List.length opening))
    with (List.length (a ++ opening ++ b)) in Hnone
    by (rewrite !length_app; lia).
  replace (a ++ opening ++ b ++ closing ++ c)
    with ((a ++ opening ++ b) ++ closing ++ c) in Hnone
    by (now rewrite <- !app_assoc).
  rewrite skipn_exact, startsWith_app in Hnone. discriminate.
Qed.

Lemma enclosed_shorter s stretch rest :
  ByText.enclosed opening closing s = Some (stretch, rest) ->
  List.length rest < List.length s.
Proof.
  intros H.
  destruct (enclosed_split _ _ _ H) as (x & t & i & -> & _ & _ & _ & ->).
  destruct (withoutFirstLF_suffix t) as (z & Hz).
  assert (List.length (ByText.withoutFirstLF t) <= List.length t) as Hbody.
  { rewrite Hz at 2. rewrite length_app. lia. }
  assert (0 < List.length opening) as Hlen.
  { destruct (List.length opening) eqn:El; [|lia].
    apply length_zero_iff_nil in El. now apply Hopening in El. }
  rewrite length_skipn, !length_app. lia.
Qed.

Lemma enclosedAll_fuel s fuel fuel' :
  List.length s <= fuel -> List.length s <= fuel' ->
  ByText.enclosedAll opening closing fuel s
  = ByText.enclosedAll opening closing fuel' s.
Proof.
  intros H H'. apply map_Some_inj.
  now rewrite <- !(@matchAll_tagged opening closing Hopening Hclosing _ s None).
Qed.

(** The stretches, without the bound on their number. *)
Lemma enclosedAll_unfold s :
  ByText.enclosedAll opening closing (List.length s) s
  = match ByText.enclosed opening closing s with
    | Some (stretch, rest) =>
        stretch :: ByText.enclosedAll opening closing (List.length rest) rest
    | None => []
    end.
Proof.
  rewrite (@enclosedAll_fuel s (List.length s) (S (List.length s)))
    by lia.
  cbn [ByText.enclosedAll].
  destruct (ByText.enclosed opening closing s) as [[stretch rest]|] eqn:E;
    [|reflexivity].
  f_equal. apply enclosedAll_fuel; [|lia].
  apply enclosed_shorter in E. lia.
Qed.

End Stretches.

Lemma afterLabel_includes label s :
  forall lineStart rest,
    ByText.afterLabel label lineStart s = Some rest -> includes label s = true.
Proof.
  induction s as [|c s IH]; intros lineStart rest H;
    cbn [ByText.afterLabel includes] in *.
  - destruct (startsWith label []); [reflexivity|].
    now rewrite andb_false_r in H.
  - destruct (startsWith label (c :: s)); [reflexivity|].
    rewrite andb_false_r in H. cbn [orb]. now apply IH in H.
Qed.

End TextReading.

(** C10: read off the text, the wrapped blocks of a tool output are the
    stretches between [<task_observation>] and the next
    [</task_observation>], from left to right, each less one line feed at
    either end; a text that holds the two tags in this order has at least
    one.  With at least one block the parser returns the observations of
    the blocks whose three fields have a value, in the order of the text,
    and passes over the others; the single-observation variant returns
    the first of them.  A field has a value when its label starts a line
    and something other than white space follows it: a block that lacks
    one of the three labels is dropped, and a block whose [task_id:] line
    is empty is kept when text follows, under the next line as its id.
    With no block that has its three fields the result is the empty list,
    and [null] from the variant.  Every match the parser takes group 1 of
    carries that group, so no [trim] is called on [undefined]. *)
Theorem parse_wrapped_observations (content : jstr) :
  let blocks := ByText.wrappers content in
  let kept := fun block => match ByText.observation block with
                           | Some o => [o]
                           | None => []
                           end in
  blocks
  = match ByText.enclosed (lit "<task_observation>")
            (lit "</task_observation>") content with
    | Some (block, rest) => block :: ByText.wrappers rest
    | None => []
    end
  /\ (forall before block after,
        content = before ++ lit "<task_observation>" ++ block
                  ++ lit "</task_observation>" ++ after ->
        blocks <> [])
  /\ (blocks <> [] ->
      parseTaskObservationsFromToolOutput content = flat_map kept blocks
      /\ parseTaskObservationFromToolOutput content
         = head (flat_map kept blocks)
      /\ List.length (parseTaskObservationsFromToolOutput content)
         <= List.length blocks
      /\ ((forall block, In block blocks -> ByText.observation block = None) ->
          parseTaskObservationsFromToolOutput content = []
          /\ parseTaskObservationFromToolOutput content = None))
  /\ (blocks = [] ->
      parseTaskObservationsFromToolOutput content = kept content)
  /\ (forall block label,
        In label [lit "task_id:"; lit "task_subagent:";
                  lit "task_description:"] ->
        includes label block = false ->
        ByText.observation block = None)
  /\ (forall rest,
        option_map o_taskId
          (ByText.observation
             (lit "task_id: " ++ nl
              ++ lit "task_subagent: general" ++ nl
              ++ lit "task_description: scan" ++ nl ++ rest))
        = Some (lit "task_subagent: general"))
  /\ (forall group, In group (matchAll1 reTaskObservation content) ->
                    group <> None)
  /\ (forall block (m : Match),
        search reTaskTrace None block = Some m
        \/ search reTaskResult None block = Some m ->
        m_group m <> None).
Proof.
  intros blocks kept.
  assert (forall xs : list jstr,
            mapNonNull parseTaskObservationBlock xs = flat_map kept xs)
    as Hkept.
  { intros xs. rewrite mapNonNull_flat_map. apply flat_map_ext.
    intros block. unfold kept.
    now rewrite parseTaskObservationBlock_by_text. }
  assert (blocks
          = match ByText.enclosed (lit "<task_observation>")
                    (lit "</task_observation>") content with
            | Some (block, rest) => block :: ByText.wrappers rest
            | None => []
            end) as Hunfold.
  { apply enclosedAll_unfold; [discriminate | reflexivity]. }
  split; [exact Hunfold|].
  split; [|split; [|split; [|split; [|split; [|split]]]]].
  - intros before block after Hcontent Hnone.
    rewrite Hnone in Hunfold.
    destruct (ByText.enclosed (lit "<task_observation>")
                (lit "</task_observation>") content) as [[b r]|] eqn:E;
      [discriminate|].
    rewrite Hcontent in E. revert E. apply enclosed_found. reflexivity.
  - intros Hblocks. unfold blocks in *.
    rewrite <- wrappedBlocks_by_text in *.
    unfold parseTaskObservationFromToolOutput.
    rewrite (@parse_wrapped content Hblocks), Hkept.
    split; [reflexivity|].
    split; [now destruct (flat_map kept (wrappedBlocks content))|].
    split; [rewrite <- Hkept; apply mapNonNull_length|].
    intros Hnone. rewrite <- Hkept, mapNonNull_none; [now split|].
    intros block Hin. rewrite parseTaskObservationBlock_by_text.
    now apply Hnone.
  - intros Hblocks. unfold blocks in *.
    rewrite <- wrappedBlocks_by_text in Hblocks.
    rewrite (@parse_unwrapped content Hblocks). unfold kept.
    now rewrite parseTaskObservationBlock_by_text.
  - intros block label Hlabel Hlacks. unfold ByText.observation.
    assert (ByText.field label block = None) as Hfield.
    { unfold ByText.field.
      destruct (ByText.afterLabel label true block) eqn:E; [|reflexivity].
      apply afterLabel_includes in E. congruence. }
    destruct Hlabel as [<-|[<-|[<-|[]]]]; rewrite Hfield;
      [reflexivity| |].
    + now destruct (ByText.field (lit "task_id:") block).
    + destruct (ByText.field (lit "task_id:") block); [|reflexivity].
      now destruct (ByText.field (lit "task_subagent:") block).
  - intros rest. reflexivity.
  - intros group Hin. rewrite wrappers_by_text in Hin.
    apply in_map_iff in Hin as (block & <- & _). discriminate.
  - intros block m H.
    change reTaskTrace
      with (reTagged (lit "<task_trace>") (lit "</task_trace>")) in H.
    change reTaskResult
      with (reTagged (lit "<task_result>") (lit "</task_result>")) in H.
    rewrite !search_tagged in H by reflexivity.
    destruct H as [H|H];
      [destruct (ByText.enclosed (lit "<task_trace>") (lit "</task_trace>")
                   block) as [[b r]|]
      |destruct (ByText.enclosed (lit "<task_result>") (lit "</task_result>")
                   block) as [[b r]|]];
      try discriminate; injection H as <-; discriminate.
Qed.

(** Three blocks: the first, without [task_id], is dropped; the second
    and the third are reported in this order, the third under its next
    line as task id. *)
Lemma parse_wrapped_observations_witness :
  List.length (ByText.wrappers threeBlockOutput) = 3
  /\ parseTaskObservationsFromToolOutput threeBlockOutput
     = [ {| o_taskId := lit "b"; o_subagentName := lit "explore";
            o_description := lit "scan b"; o_trace := [];
            o_result := lit "found" |};
         {| o_taskId := lit "task_subagent: general";
            o_subagentName := lit "general";
            o_description := lit "scan c"; o_trace := []; o_result := [] |} ].
Proof.
  split; [reflexivity|].
  destruct (parse_wrapped_observations threeBlockOutput)
    as (_ & _ & Hwrapped & _).
  destruct Hwrapped as (-> & _); [vm_compute; discriminate | reflexivity].
Defined.

(** * Further properties *)

(** ** Lookups in insertion-ordered maps *)

Section MapLookups.

Variable V : Type.
Implicit Types (m : JsMap.t V) (k : jstr) (v : V).

Lemma get_app_last k v m :
  ~ In k (JsMap.keys m) -> JsMap.get k (m ++ [(k, v)]) = Some v.
Proof.
  unfold JsMap.keys. induction m as [|[k0 v0] m IH]; simpl; intros H.
  - now rewrite eqb_refl.
  - destruct (Js.eqb k0 k) eqn:E; [apply eqb_eq in E; tauto|].
    apply IH. tauto.
Qed.

Lemma get_app_other k k' v m :
  k' <> k -> JsMap.get k' (m ++ [(k, v)]) = JsMap.get k' m.
Proof.
  intros Hne. induction m as [|[k0 v0] m IH]; simpl.
  - destruct (Js.eqb k k') eqn:E; [apply eqb_eq in E; congruence|reflexivity].
  - now rewrite IH.
Qed.

Lemma get_delete_other k k' m :
  k' <> k -> JsMap.get k' (JsMap.delete k m) = JsMap.get k' m.
Proof.
  intros Hne. unfold JsMap.delete.
  induction m as [|[k0 v0] m IH]; simpl; [reflexivity|].
  destruct (Js.eqb k0 k) eqn:E; simpl.
  - apply eqb_eq in E. subst k0.
    destruct (Js.eqb k k') eqn:E'; [apply eqb_eq in E'; congruence|].
    exact IH.
  - destruct (Js.eqb k0 k'); [reflexivity|exact IH].
Qed.

Lemma get_delete_same k m : JsMap.get k (JsMap.delete k m) = None.
Proof.
  unfold JsMap.delete. induction m as [|[k0 v0] m IH]; simpl; [reflexivity|].
  destruct (Js.eqb k0 k) eqn:E; simpl; [exact IH|].
  now rewrite E.
Qed.

Lemma get_set_same k v m : JsMap.get k (JsMap.set k v m) = Some v.
Proof.
  induction m as [|[k0 v0] m IH]; simpl.
  - now rewrite eqb_refl.
  - destruct (Js.eqb k0 k) eqn:E; simpl; now rewrite E.
Qed.

Lemma get_set_other k k' v m :
  k' <> k -> JsMap.get k' (JsMap.set k v m) = JsMap.get k' m.
Proof.
  intros Hne. induction m as [|[k0 v0] m IH]; simpl.
  - destruct (Js.eqb k k') eqn:E; [apply eqb_eq in E; congruence|reflexivity].
  - destruct (Js.eqb k0 k) eqn:E; simpl.
    + apply eqb_eq in E. subst k0.
      destruct (Js.eqb k k') eqn:E'; [apply eqb_eq in E'; congruence|].
      reflexivity.
    + destruct (Js.eqb k0 k'); [reflexivity|exact IH].
Qed.

Lemma get_None k m : JsMap.get k m = None <-> ~ In k (JsMap.keys m).
Proof.
  unfold JsMap.keys. induction m as [|[k0 v0] m IH]; simpl; [tauto|].
  destruct (Js.eqb k0 k) eqn:E.
  - apply eqb_eq in E. split; [discriminate|tauto].
  - apply eqb_neq in E. rewrite IH. tauto.
Qed.

Lemma delete_app_last k k0 v m :
  k0 <> k ->
  JsMap.delete k0 (m ++ [(k, v)]) = JsMap.delete k0 m ++ [(k, v)].
Proof.
  intros Hne. unfold JsMap.delete. rewrite filter_app. simpl.
  destruct (Js.eqb k k0) eqn:E; [apply eqb_eq in E; congruence|reflexivity].
Qed.

Lemma keys_app_last k v m :
  JsMap.keys (m ++ [(k, v)]) = JsMap.keys m ++ [k].
Proof. unfold JsMap.keys. now rewrite map_app. Qed.

End MapLookups.

(** ** The session table: lookups and recency *)

Section SessionLookups.

Implicit Types (m : Sessions) (k : jstr) (session : TaskSession).

Lemma lastOf_snoc {A} (l : list A) (x : A) : lastOf (l ++ [x]) = Some x.
Proof.
  destruct l as [|y l]; [reflexivity|].
  simpl. f_equal. apply last_last.
Qed.

Lemma NoDup_snoc {A} (l : list A) (x : A) :
  NoDup l -> ~ In x l -> NoDup (l ++ [x]).
Proof.
  induction l as [|y l IH]; simpl; intros Hnd Hx.
  - constructor; [intros []|constructor].
  - inversion Hnd; subst. constructor.
    + rewrite in_app_iff. simpl. intros [H|[H|[]]]; [contradiction|].
      subst. tauto.
    + apply IH; tauto.
Qed.

(** The eviction loop never reaches the entry stored last: what it leaves
    is a table of older entries, each as it was, followed by that entry. *)
Lemma evictSessions_keeps_newest k session fuel :
  forall m, ~ In k (JsMap.keys m) ->
  exists m', evictSessions fuel (m ++ [(k, session)]) = m' ++ [(k, session)]
             /\ ~ In k (JsMap.keys m')
             /\ (NoDup (JsMap.keys m) -> NoDup (JsMap.keys m'))
             /\ forall k', JsMap.get k' m' = None
                           \/ JsMap.get k' m' = JsMap.get k' m.
Proof.
  induction fuel as [|f IH]; intros m Hk.
  - exists m. cbn [evictSessions]. repeat split; auto.
  - rewrite evictSessions_step.
    destruct (MAX_TASK_SESSIONS <? JsMap.size (m ++ [(k, session)])) eqn:E.
    2:{ exists m. repeat split; auto. }
    destruct m as [|[k0 v0] m].
    { apply Nat.ltb_lt in E. unfold MAX_TASK_SESSIONS, JsMap.size in E.
      simpl in E. lia. }
    change (JsMap.firstKey (((k0, v0) :: m) ++ [(k, session)])) with (Some k0).
    cbv iota.
    destruct (truthyStr (Some k0)).
    2:{ exists ((k0, v0) :: m). repeat split; auto. }
    assert (k0 <> k) as Hne by (intros ->; apply Hk; simpl; now left).
    rewrite delete_app_last by exact Hne.
    destruct (IH (JsMap.delete k0 ((k0, v0) :: m))) as (m' & Hrun & Hk' & Hnd & Hget).
    { rewrite JsMapFacts.keys_delete, filter_In. tauto. }
    exists m'. split; [exact Hrun|]. split; [exact Hk'|]. split.
    + intros H. apply Hnd. rewrite JsMapFacts.keys_delete.
      now apply NoDup_filter.
    + intros k'. destruct (Hget k') as [H|H]; [now left|].
      destruct (list_eq_dec ascii_dec k' k0) as [->|Hk0].
      * left. rewrite H. apply get_delete_same.
      * right. rewrite H. now apply get_delete_other.
Qed.

(** [storeTaskSession] as an append to the table without the stored id. *)
Lemma storeTaskSession_appends k session m :
  storeTaskSession k session m
  = evictSessions (S (JsMap.size (JsMap.delete k m)))
      (JsMap.delete k m ++ [(k, session)]).
Proof.
  unfold storeTaskSession.
  assert ((if JsMap.has k m then JsMap.delete k m else m) = JsMap.delete k m) as ->.
  { destruct (JsMap.has k m) eqn:E; [reflexivity|].
    symmetry. apply JsMapFacts.delete_absent. intros H.
    apply JsMapFacts.has_In in H. congruence. }
  rewrite JsMapFacts.set_absent by apply JsMapFacts.delete_not_in.
  f_equal. unfold JsMap.size. rewrite length_app. simpl. lia.
Qed.

End SessionLookups.

(** X1: whatever the table holds, the session just stored can be looked
    up under its id and is the newest entry of the table; every other id
    maps to the session it had before, or has been evicted; and a table
    without repeated keys stays so. *)
Theorem storeTaskSession_stored_is_newest
    (k : jstr) (session : TaskSession) (m : Sessions) :
  JsMap.get k (storeTaskSession k session m) = Some session
  /\ lastOf (JsMap.keys (storeTaskSession k session m)) = Some k
  /\ (forall k', k' <> k ->
        JsMap.get k' (storeTaskSession k session m) = None
        \/ JsMap.get k' (storeTaskSession k session m) = JsMap.get k' m)
  /\ (NoDup (JsMap.keys m) -> NoDup (JsMap.keys (storeTaskSession k session m))).
Proof.
  rewrite storeTaskSession_appends.
  destruct (@evictSessions_keeps_newest k session
              (S (JsMap.size (JsMap.delete k m))) (JsMap.delete k m))
    as (m' & -> & Hk & Hnd & Hget).
  { apply JsMapFacts.delete_not_in. }
  split; [now apply get_app_last|].
  split; [rewrite keys_app_last; apply lastOf_snoc|].
  split.
  - intros k' Hne. rewrite get_app_other by exact Hne.
    destruct (Hget k') as [H|H]; [now left|].
    right. rewrite H. now apply get_delete_other.
  - intros H. rewrite keys_app_last.
    assert (NoDup (JsMap.keys m')) as Hm'.
    { apply Hnd. rewrite JsMapFacts.keys_delete. now apply NoDup_filter. }
    now apply NoDup_snoc.
Qed.

(** ** Storing below capacity, and recency *)

Lemma skipn_S_tl {A} (l : list A) (j : nat) : skipn (S j) l = tl (skipn j l).
Proof.
  revert l. induction j as [|j IH]; intros l.
  - destruct l; reflexivity.
  - destruct l as [|x l]; [reflexivity|]. exact (IH l).
Qed.

Lemma storeAll_snoc (ids : list jstr) (k : jstr) :
  storeAll (ids ++ [k]) = storeTaskSession k (sessionOf k) (storeAll ids).
Proof. unfold storeAll. now rewrite fold_left_app. Qed.

Lemma keys_sessionOf (ids : list jstr) :
  JsMap.keys (map (fun k => (k, sessionOf k)) ids) = ids.
Proof. unfold JsMap.keys. rewrite map_map. simpl. apply map_id. Qed.

(** Below capacity nothing is evicted. *)
Lemma storeTaskSession_fits
    (k : jstr) (session : TaskSession) (m : Sessions) :
  JsMap.size (JsMap.delete k m) < MAX_TASK_SESSIONS ->
  storeTaskSession k session m = JsMap.delete k m ++ [(k, session)].
Proof.
  intros Hsize. rewrite storeTaskSession_appends, evictSessions_step.
  assert ((MAX_TASK_SESSIONS <? JsMap.size (JsMap.delete k m ++ [(k, session)]))
          = false) as ->; [|reflexivity].
  apply Nat.ltb_ge. unfold JsMap.size in *. rewrite length_app. simpl. lia.
Qed.

(** X2: while fewer than 48 other sessions are stored, storing evicts
    nothing: the table afterwards is the table without the stored id,
    followed by the stored session.  A session stored again under its id
    becomes the newest entry. *)
Theorem storeTaskSession_below_capacity
    (k : jstr) (session : TaskSession) (m : Sessions) :
  JsMap.size (JsMap.delete k m) < MAX_TASK_SESSIONS ->
  storeTaskSession k session m = JsMap.delete k m ++ [(k, session)].
Proof. apply storeTaskSession_fits. Qed.

Lemma storeTaskSession_below_capacity_witness :
  storeTaskSession (lit "a") (sessionOf (lit "a"))
    [(lit "a", sessionOf (lit "old")); (lit "b", sessionOf (lit "b"))]
  = [(lit "b", sessionOf (lit "b")); (lit "a", sessionOf (lit "a"))].
Proof.
  apply (@storeTaskSession_below_capacity (lit "a") (sessionOf (lit "a"))
           [(lit "a", sessionOf (lit "old")); (lit "b", sessionOf (lit "b"))]).
  vm_compute. lia.
Defined.

(** X3: after any sequence of stores under pairwise different, non-empty
    ids, starting from the empty table, the table holds exactly the last 48
    of them, oldest first. *)
Theorem storeAll_keeps_most_recent (ids : list jstr) :
  NoDup ids -> Forall (fun k => k <> []) ids ->
  storeAll ids
  = map (fun k => (k, sessionOf k))
        (skipn (List.length ids - MAX_TASK_SESSIONS) ids).
Proof.
  induction ids as [|k ids IH] using rev_ind; intros Hnd Hne; [reflexivity|].
  assert (NoDup ids /\ ~ In k ids) as [Hnd' Hk].
  { apply NoDup_rev in Hnd. rewrite rev_app_distr in Hnd. simpl in Hnd.
    inversion Hnd; subst. split.
    - apply NoDup_rev in H2. now rewrite rev_involutive in H2.
    - now rewrite in_rev. }
  apply Forall_app in Hne as [Hne Hk0]. inversion Hk0 as [|? ? Hk' _]; subst.
  specialize (IH Hnd' Hne).
  rewrite storeAll_snoc, IH. rewrite length_app. simpl.
  set (kept := skipn (List.length ids - MAX_TASK_SESSIONS) ids) in *.
  assert (~ In k kept) as Hkept.
  { intros H. apply Hk. unfold kept in H.
    rewrite <- (firstn_skipn (List.length ids - MAX_TASK_SESSIONS) ids).
    apply in_or_app. now right. }
  pose proof (keys_sessionOf kept) as Hkeys.
  assert (List.length kept
          = List.length ids - (List.length ids - MAX_TASK_SESSIONS)) as Hlen
    by (unfold kept; apply length_skipn).
  destruct (Nat.lt_ge_cases (List.length ids) MAX_TASK_SESSIONS) as [Hlt|Hge].
  - rewrite storeTaskSession_fits.
    2:{ eapply Nat.le_lt_trans; [apply JsMapFacts.size_delete_le|].
        unfold JsMap.size. rewrite length_map. lia. }
    rewrite JsMapFacts.delete_absent by (now rewrite Hkeys).
    replace (List.length ids + 1 - MAX_TASK_SESSIONS) with 0 by lia.
    unfold kept.
    replace (List.length ids - MAX_TASK_SESSIONS) with 0 by lia.
    simpl. now rewrite map_app.
  - replace (List.length ids + 1 - MAX_TASK_SESSIONS)
      with (S (List.length ids - MAX_TASK_SESSIONS)) by lia.
    rewrite skipn_S_tl.
    rewrite skipn_app.
    replace (List.length ids - MAX_TASK_SESSIONS - List.length ids) with 0 by lia.
    fold kept. cbn [skipn].
    destruct kept as [|k0 kept'] eqn:Ekept.
    { simpl in Hlen. unfold MAX_TASK_SESSIONS in *. lia. }
    cbn [map tl app].
    assert (Forall (fun k => k <> []) (k0 :: kept')) as Hne'.
    { rewrite <- Ekept. unfold kept. now apply Forall_skipn. }
    assert (NoDup (k0 :: kept')) as Hnd''.
    { rewrite <- Ekept. unfold kept.
      rewrite <- (firstn_skipn (List.length ids - MAX_TASK_SESSIONS) ids) in Hnd'.
      now apply NoDup_app_remove_l in Hnd'. }
    rewrite (@storeTaskSession_evicts_oldest k (sessionOf k) k0 (sessionOf k0)
               (map (fun k => (k, sessionOf k)) kept')).
    + now rewrite map_app.
    + exact Hk'.
    + now inversion Hne'.
    + change ((k0, sessionOf k0) :: map (fun k => (k, sessionOf k)) kept')
        with (map (fun k => (k, sessionOf k)) (k0 :: kept')).
      rewrite keys_sessionOf. exact Hnd''.
    + change ((k0, sessionOf k0) :: map (fun k => (k, sessionOf k)) kept')
        with (map (fun k => (k, sessionOf k)) (k0 :: kept')).
      rewrite keys_sessionOf. exact Hkept.
    + unfold JsMap.size. simpl. rewrite length_map.
      simpl in Hlen. unfold MAX_TASK_SESSIONS in *. lia.
Qed.

Lemma storeAll_keeps_most_recent_witness :
  storeAll [lit "t1"; lit "t2"]
  = [(lit "t1", sessionOf (lit "t1")); (lit "t2", sessionOf (lit "t2"))].
Proof.
  apply (@storeAll_keeps_most_recent [lit "t1"; lit "t2"]).
  - constructor; [simpl; intros [H|[]]; discriminate H|].
    constructor; [intros []|constructor].
  - constructor; [discriminate|]. constructor; [discriminate|constructor].
Defined.

(** ** Compaction: what a second pass does, and what survives *)

Section Trimming.

Lemma trimStart_fixed (c : ascii) (s : jstr) :
  isWhite c = false -> trimStart (c :: s) = c :: s.
Proof. intros H. simpl. now rewrite H. Qed.

Lemma trimStart_head (c : ascii) (s : jstr) :
  trimStart (c :: s) = c :: s -> isWhite c = false.
Proof.
  intros H. destruct (isWhite c) eqn:E; [|reflexivity].
  simpl in H. rewrite E in H.
  pose proof (trimStart_length s) as Hlen. rewrite H in Hlen.
  simpl in Hlen. lia.
Qed.

Lemma trimStart_idem (s : jstr) : trimStart (trimStart s) = trimStart s.
Proof.
  induction s as [|c s IH]; [reflexivity|].
  simpl. destruct (isWhite c) eqn:E; [exact IH|].
  now apply trimStart_fixed.
Qed.

Lemma trimStart_suffix (s : jstr) : exists w, s = w ++ trimStart s.
Proof.
  induction s as [|c s [w IH]]; [now exists []|].
  simpl. destruct (isWhite c).
  - exists (c :: w). simpl. now f_equal.
  - now exists [].
Qed.

Lemma trimEnd_prefix (s : jstr) : exists w, s = trimEnd s ++ w.
Proof.
  destruct (trimStart_suffix (rev s)) as [w Hw].
  exists (rev w). unfold trimEnd.
  rewrite <- rev_app_distr, <- Hw. now rewrite rev_involutive.
Qed.

Lemma trimStart_prefix_fixed (a b w : jstr) :
  trimStart a = a -> a = b ++ w -> trimStart b = b.
Proof.
  intros Ha ->. destruct b as [|c b]; [reflexivity|].
  apply trimStart_fixed. exact (@trimStart_head _ _ Ha).
Qed.

Lemma trimStart_trim (s : jstr) : trimStart (trim s) = trim s.
Proof.
  unfold trim. destruct (trimEnd_prefix (trimStart s)) as [w Hw].
  exact (@trimStart_prefix_fixed _ _ _ (trimStart_idem s) Hw).
Qed.

Lemma trimEnd_trimEnd (s : jstr) : trimEnd (trimEnd s) = trimEnd s.
Proof.
  unfold trimEnd. rewrite rev_involutive. now rewrite trimStart_idem.
Qed.

Lemma trim_idem (s : jstr) : trim (trim s) = trim s.
Proof.
  unfold trim at 1. rewrite trimStart_trim. unfold trim.
  apply trimEnd_trimEnd.
Qed.

Lemma trim_fixed (c d : ascii) (s : jstr) :
  isWhite c = false -> isWhite d = false -> trim (c :: s ++ [d]) = c :: s ++ [d].
Proof.
  intros Hc Hd. unfold trim. rewrite (@trimStart_fixed c _ Hc).
  unfold trimEnd.
  change (c :: s ++ [d]) with ((c :: s) ++ [d]).
  rewrite rev_app_distr. change (rev [d]) with [d]. cbn [app].
  rewrite (@trimStart_fixed d _ Hd).
  change (d :: rev (c :: s)) with ([d] ++ rev (c :: s)).
  rewrite rev_app_distr. now rewrite rev_involutive.
Qed.

Lemma firstn_cut (n : nat) (a b : jstr) :
  n <= List.length a -> firstn n (firstn n a ++ b) = firstn n a.
Proof.
  intros H. rewrite firstn_app, firstn_firstn, Nat.min_id, length_firstn.
  replace (n - Nat.min n (List.length a)) with 0 by lia.
  simpl. apply app_nil_r.
Qed.

Lemma sanitizeLiveText_idem (s : jstr) (cap : Z) :
  (0 < cap)%Z ->
  sanitizeLiveText (sanitizeLiveText s cap) cap = sanitizeLiveText s cap.
Proof.
  intros Hcap. unfold sanitizeLiveText at 2.
  destruct (Z.leb_spec (len (trim s)) cap) as [Hle|Hgt].
  - unfold sanitizeLiveText. rewrite trim_idem.
    destruct (Z.leb_spec (len (trim s)) cap); [reflexivity|lia].
  - assert (exists c t, trim s = c :: t /\ isWhite c = false) as (c & t & Et & Hc).
    { pose proof (trimStart_trim s) as Hfix.
      destruct (trim s) as [|c t] eqn:E.
      - unfold len in Hgt. simpl in Hgt. lia.
      - exists c, t. split; [reflexivity|]. exact (@trimStart_head _ _ Hfix). }
    assert (sanitizeLiveText s cap = slice0 cap (trim s) ++ truncatedMarker)
      as -> by (unfold sanitizeLiveText;
                destruct (Z.leb_spec (len (trim s)) cap); [lia|reflexivity]).
    rewrite Et in *.
    assert (exists n, Z.to_nat cap = S n) as [n En]
      by (exists (Z.to_nat cap - 1); lia).
    assert (slice0 cap (c :: t) ++ truncatedMarker
            = c :: (firstn n t ++ removelast truncatedMarker) ++ [")"%char])
      as Eshape.
    { unfold slice0. rewrite En. cbn [firstn app]. f_equal.
      rewrite <- app_assoc. reflexivity. }
    unfold sanitizeLiveText.
    rewrite Eshape, (@trim_fixed c ")"%char _ Hc eq_refl).
    rewrite <- Eshape.
    assert (len (slice0 cap (c :: t) ++ truncatedMarker) = cap + 16)%Z as Hlen.
    { rewrite len_app. unfold len at 1, slice0. rewrite length_firstn.
      unfold len in Hgt. change (len truncatedMarker) with 16%Z. lia. }
    rewrite Hlen.
    destruct (Z.leb_spec (cap + 16) cap); [lia|].
    f_equal. unfold slice0. apply firstn_cut. unfold len in Hgt. lia.
Qed.

Lemma truncateSubagentToolContent_idem (s : jstr) (cap : Z) :
  (0 <= cap)%Z ->
  truncateSubagentToolContent (truncateSubagentToolContent s cap) cap
  = truncateSubagentToolContent s cap.
Proof.
  intros Hcap. unfold truncateSubagentToolContent at 2.
  destruct (Z.leb_spec (len s) cap) as [Hle|Hgt].
  - unfold truncateSubagentToolContent.
    destruct (Z.leb_spec (len s) cap); [reflexivity|lia].
  - assert (truncateSubagentToolContent s cap
            = slice0 cap s ++ truncatedForSubagentMarker)
      as -> by (unfold truncateSubagentToolContent;
                destruct (Z.leb_spec (len s) cap); [lia|reflexivity]).
    unfold truncateSubagentToolContent.
    assert (len (slice0 cap s ++ truncatedForSubagentMarker) = cap + 37)%Z as Hlen.
    { rewrite len_app. unfold len at 1, slice0. rewrite length_firstn.
      unfold len in Hgt. change (len truncatedForSubagentMarker) with 37%Z. lia. }
    rewrite Hlen. destruct (Z.leb_spec (cap + 37) cap); [lia|].
    f_equal. unfold slice0. apply firstn_cut. unfold len in Hgt. lia.
Qed.

End Trimming.

Section Recompaction.

Implicit Types (item : HistoryItem) (l : list HistoryItem).

Lemma sanitizeLiveText_nonempty (c : ascii) (s : jstr) (cap : Z) :
  trim (c :: s) <> [] -> sanitizeLiveText (c :: s) cap <> [].
Proof.
  intros H. unfold sanitizeLiveText.
  destruct (len (trim (c :: s)) <=? cap)%Z; [exact H|].
  intros E. apply app_eq_nil in E as [_ E]. discriminate E.
Qed.

Lemma isUser_trimHistoryItem item :
  isUser (trimHistoryItem item) = isUser item.
Proof.
  destruct item; try reflexivity.
  now rewrite trimHistoryItem_toolOutput.
Qed.

Lemma trimHistoryItem_user item :
  isUser item = true -> trimHistoryItem item = item.
Proof. destruct item; try discriminate. reflexivity. Qed.

(** The per-entry step changes nothing the second time, except that a
    reasoning text it left empty becomes absent. *)
Lemma trimHistoryItem_twice (a : AssistantItem) :
  trimHistoryItem (trimHistoryItem (HAssistant a)) =
  HAssistant
    {| a_id := a_id a;
       a_content :=
         sanitizeLiveText (a_content a) MAX_SUBAGENT_ASSISTANT_CONTENT_CHARS;
       a_reasoningContent :=
         match a_reasoningContent a with
         | Some (c :: r) =>
             match sanitizeLiveText (c :: r)
                     MAX_SUBAGENT_ASSISTANT_CONTENT_CHARS with
             | [] => None
             | text => Some text
             end
         | _ => None
         end;
       a_openai := None;
       a_anthropic := None;
       a_tokenUsage := a_tokenUsage a;
       a_outputTokens := a_outputTokens a |}.
Proof.
  rewrite (trimHistoryItem_assistant a), trimHistoryItem_assistant.
  cbn [a_id a_content a_reasoningContent a_tokenUsage a_outputTokens].
  rewrite sanitizeLiveText_idem by (unfold MAX_SUBAGENT_ASSISTANT_CONTENT_CHARS; lia).
  f_equal. f_equal.
  destruct (a_reasoningContent a) as [[|c r]|]; try reflexivity.
  destruct (sanitizeLiveText (c :: r) MAX_SUBAGENT_ASSISTANT_CONTENT_CHARS)
    as [|d x] eqn:E; [reflexivity|].
  rewrite <- E.
  now rewrite sanitizeLiveText_idem
    by (unfold MAX_SUBAGENT_ASSISTANT_CONTENT_CHARS; lia).
Qed.

Lemma trimHistoryItem_idem item :
  noBlankReasoning [item] ->
  trimHistoryItem (trimHistoryItem item) = trimHistoryItem item.
Proof.
  intros H. inversion H as [|? ? Hitem _]; subst.
  destruct item; try reflexivity.
  - rewrite trimHistoryItem_twice, trimHistoryItem_assistant.
    f_equal. f_equal.
    destruct (a_reasoningContent a) as [[|c r]|]; try reflexivity.
    pose proof (@sanitizeLiveText_nonempty c r
                  MAX_SUBAGENT_ASSISTANT_CONTENT_CHARS Hitem) as Hne.
    now destruct (sanitizeLiveText (c :: r) MAX_SUBAGENT_ASSISTANT_CONTENT_CHARS).
  - rewrite !trimHistoryItem_toolOutput. cbn [r_content r_lines].
    now rewrite truncateSubagentToolContent_idem
      by (unfold MAX_SUBAGENT_TOOL_CONTENT_CHARS; lia).
Qed.

Lemma trimHistoryItem_stable item :
  trimHistoryItem (trimHistoryItem (trimHistoryItem item))
  = trimHistoryItem (trimHistoryItem item).
Proof.
  destruct item; try reflexivity.
  - rewrite trimHistoryItem_twice, trimHistoryItem_assistant.
    cbn [a_id a_content a_reasoningContent a_tokenUsage a_outputTokens].
    rewrite sanitizeLiveText_idem by (unfold MAX_SUBAGENT_ASSISTANT_CONTENT_CHARS; lia).
    f_equal. f_equal.
    destruct (a_reasoningContent a) as [[|c r]|]; try reflexivity.
    destruct (sanitizeLiveText (c :: r) MAX_SUBAGENT_ASSISTANT_CONTENT_CHARS)
      as [|d x] eqn:E; [reflexivity|].
    rewrite <- E.
    now rewrite sanitizeLiveText_idem
      by (unfold MAX_SUBAGENT_ASSISTANT_CONTENT_CHARS; lia).
  - rewrite !trimHistoryItem_toolOutput. cbn [r_content r_lines].
    now rewrite !truncateSubagentToolContent_idem
      by (unfold MAX_SUBAGENT_TOOL_CONTENT_CHARS; lia).
Qed.

Lemma trimHistoryItem_size item :
  estimateHistoryItemSize (trimHistoryItem (trimHistoryItem item))
  = estimateHistoryItemSize (trimHistoryItem item).
Proof.
  destruct item; try reflexivity.
  - rewrite trimHistoryItem_twice, trimHistoryItem_assistant.
    cbn [estimateHistoryItemSize a_content a_reasoningContent a_openai
         a_anthropic safeJsonLength].
    destruct (a_reasoningContent a) as [[|c r]|]; try reflexivity.
    now destruct (sanitizeLiveText (c :: r) MAX_SUBAGENT_ASSISTANT_CONTENT_CHARS).
  - rewrite !trimHistoryItem_toolOutput. cbn [r_content r_lines].
    cbn [estimateHistoryItemSize r_content].
    now rewrite truncateSubagentToolContent_idem
      by (unfold MAX_SUBAGENT_TOOL_CONTENT_CHARS; lia).
Qed.

Lemma sizeOf_sanitised l :
  Forall sanitised l -> sizeOf (map trimHistoryItem l) = sizeOf l.
Proof.
  induction 1 as [|x l [y ->] _ IH]; [reflexivity|].
  cbn [map]. rewrite !sizeOf_cons, IH. now rewrite trimHistoryItem_size.
Qed.

(** A history within the ceilings, or just a seed, is left with all its
    entries. *)
Lemma compactSubagentHistory_within l :
  (len' l <= MAX_SUBAGENT_HISTORY_ITEMS)%Z ->
  (sizeOf (map trimHistoryItem l) <= MAX_SUBAGENT_HISTORY_CHARS)%Z
  \/ (exists first, l = [first] /\ isUser first = true) ->
  compactSubagentHistory l = map trimHistoryItem l.
Proof.
  intros Hlen Hsize. unfold compactSubagentHistory.
  destruct l as [|first rest]; [reflexivity|].
  cbn [map List.length]. rewrite compactLoop_step.
  match goal with
  | |- (if ?c then _ else _) = _ => assert (c = false) as ->; [|reflexivity]
  end.
  apply andb_false_iff. destruct Hsize as [Hsize|(u & Hu & Huser)].
  - left. apply orb_false_iff. split; apply Z.ltb_ge.
    + unfold len' in *. cbn [List.length] in *. rewrite length_map. exact Hlen.
    + exact Hsize.
  - right. injection Hu as -> ->. rewrite isUser_trimHistoryItem, Huser.
    reflexivity.
Qed.

(** What one pass leaves: results of the per-entry step, within the item
    ceiling, and within the character ceiling unless only a seed is left. *)
Lemma compactSubagentHistory_shape (history : list HistoryItem) :
  Forall sanitised (compactSubagentHistory history)
  /\ (len' (compactSubagentHistory history) <= MAX_SUBAGENT_HISTORY_ITEMS)%Z
  /\ ((sizeOf (compactSubagentHistory history) <= MAX_SUBAGENT_HISTORY_CHARS)%Z
      \/ exists first,
           compactSubagentHistory history = [first] /\ isUser first = true).
Proof.
  unfold compactSubagentHistory.
  assert (Forall sanitised (map trimHistoryItem history)) as Hall.
  { apply Forall_forall. intros x Hx. apply in_map_iff in Hx as [y [<- _]].
    now exists y. }
  destruct (map trimHistoryItem history) as [|first rest].
  - cbn [List.length compactLoop]. split; [constructor|].
    split; [|left]; unfold len', sizeOf, MAX_SUBAGENT_HISTORY_ITEMS,
      MAX_SUBAGENT_HISTORY_CHARS; simpl; lia.
  - inversion Hall as [|? ? Hfirst Hrest]; subst.
    destruct (isUser first) eqn:Huser.
    + destruct (@compactLoop_pinned first (List.length (first :: rest)) rest)
        as [k (Hk & Hl & Hs)]; [cbn [List.length]; lia|].
      rewrite Hk. split; [constructor; [exact Hfirst | now apply Forall_skipn]|].
      split; [exact Hl|]. destruct Hs as [Hs|Hs]; [now left|].
      right. exists first. now rewrite Hs.
    + destruct (@compactLoop_unpinned (List.length (first :: rest))
                  (first :: rest) (Nat.le_refl _)) as [k (Hk & Hl & Hs)].
      rewrite Hk. split; [now apply Forall_skipn|]. split; [exact Hl | now left].
Qed.

Lemma compactSubagentHistory_second (history : list HistoryItem) :
  compactSubagentHistory (compactSubagentHistory history)
  = map trimHistoryItem (compactSubagentHistory history).
Proof.
  destruct (compactSubagentHistory_shape history) as (Hall & Hlen & Hsize).
  apply compactSubagentHistory_within; [exact Hlen|].
  destruct Hsize as [Hsize|Hseed]; [left | now right].
  now rewrite sizeOf_sanitised.
Qed.

Lemma noBlankReasoning_sanitised l :
  Forall sanitised l ->
  map trimHistoryItem (map trimHistoryItem l) = map trimHistoryItem l.
Proof.
  induction 1 as [|x l [y ->] _ IH]; [reflexivity|].
  cbn [map]. now rewrite IH, trimHistoryItem_stable.
Qed.

Lemma lastOf_cons2 {A} (x y : A) (l : list A) :
  lastOf (x :: y :: l) = lastOf (y :: l).
Proof. unfold lastOf. f_equal. apply last_cons. Qed.

Lemma lastOf_map {A B} (f : A -> B) (l : list A) :
  lastOf (map f l) = option_map f (lastOf l).
Proof.
  destruct l as [|x l]; [reflexivity|]. simpl. f_equal.
  revert x. induction l as [|y l IH]; intros x; [reflexivity|].
  cbn [map]. rewrite !last_cons. apply IH.
Qed.

Lemma compactLoop_unpinned_newest fuel :
  forall l newest, List.length l <= fuel -> lastOf l = Some newest ->
    (estimateHistoryItemSize newest <= MAX_SUBAGENT_HISTORY_CHARS)%Z ->
    lastOf (compactLoop fuel false l (sizeOf l)) = Some newest.
Proof.
  induction fuel as [|f IH]; intros l newest Hlen Hlast Hfit.
  - destruct l; [discriminate | simpl in Hlen; lia].
  - rewrite compactLoop_step.
    match goal with
    | |- context [if ?a && ?b then _ else _] => destruct (a && b) eqn:E
    end; [|exact Hlast].
    destruct l as [|x [|y l]]; [discriminate| |].
    + injection Hlast as <-. exfalso.
      apply andb_true_iff in E as [E _]. apply orb_true_iff in E as [E|E];
        apply Z.ltb_lt in E.
      * unfold len', MAX_SUBAGENT_HISTORY_ITEMS in E. simpl in E. lia.
      * rewrite sizeOf_cons in E. unfold sizeOf in E at 1. simpl in E. lia.
    + cbn [splice1]. rewrite (sizeOf_cons x).
      replace (estimateHistoryItemSize x + sizeOf (y :: l)
               - estimateHistoryItemSize x)%Z with (sizeOf (y :: l)) by lia.
      apply IH; [simpl in *; lia | now rewrite <- lastOf_cons2 with (x := x)
                                 | exact Hfit].
Qed.

Lemma compactLoop_pinned_newest (u : HistoryItem) fuel :
  forall rest newest, List.length rest <= fuel -> lastOf rest = Some newest ->
    (estimateHistoryItemSize u + estimateHistoryItemSize newest
     <= MAX_SUBAGENT_HISTORY_CHARS)%Z ->
    lastOf (compactLoop fuel true (u :: rest) (sizeOf (u :: rest)))
    = Some newest.
Proof.
  induction fuel as [|f IH]; intros rest newest Hlen Hlast Hfit.
  - destruct rest; [discriminate | simpl in Hlen; lia].
  - rewrite compactLoop_step.
    match goal with
    | |- context [if ?a && ?b then _ else _] => destruct (a && b) eqn:E
    end.
    2:{ destruct rest; [discriminate|]. now rewrite lastOf_cons2. }
    destruct rest as [|x [|y rest]]; [discriminate| |].
    + injection Hlast as <-. exfalso.
      apply andb_true_iff in E as [E _]. apply orb_true_iff in E as [E|E];
        apply Z.ltb_lt in E.
      * unfold len', MAX_SUBAGENT_HISTORY_ITEMS in E. simpl in E. lia.
      * rewrite !sizeOf_cons in E. unfold sizeOf in E at 1. simpl in E. lia.
    + cbn [splice1]. rewrite (sizeOf_cons u), (sizeOf_cons x).
      replace (estimateHistoryItemSize u
               + (estimateHistoryItemSize x + sizeOf (y :: rest))
               - estimateHistoryItemSize x)%Z
        with (sizeOf (u :: y :: rest)) by (rewrite (sizeOf_cons u); lia).
      apply IH; [simpl in *; lia | now rewrite <- lastOf_cons2 with (x := x)
                                 | exact Hfit].
Qed.

End Recompaction.

(** X4: compacting an already compacted history evicts nothing: the
    second pass only runs the per-entry step again, so the length and the
    estimated size stay the same and a third pass changes nothing at all.
    When no assistant entry of the input has a blank, non-empty reasoning
    text, the second pass changes nothing either. *)
Theorem compactSubagentHistory_again (history : list HistoryItem) :
  let once := compactSubagentHistory history in
  let twice := compactSubagentHistory once in
  twice = map trimHistoryItem once
  /\ List.length twice = List.length once
  /\ sizeOf twice = sizeOf once
  /\ compactSubagentHistory twice = twice
  /\ (noBlankReasoning history -> twice = once).
Proof.
  intros once twice.
  destruct (compactSubagentHistory_shape history) as (Hall & _).
  assert (twice = map trimHistoryItem once) as Htwice
    by apply compactSubagentHistory_second.
  split; [exact Htwice|]. split; [rewrite Htwice; apply length_map|].
  split; [rewrite Htwice; now apply sizeOf_sanitised|].
  split.
  - unfold twice at 1. rewrite compactSubagentHistory_second. fold once twice.
    rewrite Htwice. now apply noBlankReasoning_sanitised.
  - intros Hclean. rewrite Htwice.
    assert (forall l, Forall sanitised l ->
              (forall x, In x l -> exists y, x = trimHistoryItem y
                                             /\ noBlankReasoning [y]) ->
              map trimHistoryItem l = l) as Hfix.
    { induction l as [|x l IH]; intros _ Hin; [reflexivity|].
      cbn [map]. f_equal.
      - destruct (Hin x (or_introl eq_refl)) as (y & -> & Hy).
        now apply trimHistoryItem_idem.
      - apply IH; [|intros x' Hx'; apply Hin; now right].
        apply Forall_forall. intros x' Hx'.
        destruct (Hin x' (or_intror Hx')) as (y & -> & _). now exists y. }
    apply Hfix; [exact Hall|].
    intros x Hx.
    assert (forall x, In x once -> In x (map trimHistoryItem history)) as Hsub.
    { clear x Hx. intros x Hx. unfold once, compactSubagentHistory in Hx.
      destruct (map trimHistoryItem history) as [|first rest] eqn:Emap;
        [cbn in Hx; exact Hx|].
      destruct (isUser first) eqn:Huser.
      - destruct (@compactLoop_pinned first (List.length (first :: rest)) rest)
          as [k (Hk & _)]; [cbn [List.length]; lia|].
        rewrite Hk in Hx. destruct Hx as [Hx|Hx]; [now left|].
        right. rewrite <- (firstn_skipn k rest). apply in_or_app. now right.
      - destruct (@compactLoop_unpinned (List.length (first :: rest))
                    (first :: rest) (Nat.le_refl _)) as [k (Hk & _)].
        rewrite Hk in Hx.
        rewrite <- (firstn_skipn k (first :: rest)). apply in_or_app.
        now right. }
    apply Hsub in Hx. apply in_map_iff in Hx as (y & <- & Hy).
    exists y. split; [reflexivity|].
    constructor; [|constructor].
    unfold noBlankReasoning in Hclean. rewrite Forall_forall in Hclean.
    exact (Hclean y Hy).
Qed.

(** X5: a history of at most 80 entries whose entries, after the per-entry
    step, add up to at most 140,000 characters loses no entry: compaction
    is the per-entry step on every entry, in order. *)
Theorem compactSubagentHistory_within_ceilings (history : list HistoryItem) :
  (len' history <= MAX_SUBAGENT_HISTORY_ITEMS)%Z ->
  (sizeOf (map trimHistoryItem history) <= MAX_SUBAGENT_HISTORY_CHARS)%Z ->
  compactSubagentHistory history = map trimHistoryItem history
  /\ List.length (compactSubagentHistory history) = List.length history.
Proof.
  intros Hlen Hsize.
  rewrite compactSubagentHistory_within by (auto; now left).
  split; [reflexivity | apply length_map].
Qed.

Lemma compactSubagentHistory_within_ceilings_witness :
  compactSubagentHistory
    [HUser 0 (lit "  find the bug "); HToolFailed 1 (lit "boom") (lit "c1") (lit "read")]
  = [HUser 0 (lit "  find the bug "); HToolFailed 1 (lit "boom") (lit "c1") (lit "read")].
Proof.
  refine (proj1 (@compactSubagentHistory_within_ceilings
                   [HUser 0 (lit "  find the bug ");
                    HToolFailed 1 (lit "boom") (lit "c1") (lit "read")] _ _)).
  - vm_compute. discriminate.
  - vm_compute. discriminate.
Defined.

(** X6: the newest entry survives compaction whenever it fits: alone
    within 140,000 characters, or together with the pinned seed when the
    history starts with a user message. *)
Theorem compactSubagentHistory_keeps_newest
    (history : list HistoryItem) (newest : HistoryItem) :
  lastOf history = Some newest -> newestFits history ->
  lastOf (compactSubagentHistory history) = Some (trimHistoryItem newest).
Proof.
  intros Hlast Hfit.
  assert (lastOf (map trimHistoryItem history) = Some (trimHistoryItem newest))
    as Hlast' by (now rewrite lastOf_map, Hlast).
  destruct history as [|first [|second rest]]; [discriminate| |].
  - injection Hlast as <-. unfold newestFits in Hfit. cbn [lastOf] in Hfit.
    rewrite compactSubagentHistory_within; [reflexivity| |].
    + unfold len', MAX_SUBAGENT_HISTORY_ITEMS. simpl. lia.
    + destruct Hfit as [Hu|Hs]; [right; now exists first|left].
      cbn [map]. rewrite sizeOf_cons. unfold sizeOf. simpl. lia.
  - unfold newestFits in Hfit. rewrite Hlast in Hfit.
    unfold compactSubagentHistory.
    cbn [map] in *. rewrite isUser_trimHistoryItem.
    destruct (isUser first) eqn:Huser.
    + apply compactLoop_pinned_newest; [cbn [List.length]; lia| |exact Hfit].
      now rewrite <- lastOf_cons2 with (x := trimHistoryItem first).
    + apply compactLoop_unpinned_newest; [apply Nat.le_refl|exact Hlast'|].
      lia.
Qed.

Lemma compactSubagentHistory_keeps_newest_witness :
  lastOf (compactSubagentHistory
            [HUser 0 (lit "seed"); HNotification 1 (lit "note");
             HToolFailed 2 (lit "boom") (lit "c1") (lit "read")])
  = Some (HToolFailed 2 (lit "boom") (lit "c1") (lit "read")).
Proof.
  apply (@compactSubagentHistory_keeps_newest
           [HUser 0 (lit "seed"); HNotification 1 (lit "note");
            HToolFailed 2 (lit "boom") (lit "c1") (lit "read")]
           (HToolFailed 2 (lit "boom") (lit "c1") (lit "read"))).
  - reflexivity.
  - vm_compute. discriminate.
Defined.

(** ** What the delegation tool throws *)

Section RunOutcomes.

Variable candidates : list Agent.
Variable USER_ABORTED_ERROR_MESSAGE : jstr.
Variable runSubagentUntilPause :
  TaskSession -> Agent -> World -> (Result jstr * list HistoryItem) * World.
Variable summarizeTaskTrace : list HistoryItem -> jstr.

Variable awaitNestedLoops :
  World -> list Launched -> World
  -> (nat -> Result jstr * list HistoryItem) * World.

Let execute := executeTaskInvocation candidates runSubagentUntilPause
                 summarizeTaskTrace.
Let runTool := run candidates USER_ABORTED_ERROR_MESSAGE runSubagentUntilPause
                 summarizeTaskTrace awaitNestedLoops.

Lemma planned_nonempty liveRunId args : planned liveRunId args <> [].
Proof.
  unfold planned, invocationInputsOf.
  destruct (parallel_tasks args) as [[|t ts]|]; discriminate.
Qed.

(** The single branch of [run], from a world that is not aborted. *)
Lemma run_single liveRunId args w first rest :
  aborted w = false ->
  parallelTasksOf args = [] ->
  planned liveRunId args = first :: rest ->
  runTool liveRunId args w =
  match execute (p_invocation first) (p_taskId first) None w with
  | (Ok observation, w') => (Ok (buildObservedTaskOutput observation), w')
  | (Throw error, w') =>
      if aborted w' || isAbortLikeError error
      then (Throw (ToolError USER_ABORTED_ERROR_MESSAGE), w')
      else (Ok (buildObservedTaskOutput
                  (taskObservationFromFailure (p_invocation first) error
                     (p_taskId first))), w')
  end.
Proof.
  intros Hlive Hsingle Hplan. unfold runTool, run. rewrite Hplan.
  unfold parallelTasksOf in Hsingle. rewrite Hsingle.
  unfold tryCatch at 1. unfold bind at 1. unfold getState at 1.
  rewrite Hlive. cbn [List.length Nat.ltb Nat.leb].
  unfold bind at 1. unfold tryCatch at 1. fold execute.
  destruct (execute (p_invocation first) (p_taskId first) None w)
    as [[observation|error] w'] eqn:Erun.
  - reflexivity.
  - unfold bind at 1. unfold getState at 1.
    destruct (aborted w' || isAbortLikeError error) eqn:Eabort.
    + unfold throw at 1. unfold bind at 1. unfold getState at 1.
      now rewrite Eabort.
    + reflexivity.
Qed.

End RunOutcomes.

(** X7: the delegation tool's [run] either returns its text or throws the
    tool error that carries the user-aborted message; no other error
    leaves it, whatever the nested agent loops throw. *)
Theorem run_throws_only_user_abort
    (candidates : list Agent) (USER_ABORTED_ERROR_MESSAGE : jstr)
    (runSubagentUntilPause :
       TaskSession -> Agent -> World -> (Result jstr * list HistoryItem) * World)
    (summarizeTaskTrace : list HistoryItem -> jstr)
    (awaitNestedLoops :
       World -> list Launched -> World
       -> (nat -> Result jstr * list HistoryItem) * World)
    (liveRunId : jstr) (args : TaskArguments) (w : World) :
  let outcome := run candidates USER_ABORTED_ERROR_MESSAGE runSubagentUntilPause
                   summarizeTaskTrace awaitNestedLoops liveRunId args w in
  (exists text, fst outcome = Ok text)
  \/ fst outcome = Throw (ToolError USER_ABORTED_ERROR_MESSAGE).
Proof.
  intros outcome. subst outcome.
  destruct (aborted w) eqn:Hlive.
  { right. unfold run. unfold tryCatch at 1. unfold bind at 1.
    unfold getState at 1. rewrite Hlive. unfold throw at 1.
    unfold bind at 1. unfold getState at 1. rewrite Hlive. reflexivity. }
  destruct (parallelTasksOf args) as [|task tasks] eqn:Hpar.
  - destruct (planned liveRunId args) as [|first rest] eqn:Hplan;
      [now apply planned_nonempty in Hplan|].
    rewrite (@run_single candidates USER_ABORTED_ERROR_MESSAGE
               runSubagentUntilPause summarizeTaskTrace awaitNestedLoops
               liveRunId args w first rest Hlive Hpar Hplan).
    destruct (executeTaskInvocation candidates runSubagentUntilPause
                summarizeTaskTrace (p_invocation first) (p_taskId first) None w)
      as [[observation|error] w'].
    + left. now eexists.
    + destruct (aborted w' || isAbortLikeError error); [now right|].
      left. now eexists.
  - left. unfold run. unfold parallelTasksOf in Hpar. rewrite Hpar.
    unfold tryCatch at 1. unfold bind at 1. unfold getState at 1.
    rewrite Hlive. cbn [List.length Nat.ltb Nat.leb].
    unfold bind at 1. unfold allSettled. unfold bind at 1.
    unfold getState at 1. unfold bind at 1. unfold launchAll.
    destruct (launchFrom_spec candidates (planned liveRunId args)
                (planned liveRunId args) 0 w) as (launched & w1 & -> & _).
    destruct (awaitNestedLoops w launched w1) as [outcomes w2].
    now eexists.
Qed.

(** X8: a single delegation whose task id belongs to a session of another
    subagent does not throw: [run] returns the text of a failure
    observation whose trace and result carry the pinning message, and the
    session table is as before.  This holds as long as the message does
    not read as an abort. *)
Theorem run_reports_pinning_as_failed_observation
    (candidates : list Agent) (USER_ABORTED_ERROR_MESSAGE : jstr)
    (runSubagentUntilPause :
       TaskSession -> Agent -> World -> (Result jstr * list HistoryItem) * World)
    (summarizeTaskTrace : list HistoryItem -> jstr)
    (awaitNestedLoops :
       World -> list Launched -> World
       -> (nat -> Result jstr * list HistoryItem) * World)
    (liveRunId : jstr) (args : TaskArguments) (w : World)
    (taskId : jstr) (session : TaskSession) (subagent : Agent) :
  aborted w = false ->
  parallelTasksOf args = [] ->
  task_id args = Some taskId ->
  findAgent candidates (subagent_type args) = Some subagent ->
  JsMap.get taskId (taskSessions w) = Some session ->
  s_subagentName session <> subagent_type args ->
  let message := pinningMessage taskId (s_subagentName session) in
  isAbortLikeError (ToolError message) = false ->
  run candidates USER_ABORTED_ERROR_MESSAGE runSubagentUntilPause
    summarizeTaskTrace awaitNestedLoops liveRunId args w
  = (Ok (buildObservedTaskOutput
           {| o_taskId := taskId;
              o_subagentName := subagent_type args;
              o_description := description args;
              o_trace := lit "[task-error]" ++ nl ++ message;
              o_result := lit "Subagent task failed: " ++ message |}), w).
Proof.
  intros Hlive Hsingle Hid Hfind Hget Hpin message Hmsg.
  assert (planned liveRunId args
          = [{| p_invocation := singleInvocationOf args; p_taskId := taskId |}])
    as Hplan.
  { unfold planned, invocationInputsOf. unfold parallelTasksOf in Hsingle.
    destruct args as [d p s t ps]. cbn in Hid, Hsingle |- *. subst t.
    destruct ps as [ts|]; [subst ts|]; reflexivity. }
  rewrite (@run_single candidates USER_ABORTED_ERROR_MESSAGE
             runSubagentUntilPause summarizeTaskTrace awaitNestedLoops
             liveRunId args w _ _ Hlive Hsingle Hplan).
  cbn [p_invocation p_taskId].
  unfold executeTaskInvocation. unfold bind at 1.
  rewrite (@openTaskSession_pinned candidates (singleInvocationOf args) taskId
             None w session subagent).
  - assert (effectiveTaskId (singleInvocationOf args) taskId = taskId) as ->
      by (unfold effectiveTaskId; simpl; now rewrite Hid).
    fold message. rewrite Hlive, Hmsg. reflexivity.
  - exact Hfind.
  - unfold makeSessionKey, effectiveTaskId. cbn [singleInvocationOf i_task_id].
    now rewrite Hid.
  - exact Hpin.
Qed.

Lemma run_reports_pinning_as_failed_observation_witness :
  run demoCandidates (lit "Aborted by user") demoRunSubagent demoSummarize
    demoNestedLoops (lit "call1") demoResumeArgs demoWorld
  = (Ok (buildObservedTaskOutput
           {| o_taskId := lit "t1";
              o_subagentName := lit "explore";
              o_description := lit "resume";
              o_trace := lit "[task-error]" ++ nl
                         ++ pinningMessage (lit "t1") (lit "general");
              o_result := lit "Subagent task failed: "
                          ++ pinningMessage (lit "t1") (lit "general") |}),
     demoWorld).
Proof.
  apply (@run_reports_pinning_as_failed_observation demoCandidates
           (lit "Aborted by user") demoRunSubagent demoSummarize
           demoNestedLoops (lit "call1")
           demoResumeArgs demoWorld (lit "t1") demoSession
           {| agent_name := lit "explore";
              agent_description := lit "read-only scan" |});
    try reflexivity.
  discriminate.
Defined.

(** ** The arc engine: a bound on backend calls for every backend *)

Section ArcCalls.

Variable env : ArcEnv.

Lemma callsAtMost_ret {A} (a : A) : callsAtMost 0 (ret a).
Proof. intros st. exists []. now rewrite app_nil_r. Qed.

Lemma callsAtMost_throw {A} (e : JsError) : callsAtMost 0 (@throw ArcState A e).
Proof. intros st. exists []. now rewrite app_nil_r. Qed.

Lemma callsAtMost_bind {A B} (n n' : nat) (m : Arc A) (k : A -> Arc B) :
  callsAtMost n m -> (forall a, callsAtMost n' (k a)) ->
  callsAtMost (n + n') (bind m k).
Proof.
  intros Hm Hk st. destruct (Hm st) as (evs & Hevs & He & Hc).
  unfold bind. destruct (m st) as [[a|e] st1]; cbn [snd] in Hevs.
  - destruct (Hk a st1) as (evs' & Hevs' & He' & Hc').
    exists (evs ++ evs'). rewrite Hevs', Hevs, app_assoc.
    split; [reflexivity|].
    rewrite enteredBudgets_app, backendCalls_app, He, He'.
    split; [reflexivity | lia].
  - exists evs. cbn [snd]. split; [exact Hevs|]. split; [exact He | lia].
Qed.

Lemma callsAtMost_quiet {A} (m : Arc A) :
  (forall st, exists evs, events (snd (m st)) = events st ++ evs
                          /\ forallb quiet evs = true) ->
  callsAtMost 0 m.
Proof.
  intros H st. destruct (H st) as (evs & Hevs & Hq).
  apply quiet_silent in Hq as [He Hc].
  exists evs. split; [exact Hevs|]. split; [exact He | lia].
Qed.

Lemma callsAtMost_now : callsAtMost 0 now.
Proof. intros st. exists []. now rewrite app_nil_r. Qed.

Lemma callsAtMost_emit (e : Event) : quiet e = true -> callsAtMost 0 (emit e).
Proof.
  intros H. apply callsAtMost_quiet. intros st. exists [e].
  split; [reflexivity|]. cbn [forallb]. now rewrite H.
Qed.

Lemma callsAtMost_backend messages : callsAtMost 1 (emit (BackendCalled messages)).
Proof.
  intros st. exists [BackendCalled messages]. split; [reflexivity|].
  split; [reflexivity|]. unfold backendCalls. simpl. lia.
Qed.

Lemma callsAtMost_checkAborted : callsAtMost 0 (checkAborted env).
Proof.
  unfold checkAborted.
  apply (@callsAtMost_bind _ _ 0 0); [apply callsAtMost_now|].
  intros t. apply callsAtMost_ret.
Qed.

Lemma callsAtMost_feed progress extra stream buffer :
  (forall b t ty, quiet (progress b t ty) = true) ->
  forallb quiet extra = true ->
  callsAtMost 0 (feed progress extra stream buffer).
Proof.
  intros Hp He. apply callsAtMost_quiet. intros st.
  destruct (@feed_quiet progress extra stream Hp He buffer st)
    as (buffer' & evs & Hrun & Hq).
  exists evs. now rewrite Hrun.
Qed.

Lemma callsAtMost_maybeAutocompact messages :
  callsAtMost 0 (maybeAutocompact env messages).
Proof.
  apply callsAtMost_quiet. intros st.
  destruct (maybeAutocompact_quiet env messages st)
    as (outcome & t & evs & Hrun & Hq & _).
  exists evs. now rewrite Hrun.
Qed.

Lemma callsAtMost_tryTransformFileOutdatedError toolCall filePath :
  callsAtMost 0 (tryTransformFileOutdatedError env toolCall filePath).
Proof.
  unfold tryTransformFileOutdatedError.
  apply (@callsAtMost_bind _ _ 0 0); [apply callsAtMost_now|]. intros t.
  destruct (resolvePath env t filePath); [|apply callsAtMost_throw].
  apply (@callsAtMost_bind _ _ 0 0); [apply callsAtMost_now|]. intros t'.
  destruct (readUntracked env t' a); apply callsAtMost_ret.
Qed.

Lemma callsAtMost_onToolError irs messagesCopy toolCall message curl :
  callsAtMost 0 (onToolError env irs messagesCopy toolCall message curl).
Proof.
  unfold onToolError.
  destruct (Js.eqb (fnName toolCall) (lit "edit")); [|apply callsAtMost_ret].
  apply (@callsAtMost_bind _ _ 0 0); [now apply callsAtMost_emit|]. intros _.
  apply (@callsAtMost_bind _ _ 0 0); [apply callsAtMost_now|]. intros t.
  destruct (readFile env t _); [|apply callsAtMost_ret].
  apply (@callsAtMost_bind _ _ 0 0); [apply callsAtMost_now|]. intros t'.
  destruct (autofixEdit env t' _ _) as [autofixed|]; [|apply callsAtMost_ret].
  apply (@callsAtMost_bind _ _ 0 0); [apply callsAtMost_checkAborted|].
  intros [|]; [apply callsAtMost_ret|].
  destruct autofixed as [fixed|]; [|apply callsAtMost_ret].
  apply (@callsAtMost_bind _ _ 0 0); [apply callsAtMost_now|]. intros t''.
  destruct (validateTool env t'' _ _); apply callsAtMost_ret.
Qed.

(** One pass through the body of the arc calls the backend at most once. *)
Lemma callsAtMost_arcTurn messages : callsAtMost 1 (arcTurn env messages).
Proof.
  unfold arcTurn.
  apply (@callsAtMost_bind _ _ 0 1); [apply callsAtMost_checkAborted|].
  intros [|].
  { intros st. destruct (@callsAtMost_ret Turn (Finished (abort [])) st)
      as (evs & H & He & Hc). exists evs. split; [exact H|]. split; [exact He|lia]. }
  apply (@callsAtMost_bind _ _ 0 1); [apply callsAtMost_now|]. intros t0.
  apply (@callsAtMost_bind _ _ 0 1).
  { destruct (loadTools env t0); [apply callsAtMost_ret|apply callsAtMost_throw]. }
  intros _.
  apply (@callsAtMost_bind _ _ 0 1); [apply callsAtMost_maybeAutocompact|].
  intros parsedCompaction.
  apply (@callsAtMost_bind _ _ 0 1).
  { destruct parsedCompaction; [now apply callsAtMost_emit|apply callsAtMost_ret]. }
  intros _.
  apply (@callsAtMost_bind _ _ 0 1); [apply callsAtMost_checkAborted|].
  intros [|].
  { intros st. destruct (@callsAtMost_ret Turn (Finished (abort [])) st)
      as (evs & H & He & Hc). exists evs. split; [exact H|]. split; [exact He|lia]. }
  apply (@callsAtMost_bind _ _ 0 1); [now apply callsAtMost_emit|]. intros _.
  apply (@callsAtMost_bind _ _ 0 1); [apply callsAtMost_now|]. intros t.
  apply (@callsAtMost_bind _ _ 1 0); [apply callsAtMost_backend|]. intros _.
  destruct (backendRun env t _) as [stream returned].
  apply (@callsAtMost_bind _ _ 0 0).
  { apply callsAtMost_feed; [intros; reflexivity | reflexivity]. }
  intros buffer.
  apply (@callsAtMost_bind _ _ 0 0).
  { destruct returned; [apply callsAtMost_ret|apply callsAtMost_throw]. }
  intros result.
  apply (@callsAtMost_bind _ _ 0 0); [apply callsAtMost_checkAborted|].
  intros [|]; [apply callsAtMost_ret|].
  destruct result as [output curl|requestError curl]; [|apply callsAtMost_ret].
  destruct (lastOf output) as [lastIr|]; [|apply callsAtMost_ret].
  destruct (isMalformed lastIr); [apply callsAtMost_ret|].
  destruct (irToolCall lastIr) as [toolCall|]; [|apply callsAtMost_ret].
  apply (@callsAtMost_bind _ _ 0 0); [apply callsAtMost_now|]. intros t'.
  destruct (validateTool env t' _ _) as [|e]; [apply callsAtMost_ret|].
  destruct e; try apply callsAtMost_throw.
  - apply callsAtMost_onToolError.
  - apply (@callsAtMost_bind _ _ 0 0);
      [apply callsAtMost_tryTransformFileOutdatedError|].
    intros errorIrs. apply callsAtMost_ret.
Qed.

Lemma trajectoryArc_calls (n : nat) :
  forall messages retryBudget st,
    Z.to_nat retryBudget <= n ->
    exists evs,
      events (snd (trajectoryArc env messages retryBudget st))
      = events st ++ evs
      /\ backendCalls evs <= n + 1
      /\ List.length (enteredBudgets evs) <= n + 1
      /\ hd_error evs = Some (ArcEntered retryBudget).
Proof.
  induction n as [|n IH]; intros messages retryBudget st Hn;
    rewrite trajectoryArc_unfolded;
    destruct (callsAtMost_arcTurn messages (entered retryBudget st))
      as (evs1 & Hevs1 & He1 & Hc1);
    destruct (arcTurn env messages (entered retryBudget st))
      as [[[finish|irs retryIrs messagesCopy exhausted curl]|e] st1];
    cbn [snd entered events] in Hevs1; rewrite <- app_assoc in Hevs1;
    try (exists ([ArcEntered retryBudget] ++ evs1); cbn [snd];
         split; [exact Hevs1|];
         rewrite enteredBudgets_app, backendCalls_app, He1;
         cbn; repeat split; lia).
  - destruct (Z.leb_spec retryBudget 0); [|lia].
    exists ([ArcEntered retryBudget] ++ evs1); cbn [snd].
    split; [exact Hevs1|].
    rewrite enteredBudgets_app, backendCalls_app, He1.
    cbn; repeat split; lia.
  - destruct (Z.leb_spec retryBudget 0).
    + exists ([ArcEntered retryBudget] ++ evs1); cbn [snd].
      split; [exact Hevs1|].
      rewrite enteredBudgets_app, backendCalls_app, He1.
      cbn; repeat split; lia.
    + destruct (IH (messagesCopy ++ retryIrs) (retryBudget - 1)%Z
                  (retrying retryIrs st1)) as (evs2 & Hevs2 & Hc2 & He2 & _);
        [lia|].
      destruct (trajectoryArc env (messagesCopy ++ retryIrs) (retryBudget - 1)
                  (retrying retryIrs st1)) as [[retried|e] st2];
        cbn [snd retrying events] in Hevs2 |- *;
        (exists (([ArcEntered retryBudget] ++ evs1)
                 ++ [RetryTool retryIrs] ++ evs2);
         split; [rewrite Hevs2, Hevs1; now rewrite <- !app_assoc|];
         rewrite !enteredBudgets_app, !backendCalls_app, He1, !length_app;
         cbn; repeat split; lia).
Qed.

End ArcCalls.

(** X9: whatever the backend, the tools and the signal do, an arc started
    with retry budget [B] calls the backend at most [max(B, 0) + 1] times
    and is entered at most that often, the first entry being the one with
    budget [B]; with a budget of zero or less it calls the backend at most
    once. *)
Theorem trajectoryArc_calls_backend_at_most_budget_plus_one
    (env : ArcEnv) (messages : list LlmIR) (retryBudget : Z) (st : ArcState) :
  exists evs,
    events (snd (trajectoryArc env messages retryBudget st)) = events st ++ evs
    /\ backendCalls evs <= Z.to_nat retryBudget + 1
    /\ List.length (enteredBudgets evs) <= Z.to_nat retryBudget + 1
    /\ hd_error evs = Some (ArcEntered retryBudget).
Proof. apply trajectoryArc_calls. apply Nat.le_refl. Qed.

(** ** The token buffer holds the head of the stream *)

Section TokenBuffer.

Lemma appendCapped_head (s addition : jstr) (cap : Z) :
  (0 < cap)%Z ->
  appendCapped (slice0 cap s) addition cap = slice0 cap (s ++ addition).
Proof.
  intros Hcap. unfold appendCapped, slice0, len.
  set (c := Z.to_nat cap). rewrite length_firstn, firstn_app.
  destruct (Z.eqb_spec (Z.of_nat (List.length addition)) 0) as [Hzero|Hsome].
  { destruct addition; [|simpl in Hzero; lia].
    simpl. now rewrite firstn_nil, app_nil_r. }
  cbn [orb]. destruct (Z.leb_spec cap 0); [lia|].
  destruct (Z.leb_spec cap (Z.of_nat (Nat.min c (List.length s)))) as [Hfull|Hroom].
  - replace (c - List.length s) with 0 by lia.
    simpl. now rewrite app_nil_r.
  - assert (List.length s < c) as Hs by lia.
    rewrite (@firstn_all2 _ c s) by lia.
    rewrite Nat.min_r by lia.
    replace (Z.to_nat (cap - Z.of_nat (List.length s))) with (c - List.length s)
      by lia.
    destruct (Z.leb_spec (Z.of_nat (List.length addition))
                (cap - Z.of_nat (List.length s))); [|reflexivity].
    rewrite (@firstn_all2 _ (c - List.length s) addition) by lia.
    reflexivity.
Qed.

Lemma bufferCap_positive (type : TokenType) : (0 < bufferCap type)%Z.
Proof. destruct type; reflexivity. Qed.

Lemma bufferGet_onTokens buffer text ty type :
  bufferGet (onTokens buffer text ty) type =
  if tokenTypeEqb ty type
  then Some (appendCapped
               (match bufferGet buffer type with Some c => c | None => [] end)
               text (bufferCap type))
  else bufferGet buffer type.
Proof. destruct ty, type; reflexivity. Qed.

Lemma feed_streamed progress extra stream :
  forall buffer (sofar : TokenType -> option jstr) st,
    (forall type,
       bufferGet buffer type = option_map (slice0 (bufferCap type)) (sofar type)) ->
    exists buffer' st',
      feed progress extra stream buffer st = (Ok buffer', st')
      /\ forall type,
           bufferGet buffer' type
           = option_map (slice0 (bufferCap type))
               (fold_left (streamedStep type) stream (sofar type)).
Proof.
  induction stream as [|[text ty|] stream IH]; intros buffer sofar st Hinv.
  - exists buffer, st. split; [reflexivity | exact Hinv].
  - cbn [feed]. rewrite bind_run, emit_run.
    apply (IH (onTokens buffer text ty)
              (fun type => streamedStep type (sofar type) (Tokens text ty))).
    intros type. rewrite bufferGet_onTokens. cbn [streamedStep].
    destruct (tokenTypeEqb ty type); [|apply Hinv].
    rewrite Hinv. cbn [option_map]. f_equal.
    destruct (sofar type) as [s|]; cbn [option_map].
    + apply appendCapped_head, bufferCap_positive.
    + pose proof (@appendCapped_head [] text (bufferCap type)
                    (bufferCap_positive type)) as H.
      unfold slice0 in H at 1. rewrite firstn_nil in H. exact H.
  - cbn [feed]. rewrite bind_run. unfold modify at 1.
    apply (IH buffer sofar). exact Hinv.
Qed.

End TokenBuffer.

(** X10: while a response streams in, the token buffer holds, for each
    token type, the first [bufferCap] characters of all the text streamed
    under that type so far (500,000 for content and tool text, 200,000 for
    reasoning), and nothing for a type that has not been streamed; feeding
    a stream never throws. *)
Theorem feed_buffer_is_capped_stream_head
    (progress : AssistantBuffer -> jstr -> TokenType -> Event)
    (onAutofixJson : list Event) (stream : list StreamEvent) (st : ArcState) :
  exists buffer st',
    feed progress onAutofixJson stream emptyBuffer st = (Ok buffer, st')
    /\ forall type,
         bufferGet buffer type
         = option_map (slice0 (bufferCap type)) (streamed stream type).
Proof.
  apply (@feed_streamed progress onAutofixJson stream emptyBuffer
           (fun _ => None) st).
  intros type. now destruct type.
Qed.

(** ** Focus navigation: back and forth, and where a step can land *)

Section FocusSteps.

Implicit Types (st : UiState) (arr : list jstr).

Lemma setFocus_same st : setFocus (focus st) st = st.
Proof. now destruct st. Qed.

Lemma setFocus_setFocus f g st : setFocus f (setFocus g st) = setFocus f st.
Proof. reflexivity. Qed.

Lemma focusNextTask_setFocus st :
  focusNextTask st = setFocus (focus (focusNextTask st)) st.
Proof.
  unfold focusNextTask.
  destruct (List.length (activeTaskOrder st) =? 0);
    [now rewrite setFocus_same|].
  destruct (focus st); [reflexivity|].
  destruct (indexOf taskId (activeTaskOrder st) <? 0)%Z; [reflexivity|].
  now destruct (indexOf taskId (activeTaskOrder st)
                =? len' (activeTaskOrder st) - 1)%Z.
Qed.

Lemma focusPrevTask_setFocus st :
  focusPrevTask st = setFocus (focus (focusPrevTask st)) st.
Proof.
  unfold focusPrevTask.
  destruct (List.length (activeTaskOrder st) =? 0);
    [now rewrite setFocus_same|].
  destruct (focus st); [reflexivity|].
  destruct (indexOf taskId (activeTaskOrder st) <? 0)%Z; [reflexivity|].
  now destruct (indexOf taskId (activeTaskOrder st) =? 0)%Z.
Qed.

Lemma focusPrevTask_from_task st k :
  NoDup (activeTaskOrder st) ->
  k < List.length (activeTaskOrder st) ->
  focus st = FocusTask (nth_error (activeTaskOrder st) k) ->
  focus (focusPrevTask st) =
  match k with
  | O => FocusMain
  | S j => FocusTask (nth_error (activeTaskOrder st) j)
  end.
Proof.
  intros Hnd Hk Hf. unfold focusPrevTask.
  assert (activeTaskOrder st <> []) as Hne
    by (destruct (activeTaskOrder st); simpl in *; [lia | congruence]).
  rewrite (length_eqb_0 Hne), Hf.
  destruct (nth_error (activeTaskOrder st) k) as [x|] eqn:Ex.
  2:{ apply nth_error_None in Ex. lia. }
  unfold indexOf. rewrite (indexOfFrom_nth 0 k Hnd Ex).
  destruct (Z.ltb_spec (0 + Z.of_nat k) 0); [lia|].
  destruct k as [|j]; [reflexivity|].
  destruct (Z.eqb_spec (0 + Z.of_nat (S j)) 0); [lia|].
  cbn [focus setFocus]. f_equal.
  replace (0 + Z.of_nat (S j) - 1)%Z with (Z.of_nat j) by lia.
  apply at_nth.
Qed.

Lemma focusPrevTask_from_main st :
  activeTaskOrder st <> [] -> focus st = FocusMain ->
  focus (focusPrevTask st)
  = FocusTask (nth_error (activeTaskOrder st)
                 (List.length (activeTaskOrder st) - 1)).
Proof.
  intros Hne Hf. unfold focusPrevTask.
  rewrite (length_eqb_0 Hne), Hf. cbn [focus setFocus].
  now rewrite (at_last Hne), (lastOf_nth Hne).
Qed.

Lemma focusNextTask_from_main st :
  activeTaskOrder st <> [] -> focus st = FocusMain ->
  focus (focusNextTask st) = FocusTask (nth_error (activeTaskOrder st) 0).
Proof.
  intros Hne Hf. unfold focusNextTask.
  now rewrite (length_eqb_0 Hne), Hf.
Qed.

Lemma focusPrevTask_order st :
  activeTaskOrder (focusPrevTask st) = activeTaskOrder st.
Proof. now rewrite focusPrevTask_setFocus. Qed.

Lemma indexOfFrom_range arr :
  forall i x, (0 <= i)%Z ->
    indexOfFrom i x arr = (-1)%Z
    \/ (i <= indexOfFrom i x arr < i + len' arr)%Z.
Proof.
  induction arr as [|y arr IH]; intros i x Hi; [now left|].
  unfold len'. cbn [indexOfFrom List.length].
  assert (indexOfFrom (i + 1) x arr = (-1)%Z
          \/ (i <= indexOfFrom (i + 1) x arr
              < i + Z.of_nat (S (List.length arr)))%Z) as Hrest.
  { destruct (IH (i + 1)%Z x) as [H|H]; [lia|now left|right].
    unfold len' in H. lia. }
  destruct x as [x|]; [|exact Hrest].
  destruct (Js.eqb y x); [right; lia | exact Hrest].
Qed.

Lemma at_in arr (i : Z) :
  (0 <= i < len' arr)%Z -> exists id, at_ arr i = Some id /\ In id arr.
Proof.
  intros Hi. unfold at_. destruct (Z.ltb_spec i 0); [lia|].
  destruct (nth_error arr (Z.to_nat i)) as [id|] eqn:E.
  - exists id. split; [reflexivity|]. now apply nth_error_In in E.
  - apply nth_error_None in E. unfold len' in Hi. lia.
Qed.

End FocusSteps.

(** X11: over an active ordering without repeated ids, and from a focus
    that is [main] or a listed task, a step back undoes a step forward and
    a step forward undoes a step back: the state is as before. *)
Theorem focusPrevTask_undoes_focusNextTask (st : UiState) :
  NoDup (activeTaskOrder st) ->
  (forall taskId, focus st = FocusTask taskId ->
     exists id, taskId = Some id /\ In id (activeTaskOrder st)) ->
  focusPrevTask (focusNextTask st) = st
  /\ focusNextTask (focusPrevTask st) = st.
Proof.
  intros Hnd Hfocus.
  destruct (activeTaskOrder st) as [|x0 order0] eqn:Eorder.
  { unfold focusPrevTask, focusNextTask. rewrite Eorder. cbn.
    rewrite Eorder. cbn. now split. }
  assert (activeTaskOrder st <> []) as Hne by (rewrite Eorder; discriminate).
  rewrite <- Eorder in *. clear Eorder x0 order0.
  set (n := List.length (activeTaskOrder st)).
  assert (0 < n) as Hn
    by (unfold n; destruct (activeTaskOrder st); simpl; [congruence|lia]).
  assert (focus st = FocusMain
          \/ exists k, k < n /\ focus st = FocusTask (nth_error (activeTaskOrder st) k))
    as Hpos.
  { destruct (focus st) as [|taskId] eqn:Ef; [now left|right].
    destruct (Hfocus taskId eq_refl) as (id & -> & Hin).
    apply In_nth_error in Hin as [k Hk].
    exists k. split; [|now rewrite Hk].
    apply nth_error_Some. unfold jstr in *. congruence. }
  split.
  - rewrite focusPrevTask_setFocus, focusNextTask_setFocus, setFocus_setFocus.
    rewrite <- focusNextTask_setFocus.
    rewrite <- (setFocus_same st) at 3. f_equal.
    destruct Hpos as [Hmain|(k & Hk & Hf)].
    + rewrite (@focusPrevTask_from_task (focusNextTask st) 0);
        rewrite ?focusNextTask_order; try assumption; try lia.
      * now symmetry.
      * now apply focusNextTask_from_main.
    + pose proof (@focusNextTask_from_task st k Hnd Hk Hf) as Hnext.
      fold n in Hnext.
      destruct (Nat.eqb_spec (S k) n) as [Hlast|Hmore].
      * rewrite focusPrevTask_from_main;
          rewrite ?focusNextTask_order; try assumption.
        fold n. rewrite Hf. f_equal. f_equal. lia.
      * rewrite (@focusPrevTask_from_task (focusNextTask st) (S k));
          rewrite ?focusNextTask_order; try assumption; try (fold n; lia).
        now symmetry.
  - rewrite focusNextTask_setFocus, focusPrevTask_setFocus, setFocus_setFocus.
    rewrite <- focusPrevTask_setFocus.
    rewrite <- (setFocus_same st) at 3. f_equal.
    destruct Hpos as [Hmain|(k & Hk & Hf)].
    + pose proof (@focusPrevTask_from_main st Hne Hmain) as Hprev. fold n in Hprev.
      rewrite (@focusNextTask_from_task (focusPrevTask st) (n - 1));
        rewrite ?focusPrevTask_order; try assumption; try (fold n; lia).
      fold n. replace (S (n - 1)) with n by lia. rewrite Nat.eqb_refl.
      now symmetry.
    + pose proof (@focusPrevTask_from_task st k Hnd Hk Hf) as Hprev.
      destruct k as [|j].
      * rewrite focusNextTask_from_main;
          rewrite ?focusPrevTask_order; try assumption.
        now symmetry.
      * rewrite (@focusNextTask_from_task (focusPrevTask st) j);
          rewrite ?focusPrevTask_order; try assumption; try (fold n; lia).
        fold n. destruct (Nat.eqb_spec (S j) n); [lia|]. now symmetry.
Qed.

Lemma focusPrevTask_undoes_focusNextTask_witness :
  focusPrevTask (focusNextTask twoTaskState) = twoTaskState
  /\ focusNextTask (focusPrevTask twoTaskState) = twoTaskState.
Proof.
  apply (@focusPrevTask_undoes_focusNextTask twoTaskState).
  - vm_compute. constructor; [simpl; intros [H|[]]; discriminate H|].
    constructor; [intros []|constructor].
  - intros taskId H. discriminate H.
Defined.

(** X12: while there is a task to show, a step forward or back always
    lands on [main] or on a task of the active ordering, whatever the
    focus was before: a focus on a task that is no longer listed is
    repaired by the next step.  With no task to show a step changes
    nothing. *)
Theorem focus_step_lands_on_listed_task (st : UiState) :
  (activeTaskOrder st <> [] ->
   forall st', st' = focusNextTask st \/ st' = focusPrevTask st ->
     focus st' = FocusMain
     \/ exists id, focus st' = FocusTask (Some id)
                   /\ In id (activeTaskOrder st'))
  /\ (activeTaskOrder st = [] ->
      focusNextTask st = st /\ focusPrevTask st = st).
Proof.
  split.
  - intros Hne st' Hstep.
    assert (activeTaskOrder st' = activeTaskOrder st) as ->
      by (destruct Hstep as [-> | ->];
          [apply focusNextTask_order | apply focusPrevTask_order]).
    set (order := activeTaskOrder st) in *.
    assert (0 < len' order)%Z as Hlen
      by (unfold len'; destruct order; simpl; [congruence|lia]).
    assert (forall i, (0 <= i < len' order)%Z ->
              FocusTask (at_ order i) = FocusMain
              \/ exists id, FocusTask (at_ order i) = FocusTask (Some id)
                            /\ In id order) as Hat.
    { intros i Hi. right. destruct (at_in order Hi) as (id & -> & Hin).
      now exists id. }
    destruct Hstep as [-> | ->]; [unfold focusNextTask | unfold focusPrevTask];
      fold order; rewrite (length_eqb_0 Hne);
      (destruct (focus st) as [|taskId]; cbn [focus setFocus];
       [apply Hat; lia|]);
      unfold indexOf;
      destruct (@indexOfFrom_range order 0%Z taskId (Z.le_refl 0)) as [Hidx|Hidx].
    + rewrite Hidx. cbn [Z.ltb Z.compare focus setFocus]. apply Hat. lia.
    + destruct (Z.ltb_spec (indexOfFrom 0 taskId order) 0); [lia|].
      destruct (Z.eqb_spec (indexOfFrom 0 taskId order) (len' order - 1));
        cbn [focus setFocus]; [now left|]. apply Hat. lia.
    + rewrite Hidx. cbn [Z.ltb Z.compare focus setFocus]. apply Hat. lia.
    + destruct (Z.ltb_spec (indexOfFrom 0 taskId order) 0); [lia|].
      destruct (Z.eqb_spec (indexOfFrom 0 taskId order) 0);
        cbn [focus setFocus]; [now left|]. apply Hat. lia.
  - intros Hempty. unfold focusNextTask, focusPrevTask. rewrite Hempty.
    now split.
Qed.

Lemma focus_step_lands_on_listed_task_witness :
  focus (focusNextTask
           {| taskObservationOrder := [lit "task_1"; lit "task_2"];
              liveTaskObservationOrder := [];
              focus := FocusTask (Some (lit "gone")) |})
  = FocusTask (Some (lit "task_2")).
Proof.
  destruct (@focus_step_lands_on_listed_task
              {| taskObservationOrder := [lit "task_1"; lit "task_2"];
                 liveTaskObservationOrder := [];
                 focus := FocusTask (Some (lit "gone")) |}) as [Hstep _].
  destruct (Hstep ltac:(discriminate) _ (or_introl eq_refl)) as [H|_];
    [discriminate H | reflexivity].
Defined.

(** ** The live-progress registry *)

Section Registry.

Variable dateNow : nat -> Z.

Lemma clampTail_bound (input : jstr) (maxChars : Z) :
  (0 <= maxChars)%Z -> (len (clampTail input maxChars) <= maxChars + 16)%Z.
Proof.
  intros H. unfold clampTail.
  destruct (Z.leb_spec (len input) maxChars); [lia|].
  rewrite len_app. change (len truncatedHead) with 16%Z.
  unfold len in *. rewrite length_skipn. lia.
Qed.

Lemma clampTail_keeps_tail (head tail : jstr) (maxChars : Z) :
  (len tail <= maxChars)%Z ->
  exists head', clampTail (head ++ tail) maxChars = head' ++ tail.
Proof.
  intros H. unfold clampTail.
  destruct (Z.leb_spec (len (head ++ tail)) maxChars); [now exists head|].
  exists (truncatedHead
          ++ skipn (Z.to_nat (len (head ++ tail) - maxChars)) head).
  rewrite <- app_assoc. f_equal. rewrite skipn_app.
  replace (Z.to_nat (len (head ++ tail) - maxChars) - List.length head)
    with 0; [reflexivity|].
  rewrite len_app in *. unfold len in *. lia.
Qed.

Lemma find_app {A} (p : A -> bool) (l l' : list A) :
  find p (l ++ l') = match find p l with
                     | Some x => Some x
                     | None => find p l'
                     end.
Proof.
  induction l as [|x l IH]; [reflexivity|]. simpl. now destruct (p x).
Qed.

Lemma get_fromEntries_acc {V} (k : jstr) (entries : list (jstr * V)) :
  forall object,
    JsMap.get k (fold_left (fun object entry =>
                              JsMap.set (fst entry) (snd entry) object)
                           entries object)
    = match lastEntry k entries with
      | Some v => Some v
      | None => JsMap.get k object
      end.
Proof.
  unfold lastEntry. induction entries as [|[k0 v0] entries IH]; intros object;
    [reflexivity|].
  cbn [fold_left fst snd]. rewrite IH. cbn [rev].
  rewrite find_app.
  destruct (find (fun entry => Js.eqb (fst entry) k) (rev entries)) as [[k1 v1]|];
    [reflexivity|].
  cbn [find fst option_map].
  destruct (Js.eqb k0 k) eqn:E.
  - apply eqb_eq in E. subst k0. cbn [snd option_map]. apply get_set_same.
  - apply eqb_neq in E. cbn [option_map]. apply get_set_other. congruence.
Qed.

Lemma get_fromEntries {V} (k : jstr) (entries : list (jstr * V)) :
  JsMap.get k (fromEntries entries) = lastEntry k entries.
Proof.
  unfold fromEntries. rewrite get_fromEntries_acc.
  now destruct (lastEntry k entries).
Qed.

Lemma lastEntry_In {V} (k : jstr) (entries : list (jstr * V)) (v : V) :
  lastEntry k entries = Some v -> In (k, v) entries.
Proof.
  unfold lastEntry. intros H.
  destruct (find (fun entry => Js.eqb (fst entry) k) (rev entries))
    as [[k1 v1]|] eqn:E; [|discriminate].
  apply find_some in E as [Hin Hk]. apply eqb_eq in Hk. cbn in Hk, H.
  injection H as <-. subst k1. now apply in_rev.
Qed.

Lemma lastEntry_None {V} (k : jstr) (entries : list (jstr * V)) :
  lastEntry k entries = None <-> ~ In k (map fst entries).
Proof.
  unfold lastEntry. split.
  - intros H Hin. apply in_map_iff in Hin as [[k1 v1] [Hk Hin]].
    cbn in Hk. subst k1.
    destruct (find (fun entry => Js.eqb (fst entry) k) (rev entries)) eqn:E;
      [discriminate|].
    pose proof (find_none _ _ E (k, v1)) as Hnone.
    rewrite <- in_rev in Hnone. specialize (Hnone Hin).
    cbn in Hnone. now rewrite eqb_refl in Hnone.
  - intros H.
    destruct (find (fun entry => Js.eqb (fst entry) k) (rev entries))
      as [[k1 v1]|] eqn:E; [|reflexivity].
    apply find_some in E as [Hin Hk]. apply eqb_eq in Hk. cbn in Hk. subst k1.
    exfalso. apply H. apply in_map_iff. exists (k, v1).
    split; [reflexivity | now apply in_rev].
Qed.

(** [ensureRun] on a run the registry holds. *)
Lemma ensureRun_existing s toolCallId run :
  JsMap.get toolCallId (runs s) = Some run ->
  ensureRun dateNow toolCallId s = (Ok run, s).
Proof.
  intros H. unfold ensureRun. rewrite bind_run. unfold getState at 1.
  now rewrite H.
Qed.

Lemma ensureRun_created s toolCallId :
  JsMap.get toolCallId (runs s) = None ->
  ensureRun dateNow toolCallId s
  = (Ok {| run_order := []; run_observations := [];
           run_updatedAt := dateNow (progressTick s) |},
     {| runs := JsMap.set toolCallId
                  {| run_order := []; run_observations := [];
                     run_updatedAt := dateNow (progressTick s) |} (runs s);
        progressTick := S (progressTick s);
        prototypeResult := prototypeResult s |}).
Proof.
  intros H. unfold ensureRun. rewrite bind_run. unfold getState at 1.
  now rewrite H.
Qed.

(** Reading a key the object holds as its own. *)
Lemma observationProperty_own s run taskId observation :
  JsMap.get taskId (run_observations run) = Some observation ->
  observationProperty run taskId s = (Ok (Own observation), s).
Proof.
  intros H. unfold observationProperty, readProperty.
  rewrite bind_run. unfold getState at 1. now rewrite H.
Qed.

Lemma appendLiveTaskTrace_present s toolCallId taskId line run observation :
  JsMap.get toolCallId (runs s) = Some run ->
  JsMap.get taskId (run_observations run) = Some observation ->
  appendLiveTaskTrace dateNow toolCallId taskId line s
  = (Ok tt,
     {| runs :=
          JsMap.set toolCallId
            {| run_order := run_order run;
               run_observations :=
                 JsMap.set taskId
                   (withTrace observation
                      (clampTail
                         (if (len (trim (o_trace observation)) =? 0)%Z
                          then line
                          else o_trace observation ++ nl ++ nl ++ line)
                         MAX_TRACE_CHARS))
                   (run_observations run);
               run_updatedAt := dateNow (progressTick s) |} (runs s);
        progressTick := S (progressTick s);
        prototypeResult := prototypeResult s |}).
Proof.
  intros Hrun Hobs. unfold appendLiveTaskTrace.
  rewrite bind_run, (@ensureRun_existing s toolCallId run Hrun).
  rewrite bind_run, (@observationProperty_own s run taskId observation Hobs).
  reflexivity.
Qed.

Lemma setLiveTaskResult_present s toolCallId taskId result run observation :
  JsMap.get toolCallId (runs s) = Some run ->
  JsMap.get taskId (run_observations run) = Some observation ->
  setLiveTaskResult dateNow toolCallId taskId result s
  = (Ok tt,
     {| runs :=
          JsMap.set toolCallId
            {| run_order := run_order run;
               run_observations :=
                 JsMap.set taskId
                   (withResult observation (clampTail result MAX_RESULT_CHARS))
                   (run_observations run);
               run_updatedAt := dateNow (progressTick s) |} (runs s);
        progressTick := S (progressTick s);
        prototypeResult := prototypeResult s |}).
Proof.
  intros Hrun Hobs. unfold setLiveTaskResult.
  rewrite bind_run, (@ensureRun_existing s toolCallId run Hrun).
  rewrite bind_run, (@observationProperty_own s run taskId observation Hobs).
  reflexivity.
Qed.

(** The last of the entries given under a key is the one an object built
    from them holds. *)
Lemma lastEntry_last {V} (k : jstr) (v : V) (before after : list (jstr * V)) :
  ~ In k (map fst after) ->
  lastEntry k (before ++ (k, v) :: after) = Some v.
Proof.
  intros Hafter. unfold lastEntry.
  rewrite rev_app_distr. cbn [rev]. rewrite <- app_assoc, find_app.
  assert (find (fun entry => Js.eqb (fst entry) k) (rev after) = None) as ->.
  { destruct (find _ (rev after)) as [[k1 v1]|] eqn:E; [|reflexivity].
    apply find_some in E as [Hin Hk]. apply eqb_eq in Hk. cbn in Hk. subst k1.
    exfalso. apply Hafter. apply in_map_iff. exists (k, v1).
    split; [reflexivity | now apply in_rev]. }
  cbn [app find fst]. now rewrite eqb_refl.
Qed.

End Registry.

(** X13: appending a line to the live trace of a task the run holds
    leaves a trace of at most 32,016 characters that ends with the line
    appended (for a line of at most 32,000 characters); the task's other
    fields, the run's order, and every other task and run are as
    before. *)
Theorem appendLiveTaskTrace_keeps_newest_line
    (dateNow : nat -> Z) (s : Progress) (toolCallId taskId line : jstr)
    (observation : TaskObservation) :
  liveObservation s toolCallId taskId = Some observation ->
  let s' := snd (appendLiveTaskTrace dateNow toolCallId taskId line s) in
  exists trace,
    liveObservation s' toolCallId taskId = Some (withTrace observation trace)
    /\ (len trace <= MAX_TRACE_CHARS + 16)%Z
    /\ ((len line <= MAX_TRACE_CHARS)%Z -> exists head, trace = head ++ line)
    /\ (forall id task, id <> toolCallId \/ task <> taskId ->
          liveObservation s' id task = liveObservation s id task)
    /\ (forall id, option_map run_order (JsMap.get id (runs s'))
                   = option_map run_order (JsMap.get id (runs s))).
Proof.
  intros Hobs s'. unfold liveObservation in Hobs.
  destruct (JsMap.get toolCallId (runs s)) as [run|] eqn:Hrun; [|discriminate].
  subst s'. rewrite (@appendLiveTaskTrace_present dateNow s toolCallId taskId line run
                     observation Hrun Hobs).
  cbn [snd].
  eexists. split.
  { unfold liveObservation. cbn [runs]. rewrite get_set_same.
    cbn [run_observations]. apply get_set_same. }
  split; [apply clampTail_bound; unfold MAX_TRACE_CHARS; lia|].
  split.
  { intros Hline.
    destruct (len (trim (o_trace observation)) =? 0)%Z.
    - apply (@clampTail_keeps_tail [] line _ Hline).
    - rewrite 2!app_assoc. now apply clampTail_keeps_tail. }
  split.
  { intros id task Hother. unfold liveObservation. cbn [runs].
    destruct (list_eq_dec ascii_dec id toolCallId) as [->|Hid].
    - rewrite get_set_same, Hrun. cbn [run_observations].
      destruct Hother as [H|H]; [congruence|]. now apply get_set_other.
    - now rewrite get_set_other. }
  intros id. cbn [runs].
  destruct (list_eq_dec ascii_dec id toolCallId) as [->|Hid].
  - now rewrite get_set_same, Hrun.
  - now rewrite get_set_other.
Qed.

Lemma appendLiveTaskTrace_keeps_newest_line_witness :
  exists trace,
    liveObservation
      (snd (appendLiveTaskTrace (fun t => Z.of_nat t) (lit "call1") (lit "t1")
              (lit "[assistant]") demoProgress))
      (lit "call1") (lit "t1")
    = Some (withTrace (initialObservation demoLiveTask) trace)
    /\ exists head, trace = head ++ lit "[assistant]".
Proof.
  destruct (@appendLiveTaskTrace_keeps_newest_line (fun t => Z.of_nat t)
              demoProgress (lit "call1") (lit "t1") (lit "[assistant]")
              (initialObservation demoLiveTask) eq_refl)
    as (trace & Hobs & _ & Htail & _).
  exists trace. split; [exact Hobs|]. apply Htail. vm_compute. discriminate.
Defined.

(** X14: starting a run replaces whatever the registry held under that
    tool-call id: the snapshot lists the task ids in the order given and
    holds, for each id, the initial observation of the last task given
    with that id.  Under an id that is not listed the run's object has no
    property of its own, so reading it gives what an empty object gives:
    nothing, or a member inherited from [Object.prototype].  Other runs
    are as before. *)
Theorem startLiveTaskRun_snapshot
    (dateNow : nat -> Z) (s : Progress) (toolCallId : jstr)
    (tasks : list LiveTask) :
  let s' := snd (startLiveTaskRun dateNow toolCallId tasks s) in
  exists run,
    getLiveTaskRun toolCallId s' = (Ok (Some run), s')
    /\ run_order run = map lt_taskId tasks
    /\ (forall before task after,
          tasks = before ++ task :: after ->
          ~ In (lt_taskId task) (map lt_taskId after) ->
          liveObservation s' toolCallId (lt_taskId task)
          = Some (initialObservation task))
    /\ (forall taskId, In taskId (run_order run) ->
          exists task, In task tasks /\ lt_taskId task = taskId
                       /\ liveObservation s' toolCallId taskId
                          = Some (initialObservation task))
    /\ (forall taskId, ~ In taskId (run_order run) ->
          liveObservation s' toolCallId taskId = None
          /\ readProperty (prototypeResult s') taskId (run_observations run)
             = readProperty (prototypeResult s) taskId [])
    /\ (forall id, id <> toolCallId ->
          JsMap.get id (runs s') = JsMap.get id (runs s)).
Proof.
  intros s'.
  set (entries := map (fun task => (lt_taskId task, initialObservation task))
                      tasks).
  assert (exists t s1,
            s' = {| runs :=
                      JsMap.set toolCallId
                        {| run_order := map lt_taskId tasks;
                           run_observations := fromEntries entries;
                           run_updatedAt := t |} (runs s1);
                    progressTick := S (progressTick s1);
                    prototypeResult := prototypeResult s |}
            /\ forall id, id <> toolCallId ->
                 JsMap.get id (runs s1) = JsMap.get id (runs s))
    as (t & s1 & Hs' & Hothers).
  { subst s'. unfold startLiveTaskRun. rewrite bind_run.
    destruct (JsMap.get toolCallId (runs s)) as [run|] eqn:Hrun.
    - rewrite (@ensureRun_existing dateNow s toolCallId run Hrun).
      exists (dateNow (progressTick s)), s. split; [reflexivity|]. reflexivity.
    - rewrite (@ensureRun_created dateNow s toolCallId Hrun).
      exists (dateNow (S (progressTick s))),
             {| runs := JsMap.set toolCallId
                          {| run_order := []; run_observations := [];
                             run_updatedAt := dateNow (progressTick s) |}
                          (runs s);
                progressTick := S (progressTick s);
                prototypeResult := prototypeResult s |}.
      split; [reflexivity|].
      intros id Hid. cbn [runs]. now apply get_set_other. }
  assert (map fst entries = map lt_taskId tasks) as Hkeys
    by (unfold entries; rewrite map_map; reflexivity).
  eexists. split.
  { unfold getLiveTaskRun. rewrite bind_run. unfold getState at 1.
    rewrite Hs' at 1. cbn [runs]. rewrite get_set_same. reflexivity. }
  cbn [run_order run_observations]. split; [reflexivity|]. split.
  { intros before task after Htasks Hlast. unfold liveObservation.
    rewrite Hs'. cbn [runs]. rewrite get_set_same. cbn [run_observations].
    rewrite get_fromEntries. unfold entries. rewrite Htasks, map_app.
    cbn [map]. apply lastEntry_last. now rewrite map_map. }
  split.
  { intros taskId Hin. unfold liveObservation. rewrite Hs'. cbn [runs].
    rewrite get_set_same. cbn [run_observations]. rewrite get_fromEntries.
    destruct (lastEntry taskId entries) as [observation|] eqn:E.
    - apply lastEntry_In in E. unfold entries in E.
      apply in_map_iff in E as (task & Htask & Hin').
      injection Htask as Hid Hobs. exists task. now rewrite Hobs.
    - apply lastEntry_None in E. rewrite Hkeys in E. contradiction. }
  split.
  { intros taskId Hnin.
    assert (JsMap.get taskId (fromEntries entries) = None) as Hnone
      by (rewrite get_fromEntries; apply lastEntry_None; now rewrite Hkeys).
    split.
    - unfold liveObservation. rewrite Hs'. cbn [runs].
      rewrite get_set_same. cbn [run_observations]. exact Hnone.
    - unfold readProperty. rewrite Hnone, Hs'. reflexivity. }
  intros id Hid. rewrite Hs'. cbn [runs]. rewrite get_set_other by exact Hid.
  now apply Hothers.
Qed.

(** X15: clearing a run removes it and nothing else, so its snapshot is
    [null] afterwards; a trace line that arrives after that brings the run
    back, empty: with no task and no observation. *)
Theorem clearLiveTaskRun_forgets_until_late_append
    (dateNow : nat -> Z) (s : Progress) (toolCallId taskId line : jstr) :
  let cleared := snd (clearLiveTaskRun toolCallId s) in
  let late := snd (appendLiveTaskTrace dateNow toolCallId taskId line cleared) in
  getLiveTaskRun toolCallId cleared = (Ok None, cleared)
  /\ (forall id, id <> toolCallId ->
        JsMap.get id (runs cleared) = JsMap.get id (runs s))
  /\ getLiveTaskRun toolCallId late
     = (Ok (Some {| run_order := []; run_observations := [];
                    run_updatedAt := dateNow (progressTick s) |}), late).
Proof.
  intros cleared late.
  assert (JsMap.get toolCallId (runs cleared) = None) as Hgone
    by (subst cleared; cbn; apply get_delete_same).
  split.
  { unfold getLiveTaskRun. rewrite bind_run. unfold getState at 1.
    now rewrite Hgone. }
  split.
  { intros id Hid. subst cleared. cbn. now apply get_delete_other. }
  subst late.
  set (created :=
         {| runs := JsMap.set toolCallId
                      {| run_order := []; run_observations := [];
                         run_updatedAt := dateNow (progressTick cleared) |}
                      (runs cleared);
            progressTick := S (progressTick cleared);
            prototypeResult := prototypeResult cleared |}).
  assert (snd (appendLiveTaskTrace dateNow toolCallId taskId line cleared)
          = created) as ->.
  { unfold appendLiveTaskTrace. rewrite bind_run.
    rewrite (@ensureRun_created dateNow cleared toolCallId Hgone).
    fold created. rewrite bind_run. unfold observationProperty.
    rewrite bind_run. unfold getState at 1. unfold ret at 1.
    unfold readProperty. cbn [run_observations JsMap.get].
    unfold ret, throw.
    destruct (mem taskId objectPrototypeMembers); [reflexivity|].
    destruct (Js.eqb taskId (lit "result")); [|reflexivity].
    destruct (prototypeResult created) as [[|c text]|]; reflexivity. }
  unfold getLiveTaskRun. rewrite bind_run. unfold getState at 1.
  subst created. cbn [runs]. rewrite get_set_same. reflexivity.
Qed.

Section FailedStatus.

Lemma toLowerCase_app (a b : jstr) :
  toLowerCase (a ++ b) = toLowerCase a ++ toLowerCase b.
Proof. apply map_app. Qed.

Lemma getTaskStatus_task_error (observation : TaskObservation) (head tail : jstr) :
  o_trace observation = head ++ lit "[task-error]" ++ tail ->
  getTaskStatus observation = Failed.
Proof.
  intros H. unfold getTaskStatus. rewrite H, !toLowerCase_app.
  change (toLowerCase (lit "[task-error]")) with (lit "[task-error]").
  now rewrite includes_middle.
Qed.

End FailedStatus.

(** X16: a task of a run that is marked failed is shown as failed by the
    dashboard: its live trace ends with the [[task-error]] block, its
    result is the failure text cut at 8,000 characters, and its status is
    [failed].  This holds for messages that fit the trace (13 characters
    of tag and the message within 32,000). *)
Theorem markLiveTaskFailed_shows_failed
    (dateNow : nat -> Z) (s : Progress) (toolCallId taskId message : jstr)
    (observation : TaskObservation) :
  liveObservation s toolCallId taskId = Some observation ->
  (len message + 13 <= MAX_TRACE_CHARS)%Z ->
  let s' := snd (markLiveTaskFailed dateNow toolCallId taskId message s) in
  exists failed head,
    liveObservation s' toolCallId taskId = Some failed
    /\ o_trace failed = head ++ lit "[task-error]" ++ nl ++ message
    /\ o_result failed
       = clampTail (lit "Subagent task failed: " ++ message) MAX_RESULT_CHARS
    /\ getTaskStatus failed = Failed
    /\ item_status (dashboardItem failed) = Failed.
Proof.
  intros Hobs Hfit s'. unfold liveObservation in Hobs.
  destruct (JsMap.get toolCallId (runs s)) as [run|] eqn:Hrun; [|discriminate].
  subst s'. unfold markLiveTaskFailed. rewrite bind_run.
  rewrite (@appendLiveTaskTrace_present dateNow s toolCallId taskId
             (lit "[task-error]" ++ nl ++ message) run observation Hrun Hobs).
  cbv beta iota.
  set (trace := clampTail _ MAX_TRACE_CHARS).
  set (run1 := {| run_order := run_order run; run_observations := _;
                  run_updatedAt := _ |}).
  set (s1 := {| runs := _; progressTick := _; prototypeResult := _ |}).
  assert (JsMap.get toolCallId (runs s1) = Some run1) as Hrun1
    by (subst s1; cbn [runs]; apply get_set_same).
  assert (JsMap.get taskId (run_observations run1)
          = Some (withTrace observation trace)) as Hobs1
    by (subst run1; cbn [run_observations]; apply get_set_same).
  rewrite (@setLiveTaskResult_present dateNow s1 toolCallId taskId
             (lit "Subagent task failed: " ++ message) run1
             (withTrace observation trace) Hrun1 Hobs1).
  cbn [snd].
  assert (exists head, trace = head ++ lit "[task-error]" ++ nl ++ message)
    as [head Htrace].
  { subst trace.
    assert (len (lit "[task-error]" ++ nl ++ message) <= MAX_TRACE_CHARS)%Z
      as Hline by (rewrite !len_app; change (len (lit "[task-error]")) with 12%Z;
                   change (len nl) with 1%Z; lia).
    destruct (len (trim (o_trace observation)) =? 0)%Z.
    - apply (@clampTail_keeps_tail [] _ _ Hline).
    - match goal with
      | |- exists head, clampTail ?x _ = _ =>
          replace x with ((o_trace observation ++ nl ++ nl)
                          ++ (lit "[task-error]" ++ nl ++ message))
            by (rewrite <- !app_assoc; reflexivity)
      end.
      now apply clampTail_keeps_tail. }
  eexists _, head. split.
  { unfold liveObservation. cbn [runs]. rewrite get_set_same.
    cbn [run_observations]. apply get_set_same. }
  cbn [withResult withTrace o_trace o_result].
  split; [exact Htrace|]. split; [reflexivity|].
  assert (forall o, o_trace o = trace -> getTaskStatus o = Failed) as Hstatus
    by (intros o Ho; apply (@getTaskStatus_task_error o head (nl ++ message));
        now rewrite Ho).
  split; [apply Hstatus | cbn [dashboardItem item_status]; apply Hstatus];
    reflexivity.
Qed.

Lemma markLiveTaskFailed_shows_failed_witness :
  option_map getTaskStatus
    (liveObservation
       (snd (markLiveTaskFailed (fun t => Z.of_nat t) (lit "call1") (lit "t1")
               (lit "Tool timeout") demoProgress))
       (lit "call1") (lit "t1"))
  = Some Failed.
Proof.
  destruct (@markLiveTaskFailed_shows_failed (fun t => Z.of_nat t) demoProgress
              (lit "call1") (lit "t1") (lit "Tool timeout")
              (initialObservation demoLiveTask) eq_refl)
    as (failed & head & Hobs & _ & _ & Hstatus & _).
  - vm_compute. discriminate.
  - rewrite Hobs. cbn [option_map]. now rewrite Hstatus.
Defined.

(** ** The dashboard and the provisional observations *)

Section Dashboard.

Lemma includes_prefix (needle rest : jstr) : includes needle (needle ++ rest) = true.
Proof. exact (includes_middle needle [] rest). Qed.

Lemma getTaskStatus_running (observation : TaskObservation) (rest : jstr) :
  o_trace observation = lit "status: running" ++ rest ->
  getTaskStatus observation <> Completed.
Proof.
  intros H. unfold getTaskStatus. rewrite H, toLowerCase_app.
  change (toLowerCase (lit "status: running")) with (lit "status: running").
  rewrite includes_prefix.
  now destruct (_ || _).
Qed.

Lemma provisional_ids toolCallId (tasks : list TaskInvocation) :
  forall index,
    map o_taskId
      (mapi (fun task index =>
               {| o_taskId := match i_task_id task with
                              | Some id => id
                              | None => makeLiveTaskID toolCallId index
                              end;
                  o_subagentName := i_subagent_type task;
                  o_description := i_description task;
                  o_trace :=
                    lit "status: running" ++ nl ++ lit "subagent: @"
                    ++ i_subagent_type task ++ nl ++ nl ++ lit "prompt:" ++ nl
                    ++ slice0 400 (i_prompt task);
                  o_result := runningResult |})
            index tasks)
    = map p_taskId (planFrom toolCallId index tasks).
Proof.
  induction tasks as [|task tasks IH]; intros index; [reflexivity|].
  cbn [mapi planFrom map o_taskId p_taskId]. now rewrite IH.
Qed.

Lemma mapi_Forall {A B} (P : B -> Prop) (f : A -> nat -> B) (l : list A) :
  (forall x i, P (f x i)) -> forall index, Forall P (mapi f index l).
Proof.
  intros H. induction l as [|x l IH]; intros index; constructor; auto.
Qed.

End Dashboard.

(** X17: while no id of the active order reads as a member inherited
    from [Object.prototype], the dashboard has one row for every listed id
    under which the state holds an observation, in that order and no other
    row, so never more rows than ids listed; the rows carry the ids listed
    when every observation is filed under its own task id.  An id that
    does read as an inherited member makes the call throw a [TypeError].
    A live observation is preferred to the finalized one of the same
    task; and where the live object lacks an inherited name, the
    finalized object's own entry under it is not even looked at. *)
Theorem taskDashboardFromState_rows
    (prototypeResult : option jstr) (state : DashboardState) :
  let found := observationOf prototypeResult state in
  let order := dashboardOrder state in
  (forallb (fun taskId => negb (isInherited (found taskId))) order = true ->
     exists rows,
       taskDashboardFromState prototypeResult state = Ok rows
       /\ rows = flat_map (fun taskId => match found taskId with
                                         | Own observation =>
                                             [dashboardItem observation]
                                         | _ => []
                                         end) order
       /\ List.length rows <= List.length order
       /\ ((forall taskId observation,
              found taskId = Own observation ->
              o_taskId observation = taskId) ->
           map item_taskId rows = shownTasks prototypeResult state))
  /\ (existsb (fun taskId => isInherited (found taskId)) order = true ->
      taskDashboardFromState prototypeResult state
      = Throw (cannotRead "toLowerCase"))
  /\ (forall taskId live,
        JsMap.get taskId (d_liveTaskObservations state) = Some live ->
        found taskId = Own live)
  /\ (forall taskId,
        JsMap.get taskId (d_liveTaskObservations state) = None ->
        In taskId objectPrototypeMembers ->
        found taskId = Inherited taskId).
Proof.
  intros found order. split; [|split; [|split]].
  - intros Hplain. unfold taskDashboardFromState, shownTasks.
    fold order. fold found.
    induction order as [|taskId order IH].
    + exists []. repeat split. cbn. lia.
    + cbn [forallb] in Hplain. apply andb_prop in Hplain as [Hhead Htail].
      destruct (IH Htail) as (rows & Hrows & Hflat & Hlen & Hids).
      cbn [dashboardRows flat_map filter]. fold found. rewrite Hrows.
      destruct (found taskId) as [observation|member|text|] eqn:E;
        try discriminate Hhead.
      * exists (dashboardItem observation :: rows).
        split; [reflexivity|]. split; [cbn [app]; now rewrite Hflat|].
        split; [cbn [List.length]; lia|].
        intros Hfiled. cbn [map dashboardItem item_taskId].
        rewrite (Hids Hfiled). f_equal. now apply Hfiled.
      * exists rows. split; [reflexivity|]. split; [exact Hflat|].
        split; [cbn [List.length]; lia | exact Hids].
  - intros Hsome. unfold taskDashboardFromState. fold order. fold found.
    induction order as [|taskId order IH]; [discriminate|].
    cbn [existsb] in Hsome. cbn [dashboardRows]. fold found.
    destruct (found taskId) as [observation|member|text|] eqn:E;
      try reflexivity; cbn [isInherited orb] in Hsome;
      rewrite (IH Hsome); reflexivity.
  - intros taskId live H. unfold found, observationOf, readProperty.
    now rewrite H.
  - intros taskId Hlive Hmember. unfold found, observationOf, readProperty.
    rewrite Hlive.
    assert (mem taskId objectPrototypeMembers = true) as ->; [|reflexivity].
    unfold mem. apply existsb_exists. exists taskId.
    split; [exact Hmember | apply eqb_refl].
Qed.

Lemma taskDashboardFromState_rows_witness :
  option_map (map item_taskId)
    (match taskDashboardFromState None demoDashboard with
     | Ok rows => Some rows
     | Throw _ => None
     end)
  = Some [lit "task_1"].
Proof.
  destruct (@taskDashboardFromState_rows None demoDashboard) as [Hrows _].
  destruct (Hrows eq_refl) as (rows & -> & _ & _ & Hids).
  cbn [option_map]. f_equal. apply Hids.
  intros taskId observation. unfold observationOf, readProperty, demoDashboard.
  cbn [d_liveTaskObservations d_taskObservations JsMap.get].
  destruct (mem taskId objectPrototypeMembers); [discriminate|].
  destruct (Js.eqb (lit "task_1") taskId) eqn:E;
    [|destruct (Js.eqb taskId (lit "result")); discriminate].
  apply eqb_eq in E. intros H.
  destruct (Js.eqb taskId (lit "result")); injection H as <-; exact E.
Defined.

(** X18: the provisional observations the UI shows while a task call
    runs carry the task ids the tool itself plans for that call, in the
    same order, unless [parallel_tasks] is the empty list: then the UI
    shows no task while the tool runs the single invocation.  None of them
    is ever shown as completed. *)
Theorem provisional_observations_match_plan
    (toolCallId : jstr) (args : TaskArguments) :
  let provisional :=
    provisionalTaskObservationsFromRequest (taskRequest toolCallId args) in
  (parallel_tasks args <> Some [] ->
     map o_taskId provisional = map p_taskId (planned toolCallId args))
  /\ (parallel_tasks args = Some [] ->
        provisional = []
        /\ map p_invocation (planned toolCallId args)
           = [singleInvocationOf args])
  /\ Forall (fun observation => getTaskStatus observation <> Completed)
            provisional.
Proof.
  intros provisional. subst provisional.
  unfold provisionalTaskObservationsFromRequest, taskRequest.
  cbn [req_name req_arguments req_toolCallId].
  rewrite eqb_refl. cbn [negb].
  split; [|split].
  - intros Hne. unfold planned, invocationInputsOf.
    destruct (parallel_tasks args) as [[|t ts]|]; [congruence| |];
      apply provisional_ids.
  - intros Hempty. rewrite Hempty. split; [reflexivity|].
    unfold planned, invocationInputsOf. now rewrite Hempty.
  - apply mapi_Forall. intros task index.
    apply (@getTaskStatus_running _
             (nl ++ lit "subagent: @" ++ i_subagent_type task ++ nl ++ nl
              ++ lit "prompt:" ++ nl ++ slice0 400 (i_prompt task))).
    reflexivity.
Qed.

Lemma provisional_observations_match_plan_witness :
  map o_taskId
    (provisionalTaskObservationsFromRequest
       (taskRequest (lit "call1") demoParallelArgs))
  = [lit "a"; lit "task_call1_1"].
Proof.
  destruct (@provisional_observations_match_plan (lit "call1") demoParallelArgs)
    as [Hids _].
  rewrite Hids; [reflexivity | discriminate].
Defined.

(** ** Agents: tool filters, merging, the active agent *)

(** X19: [filterToolsForAgent] keeps exactly the tools the agent is
    allowed, in their order, and nothing changes when it is applied again;
    an agent without a tools map keeps every tool; an entry of the map for
    the tool itself decides before the wildcard entry does. *)
Theorem filterToolsForAgent_keeps_allowed_tools
    (T : Type) (agent : Agents.Agent) (toolDefs : JsMap.t T) :
  JsMap.keys (Agents.filterToolsForAgent agent toolDefs)
  = filter (Agents.isToolAllowed agent) (JsMap.keys toolDefs)
  /\ (forall toolName,
        JsMap.get toolName (Agents.filterToolsForAgent agent toolDefs)
        = if Agents.isToolAllowed agent toolName
          then JsMap.get toolName toolDefs else None)
  /\ Agents.filterToolsForAgent agent (Agents.filterToolsForAgent agent toolDefs)
     = Agents.filterToolsForAgent agent toolDefs
  /\ (Agents.tools agent = None ->
        Agents.filterToolsForAgent agent toolDefs = toolDefs)
  /\ (forall allowed toolName flag,
        Agents.tools agent = Some allowed ->
        JsMap.get toolName allowed = Some (Agents.BoolValue flag) ->
        Agents.isToolAllowed agent toolName = flag).
Proof.
  unfold Agents.filterToolsForAgent. split; [|split; [|split; [|split]]].
  - unfold JsMap.keys. induction toolDefs as [|[k v] toolDefs IH];
      [reflexivity|].
    cbn [filter map fst]. destruct (Agents.isToolAllowed agent k);
      cbn [map fst]; now rewrite IH.
  - intros toolName. induction toolDefs as [|[k v] toolDefs IH].
    + now destruct (Agents.isToolAllowed agent toolName).
    + cbn [filter fst JsMap.get].
      destruct (Js.eqb k toolName) eqn:E.
      * apply eqb_eq in E. subst k.
        destruct (Agents.isToolAllowed agent toolName) eqn:Ha.
        -- cbn [JsMap.get]. now rewrite eqb_refl.
        -- rewrite IH. reflexivity.
      * destruct (Agents.isToolAllowed agent k); [|exact IH].
        cbn [JsMap.get]. now rewrite E.
  - induction toolDefs as [|[k v] toolDefs IH]; [reflexivity|].
    cbn [filter fst]. destruct (Agents.isToolAllowed agent k) eqn:Ha;
      [|exact IH].
    cbn [filter fst]. rewrite Ha. now f_equal.
  - intros Hnone. induction toolDefs as [|[k v] toolDefs IH]; [reflexivity|].
    cbn [filter fst]. unfold Agents.isToolAllowed at 1. rewrite Hnone.
    now f_equal.
  - intros allowed toolName flag Htools Hflag.
    unfold Agents.isToolAllowed. now rewrite Htools, Hflag.
Qed.

Section Merging.

Variable builtinPrompt : jstr -> jstr.

Implicit Types (m : JsMap.t Agents.Agent) (agents : list Agents.Agent).

Lemma mergeInto_snoc m agents agent :
  Agents.mergeInto m (agents ++ [agent])
  = JsMap.set (Agents.name agent) agent (Agents.mergeInto m agents).
Proof. unfold Agents.mergeInto. now rewrite fold_left_app. Qed.

Lemma lastNamed_snoc n agents agent :
  lastNamed n (agents ++ [agent])
  = if Js.eqb (Agents.name agent) n then Some agent else lastNamed n agents.
Proof. unfold lastNamed. rewrite rev_app_distr. reflexivity. Qed.

Lemma mergeInto_get n agents :
  forall m,
    JsMap.get n (Agents.mergeInto m agents)
    = match lastNamed n agents with
      | Some agent => Some agent
      | None => JsMap.get n m
      end.
Proof.
  induction agents as [|agent agents IH] using rev_ind; intros m;
    [reflexivity|].
  rewrite mergeInto_snoc, lastNamed_snoc.
  destruct (Js.eqb (Agents.name agent) n) eqn:E.
  - apply eqb_eq in E. subst n. apply get_set_same.
  - apply eqb_neq in E. rewrite get_set_other by congruence. apply IH.
Qed.

Lemma keys_set_cases (k : jstr) (v : Agents.Agent) m :
  JsMap.keys (JsMap.set k v m)
  = if JsMap.has k m then JsMap.keys m else JsMap.keys m ++ [k].
Proof.
  unfold JsMap.keys, JsMap.has.
  induction m as [|[k0 v0] m IH]; [reflexivity|].
  cbn [JsMap.set existsb fst]. destruct (Js.eqb k0 k) eqn:E; [reflexivity|].
  cbn [map fst orb]. rewrite IH. now destruct (existsb _ m).
Qed.

(** Entries filed under their agent's name, no name twice. *)
Lemma mergeInto_wellFormed agents :
  forall m,
    NoDup (JsMap.keys m) ->
    (forall k agent, In (k, agent) m -> Agents.name agent = k) ->
    NoDup (JsMap.keys (Agents.mergeInto m agents))
    /\ (forall k agent, In (k, agent) (Agents.mergeInto m agents) ->
          Agents.name agent = k)
    /\ exists extra,
         JsMap.keys (Agents.mergeInto m agents) = JsMap.keys m ++ extra.
Proof.
  induction agents as [|agent agents IH] using rev_ind; intros m Hnd Hnamed.
  - split; [exact Hnd|]. split; [exact Hnamed|]. exists []. now rewrite app_nil_r.
  - rewrite mergeInto_snoc.
    destruct (IH m Hnd Hnamed) as (Hnd' & Hnamed' & extra & Hkeys).
    set (merged := Agents.mergeInto m agents) in *.
    split; [|split].
    + rewrite keys_set_cases. destruct (JsMap.has _ merged) eqn:E; [exact Hnd'|].
      apply NoDup_snoc; [exact Hnd'|]. intros Hin.
      apply JsMapFacts.has_In in Hin. congruence.
    + intros k a Hin.
      assert (forall m', (forall k agent, In (k, agent) m' -> Agents.name agent = k) ->
                In (k, a) (JsMap.set (Agents.name agent) agent m') ->
                Agents.name a = k) as Hset.
      { clear. induction m' as [|[k0 v0] m' IH]; intros Hm' Hin.
        - destruct Hin as [Hin|[]]. now injection Hin as <- <-.
        - cbn [JsMap.set] in Hin.
          destruct (Js.eqb k0 (Agents.name agent)) eqn:E.
          + apply eqb_eq in E. destruct Hin as [Hin|Hin].
            * injection Hin as <- <-. now symmetry.
            * apply Hm'. now right.
          + destruct Hin as [Hin|Hin].
            * apply Hm'. left. exact Hin.
            * apply IH; [|exact Hin]. intros k' a' H'. apply Hm'. now right. }
      exact (Hset merged Hnamed' Hin).
    + rewrite keys_set_cases. destruct (JsMap.has _ merged).
      * now exists extra.
      * exists (extra ++ [Agents.name agent]). now rewrite Hkeys, app_assoc.
Qed.

Lemma find_values m n :
  NoDup (JsMap.keys m) ->
  (forall k agent, In (k, agent) m -> Agents.name agent = k) ->
  find (fun agent => Js.eqb (Agents.name agent) n) (map snd m) = JsMap.get n m.
Proof.
  intros _ Hnamed. induction m as [|[k v] m IH]; [reflexivity|].
  cbn [map snd find JsMap.get].
  rewrite (Hnamed k v (or_introl eq_refl)).
  destruct (Js.eqb k n); [reflexivity|].
  apply IH. intros k' a' H'. apply Hnamed. now right.
Qed.

Lemma names_values m :
  (forall k agent, In (k, agent) m -> Agents.name agent = k) ->
  map Agents.name (map snd m) = JsMap.keys m.
Proof.
  intros Hnamed. unfold JsMap.keys. induction m as [|[k v] m IH]; [reflexivity|].
  cbn [map snd fst]. rewrite (Hnamed k v (or_introl eq_refl)). f_equal.
  apply IH. intros k' a' H'. apply Hnamed. now right.
Qed.

Lemma builtin_wellFormed :
  NoDup (JsMap.keys (Agents.mergeInto [] (Agents.builtinAgents builtinPrompt)))
  /\ (forall k agent,
        In (k, agent) (Agents.mergeInto [] (Agents.builtinAgents builtinPrompt)) ->
        Agents.name agent = k)
  /\ JsMap.keys (Agents.mergeInto [] (Agents.builtinAgents builtinPrompt))
     = map Agents.name (Agents.builtinAgents builtinPrompt).
Proof.
  destruct (@mergeInto_wellFormed (Agents.builtinAgents builtinPrompt) [])
    as (Hnd & Hnamed & _); [constructor | intros k a []|].
  split; [exact Hnd|]. split; [exact Hnamed|]. reflexivity.
Qed.

End Merging.

(** X20: the merged agent list never holds a name twice; looking an
    agent up by name gives the last custom agent of that name, and the
    built-in one when no custom agent has it; and the list always begins
    with the eight built-in names in their order, a custom agent of such a
    name taking the built-in's place. *)
Theorem mergeAgents_last_custom_wins
    (builtinPrompt : jstr -> jstr) (custom : list Agents.Agent) :
  let merged := Agents.mergeAgents builtinPrompt custom in
  NoDup (map Agents.name merged)
  /\ (forall n,
        find (fun agent => Js.eqb (Agents.name agent) n) merged
        = match lastNamed n custom with
          | Some agent => Some agent
          | None =>
              find (fun agent => Js.eqb (Agents.name agent) n)
                   (Agents.builtinAgents builtinPrompt)
          end)
  /\ firstn 8 (map Agents.name merged)
     = map lit ["octo"; "plan"; "general"; "explore"; "researcher";
                "reviewer"; "tester"; "janitor"]%string.
Proof.
  intros merged. subst merged. unfold Agents.mergeAgents.
  destruct (builtin_wellFormed builtinPrompt) as (Hnd0 & Hnamed0 & Hkeys0).
  destruct (@mergeInto_wellFormed custom
              (Agents.mergeInto [] (Agents.builtinAgents builtinPrompt))
              Hnd0 Hnamed0) as (Hnd & Hnamed & extra & Hkeys).
  split; [|split].
  - now rewrite names_values.
  - intros n. rewrite find_values by assumption.
    rewrite mergeInto_get.
    destruct (lastNamed n custom); [reflexivity|].
    rewrite <- (@find_values _ n Hnd0 Hnamed0).
    reflexivity.
  - rewrite names_values by assumption. rewrite Hkeys, Hkeys0. reflexivity.
Qed.

Section ActiveAgent.

Variable builtinPrompt : jstr -> jstr.

Implicit Types (agents : list Agents.Agent).

Lemma fallbackAgent_octo : Agents.fallbackAgent builtinPrompt = Agents.octo.
Proof. reflexivity. Qed.

Lemma find_named agents agent :
  NoDup (map Agents.name agents) -> In agent agents ->
  find (fun a => Js.eqb (Agents.name a) (Agents.name agent)) agents = Some agent.
Proof.
  induction agents as [|x agents IH]; intros Hnd Hin; [contradiction|].
  cbn [map] in Hnd. inversion Hnd as [|? ? Hx Hnd']; subst.
  cbn [find]. destruct Hin as [->|Hin]; [now rewrite eqb_refl|].
  destruct (Js.eqb (Agents.name x) (Agents.name agent)) eqn:E.
  - apply eqb_eq in E. exfalso. apply Hx. rewrite E. now apply in_map.
  - now apply IH.
Qed.

Lemma findIndexFrom_named agents :
  forall i k agent,
    NoDup (map Agents.name agents) -> nth_error agents k = Some agent ->
    findIndexFrom i (fun a => Js.eqb (Agents.name a) (Agents.name agent)) agents
    = (i + Z.of_nat k)%Z.
Proof.
  induction agents as [|x agents IH]; intros i k agent Hnd Hk.
  - now destruct k.
  - cbn [map] in Hnd. inversion Hnd as [|? ? Hx Hnd']; subst.
    destruct k as [|k]; cbn [nth_error findIndexFrom] in *.
    + injection Hk as ->. rewrite eqb_refl. lia.
    + destruct (Js.eqb (Agents.name x) (Agents.name agent)) eqn:E.
      * apply eqb_eq in E. exfalso. apply Hx. rewrite E.
        apply in_map. now apply nth_error_In in Hk.
      * rewrite (IH (i + 1)%Z k agent Hnd' Hk). lia.
Qed.

Lemma resolveActiveAgent_cases agents activeAgentName first rest :
  Agents.primaryAgents agents = first :: rest ->
  Agents.resolveActiveAgent builtinPrompt agents activeAgentName
  = match activeAgentName with
    | Some (c :: n) =>
        match find (fun agent => Js.eqb (Agents.name agent) (c :: n))
                   (first :: rest) with
        | Some matched => matched
        | None => first
        end
    | _ => first
    end.
Proof.
  intros E. unfold Agents.resolveActiveAgent. rewrite E.
  now destruct activeAgentName as [[|c n]|].
Qed.

(** Resolving the name of an available primary agent gives that agent. *)
Lemma resolveActiveAgent_named agents agent :
  NoDup (map Agents.name (Agents.primaryAgents agents)) ->
  In agent (Agents.primaryAgents agents) ->
  Agents.name agent <> [] ->
  Agents.resolveActiveAgent builtinPrompt agents (Some (Agents.name agent))
  = agent.
Proof.
  intros Hnd Hin Hname.
  destruct (Agents.primaryAgents agents) as [|first rest] eqn:E;
    [contradiction|].
  rewrite (@resolveActiveAgent_cases agents _ first rest E).
  pose proof (@find_named (first :: rest) agent Hnd Hin) as Hfind.
  destruct (Agents.name agent) as [|c n]; [congruence|].
  now rewrite Hfind.
Qed.

End ActiveAgent.

Lemma resolveActiveAgent_is_available_aux
    (builtinPrompt : jstr -> jstr) (agents : list Agents.Agent)
    (activeAgentName : option jstr) :
  Agents.primaryAgents agents <> [] ->
  In (Agents.resolveActiveAgent builtinPrompt agents activeAgentName)
     (Agents.primaryAgents agents).
Proof.
  intros Hne.
  destruct (Agents.primaryAgents agents) as [|first rest] eqn:Eprimary;
    [congruence|].
  rewrite (@resolveActiveAgent_cases builtinPrompt agents _ first rest Eprimary).
  destruct activeAgentName as [[|c n]|]; try (now left).
  destruct (find _ (first :: rest)) as [matched|] eqn:E; [|now left].
  now apply find_some in E as [Hin _].
Qed.

(** X21: [resolveActiveAgent] always yields an agent: one of the visible
    primary agents of the list when there is any, the built-in [octo]
    otherwise; the visible primary agent that has the wanted name when
    there is one; and resolving the name of the agent it yielded yields
    that agent again. *)
Theorem resolveActiveAgent_is_available
    (builtinPrompt : jstr -> jstr) (agents : list Agents.Agent)
    (activeAgentName : option jstr) :
  let active :=
    Agents.resolveActiveAgent builtinPrompt agents activeAgentName in
  (Agents.primaryAgents agents = [] -> active = Agents.octo)
  /\ (Agents.primaryAgents agents <> [] ->
        In active (Agents.primaryAgents agents))
  /\ (forall wanted agent,
        activeAgentName = Some wanted -> wanted <> [] ->
        In agent (Agents.primaryAgents agents) ->
        Agents.name agent = wanted ->
        Agents.name active = wanted)
  /\ Agents.resolveActiveAgent builtinPrompt agents (Some (Agents.name active))
     = active.
Proof.
  intros active. subst active.
  destruct (Agents.primaryAgents agents) as [|first rest] eqn:Eprimary.
  { unfold Agents.resolveActiveAgent. rewrite Eprimary.
    split; [reflexivity|]. split; [congruence|]. split; [|reflexivity].
    intros wanted agent _ _ []. }
  rewrite !(@resolveActiveAgent_cases builtinPrompt agents _ first rest Eprimary).
  split; [discriminate|]. split; [|split].
  - intros _. destruct activeAgentName as [[|c n]|]; try (now left).
    destruct (find _ (first :: rest)) as [matched|] eqn:E; [|now left].
    now apply find_some in E as [Hin _].
  - intros wanted agent -> Hwanted Hin Hname.
    destruct wanted as [|c n]; [congruence|].
    destruct (find _ (first :: rest)) as [matched|] eqn:E.
    + apply find_some in E as [_ Hn]. now apply eqb_eq in Hn.
    + pose proof (find_none _ _ E agent Hin) as Hnone. cbn beta in Hnone.
      rewrite Hname, eqb_refl in Hnone. discriminate Hnone.
  - assert (forall agent,
              match Agents.name agent with
              | [] => first
              | c :: n =>
                  match find (fun a => Js.eqb (Agents.name a) (c :: n))
                             (first :: rest) with
                  | Some matched => matched
                  | None => first
                  end
              end
              = match find (fun a => Js.eqb (Agents.name a) (Agents.name agent))
                           (first :: rest) with
                | Some matched =>
                    match Agents.name agent with [] => first | _ => matched end
                | None => first
                end) as Hshape.
    { intros agent. destruct (Agents.name agent); [|reflexivity].
      now destruct (find _ (first :: rest)). }
    destruct activeAgentName as [[|c n]|].
    + rewrite Hshape. cbn [find]. rewrite eqb_refl. now destruct (Agents.name first).
    + destruct (find (fun agent => Js.eqb (Agents.name agent) (c :: n))
                     (first :: rest)) as [matched|] eqn:E.
      * pose proof E as E'. apply find_some in E' as [_ Hn]. apply eqb_eq in Hn.
        rewrite Hn, E. reflexivity.
      * rewrite Hshape. cbn [find]. rewrite eqb_refl.
        now destruct (Agents.name first).
    + rewrite Hshape. cbn [find]. rewrite eqb_refl. now destruct (Agents.name first).
Qed.

Section Cycling.

Variable builtinPrompt : jstr -> jstr.

Let resolved (st : AgentState) : Agents.Agent :=
  Agents.resolveActiveAgent builtinPrompt (as_agents st) (as_activeAgentName st).

(** One step from the [i]-th primary agent. *)
Lemma cycleAgent_step (st : AgentState) (i : Z) (current : Agents.Agent)
    (primary : list Agents.Agent) :
  Agents.primaryAgents (as_agents st) = primary ->
  NoDup (map Agents.name primary) ->
  Forall (fun agent => Agents.name agent <> []) primary ->
  1 < List.length primary ->
  (0 <= i < len' primary)%Z ->
  nth_error primary (Z.to_nat i) = Some current ->
  resolved st = current ->
  exists next,
    nth_error primary (Z.to_nat ((i + 1) mod len' primary)) = Some next
    /\ cycleAgent builtinPrompt st
       = {| as_agents := as_agents st;
            as_activeAgentName := Some (Agents.name next);
            as_history :=
              as_history st
              ++ [HNotification (as_nextId st) (lit "Agent: " ++ Agents.name next)];
            as_nextId := (as_nextId st + 1)%Z |}
    /\ resolved (cycleAgent builtinPrompt st) = next.
Proof.
  intros Hprimary Hnd Hnames Hmany Hi Hcurrent Hresolved.
  assert (0 < len' primary)%Z as Hlen by (unfold len'; lia).
  pose proof (Z.mod_pos_bound (i + 1) (len' primary) Hlen) as Hj.
  destruct (nth_error primary (Z.to_nat ((i + 1) mod len' primary)))
    as [next|] eqn:Enext.
  2:{ apply nth_error_None in Enext. unfold len' in *. lia. }
  exists next. split; [reflexivity|].
  assert (cycleAgent builtinPrompt st
          = {| as_agents := as_agents st;
               as_activeAgentName := Some (Agents.name next);
               as_history :=
                 as_history st
                 ++ [HNotification (as_nextId st)
                       (lit "Agent: " ++ Agents.name next)];
               as_nextId := (as_nextId st + 1)%Z |}) as Hstep.
  { unfold cycleAgent. rewrite Hprimary.
    destruct (Z.leb_spec (len' primary) 1); [unfold len' in *; lia|].
    unfold resolved in Hresolved. rewrite Hresolved.
    unfold findIndex.
    rewrite (@findIndexFrom_named primary 0 (Z.to_nat i) current Hnd Hcurrent).
    replace (0 + Z.of_nat (Z.to_nat i) + 1)%Z with (i + 1)%Z by lia.
    now rewrite Enext. }
  split; [exact Hstep|].
  rewrite Hstep. unfold resolved. cbn [as_agents as_activeAgentName].
  apply resolveActiveAgent_named; rewrite ?Hprimary.
  - exact Hnd.
  - now apply nth_error_In in Enext.
  - rewrite Forall_forall in Hnames. apply Hnames.
    now apply nth_error_In in Enext.
Qed.

Lemma cycleAgent_steps (st : AgentState) (i : Z) (current : Agents.Agent)
    (primary : list Agents.Agent) :
  Agents.primaryAgents (as_agents st) = primary ->
  NoDup (map Agents.name primary) ->
  Forall (fun agent => Agents.name agent <> []) primary ->
  1 < List.length primary ->
  (0 <= i < len' primary)%Z ->
  nth_error primary (Z.to_nat i) = Some current ->
  resolved st = current ->
  forall k, 0 < k ->
    exists reached,
      nth_error primary (Z.to_nat ((i + Z.of_nat k) mod len' primary))
      = Some reached
      /\ as_agents (Nat.iter k (cycleAgent builtinPrompt) st) = as_agents st
      /\ as_activeAgentName (Nat.iter k (cycleAgent builtinPrompt) st)
         = Some (Agents.name reached)
      /\ resolved (Nat.iter k (cycleAgent builtinPrompt) st) = reached
      /\ List.length (as_history (Nat.iter k (cycleAgent builtinPrompt) st))
         = List.length (as_history st) + k
      /\ as_nextId (Nat.iter k (cycleAgent builtinPrompt) st)
         = (as_nextId st + Z.of_nat k)%Z
      /\ as_history (Nat.iter k (cycleAgent builtinPrompt) st)
         = as_history st
           ++ map (fun j =>
                     HNotification (as_nextId st + Z.of_nat j)
                       (lit "Agent: "
                        ++ nth (Z.to_nat ((i + Z.of_nat (S j)) mod len' primary))
                             (map Agents.name primary) []))
                  (seq 0 k).
Proof.
  intros Hprimary Hnd Hnames Hmany Hi Hcurrent Hresolved.
  assert (0 < len' primary)%Z as Hlen by (unfold len'; lia).
  assert (forall index (agent : Agents.Agent),
             nth_error primary index = Some agent ->
             nth index (map Agents.name primary) [] = Agents.name agent)
    as Hnamed.
  { intros index agent H. apply nth_error_nth.
    now apply map_nth_error. }
  induction k as [|k IH]; intros Hk; [lia|].
  destruct k as [|k].
  - change (Nat.iter 1 (cycleAgent builtinPrompt) st)
      with (cycleAgent builtinPrompt st).
    destruct (@cycleAgent_step st i current primary Hprimary Hnd Hnames Hmany
                Hi Hcurrent Hresolved) as (next & Hnext & Hstep & Hres).
    exists next. split; [exact Hnext|]. rewrite Hres, Hstep.
    cbn [as_agents as_activeAgentName as_history as_nextId].
    repeat split.
    + rewrite length_app. reflexivity.
    + cbn [seq map]. rewrite Z.add_0_r.
      change (Z.of_nat 1) with 1%Z.
      now rewrite (Hnamed _ _ Hnext).
  - destruct (IH ltac:(lia))
      as (reached & Hreached & Hagents & Hname & Hres & Hhist & Hid & Htrail).
    set (mid := Nat.iter (S k) (cycleAgent builtinPrompt) st) in *.
    change (Nat.iter (S (S k)) (cycleAgent builtinPrompt) st)
      with (cycleAgent builtinPrompt mid).
    pose proof (Z.mod_pos_bound (i + Z.of_nat (S k)) (len' primary) Hlen) as Hpos.
    destruct (@cycleAgent_step mid ((i + Z.of_nat (S k)) mod len' primary)
                reached primary) as (next & Hnext & Hstep & Hres');
      rewrite ?Hagents; try assumption.
    exists next. split.
    { rewrite Z.add_mod_idemp_l in Hnext by lia.
      replace (i + Z.of_nat (S (S k)))%Z with (i + Z.of_nat (S k) + 1)%Z by lia.
      exact Hnext. }
    rewrite Hres', Hstep.
    cbn [as_agents as_activeAgentName as_history as_nextId].
    split; [exact Hagents|]. split; [reflexivity|]. split; [reflexivity|].
    split; [rewrite length_app, Hhist; cbn [List.length]; lia|].
    split; [rewrite Hid; lia|].
    rewrite Htrail, Hid, (seq_S (S k) 0), map_app, <- app_assoc.
    cbn [map Nat.add]. do 4 f_equal.
    rewrite Z.add_mod_idemp_l in Hnext by lia.
    replace (i + Z.of_nat (S (S k)))%Z with (i + Z.of_nat (S k) + 1)%Z by lia.
    now rewrite (Hnamed _ _ Hnext).
Qed.

End Cycling.

(** X22: with at least two visible primary agents, all with different,
    non-empty names, [cycleAgent] steps through them in list order: where
    the active agent is the [i]-th of them, after [k] steps it is the one
    at index [(i + k) mod n] of the [n]; so after [n] steps the active
    agent is the one it was, and not before.  Every step leaves the agent
    list alone and appends one notification to the history, which names
    the agent stepped to, under the next sequence id. *)
Theorem cycleAgent_returns_after_full_round
    (builtinPrompt : jstr -> jstr) (st : AgentState) :
  let primary := Agents.primaryAgents (as_agents st) in
  let current :=
    Agents.resolveActiveAgent builtinPrompt (as_agents st)
      (as_activeAgentName st) in
  NoDup (map Agents.name primary) ->
  Forall (fun agent => Agents.name agent <> []) primary ->
  1 < List.length primary ->
  (let st' := Nat.iter (List.length primary) (cycleAgent builtinPrompt) st in
   as_activeAgentName st' = Some (Agents.name current)
   /\ Agents.resolveActiveAgent builtinPrompt (as_agents st')
        (as_activeAgentName st') = current
   /\ as_agents st' = as_agents st
   /\ List.length (as_history st')
      = List.length (as_history st) + List.length primary)
  /\ (forall k, 0 < k < List.length primary ->
        let st' := Nat.iter k (cycleAgent builtinPrompt) st in
        Agents.resolveActiveAgent builtinPrompt (as_agents st')
          (as_activeAgentName st') <> current)
  /\ (exists i,
        nth_error primary i = Some current
        /\ forall k,
             let st' := Nat.iter k (cycleAgent builtinPrompt) st in
             let reached :=
               Agents.resolveActiveAgent builtinPrompt (as_agents st')
                 (as_activeAgentName st') in
             nth_error primary ((i + k) mod List.length primary)
             = Some reached
             /\ (0 < k -> as_activeAgentName st' = Some (Agents.name reached))
             /\ as_agents st' = as_agents st
             /\ as_history st'
                = as_history st
                  ++ map (fun j =>
                            HNotification (as_nextId st + Z.of_nat j)
                              (lit "Agent: "
                               ++ nth ((i + S j) mod List.length primary)
                                    (map Agents.name primary) []))
                         (seq 0 k)).
Proof.
  intros primary current. subst primary current.
  remember (Agents.primaryAgents (as_agents st)) as primary eqn:Hprimary.
  remember (Agents.resolveActiveAgent builtinPrompt (as_agents st)
              (as_activeAgentName st)) as current eqn:Hcurrent.
  symmetry in Hprimary, Hcurrent.
  intros Hnd Hnames Hmany.
  assert (In current primary) as Hin.
  { rewrite <- Hprimary, <- Hcurrent.
    apply resolveActiveAgent_is_available_aux. rewrite Hprimary.
    destruct primary; simpl in *; [lia|congruence]. }
  apply In_nth_error in Hin as [i Hi].
  assert (i < List.length primary) as Hlt
    by (apply nth_error_Some; congruence).
  assert (0 <= Z.of_nat i < len' primary)%Z as Hrange by (unfold len'; lia).
  assert (nth_error primary (Z.to_nat (Z.of_nat i)) = Some current) as Hi'
    by (now rewrite Nat2Z.id).
  assert (forall j, Z.to_nat ((Z.of_nat i + Z.of_nat j) mod len' primary)
                    = (i + j) mod List.length primary) as Hindex.
  { intros j. unfold len'.
    now rewrite <- Nat2Z.inj_add, <- Nat2Z.inj_mod, Nat2Z.id. }
  split; [|split].
  - destruct (@cycleAgent_steps builtinPrompt st (Z.of_nat i) current primary
                Hprimary Hnd Hnames Hmany Hrange Hi' Hcurrent
                (List.length primary) ltac:(lia))
      as (reached & Hreached & Hagents & Hname & Hres & Hhist & _).
    replace ((Z.of_nat i + Z.of_nat (List.length primary)) mod len' primary)%Z
      with (Z.of_nat i) in Hreached.
    2:{ unfold len'. rewrite <- (Z.mul_1_l (Z.of_nat (List.length primary))) at 1.
        rewrite Z.mod_add by lia. now rewrite Z.mod_small by lia. }
    rewrite Hi' in Hreached. injection Hreached as <-.
    cbv zeta. unfold len' in *. now rewrite Hname, Hagents, Hhist, <- Hagents, <- Hname.
  - intros k Hk. cbv zeta.
    destruct (@cycleAgent_steps builtinPrompt st (Z.of_nat i) current primary
                Hprimary Hnd Hnames Hmany Hrange Hi' Hcurrent k ltac:(lia))
      as (reached & Hreached & Hagents & Hname & Hres & Hhist & _).
    intros Hback.
    assert (reached = current) as -> by (now rewrite <- Hres).
    assert (NoDup primary) as Hnd' by (eapply NoDup_map_inv; exact Hnd).
    pose proof (Z.mod_pos_bound (Z.of_nat i + Z.of_nat k) (len' primary)
                  ltac:(unfold len'; lia)) as Hpos.
    assert (Z.to_nat ((Z.of_nat i + Z.of_nat k) mod len' primary) = i) as Hsame.
    { apply (proj1 (NoDup_nth_error primary) Hnd');
        [unfold len' in *; lia|].
      now rewrite Hreached, Hi. }
    assert (((Z.of_nat i + Z.of_nat k) mod len' primary = Z.of_nat i)%Z) as Hmod
      by lia.
    unfold len' in *.
    destruct (Z_lt_ge_dec (Z.of_nat i + Z.of_nat k)
                (Z.of_nat (List.length primary))) as [Hsmall|Hbig].
    + rewrite Z.mod_small in Hmod by lia. lia.
    + replace (Z.of_nat i + Z.of_nat k)%Z
        with (Z.of_nat i + Z.of_nat k - Z.of_nat (List.length primary)
              + 1 * Z.of_nat (List.length primary))%Z in Hmod by lia.
      rewrite Z.mod_add in Hmod by lia.
      rewrite Z.mod_small in Hmod by lia. lia.
  - exists i. split; [exact Hi|]. intros [|k]; cbv zeta.
    + change (Nat.iter 0 (cycleAgent builtinPrompt) st) with st.
      cbn [seq map]. rewrite Nat.add_0_r, Nat.mod_small by lia.
      rewrite Hcurrent, app_nil_r. repeat split; [exact Hi | lia].
    + destruct (@cycleAgent_steps builtinPrompt st (Z.of_nat i) current primary
                  Hprimary Hnd Hnames Hmany Hrange Hi' Hcurrent (S k)
                  ltac:(lia))
        as (reached & Hreached & Hagents & Hname & Hres & _ & _ & Htrail).
      rewrite Hindex in Hreached. rewrite Hres.
      split; [exact Hreached|]. split; [intros _; exact Hname|].
      split; [exact Hagents|]. rewrite Htrail. f_equal.
      apply map_ext. intros j. now rewrite Hindex.
Qed.

Lemma cycleAgent_returns_after_full_round_witness :
  List.length (Agents.primaryAgents (as_agents demoAgentState)) = 3
  /\ as_activeAgentName (Nat.iter 3 (cycleAgent noPrompts) demoAgentState)
     = Some (lit "plan")
  /\ as_history (Nat.iter 2 (cycleAgent noPrompts) demoAgentState)
     = as_history demoAgentState
       ++ [HNotification (as_nextId demoAgentState) (lit "Agent: docs");
           HNotification (as_nextId demoAgentState + 1) (lit "Agent: octo")].
Proof.
  split; [reflexivity|].
  destruct (@cycleAgent_returns_after_full_round noPrompts demoAgentState)
    as [(Hround & _) _].
  - vm_compute.
    repeat (constructor; [simpl; intuition discriminate|]). constructor.
  - vm_compute. repeat (constructor; [discriminate|]). constructor.
  - vm_compute. lia.
  - split; [exact Hround|reflexivity].
Defined.

(** ** Delegation targets *)

Section DelegationTargets.

Lemma findAgent_delegable (allAgents : list Agents.Agent) (n : jstr) :
  findAgent (delegationCandidates allAgents) n <> None <-> delegable allAgents n.
Proof.
  unfold findAgent, delegationCandidates, delegable. split.
  - destruct (find _ _) as [agent|] eqn:E; [intros _|congruence].
    apply find_some in E as [Hin Hname].
    apply in_map_iff in Hin as (a & <- & Ha). cbn [agent_name] in Hname.
    apply eqb_eq in Hname.
    unfold Agents.subagentChoices in Ha. apply filter_In in Ha as [Hin Hok].
    apply andb_prop in Hok as [Hmode Hvis].
    exists a. split; [exact Hin|]. split; [exact Hname|]. split.
    + unfold Agents.visible in Hvis.
      destruct (Agents.hidden a) as [[]|]; congruence.
    + apply orb_prop in Hmode as [H|H]; apply eqb_eq in H; auto.
  - intros (a & Hin & Hname & Hvis & Hmode) Hnone.
    eapply find_none in Hnone.
    2:{ apply in_map. unfold Agents.subagentChoices. apply filter_In.
        split; [exact Hin|]. apply andb_true_intro. split.
        - destruct Hmode as [-> | ->]; [reflexivity|].
          apply orb_true_r.
        - unfold Agents.visible.
          destruct (Agents.hidden a) as [[]|]; congruence. }
    cbn [agent_name] in Hnone. rewrite Hname, eqb_refl in Hnone.
    discriminate.
Qed.

End DelegationTargets.

(** X23: with the candidates the tool is built from, [validate] accepts a
    call only when the top-level subagent and the subagent of every
    parallel task are agents of the list that are not hidden and have mode
    [subagent] or [all]; a hidden or primary-only name at the top level is
    rejected as an unknown subagent. *)
Theorem validate_accepts_only_delegable
    (allAgents : list Agents.Agent) (args : TaskArguments) :
  (validate (delegationCandidates allAgents) args = Ok tt ->
     Forall (fun t => delegable allAgents (i_subagent_type t))
            (singleInvocationOf args :: parallelTasksOf args))
  /\ (~ delegable allAgents (subagent_type args) ->
        validate (delegationCandidates allAgents) args
        = Throw (unknownSubagent (subagent_type args))).
Proof.
  unfold validate. split.
  - destruct (findAgent (delegationCandidates allAgents) (subagent_type args))
      eqn:Htop; [|discriminate].
    destruct (validateTaskIdUniqueness (invocationInputsOf args));
      [|discriminate].
    intros Hall. apply checkSubagents_ok in Hall.
    constructor.
    + apply findAgent_delegable. cbn [singleInvocationOf i_subagent_type].
      congruence.
    + unfold parallelTasksOf. eapply Forall_impl; [|exact Hall].
      intros t Ht. now apply findAgent_delegable.
  - intros Hno.
    destruct (findAgent (delegationCandidates allAgents) (subagent_type args))
      eqn:Htop; [|reflexivity].
    exfalso. apply Hno. apply findAgent_delegable. congruence.
Qed.

(** ** Raw key sequences *)

Section RawSequences.

Lemma endsWith_app (suffix before : jstr) :
  endsWith suffix (before ++ suffix) = true.
Proof.
  unfold endsWith. rewrite rev_app_distr. apply startsWith_app.
Qed.

(** Whether a sequence ends with [;2D] is decided by what follows a
    Shift+Right encoding in it. *)
Lemma endsWith_after_right (before tail after : jstr) :
  tail = lit "[1;2C" \/ tail = lit "[2C" ->
  endsWith (lit ";2D") (before ++ ESC :: tail ++ after)
  = endsWith (lit ";2D") after.
Proof.
  intros Htail. unfold endsWith.
  replace (before ++ ESC :: tail ++ after)
    with ((before ++ ESC :: tail) ++ after)
    by (rewrite <- app_assoc; reflexivity).
  rewrite rev_app_distr.
  replace (rev (before ++ ESC :: tail))
    with (rev tail ++ ESC :: rev before)
    by (rewrite rev_app_distr; cbn [rev]; rewrite <- app_assoc; reflexivity).
  destruct (rev after) as [|a [|b [|c r]]];
    destruct Htail as [-> | ->]; cbn;
    rewrite ?andb_false_r; reflexivity.
Qed.

Lemma endsWith_exclusive (s : jstr) :
  endsWith (lit ";2C") s = true -> endsWith (lit ";2D") s = false.
Proof.
  unfold endsWith. destruct (rev s) as [|a r]; [discriminate|].
  cbn -[Ascii.eqb]. intros H. apply andb_prop in H as [H _].
  apply Ascii.eqb_eq in H. now subst a.
Qed.

End RawSequences.

(** X24: a sequence that ends with the long form of Shift+Right or of
    Shift+Left resolves to that key, whatever came before it.  A sequence
    that holds a Shift+Right form anywhere resolves to [next] unless what
    follows that form ends with [;2D]: a Shift+Left in the short form or
    in the [u] form that comes after it does not change the answer. *)
Theorem resolveRawSubagentNavSequence_forms (before after tail : jstr) :
  resolveRawSubagentNavSequence (before ++ ESC :: lit "[1;2C") = Some Next
  /\ resolveRawSubagentNavSequence (before ++ ESC :: lit "[1;2D") = Some Prev
  /\ (tail = lit "[1;2C" \/ tail = lit "[2C" ->
      resolveRawSubagentNavSequence (before ++ ESC :: tail ++ after)
      = if endsWith (lit ";2D") after then Some Prev else Some Next).
Proof.
  split; [|split].
  - unfold resolveRawSubagentNavSequence.
    replace (before ++ ESC :: lit "[1;2C")
      with ((before ++ ESC :: lit "[1") ++ lit ";2C")
      by (rewrite <- app_assoc; reflexivity).
    now rewrite endsWith_app.
  - unfold resolveRawSubagentNavSequence.
    replace (before ++ ESC :: lit "[1;2D")
      with ((before ++ ESC :: lit "[1") ++ lit ";2D")
      by (rewrite <- app_assoc; reflexivity).
    rewrite endsWith_app.
    destruct (endsWith (lit ";2C") _) eqn:E; [|reflexivity].
    exfalso. unfold endsWith in E. rewrite rev_app_distr in E.
    cbn in E. discriminate E.
  - intros Htail. unfold resolveRawSubagentNavSequence.
    pose proof (@endsWith_exclusive (before ++ ESC :: tail ++ after)) as Hex.
    rewrite (@endsWith_after_right before tail after Htail) in *.
    destruct (endsWith (lit ";2C") _);
      [now rewrite Hex|destruct (endsWith (lit ";2D") after)];
      [reflexivity|].
    assert (includes (ESC :: lit "[1;2C") (before ++ ESC :: tail ++ after)
            || includes (ESC :: lit "[2C") (before ++ ESC :: tail ++ after)
            = true) as ->; [|reflexivity].
    destruct Htail as [-> | ->].
    + change (before ++ ESC :: lit "[1;2C" ++ after)
        with (before ++ (ESC :: lit "[1;2C") ++ after).
      now rewrite includes_middle.
    + change (before ++ ESC :: lit "[2C" ++ after)
        with (before ++ (ESC :: lit "[2C") ++ after).
      rewrite includes_middle. apply orb_true_r.
Qed.

Lemma resolveRawSubagentNavSequence_forms_witness :
  resolveRawSubagentNavSequence
    (ESC :: lit "[1;2C" ++ ESC :: lit "[2D")
  = Some Next.
Proof.
  destruct (@resolveRawSubagentNavSequence_forms [] (ESC :: lit "[2D")
              (lit "[1;2C")) as (_ & _ & H).
  exact (H (or_introl eq_refl)).
Defined.

(** ** The latest assistant text and the trace summary *)

Section Summaries.

Lemma latestAssistantFrom_blank (newestFirst : list HistoryItem) :
  latestAssistantFrom newestFirst = [] <-> Forall noAssistantText newestFirst.
Proof.
  induction newestFirst as [|item older IH]; [now split|].
  destruct item; cbn [latestAssistantFrom];
    try (rewrite IH; split;
         [intros H; constructor; [exact I|exact H]
         |intros H; now inversion H]).
  destruct (Z.ltb_spec 0 (len (trim (a_content a)))) as [Hlong|Hshort].
  - split.
    + intros H. rewrite H in Hlong. cbn in Hlong. lia.
    + intros H. inversion H as [|? ? Hblank _]; subst.
      cbn [noAssistantText] in Hblank. rewrite Hblank in Hlong.
      cbn in Hlong. lia.
  - rewrite IH. split.
    + intros H. constructor; [|exact H]. cbn [noAssistantText].
      destruct (trim (a_content a)); [reflexivity|].
      unfold len in Hshort. cbn [List.length] in Hshort. lia.
    + intros H. now inversion H.
Qed.

Lemma latestAssistantFrom_trimmed (newestFirst : list HistoryItem) :
  trim (latestAssistantFrom newestFirst) = latestAssistantFrom newestFirst.
Proof.
  induction newestFirst as [|item older IH]; [reflexivity|].
  destruct item; cbn [latestAssistantFrom]; try exact IH.
  destruct (0 <? len (trim (a_content a)))%Z; [apply trim_idem|exact IH].
Qed.

Lemma trimBlock_bound (input : jstr) (maxChars : Z) :
  (0 <= maxChars -> len (trimBlock input maxChars) <= maxChars + 16)%Z.
Proof. exact (@sanitizeLiveText_bound input maxChars). Qed.

End Summaries.

(** X25: [latestAssistantText] is empty exactly when no assistant entry of
    the history has content that is not blank; otherwise it is the
    trimmed content of the newest such entry: an entry appended after it
    changes the text only when it is an assistant's with content that is
    not blank.  The text never starts or ends with white space. *)
Theorem latestAssistantText_newest_nonblank
    (history : list HistoryItem) (item : HistoryItem) :
  (latestAssistantText history = [] <-> Forall noAssistantText history)
  /\ latestAssistantText (history ++ [item])
     = match item with
       | HAssistant a =>
           if (0 <? len (trim (a_content a)))%Z then trim (a_content a)
           else latestAssistantText history
       | _ => latestAssistantText history
       end
  /\ trim (latestAssistantText history) = latestAssistantText history.
Proof.
  unfold latestAssistantText. split; [|split].
  - rewrite latestAssistantFrom_blank. split; intros H.
    + rewrite <- (rev_involutive history). now apply Forall_rev.
    + now apply Forall_rev.
  - rewrite rev_app_distr. cbn [rev app]. now destruct item.
  - apply latestAssistantFrom_trimmed.
Qed.

(** X26: the trace summary of a history never has more than 12,016
    characters, whatever the history holds, and notifications add nothing
    to it: the summary of a history is that of the history without its
    notifications, so a history of notifications only has the empty
    summary. *)
Theorem summarizeTaskTrace_bounded
    (stringField : jstr -> jstr -> option jstr) (cwd : jstr)
    (history : list HistoryItem) :
  (len (summarizeTaskTrace stringField cwd history) <= 12016)%Z
  /\ summarizeTaskTrace stringField cwd
       (filter (fun item => negb (isNotification item)) history)
     = summarizeTaskTrace stringField cwd history
  /\ (forallb isNotification history = true ->
        summarizeTaskTrace stringField cwd history = []).
Proof.
  assert (forall l,
            flat_map (summaryLines stringField cwd)
              (filter (fun item => negb (isNotification item)) l)
            = flat_map (summaryLines stringField cwd) l) as Hfilter.
  { induction l as [|item l IH]; [reflexivity|].
    destruct item; cbn [filter isNotification negb flat_map];
      rewrite IH; reflexivity. }
  split; [|split].
  - unfold summarizeTaskTrace.
    pose proof (@trimBlock_bound
                  (join (nl ++ nl)
                     (flat_map (summaryLines stringField cwd) history))
                  12000 ltac:(lia)).
    lia.
  - unfold summarizeTaskTrace. now rewrite Hfilter.
  - intros Hall. unfold summarizeTaskTrace.
    rewrite <- Hfilter.
    assert (filter (fun item => negb (isNotification item)) history = [])
      as ->; [|reflexivity].
    induction history as [|item l IH]; [reflexivity|].
    cbn [forallb] in Hall. apply andb_prop in Hall as [Hitem Hrest].
    cbn [filter]. rewrite Hitem. cbn [negb]. now apply IH.
Qed.

(** ** Front matter *)

Section FrontMatter.

Lemma replaceCRLF_plain (s : jstr) :
  Forall (fun c => c <> CR) s -> replaceCRLF s = s.
Proof.
  induction s as [|c tail IH]; [reflexivity|].
  intros H. inversion H as [|? ? Hc Htail]; subst.
  cbn [replaceCRLF]. destruct tail as [|d rest]; [reflexivity|].
  destruct (Ascii.eqb_spec c CR) as [->|_]; [congruence|].
  cbn [andb]. f_equal. now apply IH.
Qed.

Lemma replaceCRLF_line (x y : jstr) :
  Forall (fun c => c <> CR) x ->
  replaceCRLF (x ++ CR :: LF :: y) = x ++ LF :: replaceCRLF y.
Proof.
  induction x as [|c tail IH]; intros H.
  - cbn [app replaceCRLF]. now rewrite !Ascii.eqb_refl.
  - inversion H as [|? ? Hc Htail]; subst.
    cbn [app replaceCRLF].
    destruct (tail ++ CR :: LF :: y) as [|d rest] eqn:E;
      [now destruct tail|].
    destruct (Ascii.eqb_spec c CR) as [->|_]; [congruence|].
    cbn [andb]. f_equal. now apply IH.
Qed.

Lemma indexOfStr_None (needle hay : jstr) :
  includes needle hay = false -> indexOfStr needle hay = None.
Proof.
  induction hay as [|c hay IH]; cbn [includes indexOfStr]; intros H;
    apply orb_false_elim in H as [-> H]; [reflexivity|].
  now rewrite IH.
Qed.

(** An occurrence of the fence that starts in [x] lies within [x]: what
    follows [x] starts with a line break. *)
Lemma startsWith_fence (x rest : jstr) :
  x <> [] -> startsWith fence (x ++ LF :: rest) = startsWith fence x.
Proof.
  intros Hx. destruct x as [|a [|b [|c [|d r]]]]; [congruence|..];
    cbn -[Ascii.eqb];
    change (Ascii.eqb "-"%char LF) with false;
    rewrite ?andb_false_r; reflexivity.
Qed.

Lemma indexOfStr_fence (fm rest : jstr) :
  includes fence fm = false ->
  indexOfStr fence (fm ++ fence ++ rest) = Some (List.length fm).
Proof.
  induction fm as [|c fm IH]; intros H.
  - cbn [app List.length]. unfold indexOfStr.
    destruct (fence ++ rest) eqn:E; rewrite <- E;
      now rewrite startsWith_app.
  - cbn [includes] in H. apply orb_false_elim in H as [Hhead Htail].
    cbn [app indexOfStr List.length].
    change (c :: fm ++ fence ++ rest)
      with ((c :: fm) ++ LF :: (lit "---" ++ rest)).
    rewrite startsWith_fence by discriminate. rewrite Hhead.
    change (fm ++ LF :: lit "---" ++ rest) with (fm ++ fence ++ rest).
    now rewrite IH.
Qed.

Lemma splitFrontmatter_normalized (content fm body : jstr) :
  includes fence fm = false ->
  replaceCRLF content = lit "---" ++ nl ++ fm ++ fence ++ body ->
  splitFrontmatter content = Some (fm, trim body).
Proof.
  intros Hfm Hplain. unfold splitFrontmatter. rewrite Hplain.
  change (startsWith (lit "---" ++ nl) (lit "---" ++ nl ++ fm ++ fence ++ body))
    with true.
  cbn [negb].
  change (skipn 4 (lit "---" ++ nl ++ fm ++ fence ++ body))
    with (fm ++ fence ++ body).
  change (indexOfStr (nl ++ lit "---")) with (indexOfStr fence).
  rewrite (@indexOfStr_fence fm body Hfm).
  rewrite firstn_app, firstn_all, Nat.sub_diag. cbn [firstn].
  rewrite app_nil_r, skipn_app.
  rewrite skipn_all2 by lia.
  replace (List.length fm + 4 - List.length fm) with 4 by lia.
  reflexivity.
Qed.

Lemma splitFrontmatter_empty_block (content body : jstr) :
  includes fence body = false ->
  replaceCRLF content = lit "---" ++ fence ++ body ->
  splitFrontmatter content = None.
Proof.
  intros Hbody Hplain. unfold splitFrontmatter. rewrite Hplain.
  change (startsWith (lit "---" ++ nl) (lit "---" ++ fence ++ body))
    with true.
  cbn [negb].
  change (skipn 4 (lit "---" ++ fence ++ body)) with (lit "---" ++ body).
  change (indexOfStr (nl ++ lit "---")) with (indexOfStr fence).
  rewrite indexOfStr_None; [reflexivity|].
  change (lit "---" ++ body)
    with ("-"%char :: "-"%char :: "-"%char :: body).
  cbn [includes]. rewrite Hbody.
  destruct body as [|a [|b [|c r]]]; reflexivity.
Qed.

Lemma plain_dashes (s : jstr) :
  Forall (fun c => c <> CR) s -> Forall (fun c => c <> CR) (lit "---" ++ s).
Proof.
  intros H. repeat (constructor; [discriminate|]). exact H.
Qed.

End FrontMatter.

(** X27: a file that opens with a fence line, then holds front matter
    in which no line break is followed by three dashes, then a closing
    fence and a body, splits into exactly that front matter and the
    trimmed body; the line breaks after the opening fence and before the
    closing one may be LF or CRLF.  A block with nothing between the two
    fence lines is not recognised when no line break of the body is
    followed by three dashes. *)
Theorem splitFrontmatter_round_trip (fm body eol : jstr) :
  Forall (fun c => c <> CR) (fm ++ body) ->
  includes fence fm = false ->
  eol = nl \/ eol = CR :: nl ->
  splitFrontmatter (lit "---" ++ eol ++ fm ++ eol ++ lit "---" ++ body)
  = Some (fm, trim body)
  /\ (includes fence body = false ->
      splitFrontmatter (lit "---" ++ eol ++ lit "---" ++ body) = None).
Proof.
  intros Hplain Hfm Heol.
  apply Forall_app in Hplain as [Hplainfm Hplainbody].
  assert (Forall (fun c => c <> CR) (lit "---")) as Hdashes
    by (repeat (constructor; [discriminate|]); constructor).
  split.
  - apply splitFrontmatter_normalized; [exact Hfm|].
    destruct Heol as [-> | ->].
    + apply replaceCRLF_plain.
      apply plain_dashes. constructor; [discriminate|].
      apply Forall_app. split; [exact Hplainfm|].
      constructor; [discriminate|]. now apply plain_dashes.
    + change (lit "---" ++ (CR :: nl) ++ fm ++ (CR :: nl) ++ lit "---" ++ body)
        with (lit "---" ++ CR :: LF :: fm ++ CR :: LF :: lit "---" ++ body).
      rewrite (@replaceCRLF_line (lit "---") _ Hdashes).
      rewrite (@replaceCRLF_line fm _ Hplainfm).
      rewrite replaceCRLF_plain by now apply plain_dashes.
      reflexivity.
  - intros Hbody. apply (@splitFrontmatter_empty_block _ body Hbody).
    destruct Heol as [-> | ->].
    + apply replaceCRLF_plain.
      apply plain_dashes. constructor; [discriminate|].
      now apply plain_dashes.
    + change (lit "---" ++ (CR :: nl) ++ lit "---" ++ body)
        with (lit "---" ++ CR :: LF :: lit "---" ++ body).
      rewrite (@replaceCRLF_line (lit "---") _ Hdashes).
      rewrite replaceCRLF_plain by now apply plain_dashes.
      reflexivity.
Qed.

Lemma splitFrontmatter_round_trip_witness :
  splitFrontmatter demoAgentFile
  = Some (lit "name: docs", lit "Write docs.").
Proof.
  destruct (@splitFrontmatter_round_trip (lit "name: docs")
              (nl ++ lit "Write docs.") nl) as [H _].
  - vm_compute. repeat (constructor; [discriminate|]). constructor.
  - reflexivity.
  - now left.
  - exact H.
Defined.

(** ** The menu *)

(** X28: opening the menu from the input mode and closing it again, by
    [closeMenu] or by a second [toggleMenu], returns to the input mode
    with the vim mode it had, also when [setVimMode] is called while the
    menu is open.  From any other mode [toggleMenu] does nothing, while
    [openMenu] followed by [closeMenu] ends in the input mode with vim
    mode INSERT. *)
Theorem menu_round_trip
    (Payload : Type) (st : MenuState Payload) (requested : VimMode) :
  (forall vimMode, modeData st = ModeInput vimMode ->
     let back := {| modeData := ModeInput vimMode; preMenuVimMode := None |} in
     closeMenu (openMenu st) = back
     /\ toggleMenu (toggleMenu st) = back
     /\ closeMenu (setVimMode requested (openMenu st)) = back
     /\ toggleMenu (setVimMode requested (toggleMenu st)) = back)
  /\ (forall mode payload, modeData st = ModeOther mode payload ->
        toggleMenu st = st
        /\ closeMenu (openMenu st)
           = {| modeData := ModeInput INSERT; preMenuVimMode := None |}).
Proof.
  split.
  - intros vimMode Hmode back. subst back.
    unfold closeMenu, openMenu, toggleMenu, setVimMode.
    rewrite Hmode. cbn. repeat split.
  - intros mode payload Hmode.
    unfold closeMenu, openMenu, toggleMenu. rewrite Hmode. cbn.
    now split.
Qed.
